(* ===== verification/_CoqProject ===== *)
-Q . S2P
Prelude.v
Stability.v
Signals.v
Timers.v
Chaos.v
ChaosRun.v
Achievements.v
Leaderboard.v
Challenges.v
Saves.v
PowerUps.v
Snake.v
Memory.v
Repair.v
Cheat.v
Login.v
Dashboard.v
Scoreboard.v
Characters.v
Harvester.v
Breaker.v
Status.v
Layout.v
Puzzle.v
Monitor.v
Routes.v
Shell.v
ChaosPanel.v
Button.v
Effects.v
Sound.v
Gravity.v
Glitch.v
SaveMenu.v
Boot.v
