(* ===== verification/Prelude.v ===== *)
(** * A verification development of the Arcade Multiverse front-end

    The repository (src/src/app) is a React single-page application.  Its
    shared machinery is the chaos context of [components/ChaosContext.tsx]:
    a bounded "stability" value, boolean signals (chaos mode, power
    outage, tornado, zero gravity, continuous glitch, logging out), the
    trigger functions that change them, one-shot expiry timers, and a
    recurring randomised scheduler tick.  Visual components and games read
    the context and write to it through [repairStability] and
    [damageStability].  Around it sit independent providers kept in
    [localStorage]: achievements, daily challenges with a leaderboard,
    save slots and power-ups; and the mini-games and screens.

    ** Files, and what each models

    - [Prelude] (this file): the scope [chaos_scope] with a small state
      monad ([St], [x <- m ;; k], [st_mapM] for [xs.map(f)] with an
      effectful callback) in which handlers are written in the order the
      source runs them; boolean comparisons on [Q]; the tactics [qsolve]
      (case split on [Qmin]/[Qmax], then [lra]) and [qcase_lt]/[qcase_le];
      [Qnat] for counts as numbers; Hoare triples of the monad
      ([st_spec], with rules for bind and [st_mapM]); list lemmas on
      [removelast]; the closure [star] of a step relation with
      [star_invariant]; the hint databases [chaos] and [chaos_rw].
    - [Stability]: [repairStability], [damageStability] and the raw
      [setStability] of ChaosContext.tsx (lines 18, 34, 58-64) on the bare
      value: the clamp [0 <= s <= 100] for non-negative amounts
      ([apply_ops_in_bounds]), the half-unit grid ([apply_ops_grid]), and
      the type class [StabilityStore] with its laws, the interface through
      which the games use the store.
    - [Signals]: [glitchIntensity] (ChaosContext.tsx line 43) and the
      quantities the snake game, the memory game and the cursor derive.
    - [Timers]: the browser's [setTimeout] queue (spec-modelled: the
      platform is not in the repository): pending timers with due times and
      ids, fired earliest first, ties in creation order.
    - [Chaos]: the state record of [ChaosProvider], every function of the
      context value, the three timeout callbacks and the interval callback
      [chaosTick] (lines 95-127) in the state monad, [Math.random] read
      from an explicit stream.
    - [ChaosRun]: the page runtime of the provider: a task runs a handler
      to completion, then React re-renders and re-creates the interval when
      [stability] or [isChaosMode] changed (line 130); [step] relates worlds
      by user calls, timer firings, interval ticks and the passage of time;
      [run_until] executes it and is shown to be a run of [step]
      ([run_until_star]).  Invariants by rule induction ([step_wf]), the
      tick on each branch, the timed expiries ([outage_expires],
      [chaotic_logout_completes]) and the departures from the
      specification ([outage_retrigger_cut_short],
      [periodic_damage_starves_scheduler], [raw_setter_escapes_bounds]).
    - [Achievements]: [AchievementProvider] of AchievementSystem.tsx: the
      ten achievements, [unlockAchievement]/[updateProgress] as monadic maps
      whose callback shows a notification with a 4000 ms timer, the
      [localStorage] effects; invariant, reload round trip, one-way
      unlocks, and the notification cut short by an older timer.
    - [Leaderboard]: the entries of DailyChallenges.tsx, the random initial
      board, the stable sort by descending score (insertion, stable as
      [Array.prototype.sort] is), re-ranking and the top-50 cut.
    - [Challenges]: [DailyChallengesProvider]: the challenges of the day
      with their dates, both [localStorage] items, every handler, the TEST
      PROGRESS button of the display; invariant, round trip, regeneration
      on a new day, completion after [n] presses, and the findings on stale
      and regressing challenges.
    - [Saves]: [GameSaveProvider] of GameSaveSystem.tsx: the three slots,
      the current save, the [localStorage] items, every handler and the
      initialising effect, with dates valid or invalid and their JSON
      round trip; slot invariant, reload round trips (an invalid date
      comes back as the epoch), the stored copy reading back as the
      current save, export/import, the import into the current slot that
      is lost, and the undated import.
    - [PowerUps]: [PowerUpProvider] and [PowerUpShop] of PowerUpSystem.tsx:
      both list updaters, the timeout effect on [activePowerUps] with its
      cleanup (over the queue of [Timers]), [getRandomPowerUp] with its two
      draws, the shop's balance.  An abstract specification (a partial map
      from effect types, [Spec]) with the refinement theorem
      [powerups_refine_spec]; termination of the timer loop
      ([run_until_terminates], the measure being the number of active
      power-ups); expiry, and the timeouts re-armed by every change.
    - [Snake]: [SnakeGame] of games/SnakeGame.tsx, generic over any
      [StabilityStore] and instantiated with the chaos context's state:
      [moveSnake] with its updater, [generateFood]'s do-while loop under
      fuel, the keyboard handler, the glitch interval, reset and pause; the
      board invariant, the length bound, termination of the food loop when
      a cell is free and its divergence when none is, and two keys in one
      tick that reverse the snake into its neck.
    - [Memory]: [ChaosMemory] of games/ChaosMemory.tsx, generic over the
      store the same way: [initializeGame] (the shuffle as any
      permutation), [handleCardClick] with its 1000 ms [checkMatch]
      timeout on a snapshot, the chaos and auto-flip intervals as guarded
      events; the deck invariant of every run, the consistency of the
      counters in play without the chaos intervals, and two runs that break
      it: a check that outlives NEW GAME and a card matched with itself.
    - [Repair]: [RepairScreenContent] of screens/RepairScreen.tsx over the
      chaos context's state (the [chaos_store] instance of [Chaos]): the
      fragments, the eight drop zones, [handleDrop] with its stability
      bonus and 3000 ms navigation timeout, [handleReset], the mount effect
      and navigation.  A drop runs the [handleDrop] of the mount, because
      react-dnd memoises the drop zones' spec factories (the one
      assumption on a library): the puzzle can never be completed
      ([repair_never_completes]), a second drop undoes the first, and the
      handler run on the current state would have solved it.
    - [Cheat]: [CheatConsole] of components/CheatConsole.tsx: the input's
      normalisation (ASCII [toUpperCase] and [trim]) and the answers;
      padded, mixed-case codes are accepted, and the HELP list agrees with
      the matcher.
    - [Login]: [LoginScreen] of screens/LoginScreen.tsx with the console of
      [Cheat] and the auto-close effect of [GlitchPopup] as children.
      Renders are explicit: a handler says whether it set a new value, and
      [commit] then runs the child's effect and the screen's when its
      dependency changed.  An executable interpreter of events ([run]) is
      proved to produce runs of [step] ([run_star]); invariant, the unlock
      with any PIN, and the popup timers re-armed by renders and toggles.
    - [Dashboard]: [DashboardScreen] of screens/DashboardScreen.tsx over the
      provider world of [ChaosRun]: its context calls (CHAOS MODE, LOGOUT,
      the universe of a game card) are tasks of [ChaosRun.run_task], and
      every provider step is a page step.  The provider's invariant is
      preserved by the dashboard's handlers (a composition of the two
      runtimes), LOGOUT's effect on the context, and the three game cards
      that open nothing.
    - [Scoreboard]: [LeaderboardScreen] of screens/LeaderboardScreen.tsx:
      the ten count-up intervals as rounds of 33 ms (the [setInterval]
      timeout [2000 / 60] truncated to a [long]), each closure's [step] and
      [current] as IEEE doubles (Rocq's primitive floats), [{ ...prev,
      [id]: v }] on an association list; the count-up settles at the
      sixtieth round (1980 ms), the shown values of the ten players stay
      in [0, score] and grow (checked on the doubles by evaluation), and
      they drift from [Math.round(n * score / 60)]; the rows, podium and
      statistics.
    - [Characters]: [CharacterScreen]: the four characters, the PWR and DEF
      range sliders (values in [0, 100]), the selection modal; invariant and
      the slider's effect on exactly one card.
    - [Harvester]: [SnakeScreen] (the universe harvester) over the chaos
      state: [moveSnake] with wrap-around, collision, collection and
      [repairStability(2)], the key handler, restart; invariant (distinct
      cells of the 15 x 15 torus, one more than the score), two quick
      turns that reverse the snake, and the tail chase that ends the game.
    - [Breaker]: [GlitchBreaker] of games/GlitchBreaker.tsx in the state
      monad, proved with [st_spec]: the forty random blocks, the glitch
      interval, the game loop whose [setGameState] updater mutates block
      objects shared with the state (modelled as the decremented health in
      [prev]) and nests updates; what depends on React's replay of nested
      updaters is a schedule parameter [Sched], every theorem holding for
      all schedules.  Invariant, the destroyed block that does not deflect
      the ball, and the damaging hit.
    - [Routes]: the route table of routes.ts and the [navigate] calls of
      every screen as a graph; every target is a route, exactly eight
      routes are reachable from [/], and the [Characters], [Harvester] and
      [Repair] models only move along their edges.
    - [Status]: [StatusScreen]: the activity and uptime intervals of the
      effect keyed on [stability] (a change restarts both), the activity
      pool with the critical entries below 40, the uptime format, the
      gauges and portals; invariant of every run, and the uptime that
      never advances while the stability changes more often than every
      second.
    - [Layout]: [MainLayoutInner] of MainLayout.tsx: the universe-change
      effect with its 1200 ms warp timeout and the [prevUniverse] it
      commits, the mouse position, the frame's animation values; a change
      of universe warps, and a quick return strands the warp flag.
    - [Puzzle]: [RandomPuzzlePopup]: the self-re-arming trigger timeout,
      the puzzle drawn, the submit with its 500 ms error timeout and the
      [repairStability(15)] reward; invariant (one trigger pending) and the
      error message cut short by an older timeout.
    - [Monitor]: [SystemMonitor]: the 3000 ms interval keyed on
      [stability] with its draws, [Math.round], [toFixed(1)] and the five
      kept logs; the CPU and memory figures stay in [15, 75] and
      [1.2, 2.7] in every run.
    - [Shell]: the headers of the achievements and daily-challenges
      screens, the tab switch and the [TransitionScreen] timeout.  Which
      providers are mounted above the screens is not modelled: routes.ts
      renders an [AppWithProviders] that MainLayout.tsx does not export.
    - [ChaosPanel]: [ExtremeChaosPanel]: every button but EXTREME is a call
      of the chaos provider on its runtime; the meter and tiles.
    - [Button]: [ChaoticButtonEnhanced]: [handleMouseEnter] with its draws
      and reset timeouts, the click, the fragments' drag repair; a button
      broken outside chaos mode stays broken while the mode stays off.
    - [Effects]: [VisualEffectsProvider] of VisualEffects.tsx: the
      animation-frame loop, [createParticle] with its draws ([Math.cos],
      [Math.sin], [Math.PI] as section variables), the shake timeout, the
      presets; the lifetimes and opacities stay bounded in every run
      ([reachable_particles_bounded]), particles expire 1200 ms after a
      frame without new ones, and an older shake's timeout clears a newer
      shake.
    - [Sound]: [SoundProvider] of SoundSystem.tsx: [playTone] and every
      function of the context value, the notes scheduled with the [isMuted]
      their closure captured; muted with no unmuted note pending, it plays
      nothing, but muting after a melody has started does not silence it.
    - [Gravity]: [ZeroGravityButtons]: the spawning interval keyed on
      [stability] and [isChaosMode] with its age filter and draws, the
      moving interval with the wall bounce, the click; at most eight
      buttons in every run, and none once the page calms down.
    - [Glitch]: [ContinuousGlitch]: the interval with its closure, the
      [slice(-10)] append and the removal timeouts, the overlay's counts;
      at most eleven glitches in every run.
    - [SaveMenu]: [SaveLoadMenu] of GameSaveSystem.tsx over the provider
      of [Saves]: its state, the buttons each slot offers, every click and
      input handler as an event enabled only when its button is on the
      screen; the invariant that a modal covers a slot offering its button
      and the name field holds at most 20 characters, so a new game always
      names its save with 1 to 20 characters, and IMPORT only overwrites
      an existing save.
    - [Boot]: [BootScreen] with its [TerminalWindow] on the timer queue:
      the run is deterministic, so every reachable state is one of its 41
      states ([reachable_bounded]) and properties are checked on all of
      them by evaluation ([check_reachable]); the sequence ends at [/snake]
      at 4300 ms, with consistent progress, terminal and warning.

    ** Numbers, time, randomness, fuel

    JavaScript numbers are rationals [Q]; every amount the source passes
    to the stability store is an integer or 0.5, so from 85 the stability
    stays on the half-unit grid in [0, 100] and is an exact double: the
    rational model coincides with double arithmetic there.  Where sums of
    non-dyadic fractions are shown, as in the count-up of [Scoreboard],
    the numbers are Rocq's primitive IEEE doubles instead.  Counts and
    reward points are [nat].  Time is a rational number of milliseconds;
    calendar days are [dayOf] of local wall-clock time.  [Math.random()] is
    an explicit stream [nat -> Q] read in the order the source calls it;
    theorems quantify over every stream with draws in [0, 1).  The
    executable runners [run_until] take fuel: each unit fires one timer or
    tick, so fuel larger than the number of deadlines up to the target time
    suffices (the concrete runs use 5 to 20); out of fuel they return
    [None], and the theorems about them are stated on their [Some] result
    after showing it is reached.  The same holds of [PowerUps.run_until],
    whose fuel is bounded by the number of active power-ups, one firing
    removing one.  [Snake.generateFood] takes fuel for its do-while loop:
    [k + 1] units suffice when the [k]-th attempt draws a free cell, and no
    fuel suffices when the board is full.  [Boot.fire_n 40] reaches the end of
    the boot run (no timer is left after the 40th firing, checked by
    evaluation), so 40 firings cover every reachable state.

    ** Not modelled

    Rendering, CSS and the [motion] animations; React Router beyond its
    route table; the React scheduler beyond "a handler runs to completion,
    then the effects whose dependencies changed run in declaration order"
    (where an outcome depends on how React replays nested updaters, as in
    [Breaker], both outcomes are kept); JSON serialisation, taken as an
    exact round trip of the stored value (a [localStorage] item is absent,
    a saved value, or text [JSON.parse] rejects) except for the dates of
    [Saves], whose invalid value does not survive it; double rounding
    elsewhere (the model is rational; where it matters, as in [Boot], the
    header of the file says why the control flow agrees); the Web Audio graph (the log
    of tones started stands for it) and [Math.cos]/[Math.sin] (section
    variables of [Effects]).  Not modelled as components, because they
    hold presentation state only (positions, colours, animation phases)
    or only call the context's functions modelled in [Chaos]:
    [GlitchyGlowFont],
    [ChaoticButton], [GlitchText] and [GlitchTextEnhanced],
    [TorchOverlay] and [TorchOverlayEnhanced] (which imports a module
    that does not exist), [PortalBackground], [TornadoTransition],
    [ArcadeCursor] (beyond its glow in [Signals]), [AchievementToast],
    [ArcadeCard], [PixelBackground], [NeonButton], [GlitchOverlay],
    [PixelDust]; [main.tsx] and [components/index.ts] only mount and
    re-export. *)

From Stdlib Require Import QArith Qround Qminmax Lqa ZArith List Bool Lia.
From Stdlib Require Import Setoid Morphisms String DecimalString.
Import ListNotations.

Declare Scope chaos_scope.
Delimit Scope chaos_scope with chaos.

Create HintDb chaos.
Create Rewrite HintDb chaos_rw.

(** ** Boolean comparisons on rationals, as the source's [<], [>], [===] *)

Open Scope Q_scope.

Definition Qltb (x y : Q) : bool := negb (Qle_bool y x).
Definition Qleb (x y : Q) : bool := Qle_bool x y.
Definition Qeqb (x y : Q) : bool := Qeq_bool x y.

Infix "<?" := Qltb (at level 70) : chaos_scope.
Infix "<=?" := Qleb (at level 70) : chaos_scope.
Infix "==?" := Qeqb (at level 70) : chaos_scope.

Lemma Qltb_iff x y : Qltb x y = true <-> x < y.
Proof.
  unfold Qltb. rewrite negb_true_iff. split; intro H.
  - apply Qnot_le_lt. intro Hle. apply Qle_bool_iff in Hle. congruence.
  - destruct (Qle_bool y x) eqn:E; [|reflexivity].
    apply Qle_bool_iff in E. lra.
Qed.

Lemma Qltb_false x y : Qltb x y = false <-> y <= x.
Proof.
  unfold Qltb. rewrite negb_false_iff. apply Qle_bool_iff.
Qed.

Lemma Qleb_iff x y : Qleb x y = true <-> x <= y.
Proof. apply Qle_bool_iff. Qed.

Lemma Qleb_false x y : Qleb x y = false <-> y < x.
Proof.
  unfold Qleb. split; intro H.
  - apply Qnot_le_lt. intro Hle. apply Qle_bool_iff in Hle. congruence.
  - destruct (Qle_bool x y) eqn:E; [|reflexivity].
    apply Qle_bool_iff in E. lra.
Qed.

Lemma Qeqb_iff x y : Qeqb x y = true <-> x == y.
Proof. apply Qeq_bool_iff. Qed.

(** Case analysis on a comparison, with both outcomes as hypotheses. *)
Lemma Qleb_spec x y : BoolSpec (x <= y) (y < x) (Qleb x y).
Proof. destruct (Qleb x y) eqn:E; constructor; [apply Qleb_iff | apply Qleb_false]; exact E. Qed.

Lemma Qltb_spec x y : BoolSpec (x < y) (y <= x) (Qltb x y).
Proof. destruct (Qltb x y) eqn:E; constructor; [apply Qltb_iff | apply Qltb_false]; exact E. Qed.

#[export] Instance Qltb_proper : Proper (Qeq ==> Qeq ==> eq) Qltb.
Proof. intros a b Hab c d Hcd. unfold Qltb. now rewrite Hab, Hcd. Qed.

#[export] Instance Qleb_proper : Proper (Qeq ==> Qeq ==> eq) Qleb.
Proof. intros a b Hab c d Hcd. unfold Qleb. now rewrite Hab, Hcd. Qed.

(** Case analysis on a comparison of the code, leaving the Prop fact. *)
Ltac qcase_lt x y :=
  let H := fresh "Hq" in
  destruct (Qltb x y) eqn:H; [apply Qltb_iff in H | apply Qltb_false in H].

Ltac qcase_le x y :=
  let H := fresh "Hq" in
  destruct (Qleb x y) eqn:H; [apply Qleb_iff in H | apply Qleb_false in H].

(** ** [Math.min] and [Math.max] *)

(** [Qmin] and [Qmax] return one of their arguments, as [Math.min] and
    [Math.max] do: these are Leibniz, not only [==], facts. *)
Lemma Qmin_case x y : (x <= y /\ Qmin x y = x) \/ (y < x /\ Qmin x y = y).
Proof.
  unfold Qmin, GenericMinMax.gmin. destruct (x ?= y) eqn:E.
  - left. apply Qeq_alt in E. split; [lra|reflexivity].
  - left. apply Qlt_alt in E. split; [lra|reflexivity].
  - right. apply Qgt_alt in E. split; [lra|reflexivity].
Qed.

Lemma Qmax_case x y : (y <= x /\ Qmax x y = x) \/ (x < y /\ Qmax x y = y).
Proof.
  unfold Qmax, GenericMinMax.gmax. destruct (x ?= y) eqn:E.
  - left. apply Qeq_alt in E. split; [lra|reflexivity].
  - right. apply Qlt_alt in E. split; [lra|reflexivity].
  - left. apply Qgt_alt in E. split; [lra|reflexivity].
Qed.

(** Destruct every [Qmin]/[Qmax] of the goal and close it with [lra]. *)
Ltac qminmax :=
  repeat match goal with
    | |- context [Qmin ?a ?b] =>
        let H := fresh "Hm" in
        destruct (Qmin_case a b) as [[H ->]|[H ->]]
    | |- context [Qmax ?a ?b] =>
        let H := fresh "Hm" in
        destruct (Qmax_case a b) as [[H ->]|[H ->]]
    | _ : context [Qmin ?a ?b] |- _ =>
        let H := fresh "Hm" in let E := fresh "E" in
        destruct (Qmin_case a b) as [[H E]|[H E]]; rewrite E in *; clear E
    | _ : context [Qmax ?a ?b] |- _ =>
        let H := fresh "Hm" in let E := fresh "E" in
        destruct (Qmax_case a b) as [[H E]|[H E]]; rewrite E in *; clear E
    end.

Ltac qsolve := qminmax; lra.

(** A comparison of closed rationals, decided by evaluation. *)
Ltac qle_vm := vm_compute; intros; discriminate.

Lemma Qmin_le_r x y : Qmin x y <= y.
Proof. qsolve. Qed.

Lemma Qmax_ge_l x y : x <= Qmax x y.
Proof. qsolve. Qed.

#[export] Hint Resolve Qmin_le_r Qmax_ge_l : chaos.

(** A count as a JavaScript number. *)
Definition Qnat (k : nat) : Q := inject_Z (Z.of_nat k).

Lemma Qnat_0 : Qnat 0 == 0.
Proof. reflexivity. Qed.

Lemma Qnat_succ k : Qnat (S k) == Qnat k + 1.
Proof. unfold Qnat. rewrite Nat2Z.inj_succ. unfold Z.succ. now rewrite inject_Z_plus. Qed.

Lemma Qnat_le k n : (k <= n)%nat -> Qnat k <= Qnat n.
Proof. intro H. unfold Qnat. rewrite <- Zle_Qle. lia. Qed.

Lemma Qnat_lt k n : (k < n)%nat -> Qnat k < Qnat n.
Proof. intro H. unfold Qnat. rewrite <- Zlt_Qlt. lia. Qed.

Lemma Qnat_nonneg k : 0 <= Qnat k.
Proof. apply (Qnat_le 0). lia. Qed.

#[export] Hint Resolve Qnat_nonneg : chaos.

(** [Math.floor(Math.random() * n)] is an index below [n] when the draw
    lies in [[0, 1)]. *)
Lemma Qfloor_index (r : Q) (n : Z) :
  0 <= r < 1 -> (0 < n)%Z -> (0 <= Qfloor (r * inject_Z n) < n)%Z.
Proof.
  intros [H0 H1] Hn. assert (Hq : inject_Z 0 < inject_Z n) by (rewrite <- Zlt_Qlt; exact Hn).
  change (inject_Z 0) with 0 in Hq.
  split.
  - apply (Qfloor_resp_le 0). apply Qmult_le_0_compat; lra.
  - rewrite Zlt_Qlt. apply Qle_lt_trans with (r * inject_Z n); [apply Qfloor_le|].
    apply Qlt_le_trans with (1 * inject_Z n); [apply Qmult_lt_r; lra | lra].
Qed.

(** [Math.round] *)
Definition js_round (x : Q) : Z := Qfloor (x + (1 # 2)).

Lemma js_round_compat x y : x == y -> js_round x = js_round y.
Proof. intro H. unfold js_round. apply Qfloor_comp. now rewrite H. Qed.

Lemma js_round_Z z : js_round (inject_Z z) = z.
Proof.
  unfold js_round. apply Z.le_antisymm.
  - apply Zlt_succ_le. rewrite Zlt_Qlt. apply Qle_lt_trans with (inject_Z z + (1 # 2)); [apply Qfloor_le|].
    unfold Z.succ. rewrite inject_Z_plus. change (inject_Z 1) with 1. lra.
  - rewrite <- (Qfloor_Z z) at 1. apply Qfloor_resp_le. lra.
Qed.

Lemma js_round_mono x y : x <= y -> (js_round x <= js_round y)%Z.
Proof. intro H. unfold js_round. apply Qfloor_resp_le. lra. Qed.

(** [Math.round] of a value in [[lo, hi + 1/2)] lies in [[lo, hi]]. *)
Lemma js_round_range (lo hi : Z) x :
  inject_Z lo <= x -> x < inject_Z hi + (1 # 2) -> (lo <= js_round x <= hi)%Z.
Proof.
  intros Hlo Hhi. split.
  - rewrite <- (js_round_Z lo). now apply js_round_mono.
  - apply Zlt_succ_le. rewrite Zlt_Qlt. unfold js_round.
    apply Qle_lt_trans with (x + (1 # 2)); [apply Qfloor_le|].
    unfold Z.succ. rewrite inject_Z_plus. change (inject_Z 1) with 1. lra.
Qed.

(** A number interpolated into a template string. *)
Definition show_Z (z : Z) : string := NilZero.string_of_int (Z.to_int z).

(** The draws of a [Math.random()] stream lie in [[0, 1)]. *)
Definition draws_ok (r : nat -> Q) : Prop := forall n, 0 <= r n < 1.

(** ** [localStorage] items *)

(** An item of [localStorage] as the providers read it back: absent, the
    JSON of a value the provider wrote (JSON round trip taken as exact), or
    text that [JSON.parse] rejects. *)
Inductive Item (A : Type) := Missing | Saved (a : A) | Unparsable.
Arguments Missing {A}.
Arguments Saved {A} a.
Arguments Unparsable {A}.

(** [JSON.parse] of an item inside [try]: the value, or nothing. *)
Definition parsed {A} (i : Item A) : option A :=
  match i with Saved a => Some a | _ => None end.

(** ** A state monad for handlers that thread state *)

(** A handler of the source reads and writes the component's state in
    order; [St S A] runs it on an explicit state [S]. *)
Definition St (S A : Type) : Type := S -> A * S.

Definition st_ret {S A} (a : A) : St S A := fun s => (a, s).
Definition st_bind {S A B} (m : St S A) (k : A -> St S B) : St S B :=
  fun s => let (a, s') := m s in k a s'.
Definition st_get {S} : St S S := fun s => (s, s).
Definition st_put {S} (s : S) : St S unit := fun _ => (tt, s).
Definition st_modify {S} (f : S -> S) : St S unit := fun s => (tt, f s).
Definition st_exec {S A} (m : St S A) (s : S) : S := snd (m s).
Definition st_when {S} (b : bool) (m : St S unit) : St S unit :=
  if b then m else st_ret tt.

Notation "x <- m ;; k" := (st_bind m (fun x => k))
  (at level 61, m at next level, right associativity) : chaos_scope.
Notation "m ;; k" := (st_bind m (fun _ : unit => k))
  (at level 61, right associativity) : chaos_scope.

Open Scope chaos_scope.

Lemma st_bind_ret_l {S A B} (a : A) (k : A -> St S B) s :
  st_bind (st_ret a) k s = k a s.
Proof. reflexivity. Qed.

Lemma st_exec_bind {S A B} (m : St S A) (k : A -> St S B) s :
  st_exec (st_bind m k) s = st_exec (k (fst (m s))) (snd (m s)).
Proof. unfold st_exec, st_bind. now destruct (m s). Qed.

Lemma st_exec_modify {S} (f : S -> S) s : st_exec (st_modify f) s = f s.
Proof. reflexivity. Qed.

Lemma st_exec_when {S} b (m : St S unit) s :
  st_exec (st_when b m) s = if b then st_exec m s else s.
Proof. now destruct b. Qed.

#[export] Hint Rewrite @st_bind_ret_l @st_exec_bind @st_exec_modify
  @st_exec_when : chaos_rw.

(** A property [P] of the state is preserved by a handler. *)
Definition st_preserves {S A} (P : S -> Prop) (m : St S A) : Prop :=
  forall s, P s -> P (snd (m s)).

Lemma st_preserves_ret {S A} (P : S -> Prop) (a : A) :
  st_preserves P (st_ret a).
Proof. intros s H. exact H. Qed.

Lemma st_preserves_bind {S A B} (P : S -> Prop) (m : St S A) (k : A -> St S B) :
  st_preserves P m -> (forall a, st_preserves P (k a)) ->
  st_preserves P (st_bind m k).
Proof.
  intros Hm Hk s Hs. unfold st_bind. specialize (Hm s Hs).
  destruct (m s) as [a s']. now apply Hk.
Qed.

Lemma st_preserves_when {S} (P : S -> Prop) b (m : St S unit) :
  st_preserves P m -> st_preserves P (st_when b m).
Proof. intros Hm. destruct b; [exact Hm|apply st_preserves_ret]. Qed.

Lemma st_preserves_modify {S} (P : S -> Prop) (f : S -> S) :
  (forall s, P s -> P (f s)) -> st_preserves P (st_modify f).
Proof. intros Hf s Hs. now apply Hf. Qed.

Lemma st_preserves_get {S} (P : S -> Prop) : st_preserves P st_get.
Proof. intros s H. exact H. Qed.

#[export] Hint Resolve st_preserves_ret st_preserves_bind st_preserves_when
  st_preserves_modify st_preserves_get : chaos.

(** [xs.map(f)] with a callback [f] that has effects: the callback runs on
    the elements in order. *)
Fixpoint st_mapM {S A B} (f : A -> St S B) (l : list A) : St S (list B) :=
  match l with
  | [] => st_ret []
  | a :: r => b <- f a ;; r' <- st_mapM f r ;; st_ret (b :: r')
  end.

(** The list [st_mapM] returns is the pure [map] of the callback's values. *)
Lemma st_mapM_value {S A B} (f : A -> St S B) (g : A -> B) l s :
  (forall a s, fst (f a s) = g a) -> fst (st_mapM f l s) = map g l.
Proof.
  intro Hf. revert s. induction l as [|a r IH]; intro s; [reflexivity|].
  simpl. unfold st_bind. specialize (Hf a s). destruct (f a s) as [b s'].
  simpl in Hf. specialize (IH s'). destruct (st_mapM f r s') as [r' s''].
  simpl in *. now subst.
Qed.

Lemma st_preserves_mapM {S A B} (P : S -> Prop) (f : A -> St S B) l :
  (forall a, st_preserves P (f a)) -> st_preserves P (st_mapM f l).
Proof.
  intro Hf. induction l as [|a r IH]; simpl; eauto with chaos.
Qed.

#[export] Hint Resolve st_preserves_mapM : chaos.

(** A handler's value and final state satisfy [Q] from every state
    satisfying [P]: a Hoare triple of the state monad. *)
Definition st_spec {S A} (P : S -> Prop) (m : St S A) (Q : A -> S -> Prop) : Prop :=
  forall s, P s -> Q (fst (m s)) (snd (m s)).

Lemma st_spec_bind {S A B} (P : S -> Prop) (m : St S A) (Q : A -> S -> Prop)
    (k : A -> St S B) (R : B -> S -> Prop) :
  st_spec P m Q -> (forall a, st_spec (Q a) (k a) R) -> st_spec P (st_bind m k) R.
Proof. intros Hm Hk s Hs. unfold st_bind. specialize (Hm s Hs). destruct (m s) as [a s']. now apply Hk. Qed.

Lemma st_spec_ret {S A} (P : S -> Prop) (a : A) (Q : A -> S -> Prop) :
  (forall s, P s -> Q a s) -> st_spec P (st_ret a) Q.
Proof. intros H s Hs. now apply H. Qed.

Lemma st_spec_weaken {S A} (P P' : S -> Prop) (m : St S A) (Q Q' : A -> S -> Prop) :
  (forall s, P' s -> P s) -> (forall a s, Q a s -> Q' a s) -> st_spec P m Q -> st_spec P' m Q'.
Proof. intros HP HQ Hm s Hs. apply HQ, Hm, HP, Hs. Qed.

(** [xs.map(f)] relates each element to its image when each call does. *)
Lemma st_spec_mapM {S A B} (P : S -> Prop) (R : A -> B -> Prop) (f : A -> St S B) l :
  (forall a, st_spec P (f a) (fun b s => R a b /\ P s)) ->
  st_spec P (st_mapM f l) (fun bs s => Forall2 R l bs /\ P s).
Proof.
  intro Hf. induction l as [|a r IH]; intros s Hs; [split; [constructor | exact Hs]|].
  cbn [st_mapM]. unfold st_bind. destruct (Hf a s Hs) as [Ha Hs']. destruct (f a s) as [b s1]; cbn in *.
  destruct (IH s1 Hs') as [Hr Hs'']. destruct (st_mapM f r s1) as [bs s2]; cbn in *. split; [constructor|]; assumption.
Qed.

(** ** Lists *)

(** [.slice(0, n)] and [.slice(k)] keep a property of every element. *)
Lemma Forall_firstn {A} (P : A -> Prop) n l : Forall P l -> Forall P (firstn n l).
Proof. rewrite <- (firstn_skipn n l) at 1. intro H. now apply Forall_app in H as [H _]. Qed.

Lemma Forall_skipn {A} (P : A -> Prop) n l : Forall P l -> Forall P (skipn n l).
Proof. rewrite <- (firstn_skipn n l) at 1. intro H. now apply Forall_app in H as [_ H]. Qed.

Lemma NoDup_removelast {A} (l : list A) : NoDup l -> NoDup (removelast l).
Proof.
  destruct l as [|a r] using rev_ind; [auto|]. rewrite removelast_last.
  apply NoDup_app_remove_r.
Qed.

Lemma In_removelast {A} (a : A) l : In a (removelast l) -> In a l.
Proof.
  destruct l as [|b r] using rev_ind; [auto|]. rewrite removelast_last.
  intro H. apply in_or_app. now left.
Qed.

(** ** Runs of a step relation *)

Section Star.
Context {A : Type} (R : A -> A -> Prop).

(** Zero or more steps. *)
Inductive star : A -> A -> Prop :=
  | star_refl a : star a a
  | star_step a b c : R a b -> star b c -> star a c.

Lemma star_one a b : R a b -> star a b.
Proof. intro H. apply star_step with b; [exact H | apply star_refl]. Qed.

Lemma star_trans a b c : star a b -> star b c -> star a c.
Proof.
  induction 1 as [|a b b' Hab _ IH]; intro Hbc; [exact Hbc|].
  apply star_step with b; auto.
Qed.

(** A property preserved by every step holds along every run. *)
Lemma star_invariant (P : A -> Prop) :
  (forall a b, P a -> R a b -> P b) -> forall a b, star a b -> P a -> P b.
Proof. intros Hstep a b Hs. induction Hs; eauto. Qed.
End Star.

Arguments star_refl {A R} a.
#[export] Hint Resolve star_refl star_one : chaos.
