(* ===== verification/Stability.v ===== *)
(** * The stability store of [components/ChaosContext.tsx]

    [useState(85)] (line 34) with the two clamped updaters
    [repairStability] and [damageStability] (lines 58-64) and the raw
    React setter [setStability] that the context also exposes (line 144).
    The interface [StabilityStore] is what the games and screens rely on:
    they only ever call [repairStability]/[damageStability] on the shared
    context, and their theorems are stated against the class. *)

From S2P Require Import Prelude.
From Stdlib Require Import QArith Qminmax Lqa ZArith List Lia.
From Stdlib Require Import Setoid Morphisms.
Import ListNotations.

Open Scope Q_scope.

Module Stability.

(** [const [stability, setStability] = useState(85)] *)
Definition STABILITY_DEFAULT : Q := 85.

(** [setStability(prev => Math.min(100, prev + amount))] *)
Definition repairStability (amount prev : Q) : Q := Qmin 100 (prev + amount).

(** [setStability(prev => Math.max(0, prev - amount))] *)
Definition damageStability (amount prev : Q) : Q := Qmax 0 (prev - amount).

(** The argument of React's setter: a value or an updater of the previous
    value ([val: number | ((prev: number) => number)], line 18). *)
Inductive SetStateAction :=
  | SetValue (v : Q)
  | SetUpdater (f : Q -> Q).

Definition setStability (act : SetStateAction) (prev : Q) : Q :=
  match act with
  | SetValue v => v
  | SetUpdater f => f prev
  end.

(** The data-model invariant of spec section 3: [0 <= stability <= 100]. *)
Definition in_bounds (s : Q) : Prop := 0 <= s /\ s <= 100.

Definition in_bounds_b (s : Q) : bool := Qleb 0 s && Qleb s 100.

Lemma in_bounds_b_iff s : in_bounds_b s = true <-> in_bounds s.
Proof.
  unfold in_bounds_b, in_bounds. rewrite andb_true_iff, !Qleb_iff. tauto.
Qed.

(** Values on the half-unit grid [k / 2]: exactly representable doubles
    when [|k| <= 2^53]. *)
Definition on_grid (s : Q) : Prop := exists k : Z, s == k # 2.

(** A store operation as the callers issue it. *)
Inductive store_op :=
  | Repair (amount : Q)
  | Damage (amount : Q).

Definition op_amount (o : store_op) : Q :=
  match o with Repair a | Damage a => a end.

Definition apply_op (o : store_op) (s : Q) : Q :=
  match o with
  | Repair a => repairStability a s
  | Damage a => damageStability a s
  end.

Definition apply_ops (os : list store_op) (s : Q) : Q :=
  fold_left (fun acc o => apply_op o acc) os s.

(** ** Setoid compatibility: the updaters respect [==] *)

#[export] Instance repairStability_proper :
  Proper (Qeq ==> Qeq ==> Qeq) repairStability.
Proof.
  intros a a' Ha s s' Hs. unfold repairStability. rewrite Ha, Hs. reflexivity.
Qed.

#[export] Instance damageStability_proper :
  Proper (Qeq ==> Qeq ==> Qeq) damageStability.
Proof.
  intros a a' Ha s s' Hs. unfold damageStability. rewrite Ha, Hs. reflexivity.
Qed.

#[export] Instance apply_op_proper (o : store_op) :
  Proper (Qeq ==> Qeq) (apply_op o).
Proof. intros s s' Hs. destruct o; simpl; now rewrite Hs. Qed.

(** ** Unconditional clamps *)

Lemma repair_le_100 a s : repairStability a s <= 100.
Proof. unfold repairStability. qsolve. Qed.

Lemma damage_ge_0 a s : 0 <= damageStability a s.
Proof. unfold damageStability. qsolve. Qed.

#[export] Hint Resolve repair_le_100 damage_ge_0 : chaos.

(** ** Each branch of the updaters *)

Lemma repair_value a s :
  repairStability a s == (if Qltb 100 (s + a) then 100 else s + a).
Proof.
  unfold repairStability. qcase_lt 100 (s + a); qsolve.
Qed.

Lemma damage_value a s :
  damageStability a s == (if Qltb (s - a) 0 then 0 else s - a).
Proof.
  unfold damageStability. qcase_lt (s - a) 0; qsolve.
Qed.

(** ** Bounds preservation *)

Lemma repair_in_bounds a s :
  in_bounds s -> 0 <= a -> in_bounds (repairStability a s).
Proof. unfold in_bounds, repairStability. intros [? ?] ?. split; qsolve. Qed.

Lemma damage_in_bounds a s :
  in_bounds s -> 0 <= a -> in_bounds (damageStability a s).
Proof. unfold in_bounds, damageStability. intros [? ?] ?. split; qsolve. Qed.

Lemma apply_op_in_bounds o s :
  in_bounds s -> 0 <= op_amount o -> in_bounds (apply_op o s).
Proof.
  destruct o; simpl; auto using repair_in_bounds, damage_in_bounds.
Qed.

#[export] Hint Resolve repair_in_bounds damage_in_bounds apply_op_in_bounds : chaos.

(** ** The half-unit grid *)

Lemma grid_add x y : on_grid x -> on_grid y -> on_grid (x + y).
Proof.
  intros [k Hk] [l Hl]. exists (k + l)%Z. rewrite Hk, Hl.
  unfold Qeq, Qplus. simpl. lia.
Qed.

Lemma grid_opp x : on_grid x -> on_grid (- x).
Proof.
  intros [k Hk]. exists (- k)%Z. rewrite Hk. unfold Qeq. simpl. lia.
Qed.

Lemma grid_const (z : Z) : on_grid (inject_Z z).
Proof. exists (2 * z)%Z. unfold Qeq, inject_Z. cbn [Qnum Qden]. lia. Qed.

Lemma grid_qmin x y : on_grid x -> on_grid y -> on_grid (Qmin x y).
Proof. intros Hx Hy. destruct (Qmin_case x y) as [[_ ->]|[_ ->]]; assumption. Qed.

Lemma grid_qmax x y : on_grid x -> on_grid y -> on_grid (Qmax x y).
Proof. intros Hx Hy. destruct (Qmax_case x y) as [[_ ->]|[_ ->]]; assumption. Qed.

Lemma apply_op_grid o s :
  on_grid s -> on_grid (op_amount o) -> on_grid (apply_op o s).
Proof.
  intros Hs Ha. destruct o; simpl in *.
  - apply grid_qmin; [apply (grid_const 100) | now apply grid_add].
  - apply grid_qmax; [apply (grid_const 0) | apply grid_add; auto using grid_opp].
Qed.

(** ** Sequences of calls *)

(** C2: For every sequence of [repairStability]/[damageStability] calls with
    non-negative amounts, [0 <= stability <= 100] after every call. *)
Theorem apply_ops_in_bounds os s :
  in_bounds s -> Forall (fun o => 0 <= op_amount o) os -> in_bounds (apply_ops os s).
Proof.
  revert s. induction os as [|o os IH]; intros s Hs Hall; [exact Hs|].
  inversion Hall as [|? ? Ho Hos]; subst. simpl. apply IH; auto with chaos.
Qed.

(** Amounts on the half-unit grid keep the stability on it. *)
Theorem apply_ops_grid os s :
  on_grid s -> Forall (fun o => on_grid (op_amount o)) os -> on_grid (apply_ops os s).
Proof.
  revert s. induction os as [|o os IH]; intros s Hs Hall; [exact Hs|].
  inversion Hall as [|? ? Ho Hos]; subst. simpl. apply IH; auto using apply_op_grid.
Qed.

(** The clamp only holds for non-negative amounts: neither updater
    rejects nor clamps a negative amount. *)
Theorem negative_amounts_escape_bounds :
  (repairStability (-200) STABILITY_DEFAULT == (-115)) /\
  (damageStability (-200) STABILITY_DEFAULT == 285) /\
  ~ in_bounds (repairStability (-200) STABILITY_DEFAULT) /\
  ~ in_bounds (damageStability (-200) STABILITY_DEFAULT).
Proof.
  unfold in_bounds. vm_compute. repeat split; try reflexivity; intros [H1 H2]; auto.
Qed.

(** ** Witnesses *)

(** The calls the snake game and the memory game make after a crash, a
    mismatch and a match. *)
Definition sample_ops : list store_op := [Damage 5; Damage 2; Repair 5; Damage (1 # 2)].

Lemma apply_ops_in_bounds_witness : in_bounds (apply_ops sample_ops STABILITY_DEFAULT).
Proof.
  apply apply_ops_in_bounds.
  - split; discriminate.
  - repeat constructor; discriminate.
Defined.

Lemma apply_ops_grid_witness : on_grid (apply_ops sample_ops STABILITY_DEFAULT).
Proof.
  apply apply_ops_grid.
  - exists 170%Z. reflexivity.
  - repeat constructor; [exists 10%Z | exists 4%Z | exists 10%Z | exists 1%Z]; reflexivity.
Defined.

End Stability.

(** ** The interface the callers use *)

(** What the context promises to a game or a screen: a stability reading
    and the two updaters, each acting on the reading as the functions
    above. *)
Class StabilityStore (E : Type) := {
  stab : E -> Q;
  store_repair : Q -> E -> E;
  store_damage : Q -> E -> E
}.

Class StabilityStoreLaws (E : Type) `{StabilityStore E} := {
  store_repair_spec : forall a e,
    stab (store_repair a e) = Stability.repairStability a (stab e);
  store_damage_spec : forall a e,
    stab (store_damage a e) = Stability.damageStability a (stab e)
}.

(** The bare store is its own implementation. *)
#[export] Instance Q_store : StabilityStore Q := {
  stab := fun s => s;
  store_repair := Stability.repairStability;
  store_damage := Stability.damageStability
}.

#[export] Instance Q_store_laws : StabilityStoreLaws Q.
Proof. split; reflexivity. Qed.

Section StoreClient.
Context {E : Type} `{StabilityStoreLaws E}.

Definition store_apply (o : Stability.store_op) (e : E) : E :=
  match o with
  | Stability.Repair a => store_repair a e
  | Stability.Damage a => store_damage a e
  end.

Definition store_apply_all (os : list Stability.store_op) (e : E) : E :=
  fold_left (fun acc o => store_apply o acc) os e.

Lemma store_apply_stab o e :
  stab (store_apply o e) = Stability.apply_op o (stab e).
Proof. destruct o; simpl; auto using store_repair_spec, store_damage_spec. Qed.

Lemma store_apply_all_stab os e :
  stab (store_apply_all os e) = Stability.apply_ops os (stab e).
Proof.
  revert e. induction os as [|o os IH]; intro e; [reflexivity|].
  simpl. rewrite IH, store_apply_stab. reflexivity.
Qed.
End StoreClient.
