(* ===== verification/Signals.v ===== *)
(** * Derived signals: [glitchIntensity] and what the subscribers compute

    [glitchIntensity] is recomputed on every render of the provider
    (ChaosContext.tsx line 43).  The subscribers turn it, or the stability,
    into animation parameters: the snake's tick period (games/SnakeGame.tsx
    lines 59-63), the memory game's chaos level (games/ChaosMemory.tsx line
    94) and the cursor glow (components/ArcadeCursor.tsx line 34). *)

From S2P Require Import Prelude Stability.
From Stdlib Require Import QArith Qminmax Lqa Qround ZArith Lia.
From Stdlib Require Import Setoid Morphisms.

Open Scope Q_scope.

Module Signals.

(** [isChaosMode ? 1 : Math.max(0, (100 - stability) / 100)] *)
Definition glitchIntensity (isChaosMode : bool) (stability : Q) : Q :=
  if isChaosMode then 1 else Qmax 0 ((100 - stability) / 100).

(** [Math.max(50, INITIAL_SPEED - glitchIntensity * 100)], the snake's
    interval in milliseconds, with [INITIAL_SPEED = 150]. *)
Definition INITIAL_SPEED : Q := 150.
Definition snakeSpeed (glitch : Q) : Q := Qmax 50 (INITIAL_SPEED - glitch * 100).

(** [Math.ceil(glitchIntensity * 3)] *)
Definition memoryChaosLevel (glitch : Q) : Z := Qceiling (glitch * 3).

(** [Math.max(0.2, (100 - stability) / 100)] *)
Definition cursorGlow (stability : Q) : Q := Qmax (1 # 5) ((100 - stability) / 100).

#[export] Instance glitchIntensity_proper :
  Proper (eq ==> Qeq ==> Qeq) glitchIntensity.
Proof.
  intros c c' <- s s' Hs. unfold glitchIntensity. destruct c; [reflexivity|].
  now rewrite Hs.
Qed.

(** Division by the constant 100, as [lra] needs it. *)
Lemma div100 x : x / 100 == x * (1 # 100).
Proof. reflexivity. Qed.

Ltac glitch_solve :=
  unfold glitchIntensity, snakeSpeed, INITIAL_SPEED, cursorGlow in *;
  rewrite ?div100 in *; qsolve.

Lemma glitch_range c s : Stability.in_bounds s -> 0 <= glitchIntensity c s <= 1.
Proof.
  unfold Stability.in_bounds. intros [? ?]. destruct c; split; glitch_solve.
Qed.

Lemma glitch_calm_value s :
  Stability.in_bounds s -> glitchIntensity false s == 1 - s / 100.
Proof. unfold Stability.in_bounds. intros [? ?]. glitch_solve. Qed.

Lemma glitch_antitone c s s' : s <= s' -> glitchIntensity c s' <= glitchIntensity c s.
Proof. intros. destruct c; glitch_solve. Qed.

(** For a stability in [[0,100]], the glitch intensity is at its maximum 1
    exactly in chaos mode or at stability 0. *)
Lemma glitch_full_iff c s :
  Stability.in_bounds s -> (glitchIntensity c s == 1 <-> c = true \/ s == 0).
Proof.
  unfold Stability.in_bounds. intros [Hlo Hhi]. destruct c; split; intro H.
  - now left.
  - reflexivity.
  - right. revert H. glitch_solve.
  - destruct H as [H|H]; [discriminate|]. rewrite H. reflexivity.
Qed.

(** For a glitch intensity in [[0,1]] the snake game's tick delay lies
    between its floor 50 ms and [INITIAL_SPEED]. *)
Lemma snakeSpeed_range g : 0 <= g <= 1 -> 50 <= snakeSpeed g <= 150.
Proof. intros [? ?]. split; glitch_solve. Qed.

Lemma memoryChaosLevel_range g : 0 <= g <= 1 -> (0 <= memoryChaosLevel g <= 3)%Z.
Proof.
  intros [H0 H1]. unfold memoryChaosLevel. split.
  - apply Z.le_trans with (Qceiling 0); [reflexivity|].
    apply Qceiling_resp_le. lra.
  - apply Z.le_trans with (Qceiling 3); [|reflexivity].
    apply Qceiling_resp_le. lra.
Qed.

(** ** Witnesses *)

Lemma glitch_full_iff_witness : glitchIntensity false 0 == 1 <-> false = true \/ 0 == 0.
Proof. apply glitch_full_iff. split; discriminate. Defined.

Lemma snakeSpeed_range_witness : 50 <= snakeSpeed (3 # 4) <= 150.
Proof. apply snakeSpeed_range. split; discriminate. Defined.

End Signals.
