(* ===== verification/Timers.v ===== *)
(** * The browser's one-shot timer queue

    The chaos context schedules its expiries with [setTimeout]
    (ChaosContext.tsx lines 47, 69 and 89).  The queue is explicit here: a
    list of pending timers in creation order, each with an id (the handle
    [setTimeout] returns), a due time and a callback, generic in the type of
    callbacks.  Timers fire in order of due time, ties in creation order, as
    the HTML timer model prescribes; a negative delay counts as 0. *)

From S2P Require Import Prelude.
From Stdlib Require Import QArith Qminmax Lqa List Arith Lia Bool.
Import ListNotations.

Open Scope Q_scope.

Module Timers.

Section Queue.
Context {Cb : Type}.

Record timer := mkTimer { t_id : nat; t_due : Q; t_cb : Cb }.

Record queue := mkQueue { pending : list timer; next_id : nat }.

Definition empty_queue : queue := mkQueue [] 0.

(** [setTimeout(cb, delay)] at time [now]. *)
Definition setTimeout (now delay : Q) (cb : Cb) (q : queue) : queue :=
  mkQueue (pending q ++ [mkTimer (next_id q) (now + Qmax 0 delay) cb])
          (S (next_id q)).

Definition remove_timer (id : nat) (l : list timer) : list timer :=
  filter (fun t => negb (Nat.eqb (t_id t) id)) l.

(** [clearTimeout(id)], and the removal of a timer that has fired. *)
Definition clearTimeout (id : nat) (q : queue) : queue :=
  mkQueue (remove_timer id (pending q)) (next_id q).

(** The timer that fires next: least due time, first created on a tie. *)
Fixpoint earliest (l : list timer) : option timer :=
  match l with
  | [] => None
  | t :: r =>
      match earliest r with
      | None => Some t
      | Some u => if Qleb (t_due t) (t_due u) then Some t else Some u
      end
  end.

Definition find_timer (id : nat) (q : queue) : option timer :=
  find (fun t => Nat.eqb (t_id t) id) (pending q).

(** Well-formed at time [now]: ids are distinct and fresh, nothing is
    overdue. *)
Definition queue_wf (now : Q) (q : queue) : Prop :=
  NoDup (map t_id (pending q)) /\
  Forall (fun t => (t_id t < next_id q)%nat /\ now <= t_due t) (pending q).

(** ** The earliest timer *)

Lemma earliest_None l : earliest l = None <-> l = [].
Proof.
  split; [|now intros ->].
  destruct l as [|t r]; [reflexivity|]. simpl.
  destruct (earliest r); [destruct (Qleb _ _)|]; discriminate.
Qed.

Lemma earliest_spec l t :
  earliest l = Some t -> In t l /\ Forall (fun u => t_due t <= t_due u) l.
Proof.
  revert t. induction l as [|x r IH]; intros t H; [discriminate|].
  simpl in H. destruct (earliest r) as [u|] eqn:Er.
  - destruct (IH u eq_refl) as [Hin Hall].
    qcase_le (t_due x) (t_due u); injection H as <-.
    + split; [now left|]. constructor; [lra|].
      eapply Forall_impl; [|exact Hall]. simpl. intros. lra.
    + split; [now right|]. constructor; [lra|exact Hall].
  - apply earliest_None in Er. subst r. injection H as <-.
    split; [now left|]. constructor; [lra|constructor].
Qed.

(** ** Removal *)

Lemma In_remove_timer id t l :
  In t (remove_timer id l) <-> In t l /\ t_id t <> id.
Proof.
  unfold remove_timer. rewrite filter_In, negb_true_iff, Nat.eqb_neq.
  reflexivity.
Qed.

Lemma remove_timer_NoDup id l :
  NoDup (map t_id l) -> NoDup (map t_id (remove_timer id l)).
Proof.
  induction l as [|t r IH]; simpl; intro H; [constructor|].
  inversion H as [|? ? Hnot Hnd]; subst.
  destruct (Nat.eqb (t_id t) id); simpl; auto.
  constructor; auto. intro Hin. apply Hnot.
  apply in_map_iff in Hin as [u [Hu Hin]].
  apply In_remove_timer in Hin as [Hin _].
  apply in_map_iff. eauto.
Qed.

(** ** Well-formedness is preserved *)

Lemma queue_wf_later now now' q :
  queue_wf now q -> now' <= now -> queue_wf now' q.
Proof.
  intros [Hnd Hall] Hle. split; [exact Hnd|].
  eapply Forall_impl; [|exact Hall]. simpl. intros t [? ?]. split; [auto|lra].
Qed.

Lemma setTimeout_wf now d cb q :
  queue_wf now q -> queue_wf now (setTimeout now d cb q).
Proof.
  intros [Hnd Hall]. unfold setTimeout. split; simpl.
  - rewrite map_app. simpl. apply NoDup_app; auto using NoDup_cons, NoDup_nil.
    intros x Hx Hy. simpl in Hy. destruct Hy as [Hx'|[]].
    apply in_map_iff in Hx as [u [Hu' Hu]].
    rewrite Forall_forall in Hall. specialize (Hall u Hu). lia.
  - apply Forall_app. split.
    + eapply Forall_impl; [|exact Hall]. simpl. intros t [? ?]. split; [lia|lra].
    + constructor; [|constructor]. simpl. split; [lia|qsolve].
Qed.

Lemma clearTimeout_wf now id q :
  queue_wf now q -> queue_wf now (clearTimeout id q).
Proof.
  intros [Hnd Hall]. split; simpl.
  - now apply remove_timer_NoDup.
  - rewrite Forall_forall in *. intros t Ht.
    apply In_remove_timer in Ht as [Ht _]. auto.
Qed.

(** The clock may advance to any time no pending timer is due before. *)
Lemma queue_wf_advance now now' q :
  queue_wf now q -> Forall (fun t => now' <= t_due t) (pending q) -> queue_wf now' q.
Proof.
  intros [Hnd Hall] Hle. split; [exact Hnd|]. rewrite Forall_forall in *.
  intros t Ht. split; [now apply Hall | now apply Hle].
Qed.

(** Firing the earliest timer moves the clock to its due time and leaves
    a queue well formed at that time. *)
Lemma fire_earliest_wf now q t :
  queue_wf now q -> earliest (pending q) = Some t ->
  queue_wf (t_due t) (clearTimeout (t_id t) q).
Proof.
  intros Hwf He. destruct (earliest_spec _ _ He) as [_ Hmin].
  destruct (clearTimeout_wf now (t_id t) q Hwf) as [Hnd Hall].
  split; [exact Hnd|]. simpl in *. rewrite Forall_forall in *.
  intros u Hu. split; [now apply Hall|].
  apply In_remove_timer in Hu as [Hu _]. now apply Hmin.
Qed.

Lemma In_setTimeout now d cb q v :
  In v (pending (setTimeout now d cb q)) <-> In v (pending q) \/ v = mkTimer (next_id q) (now + Qmax 0 d) cb.
Proof. unfold setTimeout. simpl. rewrite in_app_iff. simpl. intuition. Qed.

(** A timer due strictly before those created ahead of it, and no later
    than those created after it, fires first. *)
Lemma earliest_app_min l a r :
  Forall (fun x => t_due a < t_due x) l -> Forall (fun x => t_due a <= t_due x) r ->
  earliest (l ++ a :: r) = Some a.
Proof.
  intros Hl Hr. induction Hl as [|x l Hx _ IH]; simpl.
  - destruct (earliest r) as [u|] eqn:E; [|reflexivity].
    destruct (earliest_spec _ _ E) as [Hu _]. rewrite Forall_forall in Hr.
    qcase_le (t_due a) (t_due u); [reflexivity | specialize (Hr u Hu); lra].
  - simpl in IH. rewrite IH. qcase_le (t_due x) (t_due a); [lra | reflexivity].
Qed.

(** ** Following one timer *)

Definition is_pending (id : nat) (due : Q) (cb : Cb) (q : queue) : Prop :=
  In (mkTimer id due cb) (pending q).

Lemma setTimeout_keeps id due cb now d cb' q :
  is_pending id due cb q -> is_pending id due cb (setTimeout now d cb' q).
Proof. unfold is_pending, setTimeout. simpl. intro H. apply in_or_app. now left. Qed.

Lemma setTimeout_new now d cb q :
  is_pending (next_id q) (now + Qmax 0 d) cb (setTimeout now d cb q).
Proof. unfold is_pending, setTimeout. simpl. apply in_or_app. right. now left. Qed.

Lemma clearTimeout_keeps id due cb id' q :
  is_pending id due cb q -> id <> id' -> is_pending id due cb (clearTimeout id' q).
Proof. unfold is_pending. simpl. intros. apply In_remove_timer. auto. Qed.

Lemma clearTimeout_gone id due cb q :
  ~ is_pending id due cb (clearTimeout id q).
Proof. unfold is_pending. simpl. intro H. apply In_remove_timer in H. tauto. Qed.

(** A pending timer is never overdue in a well-formed queue. *)
Lemma pending_not_overdue now q id due cb :
  queue_wf now q -> is_pending id due cb q -> now <= due.
Proof.
  intros [_ Hall] H. rewrite Forall_forall in Hall. apply (Hall _ H).
Qed.

(** Two pending timers with the same id are the same timer. *)
Lemma pending_id_unique now q t u :
  queue_wf now q -> In t (pending q) -> In u (pending q) -> t_id t = t_id u -> t = u.
Proof.
  intros [Hnd _]. revert Hnd. generalize (pending q) as l.
  induction l as [|x r IH]; intros Hnd Ht Hu Hid; [destruct Ht|].
  inversion Hnd as [|? ? Hnot Hnd']; subst.
  destruct Ht as [<-|Ht], Hu as [<-|Hu]; auto;
    exfalso; apply Hnot; [rewrite Hid|rewrite <- Hid]; now apply in_map.
Qed.
End Queue.

Arguments timer : clear implicits.
Arguments queue : clear implicits.

End Timers.
