(* ===== verification/Chaos.v ===== *)
(** * The chaos context: [ChaosProvider] of [components/ChaosContext.tsx]

    The provider's eight [useState] hooks are the record [ChaosState].  A
    [World] adds what the browser holds for it: the clock, the [setTimeout]
    queue, the one [setInterval] of the scheduler effect (its next firing
    and its period), and the stream of [Math.random()] draws.  Every function
    of the context value is a handler in the state monad of [Prelude]; a
    task (a user call, a timer callback, an interval tick) runs a handler to
    completion and then React re-renders, which re-creates the interval when
    [stability] or [isChaosMode] changed (the effect's dependency list, line
    130).  [step] is the runtime: tasks in deadline order and the passage of
    time. *)

From S2P Require Import Prelude Stability Signals Timers.
From Stdlib Require Import QArith Qminmax Lqa List Arith Lia Bool.
Import ListNotations.

Open Scope Q_scope.
Open Scope chaos_scope.

Module Chaos.

(** [type UniverseType = "DEFAULT" | "FIX_IT" | "SUGAR_RUSH" | "HEROS_DUTY"] *)
Inductive UniverseType := DEFAULT | FIX_IT | SUGAR_RUSH | HEROS_DUTY.

(** [interface ChaosState], less the derived [glitchIntensity]. *)
Record ChaosState := mkChaos {
  stability : Q;
  isChaosMode : bool;
  isPowerOutage : bool;
  isLoggingOut : bool;
  currentUniverse : UniverseType;
  tornadoActive : bool;
  zeroGravityActive : bool;
  continuousGlitchActive : bool
}.

(** The initial values of the [useState] calls, lines 34-41. *)
Definition initialState : ChaosState :=
  mkChaos Stability.STABILITY_DEFAULT false false false DEFAULT false false false.

Definition glitchOf (c : ChaosState) : Q :=
  Signals.glitchIntensity (isChaosMode c) (stability c).

(** The callbacks the provider passes to [setTimeout]. *)
Inductive Callback :=
  | EndPowerOutage    (* () => setIsPowerOutage(false), line 47 *)
  | EndTornado        (* () => setTornadoActive(false), line 69 *)
  | LogoutSequence.   (* () => { triggerLogoutSequence(); }, lines 89-91 *)

Record World := mkWorld {
  cs : ChaosState;
  now : Q;
  timers : Timers.queue Callback;
  iv_next : Q;          (* next firing of the scheduler's setInterval *)
  iv_period : Q;        (* its period, fixed when it was created *)
  rng : nat -> Q;       (* the successive values of Math.random() *)
  rng_pos : nat
}.

(** ** Field updates *)

Definition set_stability v c :=
  mkChaos v (isChaosMode c) (isPowerOutage c) (isLoggingOut c)
    (currentUniverse c) (tornadoActive c) (zeroGravityActive c) (continuousGlitchActive c).
Definition set_chaos b c :=
  mkChaos (stability c) b (isPowerOutage c) (isLoggingOut c)
    (currentUniverse c) (tornadoActive c) (zeroGravityActive c) (continuousGlitchActive c).
Definition set_outage b c :=
  mkChaos (stability c) (isChaosMode c) b (isLoggingOut c)
    (currentUniverse c) (tornadoActive c) (zeroGravityActive c) (continuousGlitchActive c).
Definition set_logout b c :=
  mkChaos (stability c) (isChaosMode c) (isPowerOutage c) b
    (currentUniverse c) (tornadoActive c) (zeroGravityActive c) (continuousGlitchActive c).
Definition set_universe u c :=
  mkChaos (stability c) (isChaosMode c) (isPowerOutage c) (isLoggingOut c)
    u (tornadoActive c) (zeroGravityActive c) (continuousGlitchActive c).
Definition set_tornado b c :=
  mkChaos (stability c) (isChaosMode c) (isPowerOutage c) (isLoggingOut c)
    (currentUniverse c) b (zeroGravityActive c) (continuousGlitchActive c).
Definition set_zero_gravity b c :=
  mkChaos (stability c) (isChaosMode c) (isPowerOutage c) (isLoggingOut c)
    (currentUniverse c) (tornadoActive c) b (continuousGlitchActive c).
Definition set_glitch b c :=
  mkChaos (stability c) (isChaosMode c) (isPowerOutage c) (isLoggingOut c)
    (currentUniverse c) (tornadoActive c) (zeroGravityActive c) b.

Definition with_cs f w :=
  mkWorld (f (cs w)) (now w) (timers w) (iv_next w) (iv_period w) (rng w) (rng_pos w).
Definition with_now t w :=
  mkWorld (cs w) t (timers w) (iv_next w) (iv_period w) (rng w) (rng_pos w).
Definition with_timers q w :=
  mkWorld (cs w) (now w) q (iv_next w) (iv_period w) (rng w) (rng_pos w).
Definition with_interval next per w :=
  mkWorld (cs w) (now w) (timers w) next per (rng w) (rng_pos w).

(** ** Primitive effects *)

Definition modify_cs (f : ChaosState -> ChaosState) : St World unit :=
  st_modify (with_cs f).

(** [setTimeout(cb, delay)] *)
Definition schedule (delay : Q) (cb : Callback) : St World unit :=
  st_modify (fun w => with_timers (Timers.setTimeout (now w) delay cb (timers w)) w).

(** [Math.random()] *)
Definition random : St World Q :=
  fun w => (rng w (rng_pos w),
            mkWorld (cs w) (now w) (timers w) (iv_next w) (iv_period w) (rng w)
              (S (rng_pos w))).

(** ** The functions of the context value (lines 45-92) *)

Definition setChaosMode (b : bool) : St World unit := modify_cs (set_chaos b).

Definition setUniverse (u : UniverseType) : St World unit := modify_cs (set_universe u).

(** [(duration: number = 5000) => { setIsPowerOutage(true);
     setTimeout(() => setIsPowerOutage(false), duration); }] *)
Definition triggerPowerOutage (duration : option Q) : St World unit :=
  let d := match duration with Some d => d | None => 5000 end in
  modify_cs (set_outage true) ;; schedule d EndPowerOutage.

Definition triggerLogoutSequence : St World unit := modify_cs (set_logout true).

Definition repairStability (amount : Q) : St World unit :=
  modify_cs (fun c => set_stability (Stability.repairStability amount (stability c)) c).

Definition damageStability (amount : Q) : St World unit :=
  modify_cs (fun c => set_stability (Stability.damageStability amount (stability c)) c).

(** The raw React setter, also exported (line 144). *)
Definition setStability (act : Stability.SetStateAction) : St World unit :=
  modify_cs (fun c => set_stability (Stability.setStability act (stability c)) c).

Definition triggerTornado : St World unit :=
  modify_cs (set_tornado true) ;; schedule 2000 EndTornado.

Definition toggleZeroGravity : St World unit :=
  modify_cs (fun c => set_zero_gravity (negb (zeroGravityActive c)) c).

Definition toggleContinuousGlitch : St World unit :=
  modify_cs (fun c => set_glitch (negb (continuousGlitchActive c)) c).

Definition triggerChaoticLogout : St World unit :=
  setChaosMode true ;;
  triggerTornado ;;
  toggleZeroGravity ;;
  toggleContinuousGlitch ;;
  triggerPowerOutage None ;;
  schedule 2000 LogoutSequence.

Definition runCallback (cb : Callback) : St World unit :=
  match cb with
  | EndPowerOutage => modify_cs (set_outage false)
  | EndTornado => modify_cs (set_tornado false)
  | LogoutSequence => triggerLogoutSequence
  end.

(** ** The scheduler tick (lines 96-127) *)

(** [triggerTornado(); toggleZeroGravity(); ...] of the escalation. *)
Definition escalate : St World unit :=
  setChaosMode true ;;
  triggerTornado ;;
  toggleZeroGravity ;;
  toggleContinuousGlitch ;;
  triggerPowerOutage None.

(** The [if/else if] chain on [eventType] (lines 103-111). *)
Definition dispatchEvent (eventType : Q) : St World unit :=
  if (9 # 10) <? eventType then triggerTornado
  else if (8 # 10) <? eventType then toggleZeroGravity
  else if (7 # 10) <? eventType then toggleContinuousGlitch
  else if (5 # 10) <? eventType then
    (r <- random ;; triggerPowerOutage (Some (3000 + r * 4000)))
  else st_ret tt.

(** The three blocks of the interval callback.  First, lines 97-112: a
    roll against the stability, then one random event. *)
Definition tickEvents (stab : Q) : St World unit :=
  roll <- random ;;
  if stab <? roll * 100 then (eventType <- random ;; dispatchEvent eventType)
  else st_ret tt.

(** Lines 114-117: natural decay in chaos mode. *)
Definition tickDecay (chaos : bool) : St World unit :=
  st_when chaos (damageStability (1 # 2)).

(** Lines 119-126: [stability < 15 && !isChaosMode && Math.random() > 0.95];
    the draw happens only when the first two conjuncts hold. *)
Definition tickEscalation (stab : Q) (chaos : bool) : St World unit :=
  if (stab <? 15) && negb chaos then (r <- random ;; st_when ((95 # 100) <? r) escalate)
  else st_ret tt.

(** The interval callback.  It reads [stability] and [isChaosMode] from
    the render that created it; the interval is re-created whenever either
    changes, so these are the values of the state when the tick starts. *)
Definition chaosTick : St World unit :=
  w <- st_get ;;
  let stab := stability (cs w) in
  let chaos := isChaosMode (cs w) in
  tickEvents stab ;;
  tickDecay chaos ;;
  tickEscalation stab chaos.

End Chaos.

(** ** The chaos context as the store the games and screens use

    [repairStability] and [damageStability] of the context value (lines
    58-64) on the provider's state. *)

#[export] Instance chaos_store : StabilityStore Chaos.ChaosState := {
  stab := Chaos.stability;
  store_repair := fun a c => Chaos.set_stability (Stability.repairStability a (Chaos.stability c)) c;
  store_damage := fun a c => Chaos.set_stability (Stability.damageStability a (Chaos.stability c)) c
}.

#[export] Instance chaos_store_laws : StabilityStoreLaws Chaos.ChaosState.
Proof. split; reflexivity. Qed.
