(* ===== verification/ChaosRun.v ===== *)
(** * The page runtime of the chaos context, its invariants and properties

    A [World] of [Chaos.v] runs as the browser runs it: a task (a call of
    the context value, a [setTimeout] callback, a tick of the
    [setInterval]) runs its handler to completion, then React re-renders
    and re-creates the interval when [stability] or [isChaosMode] changed
    (the effect's dependency list, ChaosContext.tsx line 130).  [step] is
    that runtime, tasks in deadline order and the passage of time;
    [run_until] executes it.

    Every handler keeps the clock and the interval untouched and preserves
    [inv]; every step preserves [wf], so the stability stays in [0, 100] on
    the half-unit grid, no timer is ever overdue, and a power outage or
    tornado that is on always has the timer that ends it pending.  The
    properties then give the functional behaviour of the tick on each
    branch and of [triggerChaoticLogout], the timed expiries, and the
    behaviours in which the code departs from the specification: a
    re-triggered power outage is cut short by the first timer, and a caller
    that changes the stability more often than every three seconds keeps
    the scheduler from ever ticking. *)

From S2P Require Import Prelude Stability Signals Timers Chaos.
From Stdlib Require Import QArith Qminmax Lqa List Arith Lia Bool ZArith.
Import ListNotations.

Open Scope Q_scope.
Open Scope chaos_scope.

Module ChaosRun.
Import Chaos.

(** ** Tasks and re-rendering *)

(** [isChaosMode ? 1000 : 3000] *)
Definition period (chaos : bool) : Q := if chaos then 1000 else 3000.

(** The effect's dependencies that can change: [stability] and
    [isChaosMode] (the callbacks in the list are stable). *)
Definition deps_changed (c c' : ChaosState) : bool :=
  negb (Qeqb (stability c) (stability c')) || xorb (isChaosMode c) (isChaosMode c').

(** After a task React re-renders; if a dependency changed the effect's
    cleanup clears the interval and a new one starts now. *)
Definition rerender (before after : World) : World :=
  if deps_changed (cs before) (cs after)
  then with_interval (now after + period (isChaosMode (cs after)))
                     (period (isChaosMode (cs after))) after
  else after.

Definition run_task (h : St World unit) (w : World) : World :=
  rerender w (st_exec h w).

(** The calls a component can make on the context value. *)
Inductive Call :=
  | CallSetStability (act : Stability.SetStateAction)
  | CallSetChaosMode (b : bool)
  | CallSetUniverse (u : UniverseType)
  | CallTriggerPowerOutage (duration : option Q)
  | CallTriggerLogoutSequence
  | CallRepairStability (amount : Q)
  | CallDamageStability (amount : Q)
  | CallTriggerTornado
  | CallToggleZeroGravity
  | CallToggleContinuousGlitch
  | CallTriggerChaoticLogout.

Definition callHandler (c : Call) : St World unit :=
  match c with
  | CallSetStability act => setStability act
  | CallSetChaosMode b => setChaosMode b
  | CallSetUniverse u => setUniverse u
  | CallTriggerPowerOutage d => triggerPowerOutage d
  | CallTriggerLogoutSequence => triggerLogoutSequence
  | CallRepairStability a => repairStability a
  | CallDamageStability a => damageStability a
  | CallTriggerTornado => triggerTornado
  | CallToggleZeroGravity => toggleZeroGravity
  | CallToggleContinuousGlitch => toggleContinuousGlitch
  | CallTriggerChaoticLogout => triggerChaoticLogout
  end.

Definition user_call (c : Call) (w : World) : World := run_task (callHandler c) w.

(** A timer fires: the clock reaches its due time, it leaves the queue,
    its callback runs. *)
Definition fire_timer (t : Timers.timer Callback) (w : World) : World :=
  run_task (runCallback (Timers.t_cb t))
    (with_timers (Timers.clearTimeout (Timers.t_id t) (timers w))
       (with_now (Timers.t_due t) w)).

(** The interval fires: it re-arms itself one period later, then the
    tick runs. *)
Definition fire_tick (w : World) : World :=
  run_task chaosTick
    (with_interval (iv_next w + iv_period w) (iv_period w) (with_now (iv_next w) w)).

(** The provider mounts at time 0: state from [useState], the interval
    created by the first run of the effect. *)
Definition mount (r : nat -> Q) : World :=
  mkWorld initialState 0 Timers.empty_queue (period false) (period false) r 0.

(** ** The runtime *)

(** The calls the components of [src/] make: [repairStability] and
    [damageStability] with the literal amounts of their call sites, all
    non-negative integers or halves, and never the raw [setStability]. *)
Definition call_ok (c : Call) : Prop :=
  match c with
  | CallSetStability _ => False
  | CallRepairStability a | CallDamageStability a => 0 <= a /\ Stability.on_grid a
  | _ => True
  end.

(** One step of the page: a component calls the context, the earliest
    timer fires, the interval fires, or time passes up to the next
    deadline.  When a timer and the interval are due at the same instant
    either may go first. *)
Inductive step : World -> World -> Prop :=
  | step_call c w :
      call_ok c -> step w (user_call c w)
  | step_timer t w :
      Timers.earliest (Timers.pending (timers w)) = Some t ->
      Timers.t_due t <= iv_next w ->
      step w (fire_timer t w)
  | step_tick w :
      Forall (fun t => iv_next w <= Timers.t_due t) (Timers.pending (timers w)) ->
      step w (fire_tick w)
  | step_wait t w :
      now w <= t -> t <= iv_next w ->
      Forall (fun u => t <= Timers.t_due u) (Timers.pending (timers w)) ->
      step w (with_now t w).

Definition pending_cb (cb : Callback) (w : World) : Prop :=
  exists id due, Timers.is_pending id due cb (timers w).

(** The handler-level invariant: what holds between any two statements
    that end a handler. *)
Record inv (w : World) : Prop := {
  inv_bounds : Stability.in_bounds (stability (cs w));
  inv_grid : Stability.on_grid (stability (cs w));
  inv_queue : Timers.queue_wf (now w) (timers w);
  inv_outage : isPowerOutage (cs w) = true -> pending_cb EndPowerOutage w;
  inv_tornado : tornadoActive (cs w) = true -> pending_cb EndTornado w
}.

(** The runtime invariant adds the interval: it is never overdue and its
    period is the one the current [isChaosMode] asks for. *)
Record wf (w : World) : Prop := {
  wf_inv : inv w;
  wf_interval : now w <= iv_next w;
  wf_period : iv_period w = period (isChaosMode (cs w))
}.

(** ** An executable scheduler *)

Definition next_timer (w : World) : option (Timers.timer Callback) :=
  Timers.earliest (Timers.pending (timers w)).

(** Run the page without user input up to time [T]: fire the earliest
    timer or the interval, whichever is due first, until neither is due by
    [T], then let the clock reach [T].  [None] when [fuel] runs out. *)
Fixpoint run_until (fuel : nat) (T : Q) (w : World) : option World :=
  match fuel with
  | O => None
  | S f =>
      let tick_or_wait :=
        if iv_next w <=? T then run_until f T (fire_tick w)
        else if now w <=? T then Some (with_now T w) else Some w in
      match next_timer w with
      | Some t =>
          if (Timers.t_due t <=? iv_next w) && (Timers.t_due t <=? T)
          then run_until f T (fire_timer t w)
          else tick_or_wait
      | None => tick_or_wait
      end
  end.

(** * Invariants *)

(** Decompose a handler into its leaves. *)
Ltac preserve_tac :=
  repeat match goal with
    | |- st_preserves _ (st_bind _ _) => apply st_preserves_bind; [|intro]
    | |- st_preserves _ (let _ := _ in _) => cbv zeta
    | |- st_preserves _ (if ?b then _ else _) => destruct b
    | |- st_preserves _ (st_when _ _) => apply st_preserves_when
    | |- st_preserves _ (st_ret _) => apply st_preserves_ret
    | |- st_preserves _ st_get => apply st_preserves_get
    end.

(** ** Handlers leave the clock and the interval alone *)

Definition clock_is n i p (w : World) : Prop :=
  now w = n /\ iv_next w = i /\ iv_period w = p.

Definition keeps_clock (h : St World unit) : Prop :=
  forall n i p, st_preserves (clock_is n i p) h.

Lemma keeps_clock_modify f : keeps_clock (modify_cs f).
Proof. intros n i p w H. exact H. Qed.

Lemma keeps_clock_schedule d cb : keeps_clock (schedule d cb).
Proof. intros n i p w H. exact H. Qed.

Lemma keeps_clock_random n i p : st_preserves (clock_is n i p) random.
Proof. intros w H. exact H. Qed.

#[local] Hint Resolve keeps_clock_modify keeps_clock_schedule keeps_clock_random : chaos.

Ltac clock_tac :=
  intros n i p; unfold tickEvents, tickDecay, tickEscalation, escalate, dispatchEvent,
    triggerPowerOutage, triggerTornado,
    triggerChaoticLogout, setChaosMode, setUniverse, triggerLogoutSequence,
    repairStability, damageStability, setStability, toggleZeroGravity,
    toggleContinuousGlitch;
  preserve_tac; first [apply keeps_clock_modify | apply keeps_clock_schedule
                      | apply keeps_clock_random].

Lemma keeps_clock_call c : keeps_clock (callHandler c).
Proof. destruct c; simpl; clock_tac. Qed.

Lemma keeps_clock_callback cb : keeps_clock (runCallback cb).
Proof. destruct cb; simpl; clock_tac. Qed.

Lemma keeps_clock_tick : keeps_clock chaosTick.
Proof. unfold chaosTick. clock_tac. Qed.

Lemma keeps_clock_exec h w :
  keeps_clock h -> now (st_exec h w) = now w /\ iv_next (st_exec h w) = iv_next w /\
                   iv_period (st_exec h w) = iv_period w.
Proof. intro Hk. apply (Hk (now w) (iv_next w) (iv_period w) w). now repeat split. Qed.

(** ** Leaves of the handler invariant *)

Lemma inv_modify_cs f :
  (forall c, Stability.in_bounds (stability c) -> Stability.in_bounds (stability (f c))) ->
  (forall c, Stability.on_grid (stability c) -> Stability.on_grid (stability (f c))) ->
  (forall c, isPowerOutage (f c) = true -> isPowerOutage c = true) ->
  (forall c, tornadoActive (f c) = true -> tornadoActive c = true) ->
  st_preserves inv (modify_cs f).
Proof.
  intros Hb Hg Ho Ht w [HB HG HQ HO HT]. split; simpl; auto.
Qed.

Lemma inv_schedule d cb : st_preserves inv (schedule d cb).
Proof.
  intros w [HB HG HQ HO HT]. split; simpl; auto using Timers.setTimeout_wf.
  - intro H. destruct (HO H) as (id & due & P). exists id, due.
    now apply Timers.setTimeout_keeps.
  - intro H. destruct (HT H) as (id & due & P). exists id, due.
    now apply Timers.setTimeout_keeps.
Qed.

Lemma inv_random : st_preserves inv random.
Proof. intros w [HB HG HQ HO HT]. split; simpl; auto. Qed.

(** Setting a flag and scheduling the timer that clears it. *)
Lemma inv_flag_with_timer (set : bool -> ChaosState -> ChaosState) d cb :
  (forall b c, stability (set b c) = stability c) ->
  (forall c, isPowerOutage (set true c) = true -> isPowerOutage c = true \/ cb = EndPowerOutage) ->
  (forall c, tornadoActive (set true c) = true -> tornadoActive c = true \/ cb = EndTornado) ->
  st_preserves inv (modify_cs (set true) ;; schedule d cb).
Proof.
  intros Hs Ho Ht w [HB HG HQ HO HT]. unfold st_bind, modify_cs, st_modify, schedule.
  simpl. split; simpl; rewrite ?Hs; auto using Timers.setTimeout_wf.
  - intro H. destruct (Ho _ H) as [H' | ->].
    + destruct (HO H') as (id & due & P). exists id, due. now apply Timers.setTimeout_keeps.
    + do 2 eexists. apply Timers.setTimeout_new.
  - intro H. destruct (Ht _ H) as [H' | ->].
    + destruct (HT H') as (id & due & P). exists id, due. now apply Timers.setTimeout_keeps.
    + do 2 eexists. apply Timers.setTimeout_new.
Qed.

Lemma inv_triggerPowerOutage d : st_preserves inv (triggerPowerOutage d).
Proof. apply inv_flag_with_timer; simpl; auto. Qed.

Lemma inv_triggerTornado : st_preserves inv triggerTornado.
Proof. apply inv_flag_with_timer; simpl; auto. Qed.

Ltac inv_leaf :=
  first [ apply inv_triggerPowerOutage | apply inv_triggerTornado | apply inv_schedule
        | apply inv_random
        | apply inv_modify_cs; simpl; intros; auto ].

Lemma inv_damage a : 0 <= a -> Stability.on_grid a -> st_preserves inv (damageStability a).
Proof.
  intros Ha Hg. apply inv_modify_cs; simpl; auto.
  - intros c Hc. now apply Stability.damage_in_bounds.
  - intros c Hc. now apply (Stability.apply_op_grid (Stability.Damage a)).
Qed.

Lemma inv_repair a : 0 <= a -> Stability.on_grid a -> st_preserves inv (repairStability a).
Proof.
  intros Ha Hg. apply inv_modify_cs; simpl; auto.
  - intros c Hc. now apply Stability.repair_in_bounds.
  - intros c Hc. now apply (Stability.apply_op_grid (Stability.Repair a)).
Qed.

Lemma half_ok : 0 <= 1 # 2 /\ Stability.on_grid (1 # 2).
Proof. split; [discriminate | exists 1%Z; reflexivity]. Qed.

Lemma inv_escalate : st_preserves inv escalate.
Proof. unfold escalate, setChaosMode, toggleZeroGravity, toggleContinuousGlitch.
  preserve_tac; inv_leaf. Qed.

Lemma inv_call c : call_ok c -> st_preserves inv (callHandler c).
Proof.
  destruct c; simpl; intro Hc; try contradiction;
    try (destruct Hc; auto using inv_damage, inv_repair);
    unfold triggerChaoticLogout, setChaosMode, setUniverse, triggerLogoutSequence,
      toggleZeroGravity, toggleContinuousGlitch;
    preserve_tac; inv_leaf.
Qed.

Lemma inv_tick : st_preserves inv chaosTick.
Proof.
  unfold chaosTick, tickEvents, tickDecay, tickEscalation, dispatchEvent,
    toggleZeroGravity, toggleContinuousGlitch.
  preserve_tac; try apply inv_escalate;
    try (apply inv_damage; apply half_ok); inv_leaf.
Qed.

(** ** Tasks and steps preserve [wf] *)

Lemma period_pos c : 0 < period c.
Proof. destruct c; reflexivity. Qed.

Lemma inv_with_interval next per w : inv w -> inv (with_interval next per w).
Proof. intros [HB HG HQ HO HT]. split; auto. Qed.

Lemma inv_advance w t :
  inv w -> Forall (fun u => t <= Timers.t_due u) (Timers.pending (timers w)) ->
  inv (with_now t w).
Proof.
  intros [HB HG HQ HO HT] Hall. split; auto. simpl. eapply Timers.queue_wf_advance; eauto.
Qed.

(** Re-rendering after a handler that left the clock alone. *)
Lemma run_task_wf h w :
  keeps_clock h -> inv (st_exec h w) -> now w <= iv_next w ->
  iv_period w = period (isChaosMode (cs w)) -> wf (run_task h w).
Proof.
  intros Hk Hinv Hle Hper. destruct (keeps_clock_exec h w Hk) as (En & Ei & Ep).
  unfold run_task, rerender. destruct (deps_changed _ _) eqn:E.
  - split; [now apply inv_with_interval|simpl|reflexivity].
    pose proof (period_pos (isChaosMode (cs (st_exec h w)))). lra.
  - unfold deps_changed in E. apply orb_false_iff in E as [_ E].
    apply xorb_eq in E. split; [exact Hinv| |]; rewrite ?En, ?Ei, ?Ep; [exact Hle|].
    now rewrite <- E.
Qed.

(** The callback of the earliest timer re-establishes the invariant. *)
Lemma inv_fire w t :
  inv w -> Timers.earliest (Timers.pending (timers w)) = Some t ->
  inv (st_exec (runCallback (Timers.t_cb t))
         (with_timers (Timers.clearTimeout (Timers.t_id t) (timers w))
            (with_now (Timers.t_due t) w))).
Proof.
  intros [HB HG HQ HO HT] He. destruct (Timers.earliest_spec _ _ He) as [Hin _].
  assert (Hkeep : forall cb, cb <> Timers.t_cb t -> pending_cb cb w ->
            pending_cb cb (with_timers (Timers.clearTimeout (Timers.t_id t) (timers w)) w)).
  { intros cb Hne (id & due & P). exists id, due. simpl.
    apply Timers.clearTimeout_keeps; [exact P|]. intro Hid. apply Hne.
    assert (Timers.mkTimer id due cb = t) as <-; [|reflexivity].
    eapply Timers.pending_id_unique; eauto. }
  pose proof (Timers.fire_earliest_wf _ _ _ HQ He) as HQ'.
  destruct t as [id due cb]; simpl in *.
  destruct cb; split; simpl; auto; try discriminate;
    intro H; apply Hkeep; auto; discriminate.
Qed.

Theorem step_wf w w' : wf w -> step w w' -> wf w'.
Proof.
  intros [Hinv Hle Hper] Hs. destruct Hs as [c w Hc|t w He Hdue|w Hall|t' w Hd Hnext Hall].
  - apply (run_task_wf (callHandler c)); auto using keeps_clock_call.
    now apply inv_call.
  - apply (run_task_wf (runCallback (Timers.t_cb t))); auto using keeps_clock_callback, inv_fire.
  - apply (run_task_wf chaosTick); auto using keeps_clock_tick; simpl.
    + apply inv_tick, inv_with_interval, inv_advance; auto.
    + rewrite Hper. pose proof (period_pos (isChaosMode (cs w))). lra.
  - split; auto. apply inv_advance; auto.
Qed.

Lemma mount_wf r : wf (mount r).
Proof.
  split; simpl; try lra; [|reflexivity]. split; simpl; try discriminate.
  - split; discriminate.
  - exists 170%Z. reflexivity.
  - split; constructor.
Qed.

(** ** Runs *)

Lemma star_wf w w' : wf w -> star step w w' -> wf w'.
Proof. intros H Hs. revert H. apply (star_invariant step); [|exact Hs]. eauto using step_wf. Qed.

(** ** Handlers only add timers *)

Definition has_timer id due cb (w : World) : Prop := Timers.is_pending id due cb (timers w).

Ltac frame_leaf :=
  first [ intros ? ?; assumption
        | intros ? ?; apply Timers.setTimeout_keeps; assumption ].

Ltac unfold_handlers :=
  unfold callHandler, chaosTick, tickEvents, tickDecay, tickEscalation, runCallback,
    escalate, dispatchEvent,
    triggerPowerOutage, triggerTornado, triggerChaoticLogout, setChaosMode,
    setUniverse, triggerLogoutSequence, repairStability, damageStability,
    setStability, toggleZeroGravity, toggleContinuousGlitch, modify_cs, schedule.

Lemma call_keeps_timer id due cb c : st_preserves (has_timer id due cb) (callHandler c).
Proof. destruct c; unfold_handlers; preserve_tac; frame_leaf. Qed.

Lemma tick_keeps_timer id due cb : st_preserves (has_timer id due cb) chaosTick.
Proof. unfold_handlers; preserve_tac; frame_leaf. Qed.

Lemma callback_keeps_timer id due cb cb' :
  st_preserves (has_timer id due cb) (runCallback cb').
Proof. destruct cb'; unfold_handlers; preserve_tac; frame_leaf. Qed.

Lemma has_timer_rerender id due cb w w' :
  has_timer id due cb w' -> has_timer id due cb (rerender w w').
Proof. unfold rerender. now destruct (deps_changed _ _). Qed.

(** A pending timer stays pending until the step that fires it. *)
Lemma step_pending w w' id due cb :
  wf w -> step w w' -> has_timer id due cb w ->
  has_timer id due cb w' \/ w' = fire_timer (Timers.mkTimer id due cb) w.
Proof.
  intros [[_ _ HQ _ _] _ _] Hs Hp.
  destruct Hs as [c w Hc|t w He Hdue|w Hall|t' w Hd Hnext Hall].
  - left. apply has_timer_rerender. now apply call_keeps_timer.
  - destruct (Timers.earliest_spec _ _ He) as [Hin _].
    destruct (Nat.eq_dec id (Timers.t_id t)) as [Hid|Hid].
    + right. f_equal. eapply Timers.pending_id_unique; eauto.
    + left. apply has_timer_rerender, callback_keeps_timer. unfold has_timer. simpl.
      now apply Timers.clearTimeout_keeps.
  - left. apply has_timer_rerender, tick_keeps_timer. exact Hp.
  - left. exact Hp.
Qed.

(** If a timer is pending and the clock has passed its due time, it has
    fired; what its firing established and the steps preserve holds. *)
Lemma timer_fired (R : World -> World -> Prop) (P : World -> Prop) id due cb :
  (forall w w', R w w' -> step w w') ->
  (forall w, wf w -> has_timer id due cb w -> P (fire_timer (Timers.mkTimer id due cb) w)) ->
  (forall w w', R w w' -> P w -> P w') ->
  forall w w', star R w w' -> wf w -> has_timer id due cb w -> due < now w' -> P w'.
Proof.
  intros HR Hfire Hkeep w w' Hs. induction Hs as [w|w1 w2 w3 H12 H23 IH]; intros Hwf Hp Hlt.
  - exfalso. destruct Hwf as [[_ _ HQ _ _] _ _].
    pose proof (Timers.pending_not_overdue _ _ _ _ _ HQ Hp). lra.
  - destruct (step_pending w1 w2 id due cb Hwf (HR _ _ H12) Hp) as [Hp2 | ->].
    + apply IH; auto. eapply step_wf; eauto.
    + clear IH Hlt. specialize (Hfire w1 Hwf Hp).
      revert Hfire. apply (star_invariant R); [|exact H23]. eauto.
Qed.

(** ** The logout flag is one-way *)

Definition logging_out (w : World) : Prop := isLoggingOut (cs w) = true.

Ltac logout_leaf := unfold logging_out; intros ? H; simpl; auto.

Lemma call_keeps_logout c : st_preserves logging_out (callHandler c).
Proof. destruct c; unfold_handlers; preserve_tac; logout_leaf. Qed.

Lemma tick_keeps_logout : st_preserves logging_out chaosTick.
Proof. unfold_handlers; preserve_tac; logout_leaf. Qed.

Lemma callback_keeps_logout cb : st_preserves logging_out (runCallback cb).
Proof. destruct cb; unfold_handlers; preserve_tac; logout_leaf. Qed.

Lemma logging_out_rerender w w' : logging_out w' -> logging_out (rerender w w').
Proof. unfold rerender. now destruct (deps_changed _ _). Qed.

Lemma step_keeps_logout w w' : step w w' -> logging_out w -> logging_out w'.
Proof.
  intros Hs H.
  destruct Hs as [c w Hc|t w He Hdue|w Hall|t' w Hd Hnext Hall];
    try apply logging_out_rerender; auto.
  - now apply call_keeps_logout.
  - now apply callback_keeps_logout.
  - now apply tick_keeps_logout.
Qed.

(** ** The executable scheduler is a run of [step] *)

Lemma tick_or_wait_star f T w w' :
  (forall w w', run_until f T w = Some w' -> star step w w') ->
  (forall u, In u (Timers.pending (timers w)) ->
     iv_next w < Timers.t_due u \/ T < Timers.t_due u) ->
  (if iv_next w <=? T then run_until f T (fire_tick w)
   else if now w <=? T then Some (with_now T w) else Some w) = Some w' ->
  star step w w'.
Proof.
  intros IH Hdue H. qcase_le (iv_next w) T.
  - apply star_step with (fire_tick w); [|now apply IH].
    apply step_tick. apply Forall_forall. intros u Hu.
    destruct (Hdue u Hu); lra.
  - qcase_le (now w) T; injection H as <-; [|apply star_refl].
    apply star_one, step_wait; [assumption|lra|].
    apply Forall_forall. intros u Hu. destruct (Hdue u Hu); lra.
Qed.

Theorem run_until_star fuel T w w' : run_until fuel T w = Some w' -> star step w w'.
Proof.
  revert w w'. induction fuel as [|f IH]; intros w w' H; [discriminate|].
  simpl in H. unfold next_timer in H.
  destruct (Timers.earliest _) as [t|] eqn:He.
  - destruct (Timers.earliest_spec _ _ He) as [_ Hmin]. rewrite Forall_forall in Hmin.
    destruct (Timers.t_due t <=? iv_next w) eqn:E1, (Timers.t_due t <=? T) eqn:E2;
      simpl in H; apply Qleb_iff in E1 || apply Qleb_false in E1;
      apply Qleb_iff in E2 || apply Qleb_false in E2.
    + apply star_step with (fire_timer t w); [now apply step_timer|now apply IH].
    + apply (tick_or_wait_star f T); auto. intros u Hu. specialize (Hmin u Hu). right. lra.
    + apply (tick_or_wait_star f T); auto. intros u Hu. specialize (Hmin u Hu). left. lra.
    + apply (tick_or_wait_star f T); auto. intros u Hu. specialize (Hmin u Hu). left. lra.
  - apply (tick_or_wait_star f T); auto.
    apply Timers.earliest_None in He. rewrite He. intros u [].
Qed.


(** * Properties *)

(** ** Re-rendering only touches the interval *)

Lemma cs_rerender w w' : cs (rerender w w') = cs w'.
Proof. unfold rerender. now destruct (deps_changed _ _). Qed.

Lemma timers_rerender w w' : timers (rerender w w') = timers w'.
Proof. unfold rerender. now destruct (deps_changed _ _). Qed.

Lemma now_rerender w w' : now (rerender w w') = now w'.
Proof. unfold rerender. now destruct (deps_changed _ _). Qed.

Lemma rng_pos_rerender w w' : rng_pos (rerender w w') = rng_pos w'.
Proof. unfold rerender. now destruct (deps_changed _ _). Qed.

#[local] Hint Rewrite cs_rerender timers_rerender now_rerender rng_pos_rerender : chaos_rw.

(** ** The tick, block by block *)

Lemma chaosTick_exec w :
  st_exec chaosTick w =
  st_exec (tickEscalation (stability (cs w)) (isChaosMode (cs w)))
    (st_exec (tickDecay (isChaosMode (cs w)))
       (st_exec (tickEvents (stability (cs w))) w)).
Proof.
  unfold chaosTick, st_exec, st_bind, st_get. cbn -[tickEvents tickDecay tickEscalation].
  destruct (tickEvents _ w) as [[] w1]. cbn [snd].
  destruct (tickDecay _ w1) as [[] w2]. reflexivity.
Qed.

(** The random events never touch the stability, the chaos mode or the
    logout flag. *)
Definition core_is (s : Q) (c l : bool) (w : World) : Prop :=
  stability (cs w) = s /\ isChaosMode (cs w) = c /\ isLoggingOut (cs w) = l.

Lemma tickEvents_core s c l stab : st_preserves (core_is s c l) (tickEvents stab).
Proof.
  unfold tickEvents, dispatchEvent, triggerPowerOutage, triggerTornado,
    toggleZeroGravity, toggleContinuousGlitch, modify_cs, schedule.
  preserve_tac; intros ? H; exact H.
Qed.

(** in chaos mode every tick decays the stability by exactly half a
    point, clamped at 0, whatever the random draws. *)
Lemma chaosTick_decay w :
  isChaosMode (cs w) = true ->
  stability (cs (st_exec chaosTick w)) = Stability.damageStability (1 # 2) (stability (cs w)).
Proof.
  intro Hc. rewrite chaosTick_exec, Hc.
  destruct (tickEvents_core (stability (cs w)) true (isLoggingOut (cs w))
              (stability (cs w)) w) as (Hs & _ & _); [now repeat split|].
  unfold tickEscalation, tickDecay, st_when. cbn [negb]. rewrite andb_false_r.
  unfold st_exec in Hs |- *. simpl. now rewrite Hs.
Qed.

(** at full stability and out of chaos mode a tick changes nothing
    but the position in the random stream: the roll [Math.random() * 100]
    never exceeds 100. *)
Lemma chaosTick_calm_at_full w :
  stability (cs w) == 100 -> isChaosMode (cs w) = false ->
  0 <= rng w (rng_pos w) < 1 ->
  cs (st_exec chaosTick w) = cs w /\ timers (st_exec chaosTick w) = timers w /\
  rng_pos (st_exec chaosTick w) = S (rng_pos w).
Proof.
  intros Hs Hc Hr. rewrite chaosTick_exec, Hc.
  unfold tickEvents, tickDecay, tickEscalation, st_when, st_exec, st_bind, random.
  simpl.
  qcase_lt (stability (cs w)) (rng w (rng_pos w) * 100); [lra|].
  qcase_lt (stability (cs w)) 15; [lra|]. simpl. now repeat split.
Qed.

(** below 15 and out of chaos mode, when the roll brings no event
    and the third draw exceeds 0.95, one tick escalates to full chaos:
    chaos mode, tornado and power outage on, both toggles flipped. *)
Lemma chaosTick_escalation w :
  isChaosMode (cs w) = false -> stability (cs w) < 15 ->
  rng w (rng_pos w) * 100 <= stability (cs w) ->
  95 # 100 < rng w (S (rng_pos w)) ->
  let c := cs (st_exec chaosTick w) in
  isChaosMode c = true /\ tornadoActive c = true /\ isPowerOutage c = true /\
  zeroGravityActive c = negb (zeroGravityActive (cs w)) /\
  continuousGlitchActive c = negb (continuousGlitchActive (cs w)) /\
  stability c = stability (cs w).
Proof.
  intros Hc Hs Hroll Hr. rewrite chaosTick_exec, Hc.
  unfold tickEvents, tickDecay, tickEscalation, st_when, st_exec, st_bind, random.
  simpl.
  qcase_lt (stability (cs w)) (rng w (rng_pos w) * 100); [lra|].
  qcase_lt (stability (cs w)) 15; [|lra]. simpl.
  qcase_lt (95 # 100) (rng w (S (rng_pos w))); [|lra]. simpl.
  now repeat split.
Qed.

(** ** The tick as the interval fires it *)

(** The world the tick runs in: the clock at the firing time, the
    interval re-armed; state, timers and draws are those of [w]. *)
Definition tick_world (w : World) : World :=
  with_interval (iv_next w + iv_period w) (iv_period w) (with_now (iv_next w) w).

Lemma fire_tick_run w : fire_tick w = rerender (tick_world w) (st_exec chaosTick (tick_world w)).
Proof. reflexivity. Qed.

(** in chaos mode every tick of the interval decays the stability by
    exactly half a point, clamped at 0, whatever the random draws. *)
Theorem tick_decay w :
  isChaosMode (cs w) = true ->
  stability (cs (fire_tick w)) = Stability.damageStability (1 # 2) (stability (cs w)).
Proof.
  intro Hc. rewrite fire_tick_run, cs_rerender. exact (chaosTick_decay (tick_world w) Hc).
Qed.

(** at full stability and out of chaos mode a tick of the interval
    changes neither the state nor the timers and consumes exactly one
    draw: the roll [Math.random() * 100] never exceeds 100. *)
Theorem tick_calm_at_full w :
  stability (cs w) == 100 -> isChaosMode (cs w) = false ->
  0 <= rng w (rng_pos w) < 1 ->
  cs (fire_tick w) = cs w /\ timers (fire_tick w) = timers w /\
  rng_pos (fire_tick w) = S (rng_pos w).
Proof.
  intros Hs Hc Hr. rewrite fire_tick_run, cs_rerender, timers_rerender, rng_pos_rerender.
  exact (chaosTick_calm_at_full (tick_world w) Hs Hc Hr).
Qed.

(** below 15 and out of chaos mode, when the roll brings no event
    and the third draw exceeds 0.95, one tick of the interval escalates to
    full chaos: chaos mode, tornado and power outage on, both toggles
    flipped, the stability unchanged. *)
Theorem tick_escalation w :
  isChaosMode (cs w) = false -> stability (cs w) < 15 ->
  rng w (rng_pos w) * 100 <= stability (cs w) ->
  95 # 100 < rng w (S (rng_pos w)) ->
  let c := cs (fire_tick w) in
  isChaosMode c = true /\ tornadoActive c = true /\ isPowerOutage c = true /\
  zeroGravityActive c = negb (zeroGravityActive (cs w)) /\
  continuousGlitchActive c = negb (continuousGlitchActive (cs w)) /\
  stability c = stability (cs w).
Proof.
  intros Hc Hs Hroll Hr. cbv zeta. rewrite fire_tick_run, cs_rerender.
  exact (chaosTick_escalation (tick_world w) Hc Hs Hroll Hr).
Qed.

(** ** Every reachable state *)

(** C1: from the mounted provider, whatever the draws of [Math.random]
    and whatever the components call, the stability stays in [0, 100] on
    the half-unit grid, and the glitch intensity stays in [0, 1]. *)
Theorem reachable_stability_invariant r w :
  star step (mount r) w ->
  Stability.in_bounds (stability (cs w)) /\ Stability.on_grid (stability (cs w)) /\
  0 <= glitchOf (cs w) <= 1.
Proof.
  intro Hs. destruct (star_wf _ _ (mount_wf r) Hs) as [[HB HG _ _ _] _ _].
  split; [exact HB|split; [exact HG|]]. now apply Signals.glitch_range.
Qed.

(** C3: a power outage or a tornado that is on in a reachable state always
    has the timer that switches it off pending, and that timer is not
    overdue. *)
Theorem reachable_effects_end r w :
  star step (mount r) w ->
  (isPowerOutage (cs w) = true ->
     exists id due, has_timer id due EndPowerOutage w /\ now w <= due) /\
  (tornadoActive (cs w) = true ->
     exists id due, has_timer id due EndTornado w /\ now w <= due).
Proof.
  intro Hs. destruct (star_wf _ _ (mount_wf r) Hs) as [[_ _ HQ HO HT] _ _].
  split; intro H; [destruct (HO H) as (id & due & P) | destruct (HT H) as (id & due & P)];
    exists id, due; split; eauto using Timers.pending_not_overdue.
Qed.

(** [isLoggingOut] is one-way: once true it stays true along every run. *)
Theorem logout_one_way w w' :
  star step w w' -> isLoggingOut (cs w) = true -> isLoggingOut (cs w') = true.
Proof.
  intros Hs H. apply (star_invariant step logging_out) with w; auto.
  intros a b Ha Hab. exact (step_keeps_logout a b Hab Ha).
Qed.

(** ** The chaotic logout *)

(** right after [triggerChaoticLogout] chaos mode, the tornado and the
    power outage are on, and zero gravity and the continuous glitch are
    flipped: a toggle that was already on is switched off. *)
Theorem chaotic_logout_immediate w :
  let c := cs (user_call CallTriggerChaoticLogout w) in
  isChaosMode c = true /\ tornadoActive c = true /\ isPowerOutage c = true /\
  zeroGravityActive c = negb (zeroGravityActive (cs w)) /\
  continuousGlitchActive c = negb (continuousGlitchActive (cs w)) /\
  isLoggingOut c = isLoggingOut (cs w) /\ stability c = stability (cs w).
Proof. unfold user_call, run_task. rewrite cs_rerender. now repeat split. Qed.

Lemma chaotic_logout_timer w0 :
  has_timer (S (S (Timers.next_id (timers w0)))) (now w0 + Qmax 0 2000) LogoutSequence
    (user_call CallTriggerChaoticLogout w0).
Proof.
  unfold has_timer, user_call, run_task. rewrite timers_rerender.
  unfold Timers.is_pending. simpl. apply in_or_app. right. now left.
Qed.

(** C4: once more than 2000 ms have passed since [triggerChaoticLogout],
    [isLoggingOut] is true, along every run of the page. *)
Theorem chaotic_logout_completes w0 w :
  wf w0 -> star step (user_call CallTriggerChaoticLogout w0) w ->
  now w0 + 2000 < now w -> isLoggingOut (cs w) = true.
Proof.
  intros Hwf Hs Hlt.
  apply (timer_fired step logging_out (S (S (Timers.next_id (timers w0))))
           (now w0 + Qmax 0 2000) LogoutSequence)
    with (w := user_call CallTriggerChaoticLogout w0); auto.
  - intros w1 _ _. unfold logging_out, fire_timer, run_task. now rewrite cs_rerender.
  - exact step_keeps_logout.
  - apply step_wf with w0; [exact Hwf | now apply step_call].
  - apply chaotic_logout_timer.
Qed.

(** ** Timed expiry of the power outage *)

(** A step that does not switch the power outage on. *)
Definition quiet (w w' : World) : Prop :=
  step w w' /\ (isPowerOutage (cs w') = true -> isPowerOutage (cs w) = true).

(** C5: after [triggerPowerOutage(d)], if nothing switches the outage on
    again, it is off at every time after [d] ms. *)
Theorem outage_expires w0 d w :
  wf w0 -> 0 <= d ->
  star quiet (user_call (CallTriggerPowerOutage (Some d)) w0) w ->
  now w0 + d < now w -> isPowerOutage (cs w) = false.
Proof.
  intros Hwf Hd Hs Hlt.
  apply (timer_fired quiet (fun w => isPowerOutage (cs w) = false)
           (Timers.next_id (timers w0)) (now w0 + Qmax 0 d) EndPowerOutage)
    with (w := user_call (CallTriggerPowerOutage (Some d)) w0); auto.
  - intros a b [Hab _]. exact Hab.
  - intros w1 _ _. unfold fire_timer, run_task. now rewrite cs_rerender.
  - intros a b [_ Hq] Ha. destruct (isPowerOutage (cs b)) eqn:E; auto.
    rewrite (Hq eq_refl) in Ha. discriminate.
  - apply step_wf with w0; [exact Hwf | now apply step_call].
  - unfold has_timer, user_call, run_task. rewrite timers_rerender.
    unfold Timers.is_pending. simpl. apply in_or_app. right. now left.
  - qsolve.
Qed.

(** ** Toggles *)

(** toggling zero gravity twice, as two separate calls, restores the
    page exactly, interval included. *)
Theorem toggle_zero_gravity_twice w :
  user_call CallToggleZeroGravity (user_call CallToggleZeroGravity w) = w.
Proof.
  destruct w as [[s c o l u t z g] n q nx p r k].
  unfold user_call, run_task, rerender, deps_changed, Qeqb. simpl.
  rewrite !Qeq_bool_refl. destruct c, z; reflexivity.
Qed.

(** ** Where the code departs from the specification *)

(** The stream of draws that are all 0: no roll ever exceeds the stability. *)
Definition zero_rng : nat -> Q := fun _ => 0.

Definition outage_twice_start : World :=
  user_call (CallTriggerPowerOutage (Some 5000)) (mount zero_rng).

(** the specification says a re-trigger restarts the deadline ("last
    trigger wins").  The code's first timer still fires: outages triggered
    for 5000 ms at 0 ms and again at 1000 ms are over at 5500 ms, on a real
    run of the page, while the second expiry (6000 ms) is still pending. *)
Theorem outage_retrigger_cut_short :
  match run_until 10 1000 outage_twice_start with
  | Some w2 =>
      match run_until 10 5500 (user_call (CallTriggerPowerOutage (Some 5000)) w2) with
      | Some w4 =>
          star step (mount zero_rng) w4 /\ now w4 = 5500 /\
          isPowerOutage (cs w4) = false /\ has_timer 1 6000 EndPowerOutage w4
      | None => False
      end
  | None => False
  end.
Proof.
  destruct (run_until 10 1000 outage_twice_start) as [w2|] eqn:E1;
    [|vm_compute in E1; discriminate].
  pose proof (run_until_star _ _ _ _ E1) as S1.
  vm_compute in E1. injection E1 as Hw2.
  destruct (run_until 10 5500 _) as [w4|] eqn:E2;
    [|rewrite <- Hw2 in E2; vm_compute in E2; discriminate].
  pose proof (run_until_star _ _ _ _ E2) as S2.
  split.
  - apply star_step with outage_twice_start; [now apply step_call|].
    eapply star_trans; [exact S1|].
    apply star_step with (user_call (CallTriggerPowerOutage (Some 5000)) w2);
      [now apply step_call | exact S2].
  - rewrite <- Hw2 in E2. vm_compute in E2. injection E2 as <-.
    split; [reflexivity|split; [reflexivity|]]. unfold has_timer, Timers.is_pending.
    vm_compute. now left.
Qed.

(** A component that damages the stability by 1 every two seconds. *)
Definition damage_round (w : World) : World :=
  user_call (CallDamageStability 1) (with_now (now w + 2000) w).

Fixpoint damage_rounds (n : nat) (w : World) : World :=
  match n with
  | O => w
  | S k => damage_rounds k (damage_round w)
  end.

Lemma damage_changes_stability s :
  1 <= s -> Qeqb s (Stability.damageStability 1 s) = false.
Proof.
  intro H. destruct (Qeqb _ _) eqn:E; [|reflexivity]. exfalso.
  apply Qeq_bool_iff in E. revert E. unfold Stability.damageStability. qminmax; lra.
Qed.

Lemma damage_round_spec w :
  Timers.pending (timers w) = [] -> iv_next w == now w + 3000 ->
  isChaosMode (cs w) = false -> 1 <= stability (cs w) ->
  star step w (damage_round w) /\
  Timers.pending (timers (damage_round w)) = [] /\
  iv_next (damage_round w) == now (damage_round w) + 3000 /\
  isChaosMode (cs (damage_round w)) = false /\
  stability (cs (damage_round w)) == stability (cs w) - 1 /\
  now (damage_round w) = now w + 2000 /\ rng_pos (damage_round w) = rng_pos w.
Proof.
  intros Hp Hiv Hc Hs.
  assert (Hd : deps_changed (cs (with_now (now w + 2000) w))
                 (cs (st_exec (damageStability 1) (with_now (now w + 2000) w))) = true).
  { unfold deps_changed. simpl. now rewrite damage_changes_stability. }
  split.
  { apply star_step with (with_now (now w + 2000) w).
    - apply step_wait; simpl; [lra|lra|rewrite Hp; constructor].
    - apply star_one. apply (step_call (CallDamageStability 1)). split; [discriminate|].
      exists 2%Z. reflexivity. }
  unfold damage_round, user_call, run_task, rerender. simpl in Hd |- *. rewrite Hd.
  simpl; rewrite Hp, Hc; repeat split; try reflexivity.
  - unfold Stability.damageStability. qsolve.
Qed.

Lemma damage_rounds_spec n w :
  Timers.pending (timers w) = [] -> iv_next w == now w + 3000 ->
  isChaosMode (cs w) = false -> inject_Z (Z.of_nat n) <= stability (cs w) ->
  star step w (damage_rounds n w) /\ rng_pos (damage_rounds n w) = rng_pos w /\
  now (damage_rounds n w) == now w + inject_Z (2000 * Z.of_nat n).
Proof.
  revert w. induction n as [|k IH]; intros w Hp Hiv Hc Hs.
  - simpl. split; [apply star_refl|split; [reflexivity|]]. rewrite Qplus_0_r. reflexivity.
  - rewrite Nat2Z.inj_succ, <- Z.add_1_r, inject_Z_plus in Hs.
    change (inject_Z 1) with 1 in Hs.
    assert (Hk : 0 <= inject_Z (Z.of_nat k)).
    { change 0 with (inject_Z 0). rewrite <- Zle_Qle. lia. }
    destruct (damage_round_spec w) as (S1 & Hp' & Hiv' & Hc' & Hs' & Hn & Hr);
      auto; [lra|].
    destruct (IH (damage_round w)) as (S2 & Hr2 & Hn2); auto; [rewrite Hs'; lra|].
    cbn [damage_rounds]. split; [eapply star_trans; eauto|split; [congruence|]].
    rewrite Hn2, Hn, Nat2Z.inj_succ, <- Z.add_1_r, Z.mul_add_distr_l, inject_Z_plus.
    change (inject_Z (2000 * 1)) with 2000. lra.
Qed.

(** the specification promises one scheduler tick every 3000 ms
    (1000 ms in chaos mode).  The interval is re-created whenever the
    stability changes, so a component damaging the stability every two
    seconds keeps the scheduler from ever running: after 85 such rounds
    (170 s) on a valid run of the page, [Math.random] has never been
    called, so no tick has fired. *)
Theorem periodic_damage_starves_scheduler r n :
  (n <= 85)%nat ->
  star step (mount r) (damage_rounds n (mount r)) /\
  rng_pos (damage_rounds n (mount r)) = 0%nat /\
  now (damage_rounds n (mount r)) == inject_Z (2000 * Z.of_nat n).
Proof.
  intro Hn. destruct (damage_rounds_spec n (mount r)) as (S & Hr & Hnow).
  - reflexivity.
  - vm_compute. reflexivity.
  - reflexivity.
  - apply Qle_trans with (inject_Z 85); [rewrite <- Zle_Qle; lia | vm_compute; discriminate].
  - split; [exact S|split; [exact Hr|]]. rewrite Hnow. simpl. lra.
Qed.

(** The context also exports React's raw [setStability] (line 144), which
    clamps nothing: one call with 150 leaves the range the specification
    says holds "after any mutation". *)
Theorem raw_setter_escapes_bounds r :
  stability (cs (user_call (CallSetStability (Stability.SetValue 150)) (mount r))) = 150 /\
  ~ Stability.in_bounds (stability (cs (user_call (CallSetStability (Stability.SetValue 150))
                                          (mount r)))).
Proof.
  unfold user_call, run_task. rewrite cs_rerender. simpl.
  split; [reflexivity|]. intros [_ H]. apply H. reflexivity.
Qed.

(** ** Witnesses: each theorem at a concrete run *)

Definition damaged_once : World := user_call (CallDamageStability 100) (mount zero_rng).

Lemma reachable_stability_invariant_witness :
  Stability.in_bounds (stability (cs damaged_once)) /\
  Stability.on_grid (stability (cs damaged_once)) /\ 0 <= glitchOf (cs damaged_once) <= 1.
Proof.
  apply (reachable_stability_invariant zero_rng damaged_once).
  apply star_one, (step_call (CallDamageStability 100)).
  split; [discriminate | exists 200%Z; reflexivity].
Defined.

Definition outage_once : World := user_call (CallTriggerPowerOutage None) (mount zero_rng).

Lemma reachable_effects_end_witness :
  exists id due, has_timer id due EndPowerOutage outage_once /\ now outage_once <= due.
Proof.
  apply (reachable_effects_end zero_rng outage_once).
  - apply star_one, (step_call (CallTriggerPowerOutage None)). exact I.
  - vm_compute. reflexivity.
Defined.

Definition logged_out : World := user_call CallTriggerLogoutSequence (mount zero_rng).

Lemma logout_one_way_witness :
  isLoggingOut (cs (user_call (CallSetChaosMode false) logged_out)) = true.
Proof.
  apply (logout_one_way logged_out).
  - apply star_one, (step_call (CallSetChaosMode false)). exact I.
  - vm_compute. reflexivity.
Defined.

Lemma chaotic_logout_completes_witness :
  match run_until 20 2500 (user_call CallTriggerChaoticLogout (mount zero_rng)) with
  | Some w => isLoggingOut (cs w) = true
  | None => False
  end.
Proof.
  destruct (run_until 20 2500 _) as [w|] eqn:E; [|vm_compute in E; discriminate].
  pose proof (run_until_star _ _ _ _ E) as Hs.
  vm_compute in E. injection E as Hw.
  apply (chaotic_logout_completes (mount zero_rng) w).
  - apply mount_wf.
  - exact Hs.
  - rewrite <- Hw. vm_compute. reflexivity.
Defined.

Lemma outage_expires_witness :
  isPowerOutage (cs (with_now 5500
    (fire_timer (Timers.mkTimer 0 5000 EndPowerOutage) (fire_tick outage_twice_start)))) = false.
Proof.
  apply (outage_expires (mount zero_rng) 5000).
  - apply mount_wf.
  - discriminate.
  - apply star_step with (fire_tick outage_twice_start).
    { split; [apply step_tick; vm_compute; repeat constructor; discriminate|].
      vm_compute. reflexivity. }
    apply star_step with (fire_timer (Timers.mkTimer 0 5000 EndPowerOutage)
                                     (fire_tick outage_twice_start)).
    { split; [apply step_timer; vm_compute; [reflexivity|discriminate]|].
      vm_compute. discriminate. }
    apply star_one. split; [|vm_compute; discriminate].
    apply step_wait; vm_compute; [discriminate|discriminate|constructor].
  - vm_compute. reflexivity.
Defined.

Definition chaos_world : World := user_call (CallSetChaosMode true) (mount zero_rng).

Lemma tick_decay_witness :
  stability (cs (fire_tick chaos_world)) =
  Stability.damageStability (1 # 2) (stability (cs chaos_world)).
Proof. apply tick_decay. vm_compute. reflexivity. Defined.

Definition full_world : World := user_call (CallRepairStability 15) (mount zero_rng).

Lemma tick_calm_at_full_witness :
  cs (fire_tick full_world) = cs full_world /\
  timers (fire_tick full_world) = timers full_world /\
  rng_pos (fire_tick full_world) = S (rng_pos full_world).
Proof.
  apply tick_calm_at_full; vm_compute; [reflexivity|reflexivity|split; [discriminate|reflexivity]].
Defined.

(** The draws 0 then 0.99: no event, then escalation. *)
Definition escalation_rng (n : nat) : Q := if Nat.eqb n 1 then 99 # 100 else 0.

Definition low_world : World :=
  user_call (CallDamageStability 80) (mount escalation_rng).

Lemma tick_escalation_witness :
  let c := cs (fire_tick low_world) in
  isChaosMode c = true /\ tornadoActive c = true /\ isPowerOutage c = true /\
  zeroGravityActive c = negb (zeroGravityActive (cs low_world)) /\
  continuousGlitchActive c = negb (continuousGlitchActive (cs low_world)) /\
  stability c = stability (cs low_world).
Proof.
  apply tick_escalation; vm_compute; [reflexivity|reflexivity|discriminate|reflexivity].
Defined.

Lemma periodic_damage_starves_scheduler_witness :
  star step (mount zero_rng) (damage_rounds 85 (mount zero_rng)) /\
  rng_pos (damage_rounds 85 (mount zero_rng)) = 0%nat /\
  now (damage_rounds 85 (mount zero_rng)) == inject_Z (2000 * Z.of_nat 85).
Proof. apply periodic_damage_starves_scheduler. lia. Defined.

End ChaosRun.
