(* ===== verification/Achievements.v ===== *)
(** * The achievement provider of [components/AchievementSystem.tsx]

    The provider keeps the list of achievements (initially the ten of
    [INITIAL_ACHIEVEMENTS], lines 27-145), the notification on display,
    and mirrors the list into [localStorage['arcade-achievements']] with two
    effects (lines 152-166).  [unlockAchievement] and [updateProgress]
    (lines 168-196) rewrite the list with [prev.map], calling
    [showAchievementNotification] (lines 206-209) from inside the map for
    every achievement they unlock; that function shows the notification
    and schedules a 4000 ms [setTimeout] that clears it, never cancelled.

    The provider is a record with its own clock and timer queue (the one of
    [Timers.v]); every handler is a computation of the state monad of the
    prelude followed by the commit of React, which runs the save effect
    because [prev.map] always returns a new array. *)

From S2P Require Import Prelude Timers.
From Stdlib Require Import QArith Qminmax Lqa List String Bool Lia.
Import ListNotations.

Open Scope string_scope.
Open Scope Q_scope.
Open Scope chaos_scope.

Module Achievements.

(** ** Data (lines 4-14 and 27-145) *)

Inductive Category := games | chaos | repairs | special.

Record Achievement := mkAchievement {
  id : string;
  name : string;
  description : string;
  icon : string;
  requirement : Q;
  current : Q;
  unlocked : bool;
  category : Category;
  reward : option string
}.

Definition INITIAL_ACHIEVEMENTS : list Achievement := [
  mkAchievement "first_game" "GAME STARTER" "Play your first arcade game" "🎮"
    1 0 false games (Some "+5 Stability");
  mkAchievement "snake_master" "SNAKE CHAOS MASTER" "Score 100 points in Snake Chaos" "🐍"
    100 0 false games (Some "+10 Stability");
  mkAchievement "breaker_pro" "GLITCH BREAKER PRO" "Score 200 points in Glitch Breaker" "🧱"
    200 0 false games (Some "+10 Stability");
  mkAchievement "memory_champion" "CHAOS MEMORY CHAMPION"
    "Complete Chaos Memory in under 30 seconds" "🧠"
    30 0 false games (Some "+15 Stability");
  mkAchievement "chaos_novice" "CHAOS NOVICE" "Survive 5 minutes with stability below 30%" "⚡"
    300 0 false chaos (Some "Unlock Extreme Chaos Mode");
  mkAchievement "glitch_survivor" "GLITCH SURVIVOR" "Experience 50 glitch events" "🌀"
    50 0 false chaos (Some "+8 Stability");
  mkAchievement "repair_apprentice" "REPAIR APPRENTICE" "Complete 10 repairs" "🔧"
    10 0 false repairs (Some "+12 Stability");
  mkAchievement "forge_master" "FORGE MASTER" "Complete a repair with 100% accuracy" "⚒️"
    100 0 false repairs (Some "+20 Stability");
  mkAchievement "character_collector" "CHARACTER COLLECTOR" "Select all available characters" "👥"
    8 0 false special (Some "Unlock Secret Character");
  mkAchievement "logout_chaos" "CHAOTIC EXIT" "Experience the chaotic logout sequence" "🚪"
    1 0 false special (Some "+5 Stability")
].

(** [{ ...achievement, unlocked: true, current: c }] and its parts. *)
Definition with_progress (u : bool) (c : Q) (a : Achievement) : Achievement :=
  mkAchievement (id a) (name a) (description a) (icon a) (requirement a) c u
    (category a) (reward a).

(** The item [localStorage['arcade-achievements']]: absent, the JSON of a
    list, or a string [JSON.parse] rejects. *)
Inductive Stored := Missing | Saved (l : list Achievement) | Unparsable.

(** The only callback the provider schedules: [() => setNotification(null)]. *)
Inductive Callback := ClearNotification.

Record Provider := mkProvider {
  achievements : list Achievement;
  notification : option Achievement;
  clock : Q;
  timers : Timers.queue Callback;
  storage : Stored
}.

Definition set_achievements l p :=
  mkProvider l (notification p) (clock p) (timers p) (storage p).
Definition set_notification n p :=
  mkProvider (achievements p) n (clock p) (timers p) (storage p).
Definition set_timers q p :=
  mkProvider (achievements p) (notification p) (clock p) q (storage p).
Definition set_clock t p :=
  mkProvider (achievements p) (notification p) t (timers p) (storage p).
Definition set_storage s p :=
  mkProvider (achievements p) (notification p) (clock p) (timers p) s.

(** ** Handlers *)

(** Lines 206-209: [setNotification(a); setTimeout(() => setNotification(null), 4000)]. *)
Definition showAchievementNotification (a : Achievement) : St Provider unit :=
  st_modify (fun p =>
    set_timers (Timers.setTimeout (clock p) 4000 ClearNotification (timers p))
      (set_notification (Some a) p)).

(** The callback of [prev.map] in [unlockAchievement] (lines 170-176). *)
Definition unlock_cb (aid : string) (a : Achievement) : St Provider Achievement :=
  if String.eqb (id a) aid && negb (unlocked a) then
    showAchievementNotification (with_progress true (current a) a) ;;
    st_ret (with_progress true (requirement a) a)
  else st_ret a.

(** The callback of [prev.map] in [updateProgress] (lines 183-193). *)
Definition progress_cb (aid : string) (progress : Q) (a : Achievement)
    : St Provider Achievement :=
  if String.eqb (id a) aid && negb (unlocked a) then
    let newCurrent := Qmin progress (requirement a) in
    if requirement a <=? newCurrent then
      showAchievementNotification (with_progress true newCurrent a) ;;
      st_ret (with_progress true newCurrent a)
    else st_ret (with_progress false newCurrent a)
  else st_ret a.

(** [setAchievements(prev => prev.map(f))]: the updater runs against the
    current list and its result becomes the new list. *)
Definition update_list (f : list Achievement -> St Provider (list Achievement))
    : St Provider unit :=
  p <- st_get ;;
  l <- f (achievements p) ;;
  st_modify (set_achievements l).

Definition unlockAchievement (aid : string) : St Provider unit :=
  update_list (st_mapM (unlock_cb aid)).

Definition updateProgress (aid : string) (progress : Q) : St Provider unit :=
  update_list (st_mapM (progress_cb aid progress)).

(** Lines 198-204. *)
Definition getUnlockedCount (p : Provider) : nat :=
  List.length (filter unlocked (achievements p)).

Definition getTotalCount (p : Provider) : nat := List.length (achievements p).

(** ** Persistence effects (lines 152-166) *)

(** The save effect: [localStorage.setItem(key, JSON.stringify(achievements))]. *)
Definition saveEffect (p : Provider) : Provider := set_storage (Saved (achievements p)) p.

(** The load effect: a parsed list replaces the state; a missing item or
    one that does not parse leaves it. *)
Definition loaded (s : Stored) : option (list Achievement) :=
  match s with Saved l => Some l | _ => None end.

(** Mounting over the item [s].  The effects of the first commit run in
    order: the load effect reads [s], then the save effect writes the
    initial list; when the load effect set a list, the re-render commits
    it and the save effect writes it. *)
Definition mount (s : Stored) : Provider :=
  let first := mkProvider INITIAL_ACHIEVEMENTS None 0 Timers.empty_queue
                 (Saved INITIAL_ACHIEVEMENTS) in
  match loaded s with
  | Some l => saveEffect (set_achievements l first)
  | None => first
  end.

(** ** Runs *)

Inductive Call :=
  | CallUnlock (aid : string)
  | CallUpdateProgress (aid : string) (progress : Q)
  | CallShowNotification (a : Achievement).

Definition callHandler (c : Call) : St Provider unit :=
  match c with
  | CallUnlock aid => unlockAchievement aid
  | CallUpdateProgress aid pr => updateProgress aid pr
  | CallShowNotification a => showAchievementNotification a
  end.

(** A call of the context value, then React's commit.  Only the two list
    updaters change [achievements] and so re-run the save effect. *)
Definition user_call (c : Call) (p : Provider) : Provider :=
  let p' := st_exec (callHandler c) p in
  match c with
  | CallShowNotification _ => p'
  | _ => saveEffect p'
  end.

Definition fire_timer (t : Timers.timer Callback) (p : Provider) : Provider :=
  set_notification None
    (set_timers (Timers.clearTimeout (Timers.t_id t) (timers p)) (set_clock (Timers.t_due t) p)).

Inductive step : Provider -> Provider -> Prop :=
  | step_call c p : step p (user_call c p)
  | step_timer t p :
      Timers.earliest (Timers.pending (timers p)) = Some t -> step p (fire_timer t p)
  | step_wait t p :
      clock p <= t -> Forall (fun u => t <= Timers.t_due u) (Timers.pending (timers p)) ->
      step p (set_clock t p).

(** The executable run up to time [T]: fire due timers in order, then
    advance the clock. *)
Fixpoint run_until (fuel : nat) (T : Q) (p : Provider) : option Provider :=
  match fuel with
  | O => None
  | S f =>
      match Timers.earliest (Timers.pending (timers p)) with
      | Some t =>
          if Timers.t_due t <=? T then run_until f T (fire_timer t p)
          else if clock p <=? T then Some (set_clock T p) else Some p
      | None => if clock p <=? T then Some (set_clock T p) else Some p
      end
  end.

(** ** The lists the two maps compute *)

Definition unlock_one (aid : string) (a : Achievement) : Achievement :=
  if String.eqb (id a) aid && negb (unlocked a)
  then with_progress true (requirement a) a else a.

Definition progress_one (aid : string) (progress : Q) (a : Achievement) : Achievement :=
  if String.eqb (id a) aid && negb (unlocked a) then
    let newCurrent := Qmin progress (requirement a) in
    with_progress (requirement a <=? newCurrent) newCurrent a
  else a.

Lemma unlock_cb_value aid a p : fst (unlock_cb aid a p) = unlock_one aid a.
Proof. unfold unlock_cb, unlock_one. now destruct (_ && _). Qed.

Lemma progress_cb_value aid pr a p : fst (progress_cb aid pr a p) = progress_one aid pr a.
Proof.
  unfold progress_cb, progress_one. destruct (_ && _); [|reflexivity].
  cbv zeta. now destruct (requirement a <=? Qmin pr (requirement a)).
Qed.

Lemma update_list_exec f p :
  st_exec (update_list f) p =
  set_achievements (fst (f (achievements p) p)) (snd (f (achievements p) p)).
Proof. unfold update_list, st_exec, st_bind, st_get. simpl. now destruct (f _ p). Qed.

(** What a call does to the list and to the item in storage. *)
Lemma user_call_achievements c p :
  achievements (user_call c p) =
  match c with
  | CallUnlock aid => map (unlock_one aid) (achievements p)
  | CallUpdateProgress aid pr => map (progress_one aid pr) (achievements p)
  | CallShowNotification _ => achievements p
  end.
Proof.
  destruct c; simpl; unfold unlockAchievement, updateProgress;
    rewrite ?update_list_exec; simpl; try reflexivity;
    apply st_mapM_value; auto using unlock_cb_value, progress_cb_value.
Qed.

Lemma user_call_storage c p :
  storage (user_call c p) =
  match c with CallShowNotification _ => storage p | _ => Saved (achievements (user_call c p)) end.
Proof. destruct c; reflexivity. Qed.

(** The frame of the callbacks: they touch only the notification and the
    timers. *)
Definition frame_is (l : list Achievement) (t : Q) (s : Stored) (p : Provider) : Prop :=
  achievements p = l /\ clock p = t /\ storage p = s.

Lemma show_frame l t s a : st_preserves (frame_is l t s) (showAchievementNotification a).
Proof. apply st_preserves_modify. intros p H. exact H. Qed.

Lemma unlock_cb_frame l t s aid a : st_preserves (frame_is l t s) (unlock_cb aid a).
Proof. unfold unlock_cb. destruct (_ && _); eauto using show_frame with chaos. Qed.

Lemma progress_cb_frame l t s aid pr a : st_preserves (frame_is l t s) (progress_cb aid pr a).
Proof.
  unfold progress_cb. destruct (_ && _); [cbv zeta; destruct (_ <=? _)|];
    eauto using show_frame with chaos.
Qed.

#[export] Hint Resolve show_frame unlock_cb_frame progress_cb_frame : chaos.

Lemma mapM_clock {B} (f : Achievement -> St Provider B) l p :
  (forall a l t s, st_preserves (frame_is l t s) (f a)) ->
  clock (snd (st_mapM f l p)) = clock p.
Proof.
  intro Hf.
  destruct (st_preserves_mapM (frame_is (achievements p) (clock p) (storage p)) f l
              (fun a => Hf a _ _ _) p) as (_ & H & _); [now repeat split | exact H].
Qed.

Lemma user_call_clock c p : clock (user_call c p) = clock p.
Proof.
  destruct c; simpl; unfold unlockAchievement, updateProgress;
    rewrite ?update_list_exec; simpl; try reflexivity;
    apply mapM_clock; auto with chaos.
Qed.

(** ** The invariant *)

(** An achievement never shows more progress than its requirement, and an
    unlocked one shows exactly its requirement. *)
Definition ach_wf (a : Achievement) : Prop :=
  current a <= requirement a /\ (unlocked a = true -> current a == requirement a).

Lemma unlock_one_wf aid a : ach_wf a -> ach_wf (unlock_one aid a).
Proof.
  unfold unlock_one. destruct (_ && _); [|auto]. intros _. split; simpl; [lra|reflexivity].
Qed.

Lemma progress_one_wf aid pr a : ach_wf a -> ach_wf (progress_one aid pr a).
Proof.
  unfold progress_one. destruct (_ && _); [|auto]. intros _. cbv zeta.
  split; simpl; [apply Qmin_le_r|]. rewrite Qleb_iff. intro H.
  pose proof (Qmin_le_r pr (requirement a)). lra.
Qed.

Lemma map_wf (f : Achievement -> Achievement) l :
  (forall a, ach_wf a -> ach_wf (f a)) -> Forall ach_wf l -> Forall ach_wf (map f l).
Proof. intros Hf H. apply Forall_map. eapply Forall_impl; [exact Hf | exact H]. Qed.

Definition notif_ok (p : Provider) : Prop :=
  notification p <> None ->
  exists tid due, Timers.is_pending tid due ClearNotification (timers p).

(** What the handlers keep about the clock, the timers and the
    notification. *)
Definition tn_ok (t : Q) (p : Provider) : Prop :=
  clock p = t /\ Timers.queue_wf t (timers p) /\ notif_ok p.

Lemma show_tn t a : st_preserves (tn_ok t) (showAchievementNotification a).
Proof.
  apply st_preserves_modify. intros p (Ht & Hq & _). subst t.
  split; [reflexivity|split]; [now apply Timers.setTimeout_wf|].
  intros _. do 2 eexists. apply Timers.setTimeout_new.
Qed.

Lemma unlock_cb_tn t aid a : st_preserves (tn_ok t) (unlock_cb aid a).
Proof. unfold unlock_cb. destruct (_ && _); eauto using show_tn with chaos. Qed.

Lemma progress_cb_tn t aid pr a : st_preserves (tn_ok t) (progress_cb aid pr a).
Proof.
  unfold progress_cb. destruct (_ && _); [cbv zeta; destruct (_ <=? _)|];
    eauto using show_tn with chaos.
Qed.

#[export] Hint Resolve show_tn unlock_cb_tn progress_cb_tn : chaos.

Lemma user_call_tn c p : tn_ok (clock p) p -> tn_ok (clock p) (user_call c p).
Proof.
  intro H. destruct c; simpl; unfold unlockAchievement, updateProgress;
    rewrite ?update_list_exec; [| |now apply show_tn];
    apply (st_preserves_mapM (tn_ok (clock p))); auto with chaos.
Qed.

(** The invariant of every reachable provider. *)
Record inv (p : Provider) : Prop := {
  inv_wf : Forall ach_wf (achievements p);
  inv_saved : storage p = Saved (achievements p);
  inv_tn : tn_ok (clock p) p
}.

(** What the provider may find in storage: nothing, garbage, or a list it
    wrote itself. *)
Definition stored_ok (s : Stored) : Prop :=
  match s with Saved l => Forall ach_wf l | _ => True end.

Lemma initial_wf : Forall ach_wf INITIAL_ACHIEVEMENTS.
Proof. repeat constructor; simpl; try discriminate; lra. Qed.

Lemma mount_inv s : stored_ok s -> inv (mount s).
Proof.
  intro Hs. assert (Htn : forall l, tn_ok 0 (mkProvider l None 0 Timers.empty_queue (Saved l))).
  { intro l. split; [reflexivity|split]; [split; constructor|]. intro H. now destruct H. }
  destruct s as [|l|]; simpl in *; (split; [..|apply Htn]); auto using initial_wf.
Qed.

Lemma step_inv p p' : inv p -> step p p' -> inv p'.
Proof.
  intros [Hwf Hs Htn] Hst. destruct Hst as [c p|t p He|t p Hle Hall].
  - split.
    + rewrite user_call_achievements.
      destruct c; auto using map_wf, unlock_one_wf, progress_one_wf.
    + rewrite user_call_storage. destruct c; auto.
    + rewrite user_call_clock. now apply user_call_tn.
  - destruct Htn as (_ & Hq & _). split; simpl; auto.
    split; [reflexivity|split]; [now apply Timers.fire_earliest_wf with (clock p)|].
    intro H. now destruct H.
  - destruct Htn as (_ & Hq & Hn). split; simpl; auto.
    split; [reflexivity|split; [|exact Hn]]. now apply Timers.queue_wf_advance with (clock p).
Qed.

Lemma star_inv s p : stored_ok s -> star step (mount s) p -> inv p.
Proof.
  intros Hs Hst. apply (star_invariant step inv) with (mount s); [exact step_inv | exact Hst | now apply mount_inv].
Qed.

(** ** Ids, counts and the one-way unlock *)

Lemma with_progress_id u c a : id (with_progress u c a) = id a.
Proof. reflexivity. Qed.

Lemma unlock_one_id aid a : id (unlock_one aid a) = id a.
Proof. unfold unlock_one. now destruct (_ && _). Qed.

Lemma progress_one_id aid pr a : id (progress_one aid pr a) = id a.
Proof. unfold progress_one. now destruct (_ && _). Qed.

Lemma unlock_one_keeps aid a : unlocked a = true -> unlocked (unlock_one aid a) = true.
Proof. unfold unlock_one. now destruct (_ && _). Qed.

Lemma progress_one_keeps aid pr a : unlocked a = true -> unlocked (progress_one aid pr a) = true.
Proof. unfold progress_one. intro H. rewrite H, andb_false_r. exact H. Qed.

(** One list is the other with every unlocked entry still unlocked. *)
Definition grows (l l' : list Achievement) : Prop :=
  map id l' = map id l /\ Forall2 (fun a b => unlocked a = true -> unlocked b = true) l l'.

Lemma grows_refl l : grows l l.
Proof. split; [reflexivity|]. induction l; constructor; auto. Qed.

Lemma grows_trans l1 l2 l3 : grows l1 l2 -> grows l2 l3 -> grows l1 l3.
Proof.
  intros [H1 F1] [H2 F2]. split; [congruence|].
  clear H1 H2. revert l3 F2.
  induction F1 as [|a b l l' Hab _ IH]; intros l3 F2; inversion F2; subst; constructor; auto.
Qed.

Lemma grows_map (f : Achievement -> Achievement) l :
  (forall a, id (f a) = id a) -> (forall a, unlocked a = true -> unlocked (f a) = true) ->
  grows l (map f l).
Proof.
  intros Hid Hu. split.
  - rewrite map_map. apply map_ext. exact Hid.
  - induction l; constructor; auto.
Qed.

Lemma count_grows l l' :
  grows l l' -> (List.length (filter unlocked l) <= List.length (filter unlocked l'))%nat.
Proof.
  intros [_ F]. induction F as [|a b l l' Hab _ IH]; [reflexivity|]. simpl.
  destruct (unlocked a); [rewrite (Hab eq_refl); simpl; lia|].
  destruct (unlocked b); simpl; lia.
Qed.

Lemma step_grows p p' : step p p' -> grows (achievements p) (achievements p').
Proof.
  destruct 1; [rewrite user_call_achievements; destruct c|..]; simpl;
    auto using grows_map, grows_refl, unlock_one_id, progress_one_id,
      unlock_one_keeps, progress_one_keeps.
Qed.

Lemma star_grows p p' : star step p p' -> grows (achievements p) (achievements p').
Proof.
  induction 1; eauto using grows_refl, grows_trans, step_grows.
Qed.

(** ** Properties of the provider *)

(** C6: in every provider reachable from a mount over an item the
    provider could have written, no achievement shows more progress than
    its requirement, an unlocked one shows exactly its requirement, and the
    unlocked count never exceeds the total. *)
Theorem reachable_achievements_wf s p :
  stored_ok s -> star step (mount s) p ->
  Forall ach_wf (achievements p) /\ (getUnlockedCount p <= getTotalCount p)%nat.
Proof.
  intros Hs Hst. split; [exact (inv_wf _ (star_inv s p Hs Hst))|].
  unfold getUnlockedCount, getTotalCount. apply filter_length_le.
Qed.

(** C7: what the provider writes to [localStorage] is what it reads back:
    mounting again over the item of a reachable provider restores its
    list exactly. *)
Theorem reload_roundtrip s p :
  stored_ok s -> star step (mount s) p -> achievements (mount (storage p)) = achievements p.
Proof.
  intros Hs Hst. rewrite (inv_saved _ (star_inv s p Hs Hst)). reflexivity.
Qed.

(** along every run an unlocked achievement stays unlocked, the ids
    and their order never change, and the unlocked count never decreases. *)
Theorem unlock_one_way p p' :
  star step p p' ->
  map id (achievements p') = map id (achievements p) /\
  Forall2 (fun a b => unlocked a = true -> unlocked b = true) (achievements p) (achievements p') /\
  (getUnlockedCount p <= getUnlockedCount p')%nat.
Proof.
  intro Hst. destruct (star_grows p p' Hst) as [Hid HF].
  split; [exact Hid|split; [exact HF|]]. now apply count_grows.
Qed.

(** a notification on display always has its clearing timer pending,
    not overdue. *)
Theorem notification_cleared s p :
  stored_ok s -> star step (mount s) p -> notification p <> None ->
  exists tid due, Timers.is_pending tid due ClearNotification (timers p) /\ clock p <= due.
Proof.
  intros Hs Hst Hn. destruct (inv_tn _ (star_inv s p Hs Hst)) as (_ & Hq & Hok).
  destruct (Hok Hn) as (tid & due & Hp). exists tid, due.
  split; [exact Hp|]. exact (Timers.pending_not_overdue _ _ _ _ _ Hq Hp).
Qed.

(** [unlockAchievement(aid)] unlocks every entry with that id, at
    full progress, and leaves every other entry as it was. *)
Theorem unlockAchievement_spec p aid i a :
  inv p -> nth_error (achievements p) i = Some a ->
  exists a', nth_error (achievements (user_call (CallUnlock aid) p)) i = Some a' /\
    id a' = id a /\
    (id a = aid -> unlocked a' = true /\ current a' == requirement a') /\
    (id a <> aid -> a' = a).
Proof.
  intros Hinv Hi. rewrite user_call_achievements, nth_error_map, Hi. simpl.
  exists (unlock_one aid a). split; [reflexivity|split; [apply unlock_one_id|]].
  assert (Hwf : ach_wf a).
  { eapply Forall_forall; [exact (inv_wf _ Hinv)|]. eapply nth_error_In; eauto. }
  unfold unlock_one. destruct (String.eqb_spec (id a) aid) as [E|E]; simpl.
  - split; [|intro; contradiction]. intros _. destruct (unlocked a) eqn:U; simpl.
    + split; [exact U|]. now apply Hwf.
    + split; reflexivity.
  - split; [intro; contradiction|reflexivity].
Qed.

(** [updateProgress(aid, progress)] on a locked entry sets its
    progress to [min(progress, requirement)] and unlocks it exactly when the
    progress reaches the requirement; unlocked entries and other ids are
    left as they were. *)
Theorem updateProgress_spec p aid pr i a :
  nth_error (achievements p) i = Some a ->
  exists a', nth_error (achievements (user_call (CallUpdateProgress aid pr) p)) i = Some a' /\
    (id a = aid -> unlocked a = false ->
       current a' == Qmin pr (requirement a) /\ (unlocked a' = true <-> requirement a <= pr)) /\
    (id a <> aid \/ unlocked a = true -> a' = a).
Proof.
  intros Hi. rewrite user_call_achievements, nth_error_map, Hi. simpl.
  exists (progress_one aid pr a). split; [reflexivity|]. unfold progress_one.
  destruct (String.eqb_spec (id a) aid) as [E|E], (unlocked a) eqn:U; simpl;
    (split; [intros H1 H2; try congruence|intros [H|H]; congruence]).
  split; [reflexivity|]. simpl. rewrite Qleb_iff.
  split; intro H; revert H; qsolve.
Qed.

(** ** Where the code departs from what it means *)

(** every notification is meant to stay 4000 ms, but the timer of an
    earlier one is not cancelled: unlocking [first_game] at 0 ms and
    [logout_chaos] at 3000 ms takes the second notification down at
    4000 ms, after 1000 ms, while its own timer is still pending. *)
Theorem notification_cut_short :
  match run_until 5 3000 (user_call (CallUnlock "first_game") (mount Missing)) with
  | Some p2 =>
      let p3 := user_call (CallUnlock "logout_chaos") p2 in
      option_map id (notification p3) = Some "logout_chaos" /\
      match run_until 5 4000 p3 with
      | Some p4 =>
          clock p4 == 4000 /\ notification p4 = None /\
          Timers.is_pending 1 7000 ClearNotification (timers p4)
      | None => False
      end
  | None => False
  end.
Proof.
  vm_compute. split; [reflexivity|]. split; [reflexivity|split; [reflexivity|]].
  now left.
Qed.

(** progress is not monotone: a later [updateProgress] with a smaller
    value moves an achievement back. *)
Theorem progress_can_regress :
  let p := user_call (CallUpdateProgress "snake_master" 10)
             (user_call (CallUpdateProgress "snake_master" 50) (mount Missing)) in
  option_map current (nth_error (achievements p) 1) = Some 10.
Proof. vm_compute. reflexivity. Qed.

(** ** Witnesses *)

Lemma reachable_achievements_wf_witness :
  Forall ach_wf (achievements (user_call (CallUnlock "first_game") (mount Missing))) /\
  (getUnlockedCount (user_call (CallUnlock "first_game") (mount Missing)) <=
   getTotalCount (user_call (CallUnlock "first_game") (mount Missing)))%nat.
Proof.
  apply reachable_achievements_wf with Missing; [exact I|].
  apply star_one. apply step_call.
Defined.

Lemma reload_roundtrip_witness :
  achievements (mount (storage (user_call (CallUnlock "first_game") (mount Missing)))) =
  achievements (user_call (CallUnlock "first_game") (mount Missing)).
Proof.
  apply reload_roundtrip with Missing; [exact I|].
  apply star_one. apply step_call.
Defined.

Lemma unlock_one_way_witness :
  let p := mount Missing in
  let p' := user_call (CallUnlock "first_game") p in
  map id (achievements p') = map id (achievements p) /\
  Forall2 (fun a b => unlocked a = true -> unlocked b = true) (achievements p) (achievements p') /\
  (getUnlockedCount p <= getUnlockedCount p')%nat.
Proof. apply unlock_one_way. apply star_one. apply step_call. Defined.

Lemma notification_cleared_witness :
  exists tid due, Timers.is_pending tid due ClearNotification
    (timers (user_call (CallUnlock "first_game") (mount Missing))) /\
    clock (user_call (CallUnlock "first_game") (mount Missing)) <= due.
Proof.
  apply notification_cleared with Missing; [exact I| |discriminate].
  apply star_one. apply step_call.
Defined.

Lemma unlockAchievement_spec_witness :
  match nth_error INITIAL_ACHIEVEMENTS 0 with
  | Some a =>
      exists a', nth_error (achievements (user_call (CallUnlock "first_game") (mount Missing))) 0
                   = Some a' /\
        id a' = id a /\
        (id a = "first_game" -> unlocked a' = true /\ current a' == requirement a') /\
        (id a <> "first_game" -> a' = a)
  | None => False
  end.
Proof.
  apply (unlockAchievement_spec (mount Missing) "first_game" 0);
    [apply mount_inv; exact I | reflexivity].
Defined.

Lemma updateProgress_spec_witness :
  match nth_error INITIAL_ACHIEVEMENTS 1 with
  | Some a =>
      exists a', nth_error (achievements
                   (user_call (CallUpdateProgress "snake_master" 120) (mount Missing))) 1 = Some a' /\
        (id a = "snake_master" -> unlocked a = false ->
           current a' == Qmin 120 (requirement a) /\ (unlocked a' = true <-> requirement a <= 120)) /\
        (id a <> "snake_master" \/ unlocked a = true -> a' = a)
  | None => False
  end.
Proof. apply (updateProgress_spec (mount Missing) "snake_master" 120 1). reflexivity. Defined.

End Achievements.
