(* ===== verification/Leaderboard.v ===== *)
(** * The leaderboard of [components/DailyChallenges.tsx]

    Entries (lines 17-24), the random board the provider starts with
    ([generateLeaderboard], lines 145-166) and [addLeaderboardEntry]
    (lines 241-259): append, sort by descending score, number the ranks,
    keep the first 50.

    [Array.prototype.sort] is stable (ECMAScript 2019), so its result is
    determined by the comparator [(a, b) => b.score - a.score]: the model
    sorts by insertion, and [js_sort_iff] shows that a list is a stable
    descending sort of the input exactly when it is the model's. *)

From S2P Require Import Prelude.
From Stdlib Require Import QArith Qround Lqa List Sorted Permutation String Bool Lia Arith.
Import ListNotations.

Open Scope string_scope.
Open Scope Q_scope.
Open Scope chaos_scope.

Module Leaderboard.

(** ** Entries *)

(** The two shapes of [id]: [`leader-${i}`] and [`entry-${Date.now()}-${Math.random()}`]. *)
Inductive EntryId := LeaderId (i : nat) | NewEntryId (t r : Q).

Record LeaderboardEntry := mkEntry {
  id : EntryId;
  playerName : string;
  score : Q;
  game : string;
  date : Q;
  rank : nat
}.

(** [{ ...entry, rank: n }] *)
Definition set_rank (n : nat) (e : LeaderboardEntry) : LeaderboardEntry :=
  mkEntry (id e) (playerName e) (score e) (game e) (date e) n.

(** The comparator [(a, b) => b.score - a.score]. *)
Definition cmp (a b : LeaderboardEntry) : Q := score b - score a.

(** ** Sorting *)

(** Insert [e] before the first entry that the comparator puts after it. *)
Fixpoint insert_entry (e : LeaderboardEntry) (l : list LeaderboardEntry) : list LeaderboardEntry :=
  match l with
  | [] => [e]
  | x :: r => if 0 <? cmp x e then e :: x :: r else x :: insert_entry e r
  end.

(** [.sort((a, b) => b.score - a.score)] *)
Definition sort_entries (l : list LeaderboardEntry) : list LeaderboardEntry :=
  fold_left (fun acc e => insert_entry e acc) l [].

(** [.map((entry, index) => ({ ...entry, rank: index + 1 }))] *)
Fixpoint rank_from (k : nat) (l : list LeaderboardEntry) : list LeaderboardEntry :=
  match l with
  | [] => []
  | e :: r => set_rank (S k) e :: rank_from (S k) r
  end.

Definition rerank (l : list LeaderboardEntry) : list LeaderboardEntry := rank_from 0 l.

(** ** [addLeaderboardEntry] (lines 241-259) *)

(** The new entry: its id from [Date.now()] and one [Math.random()] draw. *)
Definition newEntry (playerName : string) (score : Q) (game : string) (now r : Q)
    : LeaderboardEntry :=
  mkEntry (NewEntryId now r) playerName score game now 0.

(** The updater passed to [setLeaderboard]. *)
Definition addLeaderboardEntry (playerName : string) (score : Q) (game : string) (now r : Q)
    (prev : list LeaderboardEntry) : list LeaderboardEntry :=
  firstn 50 (rerank (sort_entries (prev ++ [newEntry playerName score game now r]))).

(** ** [generateLeaderboard] (lines 145-166) *)

Definition games : list string := ["Snake Chaos"; "Glitch Breaker"; "Chaos Memory"].

Definition names : list string :=
  ["CYBER_NINJA"; "GLITCH_HUNTER"; "ARCADE_MASTER"; "CHAOS_SURVIVOR";
   "PIXEL_WARRIOR"; "NEON_RACER"; "DIGITAL_PHANTOM"; "RETRO_LEGEND"].

(** [xs[Math.floor(r * xs.length)]]; an index out of range would be
    [undefined], here [""]. *)
Definition pick (xs : list string) (r : Q) : string :=
  nth (Z.to_nat (Qfloor (r * inject_Z (Z.of_nat (List.length xs))))) xs "".

(** The loop [for (let i = 0; i < 20; i++) entries.push({...})]: each
    entry draws four numbers, in the order of its fields, from the stream
    [rng] starting at position [k]. *)
Fixpoint gen_entries (i n : nat) (now : Q) (rng : nat -> Q) (k : nat) : list LeaderboardEntry :=
  match n with
  | O => []
  | S n' =>
      mkEntry (LeaderId i) (pick names (rng k))
        (inject_Z (Qfloor (rng (S k) * 500)) + 100)
        (pick games (rng (S (S k))))
        (now - rng (S (S (S k))) * 7 * 24 * 60 * 60 * 1000)
        (S i)
      :: gen_entries (S i) n' now rng (S (S (S (S k))))
  end.

Definition generateLeaderboard (now : Q) (rng : nat -> Q) (k : nat) : list LeaderboardEntry :=
  rerank (sort_entries (gen_entries 0 20 now rng k)).

Close Scope string_scope.
Local Open Scope list_scope.

(** ** What a well-formed board is *)

Definition desc (a b : LeaderboardEntry) : Prop := score b <= score a.

Definition sorted_desc (l : list LeaderboardEntry) : Prop := Sorted desc l.

Definition ranked (l : list LeaderboardEntry) : Prop :=
  forall i e, nth_error l i = Some e -> rank e = S i.

Definition board_wf (l : list LeaderboardEntry) : Prop :=
  sorted_desc l /\ ranked l /\ (List.length l <= 50)%nat.

(** The entries of score [s], in order. *)
Definition with_score (s : Q) (l : list LeaderboardEntry) : list LeaderboardEntry :=
  filter (fun x => Qeq_bool (score x) s) l.

(** What the ECMAScript specification asks of [l.sort(cmp)]: a sorted
    permutation of [l] that keeps entries of equal score in their order. *)
Definition js_sort_spec (l l' : list LeaderboardEntry) : Prop :=
  sorted_desc l' /\ Permutation l' l /\ forall s, with_score s l' = with_score s l.

(** ** Insertion *)

Lemma cmp_pos_iff x e : (0 <? cmp x e) = true <-> score x < score e.
Proof. unfold cmp. rewrite Qltb_iff. lra. Qed.

Lemma cmp_pos_false x e : (0 <? cmp x e) = false <-> score e <= score x.
Proof. unfold cmp. rewrite Qltb_false. lra. Qed.

#[export] Instance desc_trans : Transitive desc.
Proof. intros a b c. unfold desc. lra. Qed.

Lemma sorted_strongly l : sorted_desc l -> StronglySorted desc l.
Proof. apply Sorted_StronglySorted. exact desc_trans. Qed.

Lemma insert_hd x e l : HdRel desc x l -> desc x e -> HdRel desc x (insert_entry e l).
Proof.
  destruct l as [|y r]; simpl; intros H He; [now constructor|].
  destruct (0 <? cmp y e); constructor; [exact He | now inversion H].
Qed.

Lemma insert_sorted e l : sorted_desc l -> sorted_desc (insert_entry e l).
Proof.
  unfold sorted_desc. induction 1 as [|x r Hr IH Hhd]; simpl; [repeat constructor|].
  destruct (0 <? cmp x e) eqn:E.
  - apply cmp_pos_iff in E. constructor; [constructor; auto|constructor; unfold desc; lra].
  - apply cmp_pos_false in E. constructor; [exact IH|]. now apply insert_hd.
Qed.

Lemma insert_perm e l : Permutation (insert_entry e l) (e :: l).
Proof.
  induction l as [|x r IH]; simpl; [reflexivity|].
  destruct (0 <? cmp x e); [reflexivity|].
  etransitivity; [apply perm_skip, IH | apply perm_swap].
Qed.

Lemma with_score_cons s x l :
  with_score s (x :: l) = with_score s [x] ++ with_score s l.
Proof. unfold with_score. simpl. now destruct (Qeq_bool (score x) s). Qed.

Lemma with_score_nil s l : Forall (fun y => score y < s) l -> with_score s l = [].
Proof.
  induction 1 as [|y r Hy _ IH]; [reflexivity|]. unfold with_score in *. simpl.
  destruct (Qeq_bool (score y) s) eqn:E; [apply Qeq_bool_iff in E; lra | exact IH].
Qed.

(** Nothing below a head of smaller score has score [s]. *)
Lemma with_score_below s x l :
  Forall (desc x) l -> score x < s -> with_score s (x :: l) = [].
Proof.
  intros Hl Hx. apply with_score_nil. constructor; [exact Hx|].
  eapply Forall_impl; [|exact Hl]. unfold desc. intros y Hy. lra.
Qed.

(** Insertion is stable: [e] goes after every entry of its score. *)
Lemma with_score_insert s e l :
  sorted_desc l -> with_score s (insert_entry e l) = with_score s l ++ with_score s [e].
Proof.
  intro H. apply sorted_strongly in H.
  induction H as [|x r Hr IH Hx]; [reflexivity|]. cbn [insert_entry].
  destruct (0 <? cmp x e) eqn:E.
  - apply cmp_pos_iff in E. rewrite (with_score_cons s e (x :: r)).
    destruct (Qeq_bool (score e) s) eqn:Es.
    + apply Qeq_bool_iff in Es. rewrite (with_score_below s x r) by (auto; lra).
      now rewrite app_nil_r.
    + assert (He : with_score s [e] = []) by (unfold with_score; simpl; now rewrite Es).
      rewrite He. now rewrite app_nil_r.
  - rewrite with_score_cons, IH, (with_score_cons s x r). now rewrite app_assoc.
Qed.

(** ** The sort *)

Definition insert_all (l acc : list LeaderboardEntry) : list LeaderboardEntry :=
  fold_left (fun acc e => insert_entry e acc) l acc.

Lemma insert_all_cons e l acc : insert_all (e :: l) acc = insert_all l (insert_entry e acc).
Proof. reflexivity. Qed.

Lemma insert_all_sorted l acc : sorted_desc acc -> sorted_desc (insert_all l acc).
Proof.
  revert acc. induction l as [|e l IH]; intros acc H; simpl; auto using insert_sorted.
Qed.

Lemma insert_all_perm l acc : Permutation (insert_all l acc) (l ++ acc).
Proof.
  revert acc. induction l as [|e l IH]; intro acc; simpl; [reflexivity|].
  rewrite IH, insert_perm. symmetry. apply Permutation_middle.
Qed.

Lemma insert_all_stable s l acc :
  sorted_desc acc -> with_score s (insert_all l acc) = with_score s acc ++ with_score s l.
Proof.
  revert acc. induction l as [|e l IH]; intros acc H.
  - simpl. now rewrite app_nil_r.
  - rewrite insert_all_cons, IH by now apply insert_sorted.
    rewrite with_score_insert by exact H. rewrite (with_score_cons s e l). symmetry. apply app_assoc.
Qed.

Lemma sort_sorted l : sorted_desc (sort_entries l).
Proof. apply insert_all_sorted. constructor. Qed.

Lemma sort_perm l : Permutation (sort_entries l) l.
Proof. unfold sort_entries. rewrite (insert_all_perm l []). now rewrite app_nil_r. Qed.

Lemma sort_stable s l : with_score s (sort_entries l) = with_score s l.
Proof. apply (insert_all_stable s l []). constructor. Qed.

(** Two sorted lists with the same entries of every score, in the same
    order, are equal. *)
Lemma sorted_with_score_unique l1 l2 :
  sorted_desc l1 -> sorted_desc l2 -> (forall s, with_score s l1 = with_score s l2) -> l1 = l2.
Proof.
  intros H1 H2. apply sorted_strongly in H1, H2. revert l2 H2.
  induction H1 as [|x r1 H1 IH Hx]; intros l2 H2 Hs; destruct H2 as [|y r2 H2 Hy].
  - reflexivity.
  - specialize (Hs (score y)). unfold with_score in Hs. simpl in Hs.
    now rewrite Qeq_bool_refl in Hs.
  - specialize (Hs (score x)). unfold with_score in Hs. simpl in Hs.
    now rewrite Qeq_bool_refl in Hs.
  - assert (Exy : score x == score y).
    { destruct (Q_dec (score x) (score y)) as [[Hlt|Hlt]|Heq]; [exfalso..|exact Heq].
      - specialize (Hs (score y)). rewrite with_score_below in Hs by auto.
        unfold with_score in Hs. simpl in Hs. now rewrite Qeq_bool_refl in Hs.
      - specialize (Hs (score x)). rewrite (with_score_below _ y) in Hs by auto.
        unfold with_score in Hs. simpl in Hs. now rewrite Qeq_bool_refl in Hs. }
    pose proof (Hs (score x)) as Hx'. unfold with_score in Hx'. simpl in Hx'.
    rewrite Qeq_bool_refl in Hx'.
    replace (Qeq_bool (score y) (score x)) with true in Hx'
      by (symmetry; apply Qeq_bool_iff; now symmetry).
    injection Hx' as <- _. f_equal. apply IH; [exact H2|]. intro s.
    specialize (Hs s). unfold with_score in *. simpl in Hs.
    destruct (Qeq_bool (score x) s); [now injection Hs | exact Hs].
Qed.

(** ** Ranks and the cut *)

Lemma rank_from_nth k l i :
  nth_error (rank_from k l) i = option_map (set_rank (S (k + i))) (nth_error l i).
Proof.
  revert k i. induction l as [|e r IH]; intros k [|i]; simpl; try reflexivity.
  - now rewrite Nat.add_0_r.
  - rewrite IH. now rewrite Nat.add_succ_r.
Qed.

Lemma rank_from_sorted k l : sorted_desc l -> sorted_desc (rank_from k l).
Proof.
  unfold sorted_desc. intro H. revert k. induction H as [|x r Hr IH Hhd]; intro k; simpl;
    constructor; auto.
  destruct r as [|y r]; simpl; constructor. now inversion Hhd.
Qed.

Lemma rerank_ranked l : ranked (rerank l).
Proof.
  intros i e H. unfold rerank in H. rewrite rank_from_nth in H.
  destruct (nth_error l i); simpl in H; [|discriminate]. now injection H as <-.
Qed.

Lemma firstn_sorted n l : sorted_desc l -> sorted_desc (firstn n l).
Proof.
  unfold sorted_desc. intro H. revert n. induction H as [|x r Hr IH Hhd]; intros [|n];
    simpl; constructor; auto.
  destruct n, r as [|y r]; simpl; constructor. now inversion Hhd.
Qed.

Lemma nth_error_firstn_some n (l : list LeaderboardEntry) i e :
  nth_error (firstn n l) i = Some e -> nth_error l i = Some e.
Proof.
  revert n i. induction l as [|x r IH]; intros [|n] [|i]; simpl; intro H;
    try discriminate; auto.
  eauto.
Qed.

Lemma firstn_ranked n l : ranked l -> ranked (firstn n l).
Proof. intros H i e Hi. apply H. eapply nth_error_firstn_some; eauto. Qed.

Lemma rerank_ids l : map id (rerank l) = map id l.
Proof. unfold rerank. generalize 0%nat. induction l; intro k; simpl; f_equal; auto. Qed.

(** Entries at least as good as [e], which [e] goes after. *)
Definition count_ge (e : LeaderboardEntry) (l : list LeaderboardEntry) : nat :=
  List.length (filter (fun x => score e <=? score x) l).

Lemma filter_ge_nil e l :
  Forall (fun y => score y < score e) l -> filter (fun x => score e <=? score x) l = [].
Proof.
  induction 1 as [|y r Hy _ IH]; [reflexivity|]. simpl.
  destruct (score e <=? score y) eqn:E; [apply Qleb_iff in E; lra | exact IH].
Qed.

(** Where insertion puts [e] in a sorted list. *)
Lemma insert_position e l :
  sorted_desc l ->
  insert_entry e l = firstn (count_ge e l) l ++ e :: skipn (count_ge e l) l.
Proof.
  intro H. apply sorted_strongly in H. unfold count_ge.
  induction H as [|x r Hr IH Hx]; [reflexivity|]. cbn [insert_entry filter].
  destruct (0 <? cmp x e) eqn:E.
  - apply cmp_pos_iff in E. destruct (score e <=? score x) eqn:E'; [apply Qleb_iff in E'; lra|].
    rewrite filter_ge_nil; [reflexivity|].
    eapply Forall_impl; [|exact Hx]. unfold desc. intros y Hy. lra.
  - apply cmp_pos_false in E. replace (score e <=? score x) with true
      by (symmetry; now apply Qleb_iff).
    simpl. now rewrite IH.
Qed.

Lemma filter_perm (f : LeaderboardEntry -> bool) l l' :
  Permutation l l' -> Permutation (filter f l) (filter f l').
Proof.
  induction 1; simpl; try destruct (f x); try destruct (f y); eauto using Permutation.
Qed.

Lemma count_ge_perm e l l' : Permutation l l' -> count_ge e l = count_ge e l'.
Proof. intro H. unfold count_ge. now apply Permutation_length, filter_perm. Qed.

Lemma count_ge_le e l : (count_ge e l <= List.length l)%nat.
Proof. apply filter_length_le. Qed.

Lemma sort_app_one l e : sort_entries (l ++ [e]) = insert_entry e (sort_entries l).
Proof. unfold sort_entries. now rewrite fold_left_app. Qed.

(** Appending [e] and sorting puts it right after the entries of [prev]
    that score at least as much. *)
Lemma add_shape prev e :
  sort_entries (prev ++ [e]) =
  firstn (count_ge e prev) (sort_entries prev) ++ e ::
  skipn (count_ge e prev) (sort_entries prev).
Proof.
  rewrite sort_app_one, insert_position by apply sort_sorted.
  now rewrite (count_ge_perm e _ _ (sort_perm prev)).
Qed.

Lemma in_firstn_in {A} n (l : list A) x : In x (firstn n l) -> In x l.
Proof. intro H. rewrite <- (firstn_skipn n l). apply in_or_app. now left. Qed.

Lemma rank_from_forall (P : LeaderboardEntry -> Prop) k l :
  (forall e n, P e -> P (set_rank n e)) -> Forall P l -> Forall P (rank_from k l).
Proof.
  intros HP H. revert k. induction H; intro k; simpl; constructor; auto.
Qed.

(** [xs[Math.floor(r * xs.length)]] is an element of [xs] for [0 <= r < 1]. *)
Lemma pick_in xs r : xs <> [] -> 0 <= r < 1 -> In (pick xs r) xs.
Proof.
  intros Hxs [H0 H1]. unfold pick. apply nth_In.
  set (n := Z.of_nat (List.length xs)).
  assert (Hn : (0 < n)%Z) by (unfold n; destruct xs; [congruence|simpl; lia]).
  assert (Hr : r * inject_Z n < inject_Z n).
  { rewrite <- (Qmult_1_l (inject_Z n)) at 2. apply Qmult_lt_compat_r; [|exact H1].
    change 0 with (inject_Z 0). rewrite <- Zlt_Qlt. exact Hn. }
  assert (Hf : (Qfloor (r * inject_Z n) < n)%Z).
  { rewrite Zlt_Qlt. eapply Qle_lt_trans; [apply Qfloor_le | exact Hr]. }
  assert (Hf0 : (0 <= Qfloor (r * inject_Z n))%Z).
  { change 0%Z with (Qfloor 0). apply Qfloor_resp_le.
    apply Qmult_le_0_compat; [exact H0|]. change 0 with (inject_Z 0). rewrite <- Zle_Qle. lia. }
  unfold n in *. lia.
Qed.

(** ** Properties of the leaderboard *)

(** the insertion sort is the sort ECMAScript prescribes for the
    comparator [(a, b) => b.score - a.score]: a list is a stable sorted
    permutation of the input exactly when it is the model's result. *)
Theorem js_sort_iff l l' : js_sort_spec l l' <-> l' = sort_entries l.
Proof.
  split.
  - intros (Hs & _ & Hst). apply sorted_with_score_unique; [exact Hs|apply sort_sorted|].
    intro s. now rewrite Hst, sort_stable.
  - intros ->. split; [apply sort_sorted|split; [apply sort_perm|intro s; apply sort_stable]].
Qed.

(** after [addLeaderboardEntry] the board is sorted by descending
    score, ranked [1, 2, ...] in order, and holds at most 50 entries. *)
Theorem addLeaderboardEntry_wf name sc g t r prev :
  board_wf (addLeaderboardEntry name sc g t r prev).
Proof.
  unfold addLeaderboardEntry, board_wf. split; [|split].
  - apply firstn_sorted, rank_from_sorted, sort_sorted.
  - apply firstn_ranked, rerank_ranked.
  - apply firstn_le_length.
Qed.

(** C31: the new entry lands right after every older entry that scores at
    least as much, with the rank that position gives; when 50 or more older
    entries score at least as much, it is cut. *)
Theorem addLeaderboardEntry_placement name sc g t r prev :
  let e := newEntry name sc g t r in
  let c := count_ge e prev in
  ((c < 50)%nat ->
     nth_error (addLeaderboardEntry name sc g t r prev) c = Some (set_rank (S c) e)) /\
  ((50 <= c)%nat -> ~ In (id e) (map id prev) ->
     ~ In (id e) (map id (addLeaderboardEntry name sc g t r prev))).
Proof.
  intros e c. unfold addLeaderboardEntry. fold e. rewrite add_shape. fold c.
  assert (HA : List.length (firstn c (sort_entries prev)) = c).
  { rewrite length_firstn, (Permutation_length (sort_perm prev)).
    pose proof (count_ge_le e prev). lia. }
  split.
  - intro Hc. rewrite nth_error_firstn. replace (Nat.ltb c 50) with true
      by (symmetry; now apply Nat.ltb_lt).
    unfold rerank. rewrite rank_from_nth, nth_error_app2 by lia.
    rewrite HA, Nat.sub_diag. reflexivity.
  - intros Hc Hnot Hin. apply Hnot.
    rewrite <- firstn_map, rerank_ids, map_app, firstn_app, length_map, HA in Hin.
    replace (50 - c)%nat with 0%nat in Hin by lia. rewrite app_nil_r in Hin.
    apply in_firstn_in in Hin. rewrite <- firstn_map in Hin. apply in_firstn_in in Hin.
    eapply Permutation_in; [apply Permutation_map, sort_perm | exact Hin].
Qed.

Lemma rank_from_length k l : List.length (rank_from k l) = List.length l.
Proof. revert k. induction l; intro k; simpl; auto. Qed.

Lemma gen_entries_length i n now rng k : List.length (gen_entries i n now rng k) = n.
Proof. revert i k. induction n; intros i k; simpl; auto. Qed.

(** [Math.floor(x * 500) + 100] for a draw [0 <= x < 1]. *)
Lemma score_range x : 0 <= x < 1 -> 100 <= inject_Z (Qfloor (x * 500)) + 100 < 600.
Proof.
  intros [H0 H1].
  assert (Hf0 : (0 <= Qfloor (x * 500))%Z).
  { change 0%Z with (Qfloor 0). apply Qfloor_resp_le. lra. }
  rewrite Zle_Qle in Hf0. pose proof (Qfloor_le (x * 500)). change (inject_Z 0) with 0 in Hf0.
  split; lra.
Qed.

Definition generated_ok (e : LeaderboardEntry) : Prop :=
  100 <= score e < 600 /\ In (playerName e) names /\ In (game e) games.

Lemma gen_entries_ok i n now rng k :
  (forall m, 0 <= rng m < 1) -> Forall generated_ok (gen_entries i n now rng k).
Proof.
  intro Hr. revert i k. induction n; intros i k; simpl; constructor; auto.
  split; [apply score_range, Hr|split; apply pick_in; auto; discriminate].
Qed.

(** with draws of [Math.random()] in [[0, 1)], the generated board is
    well formed, has 20 entries, and every entry has a score in
    [[100, 600)] and a player name and a game from the two lists. *)
Theorem generateLeaderboard_wf now rng k :
  (forall m, 0 <= rng m < 1) ->
  board_wf (generateLeaderboard now rng k) /\
  List.length (generateLeaderboard now rng k) = 20%nat /\
  Forall generated_ok (generateLeaderboard now rng k).
Proof.
  intro Hr. unfold generateLeaderboard, rerank.
  assert (Hlen : List.length (rank_from 0 (sort_entries (gen_entries 0 20 now rng k))) = 20%nat).
  { now rewrite rank_from_length, (Permutation_length (sort_perm _)), gen_entries_length. }
  split; [split; [|split]|split; [exact Hlen|]].
  - apply rank_from_sorted, sort_sorted.
  - apply rerank_ranked.
  - rewrite Hlen. lia.
  - apply rank_from_forall; [now intros e n He|].
    apply Forall_forall. intros e He. eapply Forall_forall; [apply (gen_entries_ok 0 20 now rng k Hr)|].
    eapply Permutation_in; [apply sort_perm | exact He].
Qed.

(** ** Witnesses *)

Definition sample_board : list LeaderboardEntry :=
  [mkEntry (LeaderId 0) "CYBER_NINJA" 450 "Snake Chaos" 0 1;
   mkEntry (LeaderId 1) "NEON_RACER" 200 "Chaos Memory" 0 2].

Lemma addLeaderboardEntry_placement_witness :
  nth_error (addLeaderboardEntry "ACE" 300 "Glitch Breaker" 0 (1 # 2) sample_board) 1 =
  Some (set_rank 2 (newEntry "ACE" 300 "Glitch Breaker" 0 (1 # 2))).
Proof.
  pose proof (proj1 (addLeaderboardEntry_placement "ACE" 300 "Glitch Breaker" 0 (1 # 2)
                       sample_board)) as H.
  apply H. vm_compute. lia.
Defined.

(** Draws [0, 1/7, ..., 6/7, 0, ...]. *)
Definition sevenths (m : nat) : Q := Z.of_nat (m mod 7) # 7.

Lemma generateLeaderboard_wf_witness :
  board_wf (generateLeaderboard 0 sevenths 0) /\
  List.length (generateLeaderboard 0 sevenths 0) = 20%nat /\
  Forall generated_ok (generateLeaderboard 0 sevenths 0).
Proof.
  apply generateLeaderboard_wf. intro m. pose proof (Nat.mod_upper_bound m 7 ltac:(discriminate)).
  unfold sevenths, Qle, Qlt. cbn [Qnum Qden]. lia.
Defined.

End Leaderboard.
