(* ===== verification/Challenges.v ===== *)
(** * The daily-challenges provider of [components/DailyChallenges.tsx]

    [DailyChallengesProvider] (lines 168-299) holds the eight challenges of
    the day ([generateChallenges], lines 39-143) and the leaderboard of
    [Leaderboard.v], and mirrors both into [localStorage] (lines 172-219):
    the challenges with the date they were saved, the board as it is.  On
    mount the saved challenges are kept when they were saved the same
    calendar day and regenerated otherwise.  The handlers are lines
    221-281; the TEST PROGRESS button of [DailyChallengesDisplay] (lines
    399-405) is the only caller of the two challenge updaters.

    Dates are local wall-clock milliseconds, so [toDateString()] equality
    is equality of [dayOf] (daylight-saving shifts are not modelled). *)

From S2P Require Import Prelude Leaderboard.
From Stdlib Require Import QArith Qround Qminmax Lqa ZArith List String Ascii Bool Lia Arith.
Import ListNotations.

Open Scope string_scope.
Open Scope Q_scope.
Open Scope chaos_scope.

Module Challenges.

Import Leaderboard.

(** ** Dates *)

Definition DAY : Q := 86400000.

(** The calendar day of a time: what [toDateString()] shows. *)
Definition dayOf (t : Q) : Z := Qfloor (t / DAY).

(** [tomorrow.setDate(tomorrow.getDate() + 1); tomorrow.setHours(0, 0, 0, 0)] *)
Definition tomorrowMidnight (now : Q) : Q := inject_Z (dayOf now + 1) * DAY.

(** ** Challenges (lines 4-15 and 39-143) *)

Inductive Difficulty := easy | medium | hard | extreme.
Inductive ChCategory := ch_games | ch_chaos | ch_repairs | ch_powerups.

Record Challenge := mkChallenge {
  ch_id : string;
  title : string;
  ch_description : string;
  ch_requirement : Q;
  ch_current : Q;
  completed : bool;
  ch_reward : string;
  difficulty : Difficulty;
  ch_category : ChCategory;
  expiresAt : Q
}.

Definition generateChallenges (now : Q) : list Challenge :=
  let tomorrow := tomorrowMidnight now in [
  mkChallenge "snake_score" "SNAKE MASTER" "Score 50 points in Snake Chaos"
    50 0 false "+15 Stability" easy ch_games tomorrow;
  mkChallenge "breaker_blocks" "BLOCK DESTROYER" "Destroy 30 blocks in Glitch Breaker"
    30 0 false "+20 Stability" medium ch_games tomorrow;
  mkChallenge "memory_speed" "LIGHTNING MEMORY" "Complete Chaos Memory in under 45 seconds"
    45 0 false "+25 Stability" hard ch_games tomorrow;
  mkChallenge "chaos_survival" "CHAOS ENDURANCE" "Survive 3 minutes with stability below 40%"
    180 0 false "+30 Stability" hard ch_chaos tomorrow;
  mkChallenge "repair_speed" "QUICK FIX" "Complete 3 repairs in under 2 minutes each"
    3 0 false "+18 Stability" medium ch_repairs tomorrow;
  mkChallenge "powerup_collector" "POWER COLLECTOR" "Collect 10 power-ups in any game"
    10 0 false "+22 Stability" easy ch_powerups tomorrow;
  mkChallenge "extreme_chaos" "EXTREME SURVIVOR" "Survive 5 minutes in Extreme Chaos mode"
    300 0 false "+50 Stability" extreme ch_chaos tomorrow;
  mkChallenge "perfect_game" "PERFECT RUN" "Complete any game without taking damage"
    1 0 false "+35 Stability" extreme ch_games tomorrow
].

(** [{ ...challenge, completed: b, current: c }] *)
Definition with_state (b : bool) (c : Q) (ch : Challenge) : Challenge :=
  mkChallenge (ch_id ch) (title ch) (ch_description ch) (ch_requirement ch) c b
    (ch_reward ch) (difficulty ch) (ch_category ch) (expiresAt ch).

(** ** The reward text (line 278) *)

Definition digit_of (c : ascii) : option nat :=
  let n := nat_of_ascii c in
  if (48 <=? n)%nat && (n <=? 57)%nat then Some (n - 48)%nat else None.

(** The digits of [s] up to the first non-digit. *)
Fixpoint digit_run (s : string) : list nat :=
  match s with
  | EmptyString => []
  | String c r => match digit_of c with Some d => d :: digit_run r | None => [] end
  end.

(** [s.match(/\d+/)?.[0]]: the first maximal run of digits, empty when none. *)
Fixpoint first_digits (s : string) : list nat :=
  match s with
  | EmptyString => []
  | String c r => match digit_of c with Some d => d :: digit_run r | None => first_digits r end
  end.

Definition parse_decimal (ds : list nat) : nat := fold_left (fun acc d => acc * 10 + d)%nat ds 0%nat.

(** [parseInt(challenge.reward.match(/\d+/)?.[0] || '0')] *)
Definition rewardPoints (reward : string) : nat := parse_decimal (first_digits reward).

(** ** The provider *)

Record Provider := mkProvider {
  challenges : list Challenge;
  leaderboard : list LeaderboardEntry;
  clock : Q;
  rng : nat -> Q;
  rng_pos : nat;
  (** ['arcade-daily-challenges']: [{ challenges, date }] *)
  savedChallenges : Item (list Challenge * Q);
  (** ['arcade-leaderboard'] *)
  savedLeaderboard : Item (list LeaderboardEntry)
}.

Definition set_challenges l p :=
  mkProvider l (leaderboard p) (clock p) (rng p) (rng_pos p) (savedChallenges p) (savedLeaderboard p).
Definition set_leaderboard l p :=
  mkProvider (challenges p) l (clock p) (rng p) (rng_pos p) (savedChallenges p) (savedLeaderboard p).
Definition set_clock t p :=
  mkProvider (challenges p) (leaderboard p) t (rng p) (rng_pos p) (savedChallenges p) (savedLeaderboard p).
Definition set_savedChallenges i p :=
  mkProvider (challenges p) (leaderboard p) (clock p) (rng p) (rng_pos p) i (savedLeaderboard p).
Definition set_savedLeaderboard i p :=
  mkProvider (challenges p) (leaderboard p) (clock p) (rng p) (rng_pos p) (savedChallenges p) i.

(** [Math.random()] *)
Definition random : St Provider Q :=
  fun p => (rng p (rng_pos p),
            mkProvider (challenges p) (leaderboard p) (clock p) (rng p) (S (rng_pos p))
              (savedChallenges p) (savedLeaderboard p)).

(** ** Handlers (lines 221-281) *)

Definition progress_map (id : string) (progress : Q) (ch : Challenge) : Challenge :=
  if String.eqb (ch_id ch) id
  then with_state (completed ch) (Qmin progress (ch_requirement ch)) ch else ch.

Definition complete_map (id : string) (ch : Challenge) : Challenge :=
  if String.eqb (ch_id ch) id then with_state true (ch_requirement ch) ch else ch.

Definition updateChallengeProgress (id : string) (progress : Q) : St Provider unit :=
  st_modify (fun p => set_challenges (map (progress_map id progress) (challenges p)) p).

Definition completeChallenge (id : string) : St Provider unit :=
  st_modify (fun p => set_challenges (map (complete_map id) (challenges p)) p).

Definition addLeaderboardEntry (playerName : string) (score : Q) (game : string)
    : St Provider unit :=
  p <- st_get ;;
  r <- random ;;
  st_modify (fun p' => set_leaderboard
    (Leaderboard.addLeaderboardEntry playerName score game (clock p) r (leaderboard p')) p').

Definition refreshChallenges : St Provider unit :=
  st_modify (fun p =>
    set_savedChallenges (Saved (generateChallenges (clock p), clock p))
      (set_challenges (generateChallenges (clock p)) p)).

Definition getCompletedCount (p : Provider) : nat :=
  List.length (filter completed (challenges p)).

Definition getTotalRewardPoints (p : Provider) : nat :=
  fold_left (fun total ch => total + rewardPoints (ch_reward ch))%nat
    (filter completed (challenges p)) 0%nat.

(** ** Effects (lines 172-219) *)

(** The two save effects: [{ challenges, date: new Date() }] and the board. *)
Definition saveChallenges (p : Provider) : Provider :=
  set_savedChallenges (Saved (challenges p, clock p)) p.

Definition saveLeaderboard (p : Provider) : Provider :=
  set_savedLeaderboard (Saved (leaderboard p)) p.

(** The load effect's branch on the saved challenges (lines 177-198):
    the list to set, if any, and whether it writes a fresh item. *)
Definition loadChallenges (today : Q) (i : Item (list Challenge * Q)) : option (list Challenge) :=
  match i with
  | Saved (l, d) =>
      if Z.eqb (dayOf d) (dayOf today) then Some l else Some (generateChallenges today)
  | _ => None
  end.

Definition loadLeaderboard (i : Item (list LeaderboardEntry)) : option (list LeaderboardEntry) :=
  match i with Saved l => Some l | _ => None end.

(** Mounting at time [t] over the two items, with the stream [rng]: the
    initial state draws the random board; the load effect reads both items
    and may set either list; the save effects of the first commit write
    the initial values; the re-render commits what the load effect set,
    and the save effects write it. *)
Definition mount (t : Q) (rng : nat -> Q) (ic : Item (list Challenge * Q))
    (il : Item (list LeaderboardEntry)) : Provider :=
  let first := mkProvider (generateChallenges t) (generateLeaderboard t rng 0) t rng 80 ic il in
  let lc := loadChallenges t ic in
  let ll := loadLeaderboard il in
  let committed := saveLeaderboard (saveChallenges first) in
  let p1 := match lc with Some l => saveChallenges (set_challenges l committed) | None => committed end in
  match ll with Some l => saveLeaderboard (set_leaderboard l p1) | None => p1 end.

(** ** The TEST PROGRESS button (lines 399-405) *)

(** The button of the [i]-th challenge as rendered (only for challenges
    not completed):
    [progress = Math.min(challenge.current + 1, challenge.requirement);
     updateChallengeProgress(challenge.id, progress);
     if (progress >= challenge.requirement) completeChallenge(challenge.id)]. *)
Definition testProgress (i : nat) : St Provider unit :=
  p <- st_get ;;
  match nth_error (challenges p) i with
  | Some ch =>
      if completed ch then st_ret tt
      else
        let progress := Qmin (ch_current ch + 1) (ch_requirement ch) in
        updateChallengeProgress (ch_id ch) progress ;;
        st_when (ch_requirement ch <=? progress) (completeChallenge (ch_id ch))
  | None => st_ret tt
  end.

(** ** Runs *)

Inductive Call :=
  | CallUpdateProgress (id : string) (progress : Q)
  | CallComplete (id : string)
  | CallAddEntry (playerName : string) (score : Q) (game : string)
  | CallRefresh
  | CallTestProgress (i : nat).

Definition callHandler (c : Call) : St Provider unit :=
  match c with
  | CallUpdateProgress id pr => updateChallengeProgress id pr
  | CallComplete id => completeChallenge id
  | CallAddEntry n s g => addLeaderboardEntry n s g
  | CallRefresh => refreshChallenges
  | CallTestProgress i => testProgress i
  end.

(** A call and React's commit: the challenge updaters always build a new
    array, so the challenge effect runs after them; the board effect runs
    after [addLeaderboardEntry]. *)
Definition user_call (c : Call) (p : Provider) : Provider :=
  let p' := st_exec (callHandler c) p in
  match c with
  | CallAddEntry _ _ _ => saveLeaderboard p'
  | CallTestProgress i =>
      match nth_error (challenges p) i with
      | Some ch => if completed ch then p' else saveChallenges p'
      | None => p'
      end
  | _ => saveChallenges p'
  end.

Inductive step : Provider -> Provider -> Prop :=
  | step_call c p : step p (user_call c p)
  | step_wait t p : clock p <= t -> step p (set_clock t p).

(** ** What each call does *)

Lemma testProgress_exec i p :
  st_exec (testProgress i) p =
  match nth_error (challenges p) i with
  | Some ch =>
      if completed ch then p
      else
        let progress := Qmin (ch_current ch + 1) (ch_requirement ch) in
        let p1 := set_challenges (map (progress_map (ch_id ch) progress) (challenges p)) p in
        if ch_requirement ch <=? progress
        then set_challenges (map (complete_map (ch_id ch)) (challenges p1)) p1
        else p1
  | None => p
  end.
Proof.
  unfold testProgress, st_exec, st_bind, st_get. simpl.
  destruct (nth_error (challenges p) i) as [ch|]; [|reflexivity].
  destruct (completed ch); [reflexivity|]. simpl.
  now destruct (ch_requirement ch <=? _).
Qed.

(** Only [addLeaderboardEntry] touches the board, and no call moves the
    clock. *)
Lemma user_call_frame c p :
  clock (user_call c p) = clock p /\
  leaderboard (user_call c p) =
    match c with
    | CallAddEntry n s g =>
        Leaderboard.addLeaderboardEntry n s g (clock p) (rng p (rng_pos p)) (leaderboard p)
    | _ => leaderboard p
    end /\
  savedLeaderboard (user_call c p) =
    match c with CallAddEntry _ _ _ => Saved (leaderboard (user_call c p)) | _ => savedLeaderboard p end.
Proof.
  destruct c; try (repeat split; reflexivity).
  unfold user_call. simpl callHandler. rewrite testProgress_exec.
  destruct (nth_error (challenges p) i) as [ch|]; [|repeat split].
  destruct (completed ch); [repeat split|]. cbv zeta.
  destruct (_ <=? _); repeat split.
Qed.

(** The challenge item holds the list with a date, unless the call left
    the list alone. *)
Lemma user_call_savedChallenges c p :
  savedChallenges (user_call c p) = Saved (challenges (user_call c p), clock p) \/
  (challenges (user_call c p) = challenges p /\ savedChallenges (user_call c p) = savedChallenges p).
Proof.
  destruct c; [left; reflexivity..|right; split; reflexivity|left; reflexivity|].
  unfold user_call. simpl callHandler. rewrite testProgress_exec.
  destruct (nth_error (challenges p) i) as [ch|]; [|now right].
  destruct (completed ch); [now right|]. left. cbv zeta. now destruct (_ <=? _).
Qed.

(** ** The invariant *)

Record inv (p : Provider) : Prop := {
  inv_board : board_wf (leaderboard p);
  inv_saved_board : savedLeaderboard p = Saved (leaderboard p);
  inv_saved_ch : exists d, savedChallenges p = Saved (challenges p, d) /\ d <= clock p
}.

(** A board item the provider could have written. *)
Definition board_item_ok (il : Item (list LeaderboardEntry)) : Prop :=
  match il with Saved l => board_wf l | _ => True end.

Lemma ch_mount_inv t rng ic il :
  (forall m, 0 <= rng m < 1) -> board_item_ok il -> inv (mount t rng ic il).
Proof.
  intros Hr Hil. destruct (generateLeaderboard_wf t rng 0 Hr) as [Hwf _].
  unfold mount. destruct (loadChallenges t ic), il as [|bl|]; simpl in *;
    (split; [assumption|reflexivity|exists t; split; [reflexivity|apply Qle_refl]]).
Qed.

Lemma ch_step_inv p p' : inv p -> step p p' -> inv p'.
Proof.
  intros [Hb Hsb [d [Hsc Hd]]] Hst. destruct Hst as [c p|t p Ht].
  - destruct (user_call_frame c p) as (Hclk & Hlb & Hslb).
    split.
    + rewrite Hlb. destruct c; auto using addLeaderboardEntry_wf.
    + rewrite Hslb. destruct c; auto. rewrite Hsb. f_equal. now rewrite Hlb.
    + destruct (user_call_savedChallenges c p) as [H|[H1 H2]].
      * exists (clock p). rewrite Hclk. split; [exact H|apply Qle_refl].
      * exists d. rewrite H1, H2, Hclk. now split.
  - split; simpl; auto. exists d. split; [exact Hsc|lra].
Qed.

Lemma ch_star_inv t rng ic il p :
  (forall m, 0 <= rng m < 1) -> board_item_ok il -> star step (mount t rng ic il) p -> inv p.
Proof.
  intros Hr Hil Hst. apply (star_invariant step inv) with (mount t rng ic il);
    [exact ch_step_inv | exact Hst | now apply ch_mount_inv].
Qed.

(** ** Mounting *)

Lemma mount_challenges t rng ic il :
  challenges (mount t rng ic il) =
  match loadChallenges t ic with Some l => l | None => generateChallenges t end.
Proof. unfold mount. now destruct (loadChallenges t ic), (loadLeaderboard il). Qed.

Lemma mount_leaderboard t rng ic il :
  leaderboard (mount t rng ic il) =
  match loadLeaderboard il with Some l => l | None => generateLeaderboard t rng 0 end.
Proof. unfold mount. now destruct (loadChallenges t ic), (loadLeaderboard il). Qed.

Lemma before_tomorrow t : t < tomorrowMidnight t.
Proof.
  unfold tomorrowMidnight, dayOf, DAY. rewrite inject_Z_plus.
  pose proof (Qlt_floor (t / 86400000)) as H. rewrite inject_Z_plus in H.
  apply (Qmult_lt_r _ _ 86400000) in H; [|reflexivity].
  assert (E : t / 86400000 * 86400000 == t) by (field; discriminate).
  rewrite E in H. exact H.
Qed.

(** ** The button *)

Lemma press_at p i ch :
  nth_error (challenges p) i = Some ch -> completed ch = false ->
  nth_error (challenges (user_call (CallTestProgress i) p)) i =
  Some (let pr := Qmin (ch_current ch + 1) (ch_requirement ch) in
        if ch_requirement ch <=? pr then with_state true (ch_requirement ch) ch
        else with_state false (Qmin pr (ch_requirement ch)) ch).
Proof.
  intros H Hc. unfold user_call. rewrite H, Hc. simpl callHandler.
  rewrite testProgress_exec, H, Hc. cbv zeta.
  destruct (_ <=? _); simpl; rewrite ?nth_error_map, H; simpl;
    unfold complete_map, progress_map; simpl; rewrite ?String.eqb_refl, ?Hc; reflexivity.
Qed.

(** Before the last press the challenge counts the presses. *)
Lemma presses_count p i ch n :
  nth_error (challenges p) i = Some ch -> completed ch = false -> ch_current ch == 0 ->
  ch_requirement ch == Qnat (S n) ->
  forall k, (k <= n)%nat ->
  exists ch', nth_error (challenges (Nat.iter k (user_call (CallTestProgress i)) p)) i = Some ch' /\
    completed ch' = false /\ ch_current ch' == Qnat k /\
    ch_requirement ch' = ch_requirement ch.
Proof.
  intros H Hc H0 Hreq k. induction k as [|k IH]; intro Hk.
  - exists ch. repeat split; auto.
  - destruct IH as (ch' & H' & Hc' & Hk' & Hr'); [lia|].
    rewrite Nat.iter_succ, (press_at _ _ _ H' Hc'). cbv zeta.
    pose proof (Qnat_succ k). pose proof (Qnat_le (S k) n Hk). pose proof (Qnat_succ n).
    rewrite Hr' in *.
    replace (ch_requirement ch <=? Qmin (ch_current ch' + 1) (ch_requirement ch)) with false
      by (symmetry; apply Qleb_false; qsolve).
    eexists. split; [reflexivity|]. simpl. split; [reflexivity|split; [qsolve|exact Hr']].
Qed.

(** ** Properties of the provider *)

(** C9: with draws of [Math.random()] in [[0, 1)] and a saved board the
    provider could have written, the leaderboard of every reachable
    provider is sorted by descending score, ranked [1, 2, ...] in order,
    and holds at most 50 entries. *)
Theorem reachable_board_wf t rng ic il p :
  (forall m, 0 <= rng m < 1) -> board_item_ok il -> star step (mount t rng ic il) p ->
  board_wf (leaderboard p).
Proof. intros Hr Hil Hst. exact (inv_board _ (ch_star_inv t rng ic il p Hr Hil Hst)). Qed.

(** what the provider saves is what it restores: for every reachable
    provider there is a save date [d], not after the clock, such that a
    reload at any later time restores the leaderboard, and a reload on the
    calendar day of [d] restores the challenges. *)
Theorem challenges_reload_roundtrip t rng ic il p :
  (forall m, 0 <= rng m < 1) -> board_item_ok il -> star step (mount t rng ic il) p ->
  exists d, d <= clock p /\
    forall t' rng',
      leaderboard (mount t' rng' (savedChallenges p) (savedLeaderboard p)) = leaderboard p /\
      (dayOf t' = dayOf d ->
         challenges (mount t' rng' (savedChallenges p) (savedLeaderboard p)) = challenges p).
Proof.
  intros Hr Hil Hst. destruct (ch_star_inv t rng ic il p Hr Hil Hst) as [_ Hsb [d [Hsc Hd]]].
  exists d. split; [exact Hd|]. intros t' rng'.
  rewrite mount_leaderboard, mount_challenges, Hsb, Hsc. simpl. split; [reflexivity|].
  intro E. now rewrite E, Z.eqb_refl.
Qed.

(** challenges saved on another calendar day are replaced on mount by
    the eight fresh ones, none completed, all at progress 0 and expiring
    after the mount time. *)
Theorem new_day_regenerates t rng l d il :
  dayOf d <> dayOf t ->
  challenges (mount t rng (Saved (l, d)) il) = generateChallenges t /\
  Forall (fun ch => completed ch = false /\ ch_current ch == 0 /\ t < expiresAt ch)
    (generateChallenges t).
Proof.
  intro Hd. rewrite mount_challenges. simpl. apply Z.eqb_neq in Hd. rewrite Hd.
  split; [reflexivity|]. pose proof (before_tomorrow t) as H.
  repeat constructor; first [reflexivity | exact H].
Qed.

(** pressing TEST PROGRESS on a challenge at progress 0 with an
    integer requirement [n + 1] leaves it open for the first [n] presses
    and completes it, at full progress, on press [n + 1]. *)
Theorem testProgress_completes p i ch n :
  nth_error (challenges p) i = Some ch -> completed ch = false -> ch_current ch == 0 ->
  ch_requirement ch == Qnat (S n) ->
  (forall k, (k <= n)%nat ->
     exists ch', nth_error (challenges (Nat.iter k (user_call (CallTestProgress i)) p)) i = Some ch' /\
       completed ch' = false) /\
  exists ch', nth_error (challenges (Nat.iter (S n) (user_call (CallTestProgress i)) p)) i = Some ch' /\
    completed ch' = true /\ ch_current ch' == ch_requirement ch'.
Proof.
  intros H Hc H0 Hreq. split.
  - intros k Hk. destruct (presses_count p i ch n H Hc H0 Hreq k Hk) as (ch' & ? & ? & _). eauto.
  - destruct (presses_count p i ch n H Hc H0 Hreq n (le_n n)) as (ch' & H' & Hc' & Hk' & Hr').
    rewrite Nat.iter_succ, (press_at _ _ _ H' Hc'). cbv zeta. rewrite Hr'.
    pose proof (Qnat_succ n).
    replace (ch_requirement ch <=? Qmin (ch_current ch' + 1) (ch_requirement ch)) with true
      by (symmetry; apply Qleb_iff; qsolve).
    eexists. split; [reflexivity|]. simpl. split; [reflexivity|now rewrite Hr'].
Qed.

Lemma filter_completed_map (f : Challenge -> Challenge) l :
  (forall ch, completed (f ch) = completed ch) ->
  List.length (filter completed (map f l)) = List.length (filter completed l).
Proof.
  intro Hf. induction l as [|ch l IH]; simpl; [reflexivity|]. rewrite Hf.
  destruct (completed ch); simpl; auto.
Qed.

Lemma progress_map_completed id pr ch : completed (progress_map id pr ch) = completed ch.
Proof. unfold progress_map. now destruct (String.eqb _ _). Qed.

(** [updateChallengeProgress] never completes a challenge, even when
    the progress reaches the requirement: the completed flags and the
    completed count are unchanged. *)
Theorem progress_never_completes p id pr :
  map completed (challenges (user_call (CallUpdateProgress id pr) p)) = map completed (challenges p) /\
  getCompletedCount (user_call (CallUpdateProgress id pr) p) = getCompletedCount p.
Proof.
  split; simpl.
  - rewrite map_map. apply map_ext. apply progress_map_completed.
  - unfold getCompletedCount. simpl. apply filter_completed_map, progress_map_completed.
Qed.

(** the reward text parses to the stability bonus it shows, and
    completing all eight challenges of a day is worth 215 points. *)
Theorem reward_points_generated t p :
  map (fun ch => rewardPoints (ch_reward ch)) (generateChallenges t) =
    [15; 20; 25; 30; 18; 22; 50; 35]%nat /\
  (challenges p = generateChallenges t ->
   let p' := fold_left (fun q id => user_call (CallComplete id) q)
               (map ch_id (generateChallenges t)) p in
   getCompletedCount p' = 8%nat /\ getTotalRewardPoints p' = 215%nat).
Proof.
  split; [reflexivity|]. intro H. destruct p. simpl in H. subst. split; vm_compute; reflexivity.
Qed.

(** ** Where the code departs from what it means *)

(** a completed challenge can lose its progress: completing
    [snake_score] and then reporting progress 10 leaves it completed at
    10 of 50. *)
Theorem completed_progress_regresses :
  let p := user_call (CallUpdateProgress "snake_score" 10)
             (user_call (CallComplete "snake_score") (mount 0 sevenths Missing Missing)) in
  option_map (fun ch => (completed ch, ch_current ch, ch_requirement ch))
    (nth_error (challenges p) 0) = Some (true, 10, 50).
Proof. vm_compute. reflexivity. Qed.

(** the save effect stamps the challenges with the time of the save,
    not of their generation: challenges generated on day 0 and updated
    after midnight are restored by a reload on day 1, all already past
    their [expiresAt], instead of the day's fresh challenges. *)
Theorem stale_challenges_survive :
  let p0 := mount 1000 sevenths Missing Missing in
  let p1 := user_call (CallUpdateProgress "snake_score" 5) (set_clock (DAY + 1000) p0) in
  let p2 := mount (DAY + 2000) sevenths (savedChallenges p1) (savedLeaderboard p1) in
  star step p0 p1 /\ challenges p2 = challenges p1 /\
  Forall (fun ch => expiresAt ch < DAY + 2000) (challenges p2).
Proof.
  cbv zeta. split.
  - apply star_step with (set_clock (DAY + 1000) (mount 1000 sevenths Missing Missing));
      [apply step_wait, Qle_bool_imp_le; vm_compute; reflexivity|].
    apply star_one, step_call.
  - split; [vm_compute; reflexivity|]. vm_compute. repeat constructor.
Qed.

(** ** Witnesses *)

Lemma sevenths_range m : 0 <= sevenths m < 1.
Proof.
  pose proof (Nat.mod_upper_bound m 7 ltac:(discriminate)).
  unfold sevenths, Qle, Qlt. cbn [Qnum Qden]. lia.
Qed.

Lemma reachable_board_wf_witness :
  board_wf (leaderboard (user_call (CallAddEntry "ACE" 300 "Snake Chaos")
                           (mount 0 sevenths Missing Missing))).
Proof.
  apply (reachable_board_wf 0 sevenths Missing Missing); [exact sevenths_range|exact I|].
  apply star_one, step_call.
Defined.

Lemma challenges_reload_roundtrip_witness :
  exists d, d <= clock (mount 0 sevenths Missing Missing) /\
    forall t' rng',
      leaderboard (mount t' rng' (savedChallenges (mount 0 sevenths Missing Missing))
                     (savedLeaderboard (mount 0 sevenths Missing Missing))) =
        leaderboard (mount 0 sevenths Missing Missing) /\
      (dayOf t' = dayOf d ->
         challenges (mount t' rng' (savedChallenges (mount 0 sevenths Missing Missing))
                       (savedLeaderboard (mount 0 sevenths Missing Missing))) =
           challenges (mount 0 sevenths Missing Missing)).
Proof.
  apply (challenges_reload_roundtrip 0 sevenths Missing Missing);
    [exact sevenths_range|exact I|apply star_refl].
Defined.

Lemma new_day_regenerates_witness :
  challenges (mount DAY sevenths (Saved ([], 0)) Missing) = generateChallenges DAY /\
  Forall (fun ch => completed ch = false /\ ch_current ch == 0 /\ DAY < expiresAt ch)
    (generateChallenges DAY).
Proof. apply new_day_regenerates. vm_compute. discriminate. Defined.

Lemma testProgress_completes_witness :
  match nth_error (challenges (mount 0 sevenths Missing Missing)) 7 with
  | Some ch =>
      (forall k, (k <= 0)%nat ->
         exists ch', nth_error (challenges (Nat.iter k (user_call (CallTestProgress 7))
                                              (mount 0 sevenths Missing Missing))) 7 = Some ch' /\
           completed ch' = false) /\
      exists ch', nth_error (challenges (Nat.iter 1 (user_call (CallTestProgress 7))
                                           (mount 0 sevenths Missing Missing))) 7 = Some ch' /\
        completed ch' = true /\ ch_current ch' == ch_requirement ch'
  | None => False
  end.
Proof.
  destruct (nth_error (challenges (mount 0 sevenths Missing Missing)) 7) as [ch|] eqn:E;
    [|vm_compute in E; discriminate E].
  apply (testProgress_completes _ 7 ch 0 E); vm_compute in E; injection E as <-; reflexivity.
Defined.

End Challenges.
