(* ===== verification/Saves.v ===== *)
(** * The save slots of [components/GameSaveSystem.tsx]

    [GameSaveProvider] (lines 60-262) keeps three save slots and the
    current save, mirrored into [localStorage]: one item
    [arcade-save-slot-<n>] per slot and [arcade-current-save-slot] with
    the number of the current slot.  The handlers (lines 112-242) write
    [localStorage] themselves and update the React state with functional
    updaters; they read [saveSlots] and [currentSave] from the render they
    were created in, which is the state when the handler starts.

    Slot numbers are naturals: the menu only passes the numbers of the
    slots it shows, and [slot.toString()] read back by [parseInt] is the
    same number.  The save id [`save-${Date.now()}-${random}`] is kept as
    the pair it is printed from; an id read from imported text is a
    string.  A [Date] is valid, with its time in ms, or invalid ([new
    Date(undefined)]).  [JSON.stringify] writes a valid date as its ISO
    string and an invalid one as [null]; [new Date] of the text read back
    gives the same date, of [null] the epoch: [revive].  Every other field
    goes through JSON unchanged.  [btoa(JSON.stringify(save))] is an
    encoding whose decoding gives the fields back, the timestamp as the
    JSON value [Stamp]; a pasted string that does not decode is
    [Undecodable]. *)

From S2P Require Import Prelude.
From Stdlib Require Import QArith Lqa List String Bool Lia Arith.
Import ListNotations.

Open Scope string_scope.
Open Scope Q_scope.
Open Scope chaos_scope.

Module Saves.

(** ** Data (lines 4-58) *)

(** [Date]: a time in ms, or the invalid date. *)
Inductive Date := ValidDate (ms : Q) | InvalidDate.

Inductive SaveId :=
  | GeneratedId (now r : Q)
  | TextId (s : string).

Record GameSave := mkSave {
  id : SaveId;
  playerName : string;
  timestamp : Date;
  stability : Q;
  unlockedCharacters : list string;
  achievements : list string;
  highScores : list (string * Q);
  totalPlayTime : Q;
  chaosLevel : Q;
  powerUpsCollected : Q;
  repairsCompleted : Q;
  gamesPlayed : Q;
  version : string
}.

Record SaveSlot := mkSlot { slot : nat; save : option GameSave; isEmpty : bool }.

Definition SAVE_VERSION : string := "1.0.0".
Definition MAX_SAVE_SLOTS : nat := 3.

Definition createDefaultSave (playerName : string) (now r : Q) : GameSave :=
  mkSave (GeneratedId now r) playerName (ValidDate now) 85
    ["WRECK-IT RALPH"; "VENELLOPE"; "FIX-IT FELIX"] [] [] 0 0 0 0 0 SAVE_VERSION.

(** [{ ...save, timestamp: t }] *)
Definition with_timestamp (t : Date) (s : GameSave) : GameSave :=
  mkSave (id s) (playerName s) t (stability s) (unlockedCharacters s) (achievements s)
    (highScores s) (totalPlayTime s) (chaosLevel s) (powerUpsCollected s)
    (repairsCompleted s) (gamesPlayed s) (version s).

(** [Partial<GameSave>]: each field present or not. *)
Record SaveUpdate := mkUpdate {
  u_id : option SaveId;
  u_playerName : option string;
  u_timestamp : option Date;
  u_stability : option Q;
  u_unlockedCharacters : option (list string);
  u_achievements : option (list string);
  u_highScores : option (list (string * Q));
  u_totalPlayTime : option Q;
  u_chaosLevel : option Q;
  u_powerUpsCollected : option Q;
  u_repairsCompleted : option Q;
  u_gamesPlayed : option Q;
  u_version : option string
}.

Definition pick {A} (o : option A) (a : A) : A := match o with Some b => b | None => a end.

(** [{ ...currentSave, ...updates, timestamp: now }] *)
Definition apply_update (u : SaveUpdate) (now : Q) (s : GameSave) : GameSave :=
  mkSave (pick (u_id u) (id s)) (pick (u_playerName u) (playerName s)) (ValidDate now)
    (pick (u_stability u) (stability s))
    (pick (u_unlockedCharacters u) (unlockedCharacters s))
    (pick (u_achievements u) (achievements s))
    (pick (u_highScores u) (highScores s))
    (pick (u_totalPlayTime u) (totalPlayTime s))
    (pick (u_chaosLevel u) (chaosLevel s))
    (pick (u_powerUpsCollected u) (powerUpsCollected s))
    (pick (u_repairsCompleted u) (repairsCompleted s))
    (pick (u_gamesPlayed u) (gamesPlayed s))
    (pick (u_version u) (version s)).

(** The value of the [timestamp] field of a parsed save: a date string
    or number, [null], or anything [new Date] cannot read (the field
    absent, or text that is no date). *)
Inductive Stamp := StampValue (ms : Q) | StampNull | StampOther.

(** [new Date(v)] of such a value. *)
Definition newDate (j : Stamp) : Date :=
  match j with StampValue t => ValidDate t | StampNull => ValidDate 0 | StampOther => InvalidDate end.

(** [Date.prototype.toJSON]: the ISO string, or [null] when invalid. *)
Definition toJSON (d : Date) : Stamp :=
  match d with ValidDate t => StampValue t | InvalidDate => StampNull end.

(** A date written by [JSON.stringify] and read back by [new Date]. *)
Definition revive (d : Date) : Date := newDate (toJSON d).

Definition revive_save (s : GameSave) : GameSave := with_timestamp (revive (timestamp s)) s.

(** The text [exportSave] returns and [importSave] takes: the parsed
    fields, whose own timestamp the spread of [importSave] replaces, and
    the [timestamp] value of the text. *)
Inductive SaveText := Encoded (s : GameSave) (ts : Stamp) | Undecodable.

(** ** The provider *)

Record Provider := mkProvider {
  saveSlots : list SaveSlot;
  currentSave : option GameSave;
  clock : Q;
  rng : nat -> Q;
  rng_pos : nat;
  (** [localStorage['arcade-save-slot-<n>']] *)
  slotItem : nat -> Item GameSave;
  (** [localStorage['arcade-current-save-slot']] *)
  currentSlotItem : Item nat
}.

Definition set_saveSlots l p :=
  mkProvider l (currentSave p) (clock p) (rng p) (rng_pos p) (slotItem p) (currentSlotItem p).
Definition set_currentSave c p :=
  mkProvider (saveSlots p) c (clock p) (rng p) (rng_pos p) (slotItem p) (currentSlotItem p).
Definition set_clock t p :=
  mkProvider (saveSlots p) (currentSave p) t (rng p) (rng_pos p) (slotItem p) (currentSlotItem p).

(** The items after [localStorage.setItem]/[removeItem] of slot [n]. *)
Definition upd (items : nat -> Item GameSave) (n : nat) (i : Item GameSave) : nat -> Item GameSave :=
  fun m => if Nat.eqb m n then i else items m.

Definition write_slot (n : nat) (i : Item GameSave) p :=
  mkProvider (saveSlots p) (currentSave p) (clock p) (rng p) (rng_pos p)
    (upd (slotItem p) n i) (currentSlotItem p).

Definition write_current (i : Item nat) p :=
  mkProvider (saveSlots p) (currentSave p) (clock p) (rng p) (rng_pos p) (slotItem p) i.

(** [Math.random()] *)
Definition random : St Provider Q :=
  fun p => (rng p (rng_pos p),
            mkProvider (saveSlots p) (currentSave p) (clock p) (rng p) (S (rng_pos p))
              (slotItem p) (currentSlotItem p)).

(** [setSaveSlots(prev => prev.map(s => s.slot === n ? f s : s))] *)
Definition update_slot (n : nat) (f : SaveSlot -> SaveSlot) (l : list SaveSlot) : list SaveSlot :=
  map (fun s => if Nat.eqb (slot s) n then f s else s) l.

(** [saveSlots.find(s => s.slot === n && !s.isEmpty)?.save] *)
Definition find_save (n : nat) (l : list SaveSlot) : option GameSave :=
  match find (fun s => Nat.eqb (slot s) n && negb (isEmpty s)) l with
  | Some s => save s
  | None => None
  end.

(** ** Handlers (lines 112-242) *)

Definition createNewSave (n : nat) (playerName : string) : St Provider unit :=
  r <- random ;;
  st_modify (fun p =>
    let newSave := createDefaultSave playerName (clock p) r in
    write_current (Saved n) (write_slot n (Saved newSave)
      (set_currentSave (Some newSave)
        (set_saveSlots (update_slot n (fun s => mkSlot (slot s) (Some newSave) false)
                          (saveSlots p)) p)))).

Definition loadSave (n : nat) : St Provider unit :=
  st_modify (fun p =>
    match find_save n (saveSlots p) with
    | Some s => write_current (Saved n) (set_currentSave (Some s) p)
    | None => p
    end).

(** A current-slot item that is not a number makes [parseInt] return
    [NaN]: no slot matches, and the write goes to the item
    [arcade-save-slot-NaN], which nothing reads. *)
Definition saveGame : St Provider unit :=
  st_modify (fun p =>
    match currentSave p with
    | None => p
    | Some cur =>
        let updatedSave := with_timestamp (ValidDate (clock p)) cur in
        match currentSlotItem p with
        | Saved n =>
            write_slot n (Saved updatedSave)
              (set_currentSave (Some updatedSave)
                (set_saveSlots (update_slot n (fun s => mkSlot (slot s) (Some updatedSave) (isEmpty s))
                                  (saveSlots p)) p))
        | Unparsable => set_currentSave (Some updatedSave) p
        | Missing => p
        end
    end).

Definition deleteSave (n : nat) : St Provider unit :=
  st_modify (fun p =>
    let p1 := write_slot n Missing
                (set_saveSlots (update_slot n (fun s => mkSlot (slot s) None true) (saveSlots p)) p) in
    match parsed (currentSlotItem p1) with
    | Some m => if Nat.eqb m n then write_current Missing (set_currentSave None p1) else p1
    | None => p1
    end).

(** [btoa(JSON.stringify(save))], or [''] for an empty slot. *)
Definition exportSave (n : nat) (p : Provider) : SaveText :=
  match find_save n (saveSlots p) with
  | Some s => Encoded s (toJSON (timestamp s))
  | None => Undecodable
  end.

(** [!save.id || !save.playerName || !save.version] *)
Definition id_truthy (i : SaveId) : bool :=
  match i with GeneratedId _ _ => true | TextId s => negb (String.eqb s "") end.

Definition valid_save (s : GameSave) : bool :=
  id_truthy (id s) && negb (String.eqb (playerName s) "") && negb (String.eqb (version s) "").

Definition importSave (data : SaveText) (n : nat) : St Provider bool :=
  match data with
  | Undecodable => st_ret false
  | Encoded s ts =>
      if valid_save s then
        let updatedSave := with_timestamp (newDate ts) s in
        st_modify (fun p =>
          write_slot n (Saved updatedSave)
            (set_saveSlots (update_slot n (fun sl => mkSlot (slot sl) (Some updatedSave) false)
                              (saveSlots p)) p)) ;;
        st_ret true
      else st_ret false
  end.

Definition getCurrentSaveData (p : Provider) : option GameSave := currentSave p.

Definition updateSaveData (u : SaveUpdate) : St Provider unit :=
  st_modify (fun p =>
    match currentSave p with
    | None => p
    | Some cur =>
        let updatedSave := apply_update u (clock p) cur in
        let p1 := set_currentSave (Some updatedSave) p in
        match parsed (currentSlotItem p1) with
        | Some n =>
            write_slot n (Saved updatedSave)
              (set_saveSlots (update_slot n (fun s => mkSlot (slot s) (Some updatedSave) (isEmpty s))
                                (saveSlots p1)) p1)
        | None => p1
        end
    end).

(** ** Mounting (lines 64-110) *)

(** The slot [i] as the initialising effect reads it. *)
Definition read_slot (items : nat -> Item GameSave) (i : nat) : SaveSlot :=
  match items i with
  | Saved s => mkSlot i (Some (revive_save s)) false
  | _ => mkSlot i None true
  end.

(** [for (let i = 1; i <= MAX_SAVE_SLOTS; i++) slots.push(...)] *)
Definition read_slots (items : nat -> Item GameSave) : list SaveSlot :=
  map (read_slot items) (seq 1 MAX_SAVE_SLOTS).

Definition mount (t : Q) (rng : nat -> Q) (items : nat -> Item GameSave) (cur : Item nat)
    : Provider :=
  let slots := read_slots items in
  let current := match parsed cur with Some n => find_save n slots | None => None end in
  mkProvider slots current t rng 0 items cur.

(** ** Runs *)

Inductive Call :=
  | CallCreateNewSave (n : nat) (playerName : string)
  | CallLoadSave (n : nat)
  | CallSaveGame
  | CallDeleteSave (n : nat)
  | CallImportSave (data : SaveText) (n : nat)
  | CallUpdateSaveData (u : SaveUpdate).

Definition callHandler (c : Call) : St Provider unit :=
  match c with
  | CallCreateNewSave n name => createNewSave n name
  | CallLoadSave n => loadSave n
  | CallSaveGame => saveGame
  | CallDeleteSave n => deleteSave n
  | CallImportSave d n => _ <- importSave d n ;; st_ret tt
  | CallUpdateSaveData u => updateSaveData u
  end.

Definition user_call (c : Call) (p : Provider) : Provider := st_exec (callHandler c) p.

Inductive step : Provider -> Provider -> Prop :=
  | step_call c p : step p (user_call c p)
  | step_wait t p : clock p <= t -> step p (set_clock t p).

(** ** The invariant *)

(** An item holds a save when it reads back as that save: the handlers
    write the save they keep, the mount keeps what it read. *)
Definition mirror_item (i : Item GameSave) (o : option GameSave) : Prop :=
  match o with
  | Some v => exists v', i = Saved v' /\ revive_save v' = revive_save v
  | None => parsed i = None
  end.

Definition slot_mirrored (items : nat -> Item GameSave) (s : SaveSlot) : Prop :=
  mirror_item (items (slot s)) (save s).

(** The slot a reload shows for [s]. *)
Definition revive_slot (s : SaveSlot) : SaveSlot :=
  mkSlot (slot s) (option_map revive_save (save s)) (isEmpty s).

Record inv (p : Provider) : Prop := {
  inv_slots : map slot (saveSlots p) = [1; 2; 3]%nat;
  inv_empty : Forall (fun s => isEmpty s = true <-> save s = None) (saveSlots p);
  inv_mirror : Forall (slot_mirrored (slotItem p)) (saveSlots p);
  inv_current : currentSave p <> None ->
    exists n, currentSlotItem p = Saved n /\
      Forall (fun s => slot s = n -> isEmpty s = false) (saveSlots p)
}.

Lemma with_timestamp_same v : with_timestamp (timestamp v) v = v.
Proof. now destruct v. Qed.

Lemma revive_save_idem v : revive_save (revive_save v) = revive_save v.
Proof. destruct v as [? ? [t|] ? ? ? ? ? ? ? ? ? ?]; reflexivity. Qed.

Lemma mirror_item_saved v : mirror_item (Saved v) (Some v).
Proof. exists v. split; reflexivity. Qed.

Lemma update_slot_slots n f l :
  (forall s, slot (f s) = slot s) -> map slot (update_slot n f l) = map slot l.
Proof.
  intro Hf. unfold update_slot. rewrite map_map. apply map_ext. intro s.
  destruct (Nat.eqb (slot s) n); auto.
Qed.

(** A property of the slots survives [update_slot] when the updated slot
    has it. *)
Lemma update_slot_forall (P Q : SaveSlot -> Prop) n f l :
  Forall P l -> (forall s, P s -> slot s <> n -> Q s) -> (forall s, P s -> slot s = n -> Q (f s)) ->
  Forall Q (update_slot n f l).
Proof.
  intros H Hk Hn. unfold update_slot. apply Forall_map. eapply Forall_impl; [|exact H].
  intros s Hs. destruct (Nat.eqb_spec (slot s) n); auto.
Qed.

Lemma upd_same items n i : upd items n i n = i.
Proof. unfold upd. now rewrite Nat.eqb_refl. Qed.

Lemma find_save_spec n l v :
  find_save n l = Some v -> exists s, In s l /\ slot s = n /\ isEmpty s = false /\ save s = Some v.
Proof.
  unfold find_save. destruct (find _ l) as [s|] eqn:E; [|discriminate]. intro Hs.
  apply find_some in E as [Hin E]. apply andb_true_iff in E as [E1 E2].
  apply Nat.eqb_eq in E1. apply negb_true_iff in E2. eauto.
Qed.

(** Slot numbers are distinct, so a slot is determined by its number. *)
Lemma slots_unique l s s' :
  map slot l = [1; 2; 3]%nat -> In s l -> In s' l -> slot s = slot s' -> s = s'.
Proof.
  intro Hsl. assert (Hnd : NoDup (map slot l)).
  { rewrite Hsl. repeat constructor; simpl; intuition discriminate. }
  clear Hsl. revert Hnd.
  induction l as [|x r IH]; intros Hnd Hs Hs' Heq; [destruct Hs|].
  inversion Hnd as [|? ? Hnot Hnd']; subst.
  destruct Hs as [<-|Hs], Hs' as [<-|Hs']; auto;
    exfalso; apply Hnot; [rewrite Heq|rewrite <- Heq]; now apply in_map.
Qed.

Lemma current_slot_nonempty l n v :
  map slot l = [1; 2; 3]%nat -> find_save n l = Some v ->
  Forall (fun s => slot s = n -> isEmpty s = false) l.
Proof.
  intros Hl Hf. destruct (find_save_spec _ _ _ Hf) as (s0 & Hin & Hn & He & _).
  apply Forall_forall. intros s Hs Hsn.
  now rewrite (slots_unique l s s0 Hl Hs Hin (eq_trans Hsn (eq_sym Hn))).
Qed.

(** Writing the item of slot [n] keeps every other slot mirrored and
    mirrors slot [n] when it now holds what was written. *)
Lemma mirrored_upd items n i s :
  (slot s <> n -> slot_mirrored items s) ->
  (slot s = n -> mirror_item i (save s)) ->
  slot_mirrored (upd items n i) s.
Proof.
  intros Ho Hn. unfold slot_mirrored, upd. destruct (Nat.eqb_spec (slot s) n) as [E|E];
    [now apply Hn | exact (Ho E)].
Qed.

Lemma read_slot_mirrored items i : slot_mirrored items (read_slot items i).
Proof.
  unfold read_slot, slot_mirrored. destruct (items i) as [|v|] eqn:E; simpl; rewrite ?E;
    [reflexivity| |reflexivity].
  exists v. split; [reflexivity | symmetry; apply revive_save_idem].
Qed.

Lemma saves_mount_inv t rng items cur : inv (mount t rng items cur).
Proof.
  assert (Hsl : map slot (read_slots items) = [1; 2; 3]%nat).
  { unfold read_slots. simpl. unfold read_slot.
    now destruct (items 1%nat), (items 2%nat), (items 3%nat). }
  split; simpl.
  - exact Hsl.
  - unfold read_slots. apply Forall_map, Forall_forall. intros i _. unfold read_slot.
    destruct (items i); simpl; intuition discriminate.
  - unfold read_slots. apply Forall_map, Forall_forall. intros i _. apply read_slot_mirrored.
  - destruct (parsed cur) as [n|] eqn:E; [|intro H; now destruct H].
    destruct (find_save n (read_slots items)) as [v|] eqn:F; [|intro H; now destruct H].
    intros _. exists n. split; [destruct cur; now inversion E|].
    exact (current_slot_nonempty _ _ _ Hsl F).
Qed.

(** ** Every handler keeps the invariant *)

(** The updated slot [n] of a list whose slot [n] was not empty. *)
Lemma refresh_slot_inv l n v :
  Forall (fun s => isEmpty s = true <-> save s = None) l ->
  Forall (fun s => slot s = n -> isEmpty s = false) l ->
  Forall (fun s => isEmpty s = true <-> save s = None)
    (update_slot n (fun s => mkSlot (slot s) (Some v) (isEmpty s)) l) /\
  Forall (fun s => slot s = n -> isEmpty s = false)
    (update_slot n (fun s => mkSlot (slot s) (Some v) (isEmpty s)) l).
Proof.
  intros He Hn. pose proof (Forall_and He Hn) as H. split.
  - apply (update_slot_forall _ _ n _ _ H); [now intros s [? ?]|].
    intros s [_ Hs] Hsn. simpl. rewrite (Hs Hsn). split; discriminate.
  - apply (update_slot_forall _ _ n _ _ H); [now intros s [? ?]|].
    intros s [_ Hs] Hsn. exact Hs.
Qed.

Lemma update_mirror l n v items :
  Forall (slot_mirrored items) l ->
  (forall f, Forall (slot_mirrored (upd items n (Saved v)))
     (update_slot n (fun s => mkSlot (slot s) (Some v) (f s)) l)).
Proof.
  intros Hm f. apply (update_slot_forall _ _ n _ _ Hm).
  - intros s Hs Hsn. apply mirrored_upd; [auto|intro; contradiction].
  - intros s _ Hsn. apply mirrored_upd; [intro; contradiction|]. intros _. apply mirror_item_saved.
Qed.

Lemma inv_createNewSave n name p : inv p -> inv (user_call (CallCreateNewSave n name) p).
Proof.
  intros [Hsl He Hm Hc]. split; cbn -[update_slot upd].
  - now rewrite update_slot_slots.
  - apply (update_slot_forall _ _ n _ _ He); [auto|]. intros. simpl. split; discriminate.
  - apply update_mirror, Hm.
  - intros _. exists n. split; [reflexivity|].
    apply (update_slot_forall (fun _ => True)); [apply Forall_forall; auto|..].
    + intros s _ Hsn Hsn'. contradiction.
    + intros. reflexivity.
Qed.

Lemma inv_loadSave n p : inv p -> inv (user_call (CallLoadSave n) p).
Proof.
  intros [Hsl He Hm Hc]. cbn -[update_slot upd]. destruct (find_save n (saveSlots p)) as [v|] eqn:F;
    split; auto; cbn -[update_slot upd]; intros _.
  exists n. split; [reflexivity|]. exact (current_slot_nonempty _ _ _ Hsl F).
Qed.

Lemma inv_saveGame p : inv p -> inv (user_call CallSaveGame p).
Proof.
  intros [Hsl He Hm Hc]. cbn -[update_slot upd].
  destruct (currentSave p) as [c|] eqn:Ec; [|now split].
  destruct (Hc ltac:(discriminate)) as (n & Hn & Hne). rewrite Hn.
  destruct (refresh_slot_inv _ n (with_timestamp (ValidDate (clock p)) c) He Hne) as [He' Hne'].
  split; cbn -[update_slot upd]; [now rewrite update_slot_slots|exact He'|apply update_mirror, Hm|].
  intros _. exists n. split; [exact Hn|exact Hne'].
Qed.

Lemma inv_deleteSave n p : inv p -> inv (user_call (CallDeleteSave n) p).
Proof.
  intros [Hsl He Hm Hc]. cbn -[update_slot upd].
  assert (Hsl' : map slot (update_slot n (fun s => mkSlot (slot s) None true) (saveSlots p)) =
                 [1; 2; 3]%nat) by now rewrite update_slot_slots.
  assert (He' : Forall (fun s => isEmpty s = true <-> save s = None)
                  (update_slot n (fun s => mkSlot (slot s) None true) (saveSlots p))).
  { apply (update_slot_forall _ _ n _ _ He); [auto|]. intros. simpl. tauto. }
  assert (Hm' : Forall (slot_mirrored (upd (slotItem p) n Missing))
                  (update_slot n (fun s => mkSlot (slot s) None true) (saveSlots p))).
  { apply (update_slot_forall _ _ n _ _ Hm).
    - intros s Hs Hsn. apply mirrored_upd; [auto|intro; contradiction].
    - intros s _ Hsn. apply mirrored_upd; [intro; contradiction|]. reflexivity. }
  destruct (parsed (currentSlotItem p)) as [m|] eqn:Em;
    [destruct (Nat.eqb_spec m n) as [->|Hmn]|].
  - split; cbn -[update_slot upd]; auto. intro H. now destruct H.
  - split; cbn -[update_slot upd]; auto. intro Hcur. destruct (Hc Hcur) as (k & Hk & Hne).
    exists k. split; [exact Hk|]. rewrite Hk in Em. injection Em as ->.
    apply (update_slot_forall _ _ n _ _ Hne); [auto|]. intros s _ Hsn Hsm. simpl in Hsm. congruence.
  - split; cbn -[update_slot upd]; auto. intro Hcur. destruct (Hc Hcur) as (k & Hk & _).
    rewrite Hk in Em. discriminate.
Qed.

Lemma inv_importSave d n p : inv p -> inv (user_call (CallImportSave d n) p).
Proof.
  intros [Hsl He Hm Hc]. destruct d as [v ts|]; [|now split].
  unfold user_call, callHandler, importSave.
  destruct (valid_save v); [|now split]. split; cbn -[update_slot upd].
  - now rewrite update_slot_slots.
  - apply (update_slot_forall _ _ n _ _ He); [auto|]. intros. simpl. split; discriminate.
  - apply update_mirror, Hm.
  - intro Hcur. destruct (Hc Hcur) as (k & Hk & Hne). exists k. split; [exact Hk|].
    apply (update_slot_forall _ _ n _ _ Hne); [auto|]. intros. reflexivity.
Qed.

Lemma inv_updateSaveData u p : inv p -> inv (user_call (CallUpdateSaveData u) p).
Proof.
  intros [Hsl He Hm Hc]. cbn -[update_slot upd].
  destruct (currentSave p) as [c|] eqn:Ec; [|now split].
  destruct (Hc ltac:(discriminate)) as (n & Hn & Hne). rewrite Hn. cbn -[update_slot upd].
  destruct (refresh_slot_inv _ n (apply_update u (clock p) c) He Hne) as [He' Hne'].
  split; cbn -[update_slot upd]; [now rewrite update_slot_slots|exact He'|apply update_mirror, Hm|].
  intros _. exists n. split; [exact Hn|exact Hne'].
Qed.

Lemma saves_step_inv p p' : inv p -> step p p' -> inv p'.
Proof.
  intros H Hs. destruct Hs as [c p|t p _].
  - destruct c; auto using inv_createNewSave, inv_loadSave, inv_saveGame, inv_deleteSave,
      inv_importSave, inv_updateSaveData.
  - destruct H. now split.
Qed.

Lemma saves_star_inv t rng items cur p :
  star step (mount t rng items cur) p -> inv p.
Proof.
  intro Hst. apply (star_invariant step inv) with (mount t rng items cur);
    [exact saves_step_inv | exact Hst | apply saves_mount_inv].
Qed.

(** ** Reading the slots back *)

Lemma read_slot_of items s :
  (isEmpty s = true <-> save s = None) -> slot_mirrored items s -> read_slot items (slot s) = revive_slot s.
Proof.
  destruct s as [i [v|] e]; unfold slot_mirrored, read_slot, revive_slot; simpl; intros He Hm.
  - destruct Hm as (v' & -> & Hv). rewrite Hv. destruct e; [discriminate (proj1 He eq_refl)|reflexivity].
  - destruct e; [|discriminate (proj2 He eq_refl)].
    destruct (items i); [reflexivity|discriminate|reflexivity].
Qed.

Lemma read_slots_inv p : inv p -> read_slots (slotItem p) = map revive_slot (saveSlots p).
Proof.
  intros [Hsl He Hm _]. destruct (saveSlots p) as [|s1 [|s2 [|s3 [|s4 r]]]];
    try discriminate. simpl in Hsl. injection Hsl as H1 H2 H3.
  inversion He as [|? ? E1 He1]; inversion He1 as [|? ? E2 He2]; inversion He2 as [|? ? E3 _].
  inversion Hm as [|? ? M1 Hm1]; inversion Hm1 as [|? ? M2 Hm2]; inversion Hm2 as [|? ? M3 _].
  unfold read_slots. simpl. rewrite <- H3, <- H2, <- H1, !read_slot_of by assumption.
  reflexivity.
Qed.

Lemma find_save_revive n l : find_save n (map revive_slot l) = option_map revive_save (find_save n l).
Proof.
  unfold find_save. induction l as [|s r IH]; [reflexivity|]. cbn.
  destruct (Nat.eqb (slot s) n && negb (isEmpty s)); [reflexivity | exact IH].
Qed.

(** The save of the one slot numbered [n] of a well-formed list. *)
Lemma find_save_in l s n v :
  map slot l = [1; 2; 3]%nat -> In s l -> slot s = n -> isEmpty s = false -> save s = Some v ->
  find_save n l = Some v.
Proof.
  intros Hsl Hin Hs Hse Hsv. unfold find_save. destruct (find _ l) as [s'|] eqn:F.
  - apply find_some in F as [Hin' F]. apply andb_true_iff in F as [F1 _].
    apply Nat.eqb_eq in F1. rewrite (slots_unique _ s' s Hsl Hin' Hin) by congruence.
    exact Hsv.
  - exfalso. apply (find_none _ _ F) in Hin. rewrite Hs, Nat.eqb_refl, Hse in Hin. discriminate.
Qed.

(** A slot [n] of the menu whose item holds a save shows a save that
    reads back the same. *)
Lemma find_save_mirrored p n v :
  inv p -> In n [1; 2; 3]%nat -> slotItem p n = Saved v ->
  exists v0, find_save n (saveSlots p) = Some v0 /\ revive_save v = revive_save v0.
Proof.
  intros Hinv Hn Hi. destruct Hinv as [Hsl He Hm _].
  rewrite <- Hsl in Hn. apply in_map_iff in Hn as (s & Hs & Hin).
  rewrite Forall_forall in Hm, He. specialize (Hm s Hin). specialize (He s Hin). unfold slot_mirrored in Hm.
  rewrite Hs, Hi in Hm. destruct (save s) as [v0|] eqn:Hsv; [|discriminate].
  destruct Hm as (v' & Hv' & Hr). injection Hv' as <-. exists v0. split; [|exact Hr].
  apply (find_save_in _ s); auto. destruct (isEmpty s); [|reflexivity]. discriminate (proj1 He eq_refl).
Qed.

(** A slot [n] of the menu written with [v] shows [v]. *)
Lemma find_save_written l n v :
  map slot l = [1; 2; 3]%nat -> In n [1; 2; 3]%nat ->
  find_save n (update_slot n (fun s => mkSlot (slot s) (Some v) false) l) = Some v.
Proof.
  intros Hsl Hn. rewrite <- Hsl in Hn. apply in_map_iff in Hn as (s & Hs & Hin).
  apply (find_save_in _ (mkSlot n (Some v) false)); auto.
  - rewrite update_slot_slots by reflexivity. exact Hsl.
  - unfold update_slot. apply in_map_iff. exists s. rewrite Hs, Nat.eqb_refl, <- Hs. now split.
Qed.

(** The current save is the one stored under the current slot number:
    the stored text reads back as the current save. *)
Definition current_saved (p : Provider) : Prop :=
  forall v, currentSave p = Some v -> exists n, currentSlotItem p = Saved n /\ mirror_item (slotItem p n) (Some v).

(** An import into the slot the current save lives in. *)
Definition import_into_current (c : Call) (p : Provider) : Prop :=
  match c with
  | CallImportSave (Encoded _ _) n => currentSlotItem p = Saved n
  | _ => False
  end.

Lemma mirrored_find p n v :
  inv p -> find_save n (saveSlots p) = Some v -> mirror_item (slotItem p n) (Some v).
Proof.
  intros [_ _ Hm _] F. destruct (find_save_spec _ _ _ F) as (s0 & Hin & Hn & _ & Hv).
  rewrite Forall_forall in Hm. specialize (Hm s0 Hin). unfold slot_mirrored in Hm.
  now rewrite Hv, Hn in Hm.
Qed.

(** ** Properties of the save slots *)

(** in every provider reachable from a mount, whatever
    [localStorage] held, the menu shows the slots 1, 2, 3 in order, a slot
    is marked empty exactly when it holds no save, and each slot is the
    one stored under its number. *)
Theorem reachable_slots_wf t rng items cur p :
  star step (mount t rng items cur) p ->
  map slot (saveSlots p) = [1; 2; 3]%nat /\
  Forall (fun s => isEmpty s = true <-> save s = None) (saveSlots p) /\
  Forall (slot_mirrored (slotItem p)) (saveSlots p).
Proof.
  intro Hst. destruct (saves_star_inv t rng items cur p Hst) as [H1 H2 H3 _]. auto.
Qed.

(** C10: reloading the page over what a reachable provider left in
    [localStorage] shows the same slots, each save with its date read
    back through JSON: a valid date is kept, and an invalid one (an
    import whose timestamp [new Date] cannot read) comes back as the
    epoch. *)
Theorem saves_reload_roundtrip t rng items cur p t' rng' :
  star step (mount t rng items cur) p ->
  saveSlots (mount t' rng' (slotItem p) (currentSlotItem p)) = map revive_slot (saveSlots p).
Proof. intro Hst. apply read_slots_inv, (saves_star_inv t rng items cur p Hst). Qed.

(** C11: every call except an import into the current slot keeps the
    current save equal to the save stored under the current slot number. *)
Theorem current_save_persisted c p :
  inv p -> current_saved p -> ~ import_into_current c p -> current_saved (user_call c p).
Proof.
  intros Hinv Hcs Hni. destruct c as [n name|n| |n|[w ts|] n|u]; cbn -[update_slot upd];
    intros v Hv.
  - injection Hv as <-. exists n. split; [reflexivity|cbn [slotItem write_current write_slot set_currentSave set_saveSlots]; rewrite upd_same; apply mirror_item_saved].
  - destruct (find_save n (saveSlots p)) as [w|] eqn:F; cbn -[update_slot upd] in Hv |- *.
    + injection Hv as <-. exists n. split; [reflexivity|exact (mirrored_find p n w Hinv F)].
    + now apply Hcs.
  - destruct (currentSave p) as [c|] eqn:Ec; cbn -[update_slot upd] in Hv |- *; [|congruence].
    destruct (Hcs c Ec) as (n & Hn & _). rewrite Hn in Hv |- *.
    cbn -[update_slot upd] in Hv |- *.
    injection Hv as <-. exists n. split; [exact Hn|cbn [slotItem write_current write_slot set_currentSave set_saveSlots]; rewrite upd_same; apply mirror_item_saved].
  - destruct (parsed (currentSlotItem p)) as [m|] eqn:Em;
      [destruct (Nat.eqb_spec m n) as [->|Hmn]|]; cbn -[update_slot upd] in Hv |- *;
      [discriminate| |].
    + destruct (Hcs v Hv) as (k & Hk & Hi). rewrite Hk in Em. injection Em as ->.
      exists m. split; [exact Hk|]. unfold upd. now rewrite (proj2 (Nat.eqb_neq m n) Hmn).
    + destruct (Hcs v Hv) as (k & Hk & _). rewrite Hk in Em. discriminate.
  - unfold user_call, callHandler, importSave in Hv |- *.
    destruct (valid_save w); cbn -[update_slot upd] in Hv |- *; [|exact (Hcs v Hv)].
    destruct (Hcs v Hv) as (k & Hk & Hi). exists k. split; [exact Hk|].
    unfold upd. destruct (Nat.eqb_spec k n) as [->|Hkn]; [|exact Hi].
    exfalso. apply Hni. exact Hk.
  - now apply Hcs.
  - destruct (currentSave p) as [c|] eqn:Ec; cbn -[update_slot upd] in Hv |- *; [|congruence].
    destruct (Hcs c Ec) as (n & Hn & _). rewrite Hn in Hv |- *. cbn -[update_slot upd] in Hv |- *.
    injection Hv as <-. exists n. split; [exact Hn|cbn [slotItem write_current write_slot set_currentSave set_saveSlots]; rewrite upd_same; apply mirror_item_saved].
Qed.

(** when the current save is the one stored under its slot number
    and that number is a slot of the menu, a reload restores it, its date
    read back through JSON. *)
Theorem reload_restores_current p n v t' rng' :
  inv p -> current_saved p -> currentSlotItem p = Saved n -> In n [1; 2; 3]%nat ->
  currentSave p = Some v ->
  currentSave (mount t' rng' (slotItem p) (currentSlotItem p)) = Some (revive_save v).
Proof.
  intros Hinv Hcs Hn Hin Hv. destruct (Hcs v Hv) as (k & Hk & v' & Hi & Hr).
  rewrite Hn in Hk. injection Hk as <-. unfold mount. rewrite Hn. cbn [currentSave parsed].
  rewrite (read_slots_inv p Hinv), find_save_revive.
  destruct (find_save_mirrored p n v' Hinv Hin Hi) as (v0 & -> & Hr0). cbn. congruence.
Qed.

(** exporting a slot and importing the text into another slot of
    the menu copies the save, its date read back through JSON, when the
    save passes the import's check (generated saves pass it exactly when
    the player name is not empty). *)
Theorem export_import_roundtrip p m n v :
  inv p -> find_save m (saveSlots p) = Some v -> valid_save v = true -> In n [1; 2; 3]%nat ->
  fst (importSave (exportSave m p) n p) = true /\
  slotItem (user_call (CallImportSave (exportSave m p) n) p) n = Saved (revive_save v) /\
  find_save n (saveSlots (user_call (CallImportSave (exportSave m p) n) p)) = Some (revive_save v).
Proof.
  intros Hinv F Hval Hn. unfold exportSave. rewrite F.
  unfold user_call, callHandler, importSave. rewrite Hval. cbn -[update_slot upd].
  split; [reflexivity | split; [apply upd_same|]].
  apply find_save_written; [apply Hinv | exact Hn].
Qed.

Lemma createDefaultSave_valid name now r :
  valid_save (createDefaultSave name now r) = negb (String.eqb name "").
Proof. unfold valid_save. simpl. now rewrite andb_true_r. Qed.

Lemma find_save_none l n :
  Forall (fun s => slot s = n -> isEmpty s = true) l -> find_save n l = None.
Proof.
  intro H. unfold find_save. destruct (find _ l) as [s|] eqn:F; [|reflexivity].
  apply find_some in F as [Hin F]. apply andb_true_iff in F as [F1 F2].
  apply Nat.eqb_eq in F1. rewrite Forall_forall in H. rewrite (H s Hin F1) in F2. discriminate.
Qed.

(** [createNewSave(n, name)] on a slot of the menu stores a fresh
    save for [name] (stability 85, the three starting characters, version
    1.0.0, stamped with the current time) in slot [n], in its item, and as
    the current save under the current slot number [n]. *)
Theorem createNewSave_spec p n name :
  inv p -> In n [1; 2; 3]%nat ->
  exists v,
    currentSave (user_call (CallCreateNewSave n name) p) = Some v /\
    find_save n (saveSlots (user_call (CallCreateNewSave n name) p)) = Some v /\
    slotItem (user_call (CallCreateNewSave n name) p) n = Saved v /\
    currentSlotItem (user_call (CallCreateNewSave n name) p) = Saved n /\
    playerName v = name /\ stability v == 85 /\
    unlockedCharacters v = ["WRECK-IT RALPH"; "VENELLOPE"; "FIX-IT FELIX"] /\
    version v = SAVE_VERSION /\ timestamp v = ValidDate (clock p).
Proof.
  intros Hinv Hn. exists (createDefaultSave name (clock p) (rng p (rng_pos p))).
  assert (Hi : slotItem (user_call (CallCreateNewSave n name) p) n =
               Saved (createDefaultSave name (clock p) (rng p (rng_pos p)))).
  { cbn -[update_slot upd]. apply upd_same. }
  split; [reflexivity|split; [|split; [exact Hi|repeat split; reflexivity]]].
  cbn -[update_slot]. apply find_save_written; [apply Hinv | exact Hn].
Qed.

(** [deleteSave(n)] empties slot [n] and removes its item; it clears
    the current save exactly when [n] is the current slot number. *)
Theorem deleteSave_spec p n :
  slotItem (user_call (CallDeleteSave n) p) n = Missing /\
  find_save n (saveSlots (user_call (CallDeleteSave n) p)) = None /\
  (currentSlotItem p = Saved n ->
     currentSave (user_call (CallDeleteSave n) p) = None /\
     currentSlotItem (user_call (CallDeleteSave n) p) = Missing) /\
  (currentSlotItem p <> Saved n ->
     currentSave (user_call (CallDeleteSave n) p) = currentSave p).
Proof.
  assert (Hf : find_save n (update_slot n (fun s => mkSlot (slot s) None true) (saveSlots p)) = None).
  { apply find_save_none, (update_slot_forall (fun _ => True)); [apply Forall_forall; auto|..].
    - intros s _ Hsn Hsn'. contradiction.
    - intros. reflexivity. }
  cbn -[update_slot upd]. destruct (currentSlotItem p) as [|m|] eqn:Ec; cbn -[update_slot upd].
  - repeat split; auto using upd_same; discriminate.
  - destruct (Nat.eqb_spec m n) as [->|Hmn]; cbn -[update_slot upd].
    + repeat split; auto using upd_same. intro H. now destruct H.
    + repeat split; auto using upd_same; congruence.
  - repeat split; auto using upd_same; discriminate.
Qed.

(** ** Where the code departs from what it means *)

Definition const_rng : nat -> Q := fun _ => 1 # 2.
Definition no_items : nat -> Item GameSave := fun _ => Missing.

(** Alice's game in slot 1, the current slot. *)
Definition alice_world : Provider :=
  user_call (CallCreateNewSave 1 "ALICE") (mount 0 const_rng no_items Missing).

Definition bob_save : GameSave := createDefaultSave "BOB" 7 (1 # 3).

(** importing a save into the slot of the current save stores it in
    the slot and its item but leaves [currentSave] on the old save; the
    next [saveGame] writes the old save back, and the import is lost. *)
Theorem import_into_current_lost :
  let p1 := user_call (CallImportSave (Encoded bob_save (StampValue 7)) 1) alice_world in
  let p2 := user_call CallSaveGame p1 in
  slotItem p1 1 = Saved bob_save /\
  option_map playerName (find_save 1 (saveSlots p1)) = Some "BOB" /\
  option_map playerName (currentSave p1) = Some "ALICE" /\
  option_map playerName (parsed (slotItem p2 1)) = Some "ALICE" /\
  option_map playerName (find_save 1 (saveSlots p2)) = Some "ALICE".
Proof. vm_compute. repeat split. Qed.

(** slot numbers are not checked: [createNewSave(4, ...)] makes a
    current save that no slot of the menu shows, and a reload drops it. *)
Theorem out_of_range_slot_lost :
  let p := user_call (CallCreateNewSave 4 "ALICE") (mount 0 const_rng no_items Missing) in
  currentSave p <> None /\ Forall (fun s => save s = None) (saveSlots p) /\
  currentSave (mount 1000 const_rng (slotItem p) (currentSlotItem p)) = None.
Proof. vm_compute. split; [discriminate|split; [repeat constructor|reflexivity]]. Qed.


(** ** Witnesses *)

Lemma alice_reachable : star step (mount 0 const_rng no_items Missing) alice_world.
Proof. apply star_one, step_call. Qed.

Lemma alice_inv : inv alice_world.
Proof. exact (saves_star_inv _ _ _ _ _ alice_reachable). Qed.

Lemma alice_current_saved : current_saved alice_world.
Proof. intros v Hv. vm_compute in Hv. injection Hv as <-. exists 1%nat. split; [reflexivity | apply mirror_item_saved]. Qed.

Lemma reachable_slots_wf_witness :
  map slot (saveSlots alice_world) = [1; 2; 3]%nat /\
  Forall (fun s => isEmpty s = true <-> save s = None) (saveSlots alice_world) /\
  Forall (slot_mirrored (slotItem alice_world)) (saveSlots alice_world).
Proof. apply (reachable_slots_wf 0 const_rng no_items Missing). apply star_one, step_call. Defined.

Lemma saves_reload_roundtrip_witness :
  saveSlots (mount 5000 const_rng (slotItem alice_world) (currentSlotItem alice_world)) =
  map revive_slot (saveSlots alice_world).
Proof. apply (saves_reload_roundtrip 0 const_rng no_items Missing). apply star_one, step_call. Defined.

Lemma current_save_persisted_witness : current_saved (user_call CallSaveGame alice_world).
Proof.
  apply current_save_persisted; [exact alice_inv|exact alice_current_saved|intro H; exact H].
Defined.

Lemma reload_restores_current_witness :
  currentSave (mount 5000 const_rng (slotItem alice_world) (currentSlotItem alice_world)) =
  Some (revive_save (createDefaultSave "ALICE" 0 (1 # 2))).
Proof.
  apply (reload_restores_current alice_world 1); [exact alice_inv|exact alice_current_saved|
    reflexivity|now left|reflexivity].
Defined.

Lemma export_import_roundtrip_witness :
  fst (importSave (exportSave 1 alice_world) 2 alice_world) = true /\
  slotItem (user_call (CallImportSave (exportSave 1 alice_world) 2) alice_world) 2 =
    Saved (revive_save (createDefaultSave "ALICE" 0 (1 # 2))) /\
  find_save 2 (saveSlots (user_call (CallImportSave (exportSave 1 alice_world) 2) alice_world)) =
    Some (revive_save (createDefaultSave "ALICE" 0 (1 # 2))).
Proof.
  apply export_import_roundtrip; [exact alice_inv|reflexivity|reflexivity|right; now left].
Defined.

Lemma createNewSave_spec_witness :
  exists v,
    currentSave (user_call (CallCreateNewSave 2 "BOB") alice_world) = Some v /\
    find_save 2 (saveSlots (user_call (CallCreateNewSave 2 "BOB") alice_world)) = Some v /\
    slotItem (user_call (CallCreateNewSave 2 "BOB") alice_world) 2 = Saved v /\
    currentSlotItem (user_call (CallCreateNewSave 2 "BOB") alice_world) = Saved 2%nat /\
    playerName v = "BOB" /\ stability v == 85 /\
    unlockedCharacters v = ["WRECK-IT RALPH"; "VENELLOPE"; "FIX-IT FELIX"] /\
    version v = SAVE_VERSION /\ timestamp v = ValidDate (clock alice_world).
Proof. apply createNewSave_spec; [exact alice_inv|right; now left]. Defined.

End Saves.
