(* ===== verification/PowerUps.v ===== *)
(** * The power-up provider of [components/PowerUpSystem.tsx]

    [PowerUpProvider] (lines 105-185) keeps the list [activePowerUps].
    [activatePowerUp] replaces the active power-up of the same effect type
    or appends (lines 125-137); [deactivatePowerUp] filters by id (lines
    139-141).  An effect on [activePowerUps] (lines 108-123) clears every
    timeout of its previous run and schedules, for every active power-up
    of positive duration, a [setTimeout] of its full duration that
    deactivates it.  Both updaters return a new array, so every call
    re-runs the effect.  [getRandomPowerUp] (lines 143-160) draws a rarity
    and then a power-up of that rarity; [getPowerUpMultiplier] and
    [hasActivePowerUp] read the list.  [PowerUpShop] (lines 272-349) keeps
    a coin balance and buys through [activatePowerUp].

    The provider is a record with its clock, the timer queue of [Timers.v],
    the handles of the effect's last run and the stream of
    [Math.random()] draws.  Browser timer handles are positive, so the
    [.filter(Boolean)] of line 116 drops exactly the [null]s of the
    power-ups without a timeout. *)

From S2P Require Import Prelude Timers.
From Stdlib Require Import QArith Qround Qminmax Lqa ZArith List String Bool Lia.
Import ListNotations.

Open Scope Q_scope.
Open Scope chaos_scope.

Module PowerUps.

(** ** Data (lines 4-19 and 30-101) *)

Inductive Rarity := common | rare | epic | legendary.
Scheme Equality for Rarity.

Inductive EffectType :=
  | speed_boost | shield | multi_score | slow_time | magnet | chaos_resist | instant_repair.
Scheme Equality for EffectType.

Record PowerUpEffect := mkEffect {
  type : EffectType;
  value : Q;
  effect_duration : option Q
}.

Record PowerUp := mkPowerUp {
  id : string;
  name : string;
  description : string;
  icon : string;
  duration : Q;
  effect : PowerUpEffect;
  rarity : Rarity;
  color : string
}.

Definition POWER_UPS : list PowerUp := [
  mkPowerUp "speed_boost" "TURBO CHARGE" "Double movement speed for 10 seconds"
    "⚡" 10000 (mkEffect speed_boost 2 (Some 10000)) common "#ffff00";
  mkPowerUp "shield" "CHAOS SHIELD" "Immune to chaos effects for 15 seconds"
    "🛡️" 15000 (mkEffect shield 1 (Some 15000)) rare "#00f0ff";
  mkPowerUp "multi_score" "SCORE MULTIPLIER" "3x score multiplier for 20 seconds"
    "💎" 20000 (mkEffect multi_score 3 (Some 20000)) rare "#ff00ff";
  mkPowerUp "slow_time" "TIME DISTORTION" "Slows down game speed by 50% for 12 seconds"
    "⏰" 12000 (mkEffect slow_time (1 # 2) (Some 12000)) epic "#39ff14";
  mkPowerUp "magnet" "COLLECTION MAGNET" "Auto-collect nearby items for 8 seconds"
    "🧲" 8000 (mkEffect magnet 100 (Some 8000)) rare "#ff8800";
  mkPowerUp "chaos_resist" "CHAOS RESISTANCE" "Reduces chaos intensity by 75% for 25 seconds"
    "🔮" 25000 (mkEffect chaos_resist (1 # 4) (Some 25000)) epic "#bf40bf";
  mkPowerUp "instant_repair" "INSTANT REPAIR" "Instantly repair all system damage"
    "🔧" 0 (mkEffect instant_repair 100 None) legendary "#ff006e"
]%string.

Definition ptype (p : PowerUp) : EffectType := type (effect p).

(** ** The two list updaters (lines 125-141) *)

(** [Array.prototype.findIndex], [-1] as [None]. *)
Fixpoint findIndex {A} (f : A -> bool) (l : list A) : option nat :=
  match l with
  | [] => None
  | x :: r => if f x then Some O else option_map S (findIndex f r)
  end.

(** [updated[i] = x] on the copy [[...prev]], for an index [findIndex]
    returned, so within the array. *)
Fixpoint replace_at {A} (l : list A) (i : nat) (x : A) : list A :=
  match l, i with
  | [], _ => []
  | _ :: r, O => x :: r
  | y :: r, S k => y :: replace_at r k x
  end.

Definition activate_list (powerUp : PowerUp) (prev : list PowerUp) : list PowerUp :=
  match findIndex (fun p => EffectType_beq (ptype p) (ptype powerUp)) prev with
  | Some existingIndex => replace_at prev existingIndex powerUp
  | None => prev ++ [powerUp]
  end.

Definition deactivate_list (pid : string) (prev : list PowerUp) : list PowerUp :=
  filter (fun p => negb (String.eqb (id p) pid)) prev.

(** ** Readers (lines 162-169) *)

Definition getPowerUpMultiplier (t : EffectType) (active : list PowerUp) : Q :=
  match find (fun p => EffectType_beq (ptype p) t) active with
  | Some powerUp => value (effect powerUp)
  | None => 1
  end.

Definition hasActivePowerUp (t : EffectType) (active : list PowerUp) : bool :=
  existsb (fun p => EffectType_beq (ptype p) t) active.

(** ** The provider *)

(** [() => { deactivatePowerUp(powerUp.id); }] of line 111. *)
Inductive Callback := DeactivateCb (pid : string).

Record Provider := mkProvider {
  activePowerUps : list PowerUp;
  handles : list nat;            (* [intervals] of the effect's last run *)
  clock : Q;
  timers : Timers.queue Callback;
  rng : nat -> Q;
  rng_pos : nat
}.

Definition set_active l w :=
  mkProvider l (handles w) (clock w) (timers w) (rng w) (rng_pos w).
Definition set_timers q hs w :=
  mkProvider (activePowerUps w) hs (clock w) q (rng w) (rng_pos w).
Definition set_clock t w :=
  mkProvider (activePowerUps w) (handles w) t (timers w) (rng w) (rng_pos w).

(** The cleanup of lines 118-122: [clearTimeout] of every handle. *)
Definition clear_all (hs : list nat) (q : Timers.queue Callback) : Timers.queue Callback :=
  fold_left (fun q h => Timers.clearTimeout h q) hs q.

(** The body of lines 109-116: one [setTimeout] per power-up of positive
    duration, in list order, and the handles they return. *)
Fixpoint schedule_all (now : Q) (l : list PowerUp) (q : Timers.queue Callback)
    : Timers.queue Callback * list nat :=
  match l with
  | [] => (q, [])
  | p :: r =>
      if 0 <? duration p then
        let h := Timers.next_id q in
        let '(q', hs) :=
          schedule_all now r (Timers.setTimeout now (duration p) (DeactivateCb (id p)) q) in
        (q', h :: hs)
      else schedule_all now r q
  end.

(** The effect on [[activePowerUps]]: the previous run's cleanup, then the
    new run. *)
Definition timeoutEffect (w : Provider) : Provider :=
  let '(q, hs) := schedule_all (clock w) (activePowerUps w) (clear_all (handles w) (timers w)) in
  set_timers q hs w.

(** [setActivePowerUps(updater)], then React's commit: the updaters always
    return a new array, so the effect re-runs. *)
Definition setActivePowerUps (f : list PowerUp -> list PowerUp) (w : Provider) : Provider :=
  timeoutEffect (set_active (f (activePowerUps w)) w).

Definition activatePowerUp (powerUp : PowerUp) : Provider -> Provider :=
  setActivePowerUps (activate_list powerUp).

Definition deactivatePowerUp (pid : string) : Provider -> Provider :=
  setActivePowerUps (deactivate_list pid).

(** ** [getRandomPowerUp] (lines 143-160) *)

Definition random : St Provider Q :=
  fun w => (rng w (rng_pos w),
            mkProvider (activePowerUps w) (handles w) (clock w) (timers w) (rng w)
              (S (rng_pos w))).

(** The rarity the first draw selects (lines 147-155). *)
Definition rarity_of_roll (roll : Q) : Rarity :=
  if roll <? 5 # 100 then legendary
  else if roll <? 20 # 100 then epic
  else if roll <? 50 # 100 then rare
  else common.

(** [availablePowerUps[Math.floor(Math.random() * availablePowerUps.length)]]:
    an index outside the array reads [undefined], here [None]. *)
Definition pick_index {A} (l : list A) (r : Q) : option A :=
  let k := Qfloor (r * Qnat (List.length l)) in
  if (k <? 0)%Z then None else nth_error l (Z.to_nat k).

Definition getRandomPowerUp : St Provider (option PowerUp) :=
  roll <- random ;;
  let availablePowerUps :=
    filter (fun p => Rarity_beq (rarity p) (rarity_of_roll roll)) POWER_UPS in
  if Nat.eqb (List.length availablePowerUps) 0 then st_ret None
  else r <- random ;; st_ret (pick_index availablePowerUps r).

(** ** Runs *)

Inductive Call :=
  | CallActivate (p : PowerUp)
  | CallDeactivate (pid : string)
  | CallGetRandom.

Definition user_call (c : Call) (w : Provider) : Provider :=
  match c with
  | CallActivate p => activatePowerUp p w
  | CallDeactivate pid => deactivatePowerUp pid w
  | CallGetRandom => st_exec getRandomPowerUp w
  end.

(** A due timeout: it leaves the queue and its callback runs. *)
Definition fire_timer (t : Timers.timer Callback) (w : Provider) : Provider :=
  let w1 := set_timers (Timers.clearTimeout (Timers.t_id t) (timers w)) (handles w)
              (set_clock (Timers.t_due t) w) in
  match Timers.t_cb t with
  | DeactivateCb pid => deactivatePowerUp pid w1
  end.

(** The provider mounts with an empty list; the effect's first run
    schedules nothing. *)
Definition mount (rng0 : nat -> Q) (t0 : Q) : Provider :=
  timeoutEffect (mkProvider [] [] t0 Timers.empty_queue rng0 0).

Inductive step : Provider -> Provider -> Prop :=
  | step_call c w : step w (user_call c w)
  | step_timer t w :
      Timers.earliest (Timers.pending (timers w)) = Some t -> step w (fire_timer t w)
  | step_wait t w :
      clock w <= t -> Forall (fun u => t <= Timers.t_due u) (Timers.pending (timers w)) ->
      step w (set_clock t w).

(** Fire the due timeouts in order, then move the clock to [T]. *)
Fixpoint run_until (fuel : nat) (T : Q) (w : Provider) : option Provider :=
  match fuel with
  | O => None
  | S f =>
      match Timers.earliest (Timers.pending (timers w)) with
      | Some t =>
          if Timers.t_due t <=? T then run_until f T (fire_timer t w)
          else if clock w <=? T then Some (set_clock T w) else Some w
      | None => if clock w <=? T then Some (set_clock T w) else Some w
      end
  end.

(** ** [PowerUpShop] (lines 272-349) *)

(** The price by rarity (lines 277-279 and 308-310). *)
Definition cost (r : Rarity) : Q :=
  match r with common => 10 | rare => 25 | epic => 50 | legendary => 100 end.

Record Shop := mkShop { playerCoins : Q; provider : Provider }.

Definition shop_mount (w : Provider) : Shop := mkShop 100 w.

(** [buyPowerUp]: the balance check, the debit and the activation. *)
Definition buyPowerUp (powerUp : PowerUp) (s : Shop) : Shop :=
  let c := cost (rarity powerUp) in
  if c <=? playerCoins s
  then mkShop (playerCoins s - c) (activatePowerUp powerUp (provider s))
  else s.

(** [getRarityColor] (lines 287-295). *)
Definition getRarityColor (r : Rarity) : string :=
  match r with
  | common => "text-gray-400" | rare => "text-blue-400"
  | epic => "text-purple-400" | legendary => "text-yellow-400"
  end%string.

(** The buy button of a card (lines 332-342): its label and whether it is
    disabled. *)
Definition buy_button (powerUp : PowerUp) (s : Shop) : string * bool :=
  let c := cost (rarity powerUp) in
  (if c <=? playerCoins s then "BUY NOW"%string else "INSUFFICIENT COINS"%string,
   playerCoins s <? c).

(** [PowerUpDisplay] (lines 196-233): one card per active power-up, its icon
    and name, and a countdown bar when its duration is positive. *)
Definition display (w : Provider) : list (string * string * bool) :=
  map (fun p => (icon p, name p, 0 <? duration p)) (activePowerUps w).

(** ** Lemmas on the updaters *)

Lemma EffectType_beq_iff x y : EffectType_beq x y = true <-> x = y.
Proof.
  split; [apply internal_EffectType_dec_bl | apply internal_EffectType_dec_lb].
Qed.

Lemma EffectType_beq_refl x : EffectType_beq x x = true.
Proof. now apply EffectType_beq_iff. Qed.

#[export] Hint Rewrite EffectType_beq_refl : chaos_rw.

(** [activatePowerUp]'s updater walks the array as a recursion would. *)
Lemma activate_list_nil p : activate_list p [] = [p].
Proof. reflexivity. Qed.

Lemma activate_list_cons p x r :
  activate_list p (x :: r) =
  if EffectType_beq (ptype x) (ptype p) then p :: r else x :: activate_list p r.
Proof.
  unfold activate_list. simpl.
  destruct (EffectType_beq (ptype x) (ptype p)); [reflexivity|].
  destruct (findIndex _ r); reflexivity.
Qed.

Lemma map_ptype_activate p l :
  map ptype (activate_list p l) = map ptype l \/
  (map ptype (activate_list p l) = map ptype l ++ [ptype p] /\ ~ In (ptype p) (map ptype l)).
Proof.
  induction l as [|x r IH]; [right; split; [reflexivity | intros []]|].
  rewrite activate_list_cons. destruct (EffectType_beq (ptype x) (ptype p)) eqn:E.
  - apply EffectType_beq_iff in E. left. simpl. now rewrite E.
  - assert (ptype x <> ptype p) by (intro H; apply EffectType_beq_iff in H; congruence).
    simpl. destruct IH as [IH | [IH Hn]]; rewrite IH; [now left|].
    right. split; [reflexivity|]. intros [H'|H']; auto.
Qed.

Lemma NoDup_map_filter {A B} (f : A -> B) g l :
  NoDup (map f l) -> NoDup (map f (filter g l)).
Proof.
  induction l as [|x r IH]; simpl; intro H; [constructor|].
  inversion H as [|? ? Hn Hd]; subst. destruct (g x); simpl; auto.
  constructor; auto. intro Hin. apply Hn.
  apply in_map_iff in Hin as [y [<- Hy]]. apply filter_In in Hy as [Hy _].
  now apply in_map.
Qed.

Lemma activate_types p l : NoDup (map ptype l) -> NoDup (map ptype (activate_list p l)).
Proof.
  intro H. destruct (map_ptype_activate p l) as [E | [E Hn]]; rewrite E; [exact H|].
  apply NoDup_app; auto using NoDup_cons, NoDup_nil.
  intros x Hx [<-|[]]. contradiction.
Qed.

Lemma deactivate_types pid l : NoDup (map ptype l) -> NoDup (map ptype (deactivate_list pid l)).
Proof. apply NoDup_map_filter. Qed.

#[export] Hint Resolve activate_types deactivate_types : chaos.

(** ** The timeouts the effect arms *)

(** The timers [schedule_all] appends, from handle [n] on. *)
Fixpoint sched_list (now : Q) (l : list PowerUp) (n : nat) : list (Timers.timer Callback) :=
  match l with
  | [] => []
  | p :: r =>
      if 0 <? duration p
      then Timers.mkTimer n (now + Qmax 0 (duration p)) (DeactivateCb (id p)) :: sched_list now r (S n)
      else sched_list now r n
  end.

Definition timed (l : list PowerUp) : list PowerUp := filter (fun p => 0 <? duration p) l.

Lemma schedule_all_eq now l q :
  schedule_all now l q =
  (Timers.mkQueue (Timers.pending q ++ sched_list now l (Timers.next_id q))
                  (Timers.next_id q + List.length (timed l)),
   map Timers.t_id (sched_list now l (Timers.next_id q))).
Proof.
  revert q. induction l as [|p r IH]; intro q; simpl.
  - destruct q. simpl. now rewrite app_nil_r, Nat.add_0_r.
  - destruct (0 <? duration p); simpl; rewrite IH; simpl; [|reflexivity].
    rewrite <- app_assoc. simpl. do 2 f_equal. lia.
Qed.

(** What a pending timeout is for: its due time and its callback. *)
Definition timer_view (q : Timers.queue Callback) : list (Q * Callback) :=
  map (fun t => (Timers.t_due t, Timers.t_cb t)) (Timers.pending q).

(** The timeouts of a run of the effect at [t0]: one per power-up of
    positive duration, due its full duration after [t0]. *)
Definition armed (t0 : Q) (l : list PowerUp) : list (Q * Callback) :=
  map (fun p => (t0 + Qmax 0 (duration p), DeactivateCb (id p))) (timed l).

Lemma sched_list_view now l n :
  map (fun t => (Timers.t_due t, Timers.t_cb t)) (sched_list now l n) = armed now l.
Proof.
  unfold armed, timed. revert n.
  induction l as [|p r IH]; intro n; simpl; [reflexivity|].
  destruct (0 <? duration p); simpl; now rewrite IH.
Qed.

Lemma clear_all_In hs q t :
  In t (Timers.pending (clear_all hs q)) <-> In t (Timers.pending q) /\ ~ In (Timers.t_id t) hs.
Proof.
  revert q. induction hs as [|h r IH]; intro q; simpl; [tauto|].
  rewrite IH. simpl. rewrite Timers.In_remove_timer. intuition.
Qed.

Lemma clear_all_next hs q : Timers.next_id (clear_all hs q) = Timers.next_id q.
Proof. revert q. induction hs as [|h r IH]; intro q; simpl; [reflexivity|]. now rewrite IH. Qed.

Lemma clear_all_covered hs q :
  incl (map Timers.t_id (Timers.pending q)) hs -> Timers.pending (clear_all hs q) = [].
Proof.
  intro Hin. destruct (Timers.pending (clear_all hs q)) as [|t r] eqn:E; [reflexivity|].
  assert (Ht : In t (Timers.pending (clear_all hs q))) by (rewrite E; now left).
  apply clear_all_In in Ht as [Ht Hn]. exfalso. apply Hn, Hin. now apply in_map.
Qed.

Lemma clear_all_wf now hs q :
  Timers.queue_wf now q -> Timers.queue_wf now (clear_all hs q).
Proof.
  revert q. induction hs as [|h r IH]; intros q H; simpl; auto using Timers.clearTimeout_wf.
Qed.

Lemma schedule_all_wf now l q :
  Timers.queue_wf now q -> Timers.queue_wf now (fst (schedule_all now l q)).
Proof.
  revert q. induction l as [|p r IH]; intros q H; simpl; [exact H|].
  destruct (0 <? duration p); [|now apply IH].
  specialize (IH _ (Timers.setTimeout_wf now (duration p) (DeactivateCb (id p)) q H)).
  destruct (schedule_all _ _ _). exact IH.
Qed.

(** ** The invariant of the provider *)

(** At most one active power-up per effect type; exactly one pending
    timeout per power-up of positive duration, all armed at one instant
    [t0] of the past; every pending timeout among the handles the next
    cleanup clears; the queue well formed. *)
Record inv (w : Provider) : Prop := {
  inv_types : NoDup (map ptype (activePowerUps w));
  inv_armed : exists t0, t0 <= clock w /\ timer_view (timers w) = armed t0 (activePowerUps w);
  inv_handles : incl (map Timers.t_id (Timers.pending (timers w))) (handles w);
  inv_wf : Timers.queue_wf (clock w) (timers w)
}.

Lemma effect_inv w :
  NoDup (map ptype (activePowerUps w)) ->
  incl (map Timers.t_id (Timers.pending (timers w))) (handles w) ->
  Timers.queue_wf (clock w) (timers w) ->
  inv (timeoutEffect w).
Proof.
  intros Ht Hh Hq. unfold timeoutEffect.
  pose proof (schedule_all_wf (clock w) (activePowerUps w) _
                (clear_all_wf _ (handles w) _ Hq)) as Hwf.
  rewrite schedule_all_eq in Hwf |- *. simpl in Hwf.
  rewrite clear_all_covered in Hwf |- * by exact Hh. simpl in *.
  split; simpl; [exact Ht | | apply incl_refl | exact Hwf].
  exists (clock w). split; [apply Qle_refl|]. apply sched_list_view.
Qed.

Lemma setActive_inv f w :
  inv w -> NoDup (map ptype (f (activePowerUps w))) -> inv (setActivePowerUps f w).
Proof. intros [? ? Hh Hq] Ht. now apply effect_inv. Qed.

Lemma getRandom_frame w :
  let w' := st_exec getRandomPowerUp w in
  activePowerUps w' = activePowerUps w /\ handles w' = handles w /\
  clock w' = clock w /\ timers w' = timers w.
Proof.
  unfold getRandomPowerUp, st_exec, st_bind. simpl.
  destruct (Nat.eqb _ 0); simpl; auto.
Qed.

Lemma user_call_inv c w : inv w -> inv (user_call c w).
Proof.
  intro H. destruct c as [p|pid|]; simpl.
  - apply setActive_inv; auto using activate_types, inv_types.
  - apply setActive_inv; auto using deactivate_types, inv_types.
  - destruct (getRandom_frame w) as (E1 & E2 & E3 & E4). destruct H as [? ? ? ?].
    split; rewrite ?E1, ?E2, ?E3, ?E4; assumption.
Qed.

Lemma fire_inv t w :
  inv w -> Timers.earliest (Timers.pending (timers w)) = Some t -> inv (fire_timer t w).
Proof.
  intros [Ht _ Hh Hq] He. unfold fire_timer. destruct (Timers.t_cb t) as [pid].
  apply effect_inv; simpl; auto using deactivate_types.
  - intros x Hx. apply Hh. apply in_map_iff in Hx as [u [<- Hu]].
    apply Timers.In_remove_timer in Hu as [Hu _]. now apply in_map.
  - now apply Timers.fire_earliest_wf with (now := clock w).
Qed.

Lemma wait_inv t w :
  inv w -> clock w <= t -> Forall (fun u => t <= Timers.t_due u) (Timers.pending (timers w)) ->
  inv (set_clock t w).
Proof.
  intros [Ht [t0 [Hle Ha]] Hh Hq] Hc Hall. split; simpl; auto.
  - exists t0. split; [lra | exact Ha].
  - now apply Timers.queue_wf_advance with (now := clock w).
Qed.

Lemma pu_step_inv w w' : inv w -> step w w' -> inv w'.
Proof.
  intros H Hs. destruct Hs; eauto using user_call_inv, fire_inv, wait_inv.
Qed.

Lemma pu_mount_inv rng0 t0 : inv (mount rng0 t0).
Proof.
  apply effect_inv; simpl; [constructor | intros x [] | ].
  split; simpl; constructor.
Qed.

Lemma pu_star_inv rng0 t0 w : star step (mount rng0 t0) w -> inv w.
Proof.
  intro Hs. exact (star_invariant step inv pu_step_inv _ _ Hs (pu_mount_inv rng0 t0)).
Qed.

(** ** The contract: a partial map from effect types to power-ups *)

(** What the provider promises its callers: at most one active power-up
    per effect type, which [activatePowerUp] sets and [deactivatePowerUp]
    removes by id; the readers consult that map. *)
Definition Spec := EffectType -> option PowerUp.

Definition spec_activate (p : PowerUp) (m : Spec) : Spec :=
  fun t => if EffectType_beq (ptype p) t then Some p else m t.

Definition spec_deactivate (pid : string) (m : Spec) : Spec :=
  fun t => match m t with
           | Some q => if String.eqb (id q) pid then None else Some q
           | None => None
           end.

Definition spec_call (c : Call) (m : Spec) : Spec :=
  match c with
  | CallActivate p => spec_activate p m
  | CallDeactivate pid => spec_deactivate pid m
  | CallGetRandom => m
  end.

Definition spec_multiplier (m : Spec) (t : EffectType) : Q :=
  match m t with Some p => value (effect p) | None => 1 end.

Definition spec_has (m : Spec) (t : EffectType) : bool :=
  match m t with Some _ => true | None => false end.

(** The abstraction: the first power-up of each type, as the readers'
    [find] sees it. *)
Definition abs (l : list PowerUp) : Spec :=
  fun t => find (fun p => EffectType_beq (ptype p) t) l.

Lemma EffectType_beq_false x y : EffectType_beq x y = false <-> x <> y.
Proof.
  rewrite <- EffectType_beq_iff. destruct (EffectType_beq x y); split; congruence.
Qed.

(** Turn every boolean type comparison in the context into (dis)equality. *)
Ltac beq_facts :=
  repeat match goal with
  | H : EffectType_beq _ _ = true |- _ => apply EffectType_beq_iff in H
  | H : EffectType_beq _ _ = false |- _ => apply EffectType_beq_false in H
  end.

Lemma abs_cons x r t :
  abs (x :: r) t = if EffectType_beq (ptype x) t then Some x else abs r t.
Proof. reflexivity. Qed.

Lemma abs_none l t : ~ In t (map ptype l) -> abs l t = None.
Proof.
  induction l as [|x r IH]; intro H; [reflexivity|]. rewrite abs_cons.
  destruct (EffectType_beq (ptype x) t) eqn:E; beq_facts.
  - exfalso. apply H. now left.
  - apply IH. intro; apply H; now right.
Qed.

Lemma abs_activate p l t : abs (activate_list p l) t = spec_activate p (abs l) t.
Proof.
  unfold spec_activate. induction l as [|x r IH].
  - reflexivity.
  - rewrite activate_list_cons.
    destruct (EffectType_beq (ptype x) (ptype p)) eqn:E; rewrite !abs_cons.
    + destruct (EffectType_beq (ptype p) t) eqn:E1; [reflexivity|].
      destruct (EffectType_beq (ptype x) t) eqn:E2; beq_facts; congruence.
    + rewrite IH. destruct (EffectType_beq (ptype x) t) eqn:E2,
        (EffectType_beq (ptype p) t) eqn:E1; beq_facts; congruence.
Qed.

Lemma abs_deactivate pid l t :
  NoDup (map ptype l) -> abs (deactivate_list pid l) t = spec_deactivate pid (abs l) t.
Proof.
  unfold spec_deactivate. induction l as [|x r IH]; intro Hnd; [reflexivity|].
  inversion Hnd as [|? ? Hn Hd]; subst. specialize (IH Hd).
  change (deactivate_list pid (x :: r)) with
    (if negb (String.eqb (id x) pid) then x :: deactivate_list pid r else deactivate_list pid r).
  rewrite abs_cons. destruct (EffectType_beq (ptype x) t) eqn:E.
  - apply EffectType_beq_iff in E. subst t.
    destruct (String.eqb (id x) pid); cbn [negb].
    + rewrite IH, abs_none by exact Hn. reflexivity.
    + rewrite abs_cons, EffectType_beq_refl. reflexivity.
  - destruct (negb (String.eqb (id x) pid)); [rewrite abs_cons, E|]; exact IH.
Qed.

Lemma multiplier_abs t l : getPowerUpMultiplier t l = spec_multiplier (abs l) t.
Proof. reflexivity. Qed.

Lemma has_abs t l : hasActivePowerUp t l = spec_has (abs l) t.
Proof.
  unfold hasActivePowerUp, spec_has, abs. induction l as [|x r IH]; [reflexivity|].
  simpl. now destruct (EffectType_beq (ptype x) t).
Qed.

(** ** What a timeout does *)

Lemma timeoutEffect_active w : activePowerUps (timeoutEffect w) = activePowerUps w.
Proof. unfold timeoutEffect. now rewrite schedule_all_eq. Qed.

Lemma timeoutEffect_clock w : clock (timeoutEffect w) = clock w.
Proof. unfold timeoutEffect. now rewrite schedule_all_eq. Qed.

Lemma fire_active tm w pid :
  Timers.t_cb tm = DeactivateCb pid ->
  activePowerUps (fire_timer tm w) = deactivate_list pid (activePowerUps w) /\
  clock (fire_timer tm w) = Timers.t_due tm.
Proof.
  intro E. unfold fire_timer. rewrite E. unfold deactivatePowerUp, setActivePowerUps.
  now rewrite timeoutEffect_active, timeoutEffect_clock.
Qed.

(** The timeout that fires next deactivates an active power-up of
    positive duration, armed at [t0]. *)
Lemma fired_powerup w tm :
  inv w -> Timers.earliest (Timers.pending (timers w)) = Some tm ->
  exists p t0, In p (activePowerUps w) /\ 0 < duration p /\ t0 <= clock w /\
    Timers.t_cb tm = DeactivateCb (id p) /\ Timers.t_due tm == t0 + duration p.
Proof.
  intros [_ [t0 [Hle Ha]] _ _] He.
  destruct (Timers.earliest_spec _ _ He) as [Hin _].
  assert (Hv : In (Timers.t_due tm, Timers.t_cb tm) (armed t0 (activePowerUps w)))
    by (rewrite <- Ha; unfold timer_view; now apply in_map with (f := fun t => (Timers.t_due t, Timers.t_cb t))).
  apply in_map_iff in Hv as [p [Hp Hpin]]. injection Hp as Hd Hc.
  apply filter_In in Hpin as [Hpin Hpos]. apply Qltb_iff in Hpos.
  exists p, t0. repeat split; auto. rewrite <- Hd. qsolve.
Qed.

Lemma deactivate_length_lt p l :
  In p l -> (List.length (deactivate_list (id p) l) < List.length l)%nat.
Proof.
  unfold deactivate_list. induction l as [|x r IH]; intro Hin; [destruct Hin|].
  simpl. destruct Hin as [<-|Hin].
  - rewrite String.eqb_refl. simpl. pose proof (filter_length_le (fun q => negb (String.eqb (id q) (id x))) r). lia.
  - specialize (IH Hin). destruct (negb _); simpl; lia.
Qed.

Lemma deactivate_incl pid l : incl (deactivate_list pid l) l.
Proof. intros x Hx. now apply filter_In in Hx. Qed.

(** ** Runs without calls *)

(** The time the timed power-ups of a list add up to. *)
Fixpoint total_time (l : list PowerUp) : Q :=
  match l with
  | [] => 0
  | p :: r => (if 0 <? duration p then duration p else 0) + total_time r
  end.

Lemma total_time_nonneg l : 0 <= total_time l.
Proof. induction l as [|p r IH]; simpl; [lra|]. qcase_lt 0 (duration p); lra. Qed.

Lemma total_time_filter g l : total_time (filter g l) <= total_time l.
Proof.
  induction l as [|p r IH]; simpl; [lra|].
  destruct (g p); simpl; qcase_lt 0 (duration p); lra.
Qed.

Lemma total_time_remove p g l :
  In p l -> g p = false -> 0 < duration p -> total_time (filter g l) + duration p <= total_time l.
Proof.
  induction l as [|x r IH]; intros Hin Hg Hp; [destruct Hin|]. simpl.
  destruct Hin as [->|Hin].
  - rewrite Hg. pose proof (total_time_filter g r). qcase_lt 0 (duration p); lra.
  - specialize (IH Hin Hg Hp). destruct (g x); simpl; qcase_lt 0 (duration x); lra.
Qed.

Lemma idle_timed w :
  inv w -> Timers.earliest (Timers.pending (timers w)) = None -> timed (activePowerUps w) = [].
Proof.
  intros [_ [t0 [_ Ha]] _ _] He. apply Timers.earliest_None in He.
  unfold timer_view in Ha. rewrite He in Ha. symmetry in Ha.
  now apply map_eq_nil in Ha.
Qed.

Lemma empty_idle w :
  inv w -> activePowerUps w = [] -> Timers.earliest (Timers.pending (timers w)) = None.
Proof.
  intros [_ [t0 [_ Ha]] _ _] E. rewrite E in Ha. unfold timer_view in Ha.
  apply map_eq_nil in Ha. now rewrite Ha.
Qed.

(** The next timeout removes at least the power-up it was armed for. *)
Lemma fire_shrinks w tm :
  inv w -> Timers.earliest (Timers.pending (timers w)) = Some tm ->
  exists p t0, In p (activePowerUps w) /\ 0 < duration p /\ t0 <= clock w /\
    Timers.t_due tm == t0 + duration p /\
    activePowerUps (fire_timer tm w) = deactivate_list (id p) (activePowerUps w) /\
    clock (fire_timer tm w) = Timers.t_due tm.
Proof.
  intros H He. destruct (fired_powerup w tm H He) as (p & t0 & Hin & Hp & Ht0 & Hc & Hd).
  destruct (fire_active tm w (id p) Hc). exists p, t0. auto 6.
Qed.

Lemma run_until_S f T w :
  run_until (S f) T w =
  match Timers.earliest (Timers.pending (timers w)) with
  | Some t =>
      if Timers.t_due t <=? T then run_until f T (fire_timer t w)
      else if clock w <=? T then Some (set_clock T w) else Some w
  | None => if clock w <=? T then Some (set_clock T w) else Some w
  end.
Proof. reflexivity. Qed.

Lemma run_until_some n T w :
  inv w -> (List.length (activePowerUps w) <= n)%nat -> exists w', run_until (S n) T w = Some w'.
Proof.
  revert w. induction n as [|n IH]; intros w H Hl; rewrite run_until_S.
  - rewrite empty_idle by (auto; now destruct (activePowerUps w)).
    destruct (clock w <=? T); eauto.
  - destruct (Timers.earliest _) as [tm|] eqn:He; [|destruct (clock w <=? T); eauto].
    destruct (Timers.t_due tm <=? T); [|destruct (clock w <=? T); eauto].
    destruct (fire_shrinks w tm H He) as (p & _ & Hin & _ & _ & _ & Ha & _).
    apply IH; [now apply fire_inv|]. rewrite Ha.
    pose proof (deactivate_length_lt p _ Hin). lia.
Qed.

Lemma run_until_expires n T w :
  inv w -> (List.length (activePowerUps w) <= n)%nat ->
  clock w + total_time (activePowerUps w) <= T ->
  exists w', run_until (S n) T w = Some w' /\ timed (activePowerUps w') = [] /\
    incl (activePowerUps w') (activePowerUps w) /\ clock w' = T.
Proof.
  revert w. induction n as [|n IH]; intros w H Hl HT;
    pose proof (total_time_nonneg (activePowerUps w)); rewrite run_until_S.
  - assert (He : Timers.earliest (Timers.pending (timers w)) = None)
      by (apply empty_idle; auto; now destruct (activePowerUps w)).
    rewrite He. qcase_le (clock w) T; [|lra].
    exists (set_clock T w). repeat split; [exact (idle_timed w H He) | apply incl_refl].
  - destruct (Timers.earliest _) as [tm|] eqn:He.
    + destruct (fire_shrinks w tm H He) as (p & t0 & Hin & Hp & Ht0 & Hd & Ha & Hc).
      pose proof (total_time_remove p (fun q => negb (String.eqb (id q) (id p))) _ Hin
                    ltac:(cbn; now rewrite String.eqb_refl) Hp) as Hrem.
      change (filter _ _) with (deactivate_list (id p) (activePowerUps w)) in Hrem.
      pose proof (total_time_nonneg (deactivate_list (id p) (activePowerUps w))).
      qcase_le (Timers.t_due tm) T; [|lra].
      destruct (IH (fire_timer tm w)) as (w' & Hr & Ht & Hi & Hc'); auto using fire_inv.
      * rewrite Ha. pose proof (deactivate_length_lt p _ Hin). lia.
      * rewrite Ha, Hc. unfold deactivate_list in *. lra.
      * exists w'. repeat split; auto. rewrite Ha in Hi.
        eapply incl_tran; [exact Hi | apply deactivate_incl].
    + qcase_le (clock w) T; [|lra].
      exists (set_clock T w). repeat split; [exact (idle_timed w H He) | apply incl_refl].
Qed.

(** ** The catalogue *)

Lemma catalogue_ids p q : In p POWER_UPS -> In q POWER_UPS -> id p = id q -> p = q.
Proof. intros Hp Hq. simpl in Hp, Hq. intuition (subst; first [reflexivity | discriminate]). Qed.

Lemma rarity_available r : filter (fun p => Rarity_beq (rarity p) r) POWER_UPS <> [].
Proof. destruct r; cbv; discriminate. Qed.

Lemma Rarity_beq_eq x y : Rarity_beq x y = true -> x = y.
Proof. apply internal_Rarity_dec_bl. Qed.

(** [Math.floor(r * length)] with [0 <= r < 1] indexes the array. *)
Lemma pick_index_some {A} (l : list A) r :
  0 <= r < 1 -> l <> [] -> exists a, pick_index l r = Some a /\ In a l.
Proof.
  intros Hr Hl. unfold pick_index.
  destruct (Qfloor_index r (Z.of_nat (List.length l)) Hr) as [Hk0 Hkn];
    [destruct l; [congruence | simpl; lia]|].
  unfold Qnat.
  replace (Qfloor (r * inject_Z (Z.of_nat (List.length l))) <? 0)%Z with false by (symmetry; apply Z.ltb_ge; lia).
  destruct (nth_error l _) as [a|] eqn:E.
  - exists a. split; [reflexivity | eapply nth_error_In; eauto].
  - apply nth_error_None in E. lia.
Qed.

Lemma user_call_active c w :
  activePowerUps (user_call c w) =
  match c with
  | CallActivate p => activate_list p (activePowerUps w)
  | CallDeactivate pid => deactivate_list pid (activePowerUps w)
  | CallGetRandom => activePowerUps w
  end.
Proof.
  destruct c; simpl; unfold activatePowerUp, deactivatePowerUp, setActivePowerUps;
    rewrite ?timeoutEffect_active; [reflexivity | reflexivity |].
  apply getRandom_frame.
Qed.

(** ** Properties *)

(** C12: In every reachable state of the provider at most one power-up of
    each effect type is active, and the pending timeouts are exactly one
    per active power-up of positive duration, each due that duration
    after one common instant of the past: the last change of the list. *)
Theorem reachable_powerups_wf rng0 t0 w :
  star step (mount rng0 t0) w ->
  NoDup (map ptype (activePowerUps w)) /\
  exists ta, ta <= clock w /\ timer_view (timers w) = armed ta (activePowerUps w).
Proof.
  intro Hs. destruct (pu_star_inv rng0 t0 w Hs) as [Ht Ha _ _]. auto.
Qed.

(** C13: The provider refines the contract [Spec]: in every reachable state
    a call changes the map of active power-ups as [spec_call] says, a
    timeout deactivates an active power-up of positive duration, and the
    two readers answer from the map. *)
Theorem powerups_refine_spec rng0 t0 w :
  star step (mount rng0 t0) w ->
  (forall c t, abs (activePowerUps (user_call c w)) t = spec_call c (abs (activePowerUps w)) t) /\
  (forall tm, Timers.earliest (Timers.pending (timers w)) = Some tm ->
     exists p, In p (activePowerUps w) /\ 0 < duration p /\
       forall t, abs (activePowerUps (fire_timer tm w)) t = spec_deactivate (id p) (abs (activePowerUps w)) t) /\
  (forall t, getPowerUpMultiplier t (activePowerUps w) = spec_multiplier (abs (activePowerUps w)) t /\
             hasActivePowerUp t (activePowerUps w) = spec_has (abs (activePowerUps w)) t).
Proof.
  intro Hs. pose proof (pu_star_inv rng0 t0 w Hs) as H. split; [|split].
  - intros c t. rewrite user_call_active.
    destruct c; simpl; auto using abs_activate, abs_deactivate, inv_types.
  - intros tm He. destruct (fire_shrinks w tm H He) as (p & _ & Hin & Hp & _ & _ & Ha & _).
    exists p. repeat split; auto. intro t. rewrite Ha. auto using abs_deactivate, inv_types.
  - intro t. split; [apply multiplier_abs | apply has_abs].
Qed.

(** Without further calls the provider's run terminates: firing the
    due timeouts up to any time [T] needs at most one step per active
    power-up. *)
Theorem run_until_terminates rng0 t0 w T :
  star step (mount rng0 t0) w ->
  exists w', run_until (S (List.length (activePowerUps w))) T w = Some w'.
Proof. intro Hs. apply run_until_some; [exact (pu_star_inv _ _ _ Hs) | lia]. Qed.

(** C14: Every power-up of positive duration eventually expires: once the
    clock has run the sum of the active durations with no call, only
    power-ups without a timeout remain.  The sum, not the longest
    duration, is the bound, since each expiry re-arms the others. *)
Theorem timed_powerups_expire rng0 t0 w T :
  star step (mount rng0 t0) w -> clock w + total_time (activePowerUps w) <= T ->
  exists w', run_until (S (List.length (activePowerUps w))) T w = Some w' /\
    timed (activePowerUps w') = [] /\ incl (activePowerUps w') (activePowerUps w) /\
    clock w' = T.
Proof. intros Hs HT. apply run_until_expires; [exact (pu_star_inv _ _ _ Hs) | lia | exact HT]. Qed.

(** [getRandomPowerUp] never returns [null]: for draws in [[0, 1)] it
    returns a catalogue power-up of the rarity the first draw selects. *)
Theorem getRandomPowerUp_some w :
  0 <= rng w (rng_pos w) < 1 -> 0 <= rng w (S (rng_pos w)) < 1 ->
  exists p, fst (getRandomPowerUp w) = Some p /\ In p POWER_UPS /\
    rarity p = rarity_of_roll (rng w (rng_pos w)).
Proof.
  intros H1 H2. unfold getRandomPowerUp, st_bind, random. cbn [fst snd rng rng_pos].
  set (avail := filter _ POWER_UPS).
  assert (Ha : avail <> []) by apply rarity_available.
  destruct (pick_index_some avail _ H2 Ha) as (p & Hp & Hin).
  replace (Nat.eqb (List.length avail) 0) with false
    by (symmetry; apply Nat.eqb_neq; destruct avail; [congruence | discriminate]).
  exists p. split; [exact Hp|]. apply filter_In in Hin as [Hin Hr].
  split; [exact Hin | now apply Rarity_beq_eq].
Qed.

(** A catalogue power-up without a timeout (only [INSTANT REPAIR])
    survives every timeout: nothing but an explicit [deactivatePowerUp]
    removes it. *)
Theorem untimed_survive_timeouts rng0 t0 w tm p :
  star step (mount rng0 t0) w -> incl (activePowerUps w) POWER_UPS ->
  Timers.earliest (Timers.pending (timers w)) = Some tm ->
  In p (activePowerUps w) -> duration p <= 0 -> In p (activePowerUps (fire_timer tm w)).
Proof.
  intros Hs Hcat He Hin Hd.
  destruct (fire_shrinks w tm (pu_star_inv _ _ _ Hs) He) as (q & _ & Hq & Hpos & _ & _ & Ha & _).
  rewrite Ha. apply filter_In. split; [exact Hin|].
  destruct (String.eqb (id p) (id q)) eqn:E; [|reflexivity].
  apply String.eqb_eq in E. pose proof (catalogue_ids p q (Hcat _ Hin) (Hcat _ Hq) E). subst. lra.
Qed.

(** The shop's balance stays within [[0, 100]] whatever is bought:
    a purchase happens only when the coins cover its price. *)
Theorem shop_coins_bounded w ps :
  let s := fold_left (fun s p => buyPowerUp p s) ps (shop_mount w) in
  0 <= playerCoins s <= 100.
Proof.
  cbv zeta. assert (H : 0 <= playerCoins (shop_mount w) <= 100) by (simpl; lra).
  revert H. generalize (shop_mount w). induction ps as [|p r IH]; intros s Hs; [exact Hs|].
  apply IH. unfold buyPowerUp.
  assert (0 < cost (rarity p)) by (destruct (rarity p); simpl; lra).
  qcase_le (cost (rarity p)) (playerCoins s); simpl; lra.
Qed.

(** ** Concrete runs *)

Definition no_rng : nat -> Q := fun _ => 0.

Definition catalogue (i : nat) : PowerUp :=
  nth i POWER_UPS (mkPowerUp "" "" "" "" 0 (mkEffect speed_boost 1 None) common "").

(** A CHAOS SHIELD at 0 ms, then a TURBO CHARGE at 5000 ms. *)
Definition restart_world : Provider :=
  user_call (CallActivate (catalogue 0))
    (set_clock 5000 (user_call (CallActivate (catalogue 1)) (mount no_rng 0))).

(** A CHAOS SHIELD and an INSTANT REPAIR at 0 ms. *)
Definition repair_world : Provider :=
  user_call (CallActivate (catalogue 6)) (user_call (CallActivate (catalogue 1)) (mount no_rng 0)).

Lemma restart_reachable : star step (mount no_rng 0) restart_world.
Proof.
  apply star_step with (user_call (CallActivate (catalogue 1)) (mount no_rng 0)); [apply step_call|].
  apply star_step with (set_clock 5000 (user_call (CallActivate (catalogue 1)) (mount no_rng 0))).
  - apply step_wait; vm_compute; [discriminate | repeat constructor; discriminate].
  - apply star_one, step_call.
Qed.

Lemma repair_reachable : star step (mount no_rng 0) repair_world.
Proof.
  apply star_step with (user_call (CallActivate (catalogue 1)) (mount no_rng 0)); [apply step_call|].
  apply star_one, step_call.
Qed.

(** Every change of the list re-arms all timeouts for their full
    duration: a CHAOS SHIELD (15 seconds) activated at 0 ms and followed by
    a TURBO CHARGE at 5000 ms is still active at 29999 ms, and expires
    only at 30000 ms, when the TURBO CHARGE's expiry at 15000 ms has
    re-armed it once more. *)
Theorem expiry_restarts_timers :
  star step (mount no_rng 0) restart_world /\
  option_map (fun w => hasActivePowerUp shield (activePowerUps w))
    (run_until 3 29999 restart_world) = Some true /\
  option_map (fun w => hasActivePowerUp shield (activePowerUps w))
    (run_until 3 30000 restart_world) = Some false.
Proof. split; [exact restart_reachable | split; vm_compute; reflexivity]. Qed.

Lemma reachable_powerups_wf_witness :
  NoDup (map ptype (activePowerUps restart_world)) /\
  exists ta, ta <= clock restart_world /\
    timer_view (timers restart_world) = armed ta (activePowerUps restart_world).
Proof. exact (reachable_powerups_wf no_rng 0 restart_world restart_reachable). Defined.

Lemma powerups_refine_spec_witness :
  abs (activePowerUps (user_call (CallDeactivate "shield") restart_world)) shield =
  spec_call (CallDeactivate "shield") (abs (activePowerUps restart_world)) shield.
Proof. exact (proj1 (powerups_refine_spec no_rng 0 restart_world restart_reachable) _ _). Defined.

Lemma run_until_terminates_witness :
  exists w', run_until (S (List.length (activePowerUps restart_world))) 40000 restart_world = Some w'.
Proof. exact (run_until_terminates no_rng 0 restart_world 40000 restart_reachable). Defined.

Lemma timed_powerups_expire_witness :
  exists w', run_until (S (List.length (activePowerUps restart_world))) 30000 restart_world = Some w' /\
    timed (activePowerUps w') = [] /\ incl (activePowerUps w') (activePowerUps restart_world) /\
    clock w' = 30000.
Proof.
  apply (timed_powerups_expire no_rng 0 restart_world 30000 restart_reachable).
  vm_compute. discriminate.
Defined.

Lemma getRandomPowerUp_some_witness :
  exists p, fst (getRandomPowerUp (mount (fun _ => 1 # 3) 0)) = Some p /\ In p POWER_UPS /\
    rarity p = rarity_of_roll (1 # 3).
Proof. apply getRandomPowerUp_some; split; vm_compute; first [reflexivity | discriminate]. Defined.

Lemma untimed_survive_timeouts_witness :
  match Timers.earliest (Timers.pending (timers repair_world)) with
  | Some tm => In (catalogue 6) (activePowerUps (fire_timer tm repair_world))
  | None => False
  end.
Proof.
  destruct (Timers.earliest _) as [tm|] eqn:E; [|vm_compute in E; discriminate].
  apply (untimed_survive_timeouts no_rng 0 repair_world tm (catalogue 6) repair_reachable).
  - intros x Hx. vm_compute in Hx. vm_compute. intuition.
  - exact E.
  - vm_compute. intuition.
  - vm_compute. discriminate.
Defined.

End PowerUps.
