(* ===== verification/Snake.v ===== *)
(** * The snake game of [games/SnakeGame.tsx]

    [SnakeGame] keeps a [GameState] (lines 12-19, initial value lines
    27-34) and a flag [isGlitched].  [moveSnake] (lines 76-124) runs the
    updater of lines 79-123 on every tick of the game loop (lines
    127-134): an optional glitch distortion of the direction, the wall and
    self-collision checks that end the game and call [damageStability(5)],
    and the food check that grows the snake, calls [repairStability(2)]
    and draws new food with the do-while loop of [generateFood] (lines
    65-74).  The keyboard handler (lines 138-172) turns or pauses; the
    glitch interval (lines 40-57) flips [isGlitched] and may set a random
    direction when the glitch intensity exceeds 0.7; [resetGame] (lines
    178-187) restores the initial state.

    The game reads and writes the chaos context only through
    [StabilityStore] of [Stability.v]: the section is generic in the store
    and in how it reports chaos mode, and the instance at the end runs it
    over the [ChaosState] of [Chaos.v].  The do-while loop draws with fuel:
    [None] means it has not found a free cell within the draws allowed. *)

From S2P Require Import Prelude Stability Signals Timers Chaos.
From Stdlib Require Import QArith Qround Qminmax Lqa ZArith List String Ascii Bool Lia.
Import ListNotations.

Open Scope Q_scope.
Open Scope chaos_scope.

Module Snake.

(** ** Data (lines 7-34) *)

Record Position := mkPos { x : Z; y : Z }.

Definition pos_eqb (a b : Position) : bool := Z.eqb (x a) (x b) && Z.eqb (y a) (y b).

Record GameState := mkGame {
  snake : list Position;
  food : Position;
  direction : Position;
  gameOver : bool;
  score : Z;
  isPaused : bool
}.

Definition GRID_SIZE : Z := 20.
Definition CELL_SIZE : Z := 20.

Definition initialGame : GameState :=
  mkGame [mkPos 10 10] (mkPos 15 15) (mkPos 1 0) false 0 false.

Definition set_snake l g := mkGame l (food g) (direction g) (gameOver g) (score g) (isPaused g).
Definition set_direction d g := mkGame (snake g) (food g) d (gameOver g) (score g) (isPaused g).
Definition set_gameOver g := mkGame (snake g) (food g) (direction g) true (score g) (isPaused g).
Definition set_paused b g := mkGame (snake g) (food g) (direction g) (gameOver g) (score g) b.

(** [snake.some(segment => segment.x === p.x && segment.y === p.y)] *)
Definition occupied (l : list Position) (p : Position) : bool :=
  existsb (fun s => pos_eqb s p) l.

(** [Math.floor(Math.random() * GRID_SIZE)] *)
Definition cell (r : Q) : Z := Qfloor (r * inject_Z GRID_SIZE).

(** [head.x < 0 || head.x >= GRID_SIZE || head.y < 0 || head.y >= GRID_SIZE] *)
Definition off_grid (p : Position) : bool :=
  (x p <? 0)%Z || (GRID_SIZE <=? x p)%Z || (y p <? 0)%Z || (GRID_SIZE <=? y p)%Z.

(** [e.key.toLowerCase()] on the ASCII letters the handler tests. *)
Definition lower_ascii (c : ascii) : ascii :=
  let n := nat_of_ascii c in
  if (65 <=? n)%nat && (n <=? 90)%nat then ascii_of_nat (n + 32) else c.

Fixpoint toLowerCase (s : string) : string :=
  match s with
  | EmptyString => EmptyString
  | String c r => String (lower_ascii c) (toLowerCase r)
  end.

(** The direction update of the keyboard handler (lines 142-171). *)
Definition key_updater (key : string) (prev : GameState) : GameState :=
  let d := direction prev in
  if String.eqb key "arrowup" || String.eqb key "w" then
    set_direction (mkPos 0 (if (y d =? 0)%Z then -1 else y d)) prev
  else if String.eqb key "arrowdown" || String.eqb key "s" then
    set_direction (mkPos 0 (if (y d =? 0)%Z then 1 else y d)) prev
  else if String.eqb key "arrowleft" || String.eqb key "a" then
    set_direction (mkPos (if (x d =? 0)%Z then -1 else x d) 0) prev
  else if String.eqb key "arrowright" || String.eqb key "d" then
    set_direction (mkPos (if (x d =? 0)%Z then 1 else x d) 0) prev
  else if String.eqb key " " then set_paused (negb (isPaused prev)) prev
  else set_direction d prev.

Section Game.

Context {E : Type} `{StabilityStoreLaws E}.

(** How the store reports [isChaosMode], for [glitchIntensity]. *)
Variable chaosOf : E -> bool.

Record World := mkWorld {
  gs : GameState;
  isGlitched : bool;
  store : E;
  rng : nat -> Q;
  rng_pos : nat
}.

Definition with_gs g w := mkWorld g (isGlitched w) (store w) (rng w) (rng_pos w).
Definition with_glitched b w := mkWorld (gs w) b (store w) (rng w) (rng_pos w).
Definition with_store e w := mkWorld (gs w) (isGlitched w) e (rng w) (rng_pos w).

(** [glitchIntensity] as the context computes it, and the tick delay of
    the speed effect (lines 60-63). *)
Definition glitch (w : World) : Q := Signals.glitchIntensity (chaosOf (store w)) (stab (store w)).

Definition speed (w : World) : Q := Signals.snakeSpeed (glitch w).

Definition random : St World Q :=
  fun w => (rng w (rng_pos w), mkWorld (gs w) (isGlitched w) (store w) (rng w) (S (rng_pos w))).

Definition damageStability (a : Q) : St World unit :=
  st_modify (fun w => with_store (store_damage a (store w)) w).

Definition repairStability (a : Q) : St World unit :=
  st_modify (fun w => with_store (store_repair a (store w)) w).

(** [x: Math.random() > 0.5 ? (Math.random() > 0.5 ? 1 : -1) : 0,
     y: Math.random() > 0.5 ? 0 : (Math.random() > 0.5 ? 1 : -1)]:
    the inner draw happens only on the branch that needs it. *)
Definition randomDirection : St World Position :=
  r1 <- random ;;
  dx <- (if (1 # 2) <? r1
         then (r2 <- random ;; st_ret (if (1 # 2) <? r2 then 1%Z else (-1)%Z))
         else st_ret 0%Z) ;;
  r3 <- random ;;
  dy <- (if (1 # 2) <? r3
         then st_ret 0%Z
         else (r4 <- random ;; st_ret (if (1 # 2) <? r4 then 1%Z else (-1)%Z))) ;;
  st_ret (mkPos dx dy).

(** The do-while loop of [generateFood], with at most [fuel] attempts. *)
Fixpoint generateFood (fuel : nat) (l : list Position) : St World (option Position) :=
  match fuel with
  | O => st_ret None
  | S f =>
      rx <- random ;;
      ry <- random ;;
      let newFood := mkPos (cell rx) (cell ry) in
      if occupied l newFood then generateFood f l else st_ret (Some newFood)
  end.

(** The updater of [moveSnake] (lines 79-123).  An empty snake reads
    [newSnake[0]] as [undefined]: JavaScript then moves a [NaN] head that
    passes every check and is popped again, which leaves [prev]. *)
Definition move_updater (fuel : nat) (glitched : bool) (prev : GameState)
    : St World (option GameState) :=
  match snake prev with
  | [] => st_ret (Some prev)
  | h :: _ =>
      newDirection <- (if glitched
                       then (r <- random ;;
                             if (7 # 10) <? r then randomDirection else st_ret (direction prev))
                       else st_ret (direction prev)) ;;
      let head := mkPos (x h + x newDirection) (y h + y newDirection) in
      if off_grid head then damageStability 5 ;; st_ret (Some (set_gameOver prev))
      else if occupied (snake prev) head then damageStability 5 ;; st_ret (Some (set_gameOver prev))
      else
        let newSnake := head :: snake prev in
        if pos_eqb head (food prev) then
          repairStability 2 ;;
          nf <- generateFood fuel newSnake ;;
          match nf with
          | Some f =>
              st_ret (Some (mkGame newSnake f (direction prev) (gameOver prev)
                              (score prev + 10) (isPaused prev)))
          | None => st_ret None
          end
        else st_ret (Some (set_snake (removelast newSnake) prev))
  end.

(** [moveSnake] (lines 76-124): nothing when over or paused, else the
    updater.  [None] when the food loop is still drawing. *)
Definition moveSnake (fuel : nat) (w : World) : option World :=
  if gameOver (gs w) || isPaused (gs w) then Some w
  else
    let '(r, w') := move_updater fuel (isGlitched w) (gs w) w in
    match r with Some g => Some (with_gs g w') | None => None end.

(** [handleKeyPress] (lines 138-172). *)
Definition handleKeyPress (key : string) (w : World) : World :=
  if gameOver (gs w) then w else with_gs (key_updater (toLowerCase key) (gs w)) w.

(** The glitch interval's callback (lines 42-54). *)
Definition glitchTick : St World unit :=
  st_modify (fun w => with_glitched (negb (isGlitched w)) w) ;;
  r <- random ;;
  if (8 # 10) <? r then
    d <- randomDirection ;;
    st_modify (fun w => with_gs (set_direction d (gs w)) w)
  else st_ret tt.

(** [resetGame] (lines 178-187) and the PAUSE/RESUME button (line 307). *)
Definition resetGame (w : World) : World := with_gs initialGame w.

Definition togglePause (w : World) : World := with_gs (set_paused (negb (isPaused (gs w))) (gs w)) w.

(** What can happen to a mounted game: a tick of the game loop (when the
    food loop terminates), a key, a button, a tick of the glitch interval
    (mounted only while the glitch intensity exceeds 0.7), and the calls
    other components make on the shared store. *)
Inductive step : World -> World -> Prop :=
  | step_tick w w' fuel : moveSnake fuel w = Some w' -> step w w'
  | step_key w k : step w (handleKeyPress k w)
  | step_reset w : step w (resetGame w)
  | step_pause w : step w (togglePause w)
  | step_glitch w : (7 # 10) < glitch w -> step w (st_exec glitchTick w)
  | step_store w o : step w (with_store (store_apply o (store w)) w).

Definition mount (e : E) (rng0 : nat -> Q) : World := mkWorld initialGame false e rng0 0.

End Game.

Arguments World E : clear implicits.

(** ** Positions *)

Lemma pos_eqb_iff a b : pos_eqb a b = true <-> a = b.
Proof.
  destruct a as [ax ay], b as [bx by']. unfold pos_eqb. simpl.
  rewrite andb_true_iff, !Z.eqb_eq. split; [intros [-> ->]; reflexivity | intro E; injection E; auto].
Qed.

Lemma pos_eqb_refl a : pos_eqb a a = true.
Proof. now apply pos_eqb_iff. Qed.

Lemma occupied_iff l p : occupied l p = true <-> In p l.
Proof.
  unfold occupied. rewrite existsb_exists. split.
  - intros [s [Hs E]]. apply pos_eqb_iff in E. now subst.
  - intro Hp. exists p. auto using pos_eqb_refl.
Qed.

Lemma occupied_false l p : occupied l p = false <-> ~ In p l.
Proof. rewrite <- occupied_iff. destruct (occupied l p); split; congruence. Qed.

Definition in_grid (p : Position) : Prop :=
  (0 <= x p < GRID_SIZE)%Z /\ (0 <= y p < GRID_SIZE)%Z.

Lemma off_grid_false p : off_grid p = false <-> in_grid p.
Proof.
  unfold off_grid, in_grid, GRID_SIZE. rewrite !orb_false_iff, Z.ltb_ge, Z.ltb_ge, !Z.leb_gt.
  split; intros; lia.
Qed.

Lemma cell_range r : 0 <= r < 1 -> (0 <= cell r < GRID_SIZE)%Z.
Proof. intro Hr. apply Qfloor_index; [exact Hr | reflexivity]. Qed.

(** ** The food loop *)

Section Food.
Context {E : Type} `{StabilityStoreLaws E}.

Definition advance (w : World E) : World E :=
  mkWorld (gs w) (isGlitched w) (store w) (rng w) (S (S (rng_pos w))).

(** The cell attempt [k] draws. *)
Definition attempt (w : World E) (k : nat) : Position :=
  mkPos (cell (rng w (2 * k + rng_pos w))) (cell (rng w (S (2 * k + rng_pos w)))).

Lemma generateFood_S f l (w : World E) :
  generateFood (S f) l w =
  if occupied l (attempt w 0) then generateFood f l (advance w)
  else (Some (attempt w 0), advance w).
Proof.
  unfold attempt, advance. cbn [generateFood st_bind random Nat.mul Nat.add rng rng_pos].
  destruct (occupied _ _); reflexivity.
Qed.

Lemma attempt_advance (w : World E) k : attempt (advance w) k = attempt w (S k).
Proof. unfold attempt, advance. simpl. do 3 f_equal; lia. Qed.

Lemma attempt_grid (w : World E) k : draws_ok (rng w) -> in_grid (attempt w k).
Proof. intro Hr. split; apply cell_range, Hr. Qed.

(** A cell the loop returns is free and on the board. *)
Lemma generateFood_spec fuel l (w : World E) p :
  draws_ok (rng w) -> fst (generateFood fuel l w) = Some p -> ~ In p l /\ in_grid p.
Proof.
  revert w. induction fuel as [|f IH]; intros w Hr Hf; [discriminate|].
  rewrite generateFood_S in Hf. destruct (occupied l (attempt w 0)) eqn:Eo.
  - exact (IH (advance w) Hr Hf).
  - injection Hf as <-. split; [now apply occupied_false | now apply attempt_grid].
Qed.

(** The loop only draws: the store plays no part in it. *)
Lemma generateFood_store fuel l (w : World E) e :
  fst (generateFood fuel l (with_store e w)) = fst (generateFood fuel l w).
Proof.
  revert w. induction fuel as [|f IH]; intro w; [reflexivity|].
  rewrite !generateFood_S. unfold attempt. simpl.
  destruct (occupied _ _); [|reflexivity]. apply (IH (advance w)).
Qed.

(** Once attempt [k] draws a free cell, every fuel beyond [k] gives the
    same cell: the first free attempt. *)
Lemma generateFood_first_free l (w : World E) k :
  occupied l (attempt w k) = false ->
  exists p, forall fuel, (k < fuel)%nat -> fst (generateFood fuel l w) = Some p.
Proof.
  revert w. induction k as [|k IH]; intros w Hk.
  - exists (attempt w 0). intros [|f] Hf; [lia|]. rewrite generateFood_S, Hk. reflexivity.
  - destruct (occupied l (attempt w 0)) eqn:E0.
    + rewrite <- attempt_advance in Hk. destruct (IH (advance w) Hk) as [p Hp].
      exists p. intros [|f] Hf; [lia|]. rewrite generateFood_S, E0. apply Hp. lia.
    + exists (attempt w 0). intros [|f] Hf; [lia|]. rewrite generateFood_S, E0. reflexivity.
Qed.

(** On a full board every attempt is occupied. *)
Lemma generateFood_full fuel l (w : World E) :
  draws_ok (rng w) -> (forall p, in_grid p -> In p l) -> fst (generateFood fuel l w) = None.
Proof.
  intros Hr Hfull. revert w Hr. induction fuel as [|f IH]; intros w Hr; [reflexivity|].
  rewrite generateFood_S.
  replace (occupied l (attempt w 0)) with true
    by (symmetry; apply occupied_iff, Hfull, attempt_grid, Hr).
  now apply IH.
Qed.

End Food.

(** ** The game invariant *)

(** A non-empty snake of distinct cells on the board, food on a free cell
    of the board, and ten points per cell grown. *)
Record game_wf (g : GameState) : Prop := {
  wf_nonempty : snake g <> [];
  wf_nodup : NoDup (snake g);
  wf_grid : Forall in_grid (snake g);
  wf_food_grid : in_grid (food g);
  wf_food_free : ~ In (food g) (snake g);
  wf_score : score g = (10 * (Z.of_nat (List.length (snake g)) - 1))%Z
}.

Lemma initialGame_wf : game_wf initialGame.
Proof.
  split; simpl; try discriminate.
  - repeat constructor. intros [].
  - repeat constructor; unfold GRID_SIZE; simpl; lia.
  - unfold in_grid, GRID_SIZE. simpl. lia.
  - intros [E|[]]. discriminate.
  - reflexivity.
Qed.

Lemma set_gameOver_wf g : game_wf g -> game_wf (set_gameOver g).
Proof. intros []. split; assumption. Qed.

Lemma set_direction_wf d g : game_wf g -> game_wf (set_direction d g).
Proof. intros []. split; assumption. Qed.

Lemma set_paused_wf b g : game_wf g -> game_wf (set_paused b g).
Proof. intros []. split; assumption. Qed.

Lemma key_updater_wf k g : game_wf g -> game_wf (key_updater k g).
Proof.
  intro H. unfold key_updater.
  repeat match goal with |- context [if ?c then _ else _] => destruct c end;
    auto using set_direction_wf, set_paused_wf.
Qed.

#[export] Hint Resolve initialGame_wf set_gameOver_wf set_direction_wf set_paused_wf
  key_updater_wf : chaos.

Lemma removelast_length {A} (a : A) l : l <> [] -> List.length (removelast (a :: l)) = List.length l.
Proof.
  intro Hl. destruct l as [|b r] using rev_ind; [congruence|].
  change (a :: r ++ [b]) with ((a :: r) ++ [b]). rewrite removelast_last. simpl.
  rewrite length_app. simpl. lia.
Qed.

(** A move onto a free cell of the board that is not the food: the head
    enters, the tail leaves. *)
Lemma slide_wf g head :
  game_wf g -> in_grid head -> ~ In head (snake g) -> head <> food g ->
  game_wf (set_snake (removelast (head :: snake g)) g).
Proof.
  intros [Hne Hnd Hgr Hfg Hff Hsc] Hh Hn Hf. unfold set_snake. split; cbn [snake food score].
  - destruct (snake g); [congruence|]. discriminate.
  - apply NoDup_removelast. now constructor.
  - rewrite Forall_forall in *. intros p Hp. apply In_removelast in Hp as [<-|Hp]; auto.
  - exact Hfg.
  - intro Hp. apply In_removelast in Hp as [Hp|Hp]; [congruence | contradiction].
  - rewrite removelast_length by exact Hne. exact Hsc.
Qed.

(** A move onto the food: the snake grows and new food is drawn. *)
Lemma grow_wf g head f :
  game_wf g -> in_grid head -> ~ In head (snake g) ->
  ~ In f (head :: snake g) -> in_grid f ->
  game_wf (mkGame (head :: snake g) f (direction g) (gameOver g) (score g + 10) (isPaused g)).
Proof.
  intros [Hne Hnd Hgr Hfg Hff Hsc] Hh Hn Hf Hfg'. split; cbn [snake food score]; auto.
  - discriminate.
  - now constructor.
  - rewrite Hsc. cbn [List.length]. rewrite Nat2Z.inj_succ. lia.
Qed.

Section Moves.
Context {E : Type} `{StabilityStoreLaws E}.

Definition rng_is (r : nat -> Q) (w : World E) : Prop := rng w = r.

Lemma random_rng r : st_preserves (rng_is r) (@random E).
Proof. intros w Hw. exact Hw. Qed.

Lemma damage_rng r a : st_preserves (rng_is r) (@damageStability E _ a).
Proof. intros w Hw. exact Hw. Qed.

Lemma repair_rng r a : st_preserves (rng_is r) (@repairStability E _ a).
Proof. intros w Hw. exact Hw. Qed.

#[local] Hint Resolve random_rng damage_rng repair_rng : chaos.

(** Thread a state property through a handler's binds and branches. *)
Ltac st_pres :=
  repeat (first
    [ apply st_preserves_bind; [|intro]
    | apply st_preserves_ret
    | apply st_preserves_when
    | solve [eauto with chaos]
    | match goal with |- st_preserves _ (if ?c then _ else _) => destruct c end
    | match goal with |- st_preserves _ (match ?c with _ => _ end) => destruct c end ]).

Lemma randomDirection_rng r : st_preserves (rng_is r) (@randomDirection E).
Proof. unfold randomDirection. st_pres. Qed.

Lemma generateFood_rng r fuel l : st_preserves (rng_is r) (@generateFood E fuel l).
Proof. induction fuel as [|f IH]; simpl; st_pres. Qed.

#[local] Hint Resolve randomDirection_rng generateFood_rng : chaos.

Lemma move_updater_rng r fuel b prev : st_preserves (rng_is r) (@move_updater E _ fuel b prev).
Proof. unfold move_updater. st_pres. Qed.

(** Every game state the updater returns satisfies the invariant. *)
Lemma move_updater_wf fuel b prev (w : World E) g :
  draws_ok (rng w) -> game_wf prev -> fst (move_updater fuel b prev w) = Some g -> game_wf g.
Proof.
  intros Hr Hwf Hg. unfold move_updater in Hg.
  destruct (snake prev) as [|h t] eqn:Es; [injection Hg as <-; exact Hwf|].
  unfold st_bind at 1 in Hg.
  match type of Hg with context [let (_, _) := ?m w in _] => destruct (m w) as [d w1] eqn:Ed end.
  assert (Hr1 : rng w1 = rng w).
  { match type of Ed with ?m w = _ =>
      assert (Hp : st_preserves (rng_is (rng w)) m) by st_pres end.
    specialize (Hp w eq_refl). rewrite Ed in Hp. exact Hp. }
  rewrite <- Es in *. set (head := mkPos (x h + x d) (y h + y d)) in Hg.
  destruct (off_grid head) eqn:Eo; [injection Hg as <-; auto with chaos|].
  destruct (occupied (snake prev) head) eqn:Ec; [injection Hg as <-; auto with chaos|].
  apply off_grid_false in Eo. apply occupied_false in Ec.
  destruct (pos_eqb head (food prev)) eqn:Ef.
  - cbn [st_bind repairStability st_modify] in Hg. unfold st_bind in Hg.
    destruct (generateFood fuel (head :: snake prev) (with_store (store_repair 2 (store w1)) w1))
      as [[f|] w3] eqn:Eg; cbn [fst st_ret] in Hg; [|discriminate].
    injection Hg as <-.
    destruct (generateFood_spec fuel (head :: snake prev) (with_store (store_repair 2 (store w1)) w1) f)
      as [Hf1 Hf2];
      [simpl; rewrite Hr1; exact Hr | rewrite Eg; reflexivity |].
    now apply grow_wf.
  - injection Hg as <-. apply slide_wf; auto.
    intro E'. subst head. rewrite E', pos_eqb_refl in Ef. discriminate.
Qed.

End Moves.

(** ** The board *)

Definition coords : list Z := map Z.of_nat (seq 0 20).

(** The 400 cells of the board, row by row. *)
Definition all_cells : list Position :=
  flat_map (fun i => map (fun j => mkPos i j) coords) coords.

Lemma coords_complete z : (0 <= z < GRID_SIZE)%Z -> In z coords.
Proof.
  intro Hz. unfold coords, GRID_SIZE in *. apply in_map_iff. exists (Z.to_nat z).
  split; [lia | apply in_seq; lia].
Qed.

Lemma all_cells_complete p : in_grid p -> In p all_cells.
Proof.
  destruct p as [a b]. intros [Ha Hb]. unfold all_cells. apply in_flat_map.
  exists a. split; [now apply coords_complete|]. apply in_map. now apply coords_complete.
Qed.

(** A snake of distinct cells on the board has at most 400 cells. *)
Lemma board_length l : NoDup l -> Forall in_grid l -> (List.length l <= 400)%nat.
Proof.
  intros Hnd Hg. change 400%nat with (List.length all_cells).
  apply NoDup_incl_length; [exact Hnd|]. intros p Hp.
  apply all_cells_complete. rewrite Forall_forall in Hg. auto.
Qed.

(** ** Runs *)

Section Runs.
Context {E : Type} `{StabilityStoreLaws E} (chaosOf : E -> bool).

Definition snake_inv (r : nat -> Q) (w : World E) : Prop := game_wf (gs w) /\ rng w = r.

Lemma random_inv r : st_preserves (snake_inv r) (@random E).
Proof. intros w Hw. exact Hw. Qed.

Lemma randomDirection_inv r : st_preserves (snake_inv r) (@randomDirection E).
Proof.
  unfold randomDirection.
  repeat (first [apply st_preserves_bind; [|intro] | apply st_preserves_ret | apply random_inv
    | match goal with |- st_preserves _ (if ?c then _ else _) => destruct c end]).
Qed.

Lemma glitchTick_inv r : st_preserves (snake_inv r) (@glitchTick E).
Proof.
  unfold glitchTick. apply st_preserves_bind; [|intros []].
  - apply st_preserves_modify. intros w []. split; assumption.
  - apply st_preserves_bind; [apply random_inv | intro x0].
    destruct (_ <? x0); [|apply st_preserves_ret].
    apply st_preserves_bind; [apply randomDirection_inv | intro d].
    apply st_preserves_modify. intros w [Hg Hr]. split; [apply set_direction_wf|]; assumption.
Qed.

Lemma moveSnake_inv r fuel (w w' : World E) :
  draws_ok r -> snake_inv r w -> moveSnake fuel w = Some w' -> snake_inv r w'.
Proof.
  intros Hok [Hg Hr] Hm. unfold moveSnake in Hm.
  destruct (_ || _); [injection Hm as <-; split; assumption|].
  destruct (move_updater fuel (isGlitched w) (gs w) w) as [[g|] w1] eqn:Em; [|discriminate].
  injection Hm as <-. split; simpl.
  - apply (move_updater_wf fuel (isGlitched w) (gs w) w); [now rewrite Hr | exact Hg | now rewrite Em].
  - pose proof (move_updater_rng r fuel (isGlitched w) (gs w) w Hr) as Hp.
    rewrite Em in Hp. exact Hp.
Qed.

Lemma snake_step_inv r (w w' : World E) :
  draws_ok r -> snake_inv r w -> step chaosOf w w' -> snake_inv r w'.
Proof.
  intros Hok Hw Hs. destruct Hs as [w w' fuel Hm | w k | w | w | w Hgl | w o].
  - eauto using moveSnake_inv.
  - unfold handleKeyPress. destruct (gameOver (gs w)); [exact Hw|].
    destruct Hw. split; simpl; auto with chaos.
  - destruct Hw. split; simpl; auto with chaos.
  - destruct Hw. split; simpl; auto with chaos.
  - now apply glitchTick_inv.
  - destruct Hw. split; simpl; auto.
Qed.

Lemma snake_star_inv r (e : E) (w : World E) :
  draws_ok r -> star (step chaosOf) (mount e r) w -> snake_inv r w.
Proof.
  intros Hok Hs. apply (star_invariant (step chaosOf) (snake_inv r)) with (mount e r);
    [intros; eapply snake_step_inv; eauto | exact Hs | split; [exact initialGame_wf | reflexivity]].
Qed.

End Runs.

(** ** Properties *)

Section Properties.
Context {E : Type} `{StabilityStoreLaws E}.

Definition store_is (e : E) (w : World E) : Prop := store w = e.

Lemma generateFood_keeps_store e fuel l : st_preserves (store_is e) (@generateFood E fuel l).
Proof.
  induction fuel as [|f IH]; simpl;
    repeat (first [apply st_preserves_bind; [|intro] | apply st_preserves_ret | exact IH
      | intros w' Hw'; exact Hw'
      | match goal with |- st_preserves _ (if ?c then _ else _) => destruct c end]).
Qed.

(** The tick of a running, unglitched game, up to the head it computes. *)
Lemma moveSnake_unglitched fuel (w : World E) h t :
  gameOver (gs w) = false -> isPaused (gs w) = false -> isGlitched w = false ->
  snake (gs w) = h :: t ->
  let head := mkPos (x h + x (direction (gs w))) (y h + y (direction (gs w))) in
  moveSnake fuel w =
  if off_grid head then Some (with_gs (set_gameOver (gs w)) (with_store (store_damage 5 (store w)) w))
  else if occupied (snake (gs w)) head then
    Some (with_gs (set_gameOver (gs w)) (with_store (store_damage 5 (store w)) w))
  else if pos_eqb head (food (gs w)) then
    let w1 := with_store (store_repair 2 (store w)) w in
    match generateFood fuel (head :: snake (gs w)) w1 with
    | (Some f, w2) => Some (with_gs (mkGame (head :: snake (gs w)) f (direction (gs w))
                          (gameOver (gs w)) (score (gs w) + 10) (isPaused (gs w))) w2)
    | (None, _) => None
    end
  else Some (with_gs (set_snake (removelast (head :: snake (gs w))) (gs w)) w).
Proof.
  intros Ho Hp Hg Es head. unfold moveSnake.
  replace (gameOver (gs w) || isPaused (gs w)) with false by (now rewrite Ho, Hp). rewrite Hg.
  unfold move_updater. rewrite Es. cbn [st_bind st_ret]. rewrite <- Es. fold head.
  destruct (off_grid head); [reflexivity|]. destruct (occupied _ head); [reflexivity|].
  destruct (pos_eqb head _); [|reflexivity].
  cbn [st_bind repairStability st_modify]. unfold st_bind.
  destruct (generateFood _ _ _) as [[f|] w2]; reflexivity.
Qed.

End Properties.

(** C15: In every reachable state of the game the snake is a non-empty list
    of distinct cells of the 20 x 20 board, the food lies on a free cell of
    the board, and the score is ten points per cell grown. *)
Theorem reachable_snake_wf {E} `{StabilityStoreLaws E} (chaosOf : E -> bool) (e : E) r w :
  draws_ok r -> star (step chaosOf) (mount e r) w -> game_wf (gs w).
Proof. intros Hok Hs. exact (proj1 (snake_star_inv chaosOf r e w Hok Hs)). Qed.

(** The snake never exceeds the 400 cells of the board, so the score
    stays within [[0, 3990]]. *)
Theorem snake_length_bounded {E} `{StabilityStoreLaws E} (chaosOf : E -> bool) (e : E) r w :
  draws_ok r -> star (step chaosOf) (mount e r) w ->
  (List.length (snake (gs w)) <= 400)%nat /\ (0 <= score (gs w) <= 3990)%Z.
Proof.
  intros Hok Hs. destruct (proj1 (snake_star_inv chaosOf r e w Hok Hs)) as [Hne Hnd Hgr _ _ Hsc].
  pose proof (board_length _ Hnd Hgr). split; [lia|]. rewrite Hsc.
  destruct (snake (gs w)); [congruence|]. simpl List.length in *. lia.
Qed.

(** The do-while loop of [generateFood] terminates as soon as one
    attempt draws a free cell: if attempt [k] does, every bound beyond [k]
    yields the same free cell of the board. *)
Theorem food_loop_terminates {E} (l : list Position) (w : World E) k :
  draws_ok (rng w) -> occupied l (attempt w k) = false ->
  exists p, ~ In p l /\ in_grid p /\
    forall fuel, (k < fuel)%nat -> fst (generateFood fuel l w) = Some p.
Proof.
  intros Hr Hk. destruct (generateFood_first_free l w k Hk) as [p Hp].
  exists p. destruct (generateFood_spec (S k) l w p Hr (Hp (S k) (Nat.lt_succ_diag_r k))).
  auto.
Qed.

(** When the snake eats the food on the last free cell, the board is
    full and [moveSnake] never returns: the do-while loop of
    [generateFood] draws occupied cells forever. *)
Theorem eating_last_cell_hangs {E} `{StabilityStoreLaws E} (w : World E) h t fuel :
  draws_ok (rng w) -> gameOver (gs w) = false -> isPaused (gs w) = false -> isGlitched w = false ->
  snake (gs w) = h :: t ->
  mkPos (x h + x (direction (gs w))) (y h + y (direction (gs w))) = food (gs w) ->
  in_grid (food (gs w)) -> ~ In (food (gs w)) (snake (gs w)) ->
  (forall p, in_grid p -> In p (food (gs w) :: snake (gs w))) ->
  moveSnake fuel w = None.
Proof.
  intros Hr Ho Hp Hg Es Eh Hgrid Hfree Hfull.
  rewrite (moveSnake_unglitched fuel w h t Ho Hp Hg Es). cbv zeta. rewrite Eh.
  rewrite (proj2 (off_grid_false _) Hgrid), (proj2 (occupied_false _ _) Hfree), pos_eqb_refl.
  destruct (generateFood fuel _ _) as [[f|] w2] eqn:Eg; [|reflexivity].
  pose proof (generateFood_full fuel (food (gs w) :: snake (gs w))
                (with_store (store_repair 2 (store w)) w) Hr Hfull) as Hn.
  rewrite Eg in Hn. discriminate.
Qed.

(** A tick that runs the head into a wall or into the snake ends the
    game, leaves the snake in place and damages the stability by 5. *)
Theorem moveSnake_crash {E} `{StabilityStoreLaws E} (w : World E) h t fuel :
  gameOver (gs w) = false -> isPaused (gs w) = false -> isGlitched w = false ->
  snake (gs w) = h :: t ->
  let head := mkPos (x h + x (direction (gs w))) (y h + y (direction (gs w))) in
  off_grid head = true \/ In head (h :: t) ->
  exists w', moveSnake fuel w = Some w' /\ gs w' = set_gameOver (gs w) /\
    stab (store w') = Stability.damageStability 5 (stab (store w)).
Proof.
  intros Ho Hp Hg Es head Hc.
  rewrite (moveSnake_unglitched fuel w h t Ho Hp Hg Es). fold head.
  assert (Hcrash : off_grid head = true \/ occupied (snake (gs w)) head = true)
    by (rewrite Es, occupied_iff; exact Hc).
  destruct Hcrash as [Ec|Ec]; [rewrite Ec | destruct (off_grid head); rewrite ?Ec];
    eexists; (split; [reflexivity|]); split; try reflexivity; apply store_damage_spec.
Qed.

(** A tick that runs the head onto the food grows the snake by the
    head, puts the food where the loop drew it, adds 10 points and repairs
    the stability by 2. *)
Theorem moveSnake_eat {E} `{StabilityStoreLaws E} (w : World E) h t fuel f :
  gameOver (gs w) = false -> isPaused (gs w) = false -> isGlitched w = false ->
  snake (gs w) = h :: t ->
  let head := mkPos (x h + x (direction (gs w))) (y h + y (direction (gs w))) in
  head = food (gs w) -> in_grid head -> ~ In head (h :: t) ->
  fst (generateFood fuel (head :: h :: t) w) = Some f ->
  exists w', moveSnake fuel w = Some w' /\ snake (gs w') = head :: h :: t /\
    food (gs w') = f /\ score (gs w') = (score (gs w) + 10)%Z /\
    stab (store w') = Stability.repairStability 2 (stab (store w)).
Proof.
  intros Ho Hp Hg Es head Ef Hgrid Hfree Hgen.
  rewrite (moveSnake_unglitched fuel w h t Ho Hp Hg Es). fold head. cbv zeta.
  rewrite (proj2 (off_grid_false _) Hgrid), Es, (proj2 (occupied_false _ _) Hfree).
  rewrite <- Ef, pos_eqb_refl. rewrite <- Es in Hgen |- *.
  pose proof (generateFood_keeps_store (store_repair 2 (store w)) fuel (head :: snake (gs w))
                (with_store (store_repair 2 (store w)) w) eq_refl) as Hst.
  rewrite <- (generateFood_store fuel _ w (store_repair 2 (store w))) in Hgen.
  destruct (generateFood fuel _ _) as [[f'|] w2]; simpl in Hgen; [|discriminate].
  injection Hgen as ->. eexists. split; [reflexivity|]. simpl. repeat split.
  unfold store_is in Hst. simpl in Hst. rewrite Hst. apply store_repair_spec.
Qed.

(** C32: Two arrow keys within one period of the game loop turn the snake
    back on itself: heading right with its second segment just behind the
    head, ArrowUp then ArrowLeft are both accepted, because each key's
    guard compares with the [direction] state, which the first key has
    already turned, rather than with the last move; the next tick moves
    the head onto the second segment, ends the game and damages the
    stability by 5. *)
Theorem quick_turn_ends_game {E} `{StabilityStoreLaws E} (w : World E) h t fuel :
  gameOver (gs w) = false -> isPaused (gs w) = false -> isGlitched w = false ->
  direction (gs w) = mkPos 1 0 -> snake (gs w) = h :: mkPos (x h - 1) (y h) :: t ->
  let w2 := handleKeyPress "ArrowLeft" (handleKeyPress "ArrowUp" w) in
  direction (gs w2) = mkPos (-1) 0 /\
  exists w', moveSnake fuel w2 = Some w' /\ gameOver (gs w') = true /\
    stab (store w') = Stability.damageStability 5 (stab (store w)).
Proof.
  intros Ho Hp Hg Hd Es w2.
  assert (E1 : handleKeyPress "ArrowUp" w = with_gs (set_direction (mkPos 0 (-1)) (gs w)) w).
  { unfold handleKeyPress. rewrite Ho. unfold key_updater. rewrite Hd. reflexivity. }
  assert (E2 : w2 = with_gs (set_direction (mkPos (-1) 0) (set_direction (mkPos 0 (-1)) (gs w))) w).
  { unfold w2. rewrite E1. unfold handleKeyPress. cbn [gs with_gs set_direction gameOver]. rewrite Ho. reflexivity. }
  split; [rewrite E2; reflexivity|].
  destruct (moveSnake_crash w2 h (mkPos (x h - 1) (y h) :: t) fuel) as (w' & Hm & Hgo & Hs);
    rewrite ?E2; try assumption.
  - right. right. left. cbn. f_equal; lia.
  - exists w'. rewrite <- E2. split; [exact Hm|]. rewrite Hgo, Hs, E2. split; reflexivity.
Qed.

(** ** Concrete games over the chaos context *)

Definition zero_rng : nat -> Q := fun _ => 0.

(** Stability 20, no chaos mode: glitch intensity 0.8. *)
Definition low_stab : Chaos.ChaosState := Chaos.set_stability 20 Chaos.initialState.

(** Draw 0 for the glitch interval, then 0.9 (distort), 0.1 and 0.9. *)
Definition glitch_rng : nat -> Q :=
  fun n => match n with 1%nat => 9 # 10 | 2%nat => 1 # 10 | 3%nat => 9 # 10 | _ => 0 end.

Definition glitch_start : World Chaos.ChaosState := mount low_stab glitch_rng.

Definition glitched : World Chaos.ChaosState := st_exec glitchTick glitch_start.

(** A snake of four cells in a square, its head about to enter the cell
    its tail leaves. *)
Definition tail_world : World Chaos.ChaosState :=
  mkWorld (mkGame [mkPos 1 0; mkPos 1 1; mkPos 0 1; mkPos 0 0] (mkPos 5 5) (mkPos (-1) 0)
             false 30 false)
          false Chaos.initialState zero_rng 0.

(** A snake of one cell in front of the food. *)
Definition eat_world : World Chaos.ChaosState :=
  mkWorld (mkGame [mkPos 10 10] (mkPos 11 10) (mkPos 1 0) false 0 false)
          false Chaos.initialState zero_rng 0.

(** The board full but for the food at (0, 0), the head at (1, 0) moving
    left. *)
Definition full_snake : list Position :=
  mkPos 1 0 :: filter (fun p => negb (pos_eqb p (mkPos 0 0) || pos_eqb p (mkPos 1 0))) all_cells.

Definition full_world : World Chaos.ChaosState :=
  mkWorld (mkGame full_snake (mkPos 0 0) (mkPos (-1) 0) false 3980 false)
          false Chaos.initialState zero_rng 0.

Lemma zero_rng_ok : draws_ok zero_rng.
Proof. intro n. split; vm_compute; first [reflexivity | discriminate]. Qed.

Lemma glitch_rng_ok : draws_ok glitch_rng.
Proof. intros [|[|[|[|n]]]]; split; vm_compute; first [reflexivity | discriminate]. Qed.

Lemma glitched_reachable : star (step Chaos.isChaosMode) glitch_start glitched.
Proof. apply star_one, step_glitch. vm_compute. reflexivity. Qed.

Lemma tail_world_wf : game_wf (gs tail_world).
Proof.
  split; simpl.
  - discriminate.
  - repeat constructor; simpl; intuition discriminate.
  - repeat constructor; unfold GRID_SIZE; simpl; lia.
  - unfold in_grid, GRID_SIZE. simpl. lia.
  - intuition discriminate.
  - reflexivity.
Qed.

(** In high chaos the glitch distortion can draw the direction (0, 0):
    the head then "moves" onto itself, the self-collision check ends the
    game and the stability takes 5 damage, with the snake nowhere near a
    wall or its body.  (It can also draw a diagonal.) *)
Theorem glitch_zero_direction_crashes :
  star (step Chaos.isChaosMode) glitch_start glitched /\ isGlitched glitched = true /\
  match moveSnake 1 glitched with
  | Some w => gameOver (gs w) = true /\ Chaos.stability (store w) == 15
  | None => False
  end.
Proof. split; [exact glitched_reachable | vm_compute; auto]. Qed.

(** Moving into the cell the tail is leaving counts as a collision:
    the self-collision check looks at the snake before its tail is popped,
    so a well-formed snake chasing its own tail dies. *)
Theorem tail_chase_collides :
  game_wf (gs tail_world) /\
  last (snake (gs tail_world)) (mkPos 1 0) = mkPos 0 0 /\
  mkPos (1 + -1) (0 + 0) = mkPos 0 0 /\
  option_map (fun w => gameOver (gs w)) (moveSnake 1 tail_world) = Some true.
Proof. split; [exact tail_world_wf | vm_compute; auto]. Qed.

Lemma reachable_snake_wf_witness : game_wf (gs glitched).
Proof.
  exact (reachable_snake_wf Chaos.isChaosMode low_stab glitch_rng glitched glitch_rng_ok glitched_reachable).
Defined.

Lemma snake_length_bounded_witness :
  (List.length (snake (gs glitched)) <= 400)%nat /\ (0 <= score (gs glitched) <= 3990)%Z.
Proof.
  exact (snake_length_bounded Chaos.isChaosMode low_stab glitch_rng glitched glitch_rng_ok
           glitched_reachable).
Defined.

Lemma food_loop_terminates_witness :
  exists p, ~ In p (snake (gs eat_world)) /\ in_grid p /\
    forall fuel, (0 < fuel)%nat -> fst (generateFood fuel (snake (gs eat_world)) eat_world) = Some p.
Proof. apply food_loop_terminates; [exact zero_rng_ok | vm_compute; reflexivity]. Defined.

Lemma eating_last_cell_hangs_witness : moveSnake 10 full_world = None.
Proof.
  apply (eating_last_cell_hangs full_world (mkPos 1 0)
           (filter (fun p => negb (pos_eqb p (mkPos 0 0) || pos_eqb p (mkPos 1 0))) all_cells));
    try reflexivity.
  - exact zero_rng_ok.
  - unfold in_grid, GRID_SIZE. simpl. lia.
  - apply occupied_false. vm_compute. reflexivity.
  - intros p Hp. apply occupied_iff.
    assert (Hall : forallb (occupied (food (gs full_world) :: snake (gs full_world))) all_cells = true)
      by (vm_compute; reflexivity).
    rewrite forallb_forall in Hall. apply Hall, all_cells_complete, Hp.
Defined.

Lemma moveSnake_crash_witness :
  exists w', moveSnake 1 tail_world = Some w' /\ gs w' = set_gameOver (gs tail_world) /\
    stab (store w') = Stability.damageStability 5 (stab (store tail_world)).
Proof.
  apply (moveSnake_crash tail_world (mkPos 1 0) [mkPos 1 1; mkPos 0 1; mkPos 0 0]); try reflexivity.
  right. simpl. auto.
Defined.

Lemma moveSnake_eat_witness :
  exists w', moveSnake 1 eat_world = Some w' /\ snake (gs w') = [mkPos 11 10; mkPos 10 10] /\
    food (gs w') = mkPos 0 0 /\ score (gs w') = 10%Z /\
    stab (store w') = Stability.repairStability 2 (stab (store eat_world)).
Proof.
  apply (moveSnake_eat eat_world (mkPos 10 10) [] 1 (mkPos 0 0)); try reflexivity.
  - unfold in_grid, GRID_SIZE. simpl. lia.
  - simpl. intuition discriminate.
Defined.

Lemma quick_turn_ends_game_witness :
  let w := mkWorld (mkGame [mkPos 8 7; mkPos 7 7] (mkPos 3 3) (mkPos 1 0) false 10 false)
             false Chaos.initialState zero_rng 0 in
  let w2 := handleKeyPress "ArrowLeft" (handleKeyPress "ArrowUp" w) in
  direction (gs w2) = mkPos (-1) 0 /\
  exists w', moveSnake (E := Chaos.ChaosState) 1 w2 = Some w' /\ gameOver (gs w') = true /\
    stab (store w') = Stability.damageStability 5 (stab (store w)).
Proof. intros w w2. exact (quick_turn_ends_game w (mkPos 8 7) [] 1 eq_refl eq_refl eq_refl eq_refl eq_refl). Defined.

End Snake.
