(* ===== verification/Memory.v ===== *)
(** * The memory game of [games/ChaosMemory.tsx]

    [ChaosMemory] keeps the sixteen cards (eight pairs built by
    [initializeGame], lines 34-72), the ids of the selected cards, the
    move and match counters, [gameOver], [isPaused] and [chaosLevel]
    (lines 21-27).  [handleCardClick] (lines 102-123) flips a card and,
    at the second selection, counts a move and schedules [checkMatch]
    (lines 125-157) 1000 ms later with the selection and a snapshot of
    the cards; [checkMatch] marks the pair matched (repairing stability by
    5, counting the match and ending the game at the eighth) or flips the
    two cards back (damaging stability by 2), then clears the selection.
    Two intervals act while the chaos is high: the chaos interval (lines
    75-99) re-draws the glitched flags, sometimes re-draws the face of
    every unmatched card, and sets [chaosLevel]; the auto-flip interval
    (lines 160-172) turns glitched cards face up.

    The world holds the game, the shared store (through [StabilityStore]),
    a clock, the [setTimeout] queue of [Timers.v] and the random stream.
    [gameCards.sort(() => Math.random() - 0.5)] returns some permutation
    of the deck: [initializeGame] takes that permutation as its argument,
    and the step relation lets it be any.  The two intervals are events
    guarded by their effects' conditions; their ticks interleave freely
    with the rest.  Updaters run when they are called, on the state the
    previous ones left. *)

From S2P Require Import Prelude Stability Signals Timers.
From Stdlib Require Import QArith Qminmax Lqa ZArith List String Bool Lia Permutation.
Import ListNotations.

Open Scope Q_scope.
Open Scope chaos_scope.

Module Memory.

(** ** Data (lines 7-17) *)

Record MemoryCard := mkCard {
  id : nat;
  symbol : string;
  color : string;
  isFlipped : bool;
  isMatched : bool;
  isGlitched : bool
}.

Definition SYMBOLS : list string :=
  ["🎮"; "🕹️"; "👾"; "🎯"; "🎪"; "🎨"; "🎭"; "🎪"]%string.

Definition COLORS : list string :=
  ["#00f0ff"; "#ff006e"; "#39ff14"; "#ffff00"; "#ff00ff"; "#00ff88"; "#ff8800"; "#8800ff"]%string.

Definition set_flipped b c := mkCard (id c) (symbol c) (color c) b (isMatched c) (isGlitched c).
Definition set_matched b c := mkCard (id c) (symbol c) (color c) (isFlipped c) b (isGlitched c).
Definition set_glitched b c := mkCard (id c) (symbol c) (color c) (isFlipped c) (isMatched c) b.

(** The deck before the shuffle (lines 35-62): pair [i] has ids [2i] and
    [2i + 1], [SYMBOLS[i]] and [COLORS[i]]. *)
Definition fresh_card (i : nat) (symbol color : string) : MemoryCard :=
  mkCard i symbol color false false false.

Definition gameCards : list MemoryCard :=
  flat_map (fun i => let symbol := nth i SYMBOLS ""%string in
                     let color := nth i COLORS ""%string in
                     [fresh_card (2 * i) symbol color; fresh_card (2 * i + 1) symbol color])
           (seq 0 8).

Record Game := mkGame {
  cards : list MemoryCard;
  selectedCards : list nat;
  moves : nat;
  matches : nat;
  gameOver : bool;
  isPaused : bool;
  chaosLevel : Z
}.

Definition set_cards l g :=
  mkGame l (selectedCards g) (moves g) (matches g) (gameOver g) (isPaused g) (chaosLevel g).
Definition set_selected s g :=
  mkGame (cards g) s (moves g) (matches g) (gameOver g) (isPaused g) (chaosLevel g).
Definition set_moves n g :=
  mkGame (cards g) (selectedCards g) n (matches g) (gameOver g) (isPaused g) (chaosLevel g).
Definition set_matches n g :=
  mkGame (cards g) (selectedCards g) (moves g) n (gameOver g) (isPaused g) (chaosLevel g).
Definition set_gameOver b g :=
  mkGame (cards g) (selectedCards g) (moves g) (matches g) b (isPaused g) (chaosLevel g).
Definition set_paused b g :=
  mkGame (cards g) (selectedCards g) (moves g) (matches g) (gameOver g) b (chaosLevel g).
Definition set_chaosLevel z g :=
  mkGame (cards g) (selectedCards g) (moves g) (matches g) (gameOver g) (isPaused g) z.

(** The [useState] initial values (lines 21-27). *)
Definition emptyGame : Game := mkGame [] [] 0 0 false false 1.

(** [cards.find(c => c.id === cardId)] *)
Definition find_card (cardId : nat) (l : list MemoryCard) : option MemoryCard :=
  find (fun c => Nat.eqb (id c) cardId) l.

(** [() => { checkMatch(newSelected, newCards); }] of line 120. *)
Inductive Callback := CheckMatch (selected : list nat) (snapshot : list MemoryCard).

Section Game.
Context {E : Type} `{StabilityStoreLaws E}.

(** How the store reports [isChaosMode], for [glitchIntensity]. *)
Variable chaosOf : E -> bool.

Record World := mkWorld {
  game : Game;
  store : E;
  clock : Q;
  timers : Timers.queue Callback;
  rng : nat -> Q;
  rng_pos : nat
}.

Definition with_game g w := mkWorld g (store w) (clock w) (timers w) (rng w) (rng_pos w).
Definition with_store e w := mkWorld (game w) e (clock w) (timers w) (rng w) (rng_pos w).
Definition with_timers q w := mkWorld (game w) (store w) (clock w) q (rng w) (rng_pos w).
Definition with_clock t w := mkWorld (game w) (store w) t (timers w) (rng w) (rng_pos w).

Definition update_game (f : Game -> Game) (w : World) : World := with_game (f (game w)) w.

Definition glitch (w : World) : Q := Signals.glitchIntensity (chaosOf (store w)) (stab (store w)).

Definition random : St World Q :=
  fun w => (rng w (rng_pos w), mkWorld (game w) (store w) (clock w) (timers w) (rng w) (S (rng_pos w))).

(** [initializeGame] (lines 34-72), given the shuffled deck. *)
Definition initializeGame (shuffled : list MemoryCard) (w : World) : World :=
  update_game (fun g => mkGame shuffled [] 0 0 false false (chaosLevel g)) w.

(** [handleCardClick] (lines 102-123). *)
Definition handleCardClick (cardId : nat) (w : World) : World :=
  let g := game w in
  if gameOver g || isPaused g then w else
  match find_card cardId (cards g) with
  | None => w
  | Some card =>
      if isFlipped card || isMatched card || (2 <=? List.length (selectedCards g))%nat then w else
      let newCards := map (fun c => if Nat.eqb (id c) cardId then set_flipped true c else c) (cards g) in
      let newSelected := selectedCards g ++ [cardId] in
      let w1 := update_game (fun g => set_selected newSelected (set_cards newCards g)) w in
      if Nat.eqb (List.length newSelected) 2 then
        with_timers (Timers.setTimeout (clock w1) 1000 (CheckMatch newSelected newCards) (timers w1))
          (update_game (fun g => set_moves (S (moves g)) g) w1)
      else w1
  end.

(** The two cards of a check: marked matched, or flipped back. *)
Definition mark_pair (first second : MemoryCard) (f : MemoryCard -> MemoryCard)
    (l : list MemoryCard) : list MemoryCard :=
  map (fun card => if Nat.eqb (id card) (id first) || Nat.eqb (id card) (id second)
                   then f card else card) l.

(** [setMatches(prev => { ...; if (newMatches === 8) setGameOver(true); ... })] *)
Definition count_match (g : Game) : Game :=
  let newMatches := S (matches g) in
  set_matches newMatches (if Nat.eqb newMatches 8 then set_gameOver true g else g).

(** [checkMatch] (lines 125-157) on the snapshot it was scheduled with. *)
Definition checkMatch (selected : list nat) (currentCards : list MemoryCard) (w : World) : World :=
  let found := map (fun i => find_card i currentCards) selected in
  let w1 :=
    match nth 0 found None, nth 1 found None with
    | Some first, Some second =>
        if String.eqb (symbol first) (symbol second) && String.eqb (color first) (color second)
        then update_game (fun g => set_cards (mark_pair first second (set_matched true) (cards g))
                                     (count_match g))
               (with_store (store_repair 5 (store w)) w)
        else update_game (fun g => set_cards (mark_pair first second (set_flipped false) (cards g)) g)
               (with_store (store_damage 2 (store w)) w)
    | _, _ => w
    end in
  update_game (set_selected []) w1.

Definition runCallback (cb : Callback) : World -> World :=
  match cb with CheckMatch selected snapshot => checkMatch selected snapshot end.

Definition fire_timer (t : Timers.timer Callback) (w : World) : World :=
  runCallback (Timers.t_cb t)
    (with_timers (Timers.clearTimeout (Timers.t_id t) (timers w)) (with_clock (Timers.t_due t) w)).

(** The chaos interval's callback (lines 77-95): each card's glitch flag,
    drawn for unmatched cards only; one draw; then, past 0.9, a face
    drawn for each unmatched card; then the chaos level. *)
Definition glitch_card (c : MemoryCard) : St World MemoryCard :=
  if isMatched c then st_ret (set_glitched false c)
  else (r <- random ;; st_ret (set_glitched ((8 # 10) <? r) c)).

Definition face_card (c : MemoryCard) : St World MemoryCard :=
  if isMatched c then st_ret c else (r <- random ;; st_ret (set_flipped ((7 # 10) <? r) c)).

Definition set_cards_st (f : MemoryCard -> St World MemoryCard) : St World unit :=
  w <- st_get ;;
  l <- st_mapM f (cards (game w)) ;;
  st_modify (update_game (set_cards l)).

Definition chaosTick : St World unit :=
  w0 <- st_get ;;
  set_cards_st glitch_card ;;
  r <- random ;;
  st_when ((9 # 10) <? r) (set_cards_st face_card) ;;
  st_modify (update_game (set_chaosLevel (Signals.memoryChaosLevel (glitch w0)))).

(** The auto-flip interval's callback (lines 162-168). *)
Definition autoFlip (w : World) : World :=
  update_game (fun g => set_cards (map (fun card =>
    if isGlitched card && negb (isMatched card) && negb (isFlipped card)
    then set_flipped true card else card) (cards g)) g) w.

(** The PAUSE/RESUME button (line 283). *)
Definition togglePause (w : World) : World :=
  update_game (fun g => set_paused (negb (isPaused g)) g) w.

(** Mounting: the initial state, then the mount effect's [initializeGame]. *)
Definition mount (shuffled : list MemoryCard) (e : E) (t0 : Q) (rng0 : nat -> Q) : World :=
  initializeGame shuffled (mkWorld emptyGame e t0 Timers.empty_queue rng0 0).

Inductive step : World -> World -> Prop :=
  | step_click w cardId : step w (handleCardClick cardId w)
  | step_timer t w :
      Timers.earliest (Timers.pending (timers w)) = Some t -> step w (fire_timer t w)
  | step_wait t w :
      clock w <= t -> Forall (fun u => t <= Timers.t_due u) (Timers.pending (timers w)) ->
      step w (with_clock t w)
  | step_reset shuffled w : Permutation shuffled gameCards -> step w (initializeGame shuffled w)
  | step_pause w : step w (togglePause w)
  | step_chaos w : (1 # 2) < glitch w -> step w (st_exec chaosTick w)
  | step_autoflip w : (2 < chaosLevel (game w))%Z -> step w (autoFlip w)
  | step_store w o : step w (with_store (store_apply o (store w)) w).

End Game.

Arguments World E : clear implicits.

(** ** The deck *)

(** A card without its three flags. *)
Definition strip (c : MemoryCard) : MemoryCard := fresh_card (id c) (symbol c) (color c).

(** The cards are the deck's sixteen, in some order, with any flags. *)
Definition deck_ok (l : list MemoryCard) : Prop := Permutation (map strip l) gameCards.

(** The symbol and colour the deck gives id [i]. *)
Definition sym_of (i : nat) : string := nth (Nat.div i 2) SYMBOLS ""%string.
Definition col_of (i : nat) : string := nth (Nat.div i 2) COLORS ""%string.

Lemma strip_flags c b :
  strip (set_flipped b c) = strip c /\ strip (set_matched b c) = strip c /\
  strip (set_glitched b c) = strip c.
Proof. repeat split. Qed.

Lemma map_strip_flags (f : MemoryCard -> MemoryCard) l :
  (forall c, strip (f c) = strip c) -> map strip (map f l) = map strip l.
Proof. intro Hf. rewrite map_map. apply map_ext. exact Hf. Qed.

Lemma gameCards_strip : map strip gameCards = gameCards.
Proof. reflexivity. Qed.

Lemma gameCards_ids : map id gameCards = seq 0 16.
Proof. reflexivity. Qed.

Lemma gameCards_faces c :
  In c gameCards -> (id c < 16)%nat /\ symbol c = sym_of (id c) /\ color c = col_of (id c).
Proof.
  intro Hc. cbn in Hc. intuition (subst; repeat split; first [reflexivity | cbn; lia]).
Qed.

Lemma deck_ok_ids l : deck_ok l -> Permutation (map id l) (seq 0 16).
Proof.
  intro Hd. rewrite <- gameCards_ids.
  replace (map id l) with (map id (map strip l)) by (rewrite map_map; reflexivity).
  now apply Permutation_map.
Qed.

Lemma deck_ok_NoDup l : deck_ok l -> NoDup (map id l).
Proof.
  intro Hd. apply Permutation_NoDup with (seq 0 16); [symmetry; now apply deck_ok_ids | apply seq_NoDup].
Qed.

Lemma deck_ok_faces l c :
  deck_ok l -> In c l -> (id c < 16)%nat /\ symbol c = sym_of (id c) /\ color c = col_of (id c).
Proof.
  intros Hd Hc. apply (gameCards_faces (strip c)).
  apply (Permutation_in _ Hd). now apply in_map.
Qed.

Lemma deck_ok_flags (f : MemoryCard -> MemoryCard) l :
  (forall c, strip (f c) = strip c) -> deck_ok l -> deck_ok (map f l).
Proof. intros Hf Hd. unfold deck_ok. now rewrite map_strip_flags. Qed.

Lemma mark_pair_deck a b f l :
  (forall c, strip (f c) = strip c) -> deck_ok l -> deck_ok (mark_pair a b f l).
Proof.
  intros Hf Hd. apply deck_ok_flags; [|exact Hd]. intro c. now destruct (_ || _).
Qed.

(** Effectful maps that only change flags keep the deck. *)
Lemma mapM_strip {S} (f : MemoryCard -> St S MemoryCard) l s :
  (forall c s, strip (fst (f c s)) = strip c) -> map strip (fst (st_mapM f l s)) = map strip l.
Proof.
  intro Hf. revert s. induction l as [|c r IH]; intro s; [reflexivity|].
  simpl. unfold st_bind. specialize (Hf c s). destruct (f c s) as [c' s'].
  specialize (IH s'). destruct (st_mapM f r s') as [r' s'']. simpl in *. now rewrite Hf, IH.
Qed.

(** ** The invariant of every run *)

Section Runs.
Context {E : Type} `{StabilityStoreLaws E} (chaosOf : E -> bool).

(** The cards are the deck's and at most two are selected. *)
Definition deck_inv (w : World E) : Prop :=
  deck_ok (cards (game w)) /\ (List.length (selectedCards (game w)) <= 2)%nat.

Definition game_is (g : Game) (w : World E) : Prop := game w = g.

Lemma random_game g : st_preserves (game_is g) (@random E).
Proof. intros w Hw. exact Hw. Qed.

Lemma flag_card_game g (f : MemoryCard -> St (World E) MemoryCard) :
  (forall c, st_preserves (game_is g) (f c)) ->
  forall l, st_preserves (game_is g) (st_mapM f l).
Proof. intros Hf l. apply st_preserves_mapM. exact Hf. Qed.

Lemma glitch_card_game c g : st_preserves (game_is g) (@glitch_card E c).
Proof.
  unfold glitch_card. destruct (isMatched c); [apply st_preserves_ret|].
  apply st_preserves_bind; [apply random_game | intro; apply st_preserves_ret].
Qed.

Lemma face_card_game c g : st_preserves (game_is g) (@face_card E c).
Proof.
  unfold face_card. destruct (isMatched c); [apply st_preserves_ret|].
  apply st_preserves_bind; [apply random_game | intro; apply st_preserves_ret].
Qed.

Lemma glitch_card_strip c (w : World E) : strip (fst (glitch_card c w)) = strip c.
Proof. unfold glitch_card. now destruct (isMatched c). Qed.

Lemma face_card_strip c (w : World E) : strip (fst (face_card c w)) = strip c.
Proof. unfold face_card. now destruct (isMatched c). Qed.

(** A flag-only map over the cards keeps the invariant. *)
Lemma set_cards_st_inv (f : MemoryCard -> St (World E) MemoryCard) :
  (forall c g, st_preserves (game_is g) (f c)) ->
  (forall c w, strip (fst (f c w)) = strip c) ->
  st_preserves deck_inv (set_cards_st f).
Proof.
  intros Hg Hs w [Hd Hl]. unfold set_cards_st, st_bind, st_get. cbn -[st_mapM].
  pose proof (flag_card_game (game w) f (fun c => Hg c (game w)) (cards (game w)) w eq_refl) as Hw'.
  pose proof (mapM_strip f (cards (game w)) w Hs) as Hm.
  destruct (st_mapM f (cards (game w)) w) as [l w']. simpl in *.
  unfold game_is in Hw'. unfold deck_inv, update_game. simpl. rewrite Hw'. split; simpl; [|exact Hl].
  unfold deck_ok. rewrite Hm. exact Hd.
Qed.

Lemma chaosTick_inv : st_preserves deck_inv (chaosTick chaosOf).
Proof.
  unfold chaosTick. apply st_preserves_bind; [apply st_preserves_get | intro w0].
  apply st_preserves_bind; [apply set_cards_st_inv; [exact glitch_card_game | exact glitch_card_strip]|intros []].
  apply st_preserves_bind; [intros w Hw; exact Hw | intro r].
  apply st_preserves_bind;
    [apply st_preserves_when, set_cards_st_inv; [exact face_card_game | exact face_card_strip] | intros []].
  apply st_preserves_modify. intros w [Hd Hl]. split; assumption.
Qed.

Lemma flip_strip (cardId : nat) c :
  strip ((fun c => if Nat.eqb (id c) cardId then set_flipped true c else c) c) = strip c.
Proof. cbv beta. now destruct (Nat.eqb (id c) cardId). Qed.

Lemma click_inv cardId (w : World E) : deck_inv w -> deck_inv (handleCardClick cardId w).
Proof.
  intros [Hd Hl]. unfold handleCardClick.
  destruct (_ || _); [split; assumption|].
  destruct (find_card _ _) as [card|]; [|split; assumption].
  destruct (_ || _ || _) eqn:Eg; [split; assumption|].
  apply orb_false_iff in Eg as [_ Eg]. apply Nat.leb_gt in Eg.
  assert (Hd' : deck_ok (map (fun c => if Nat.eqb (id c) cardId then set_flipped true c else c)
                             (cards (game w))))
    by (apply deck_ok_flags; [apply flip_strip | exact Hd]).
  destruct (Nat.eqb _ 2); split; simpl; auto; rewrite length_app; simpl; lia.
Qed.

Lemma checkMatch_inv sel snap (w : World E) : deck_inv w -> deck_inv (checkMatch sel snap w).
Proof.
  intros [Hd Hl]. unfold checkMatch.
  set (found := map (fun i => find_card i snap) sel).
  destruct (nth 0 found None) as [a|], (nth 1 found None) as [b|]; try (split; simpl; auto; lia).
  destruct (_ && _); split; simpl; try lia; apply mark_pair_deck; auto; intro; reflexivity.
Qed.

Lemma memory_step_inv (w w' : World E) : deck_inv w -> step chaosOf w w' -> deck_inv w'.
Proof.
  intros Hw Hs. destruct Hs as [w c|t w He|t w Hle Hall|l w Hp|w|w Hg|w Hc|w o].
  - now apply click_inv.
  - unfold fire_timer. destruct (Timers.t_cb t) as [sel snap]. apply checkMatch_inv. exact Hw.
  - exact Hw.
  - split; simpl; [|lia]. unfold deck_ok. rewrite <- gameCards_strip. now apply Permutation_map.
  - exact Hw.
  - now apply chaosTick_inv.
  - destruct Hw as [Hd Hl]. split; [apply deck_ok_flags; [|exact Hd] | exact Hl].
    intro c. now destruct (_ && _ && _).
  - exact Hw.
Qed.

Lemma memory_star_inv shuffled (e : E) t0 r (w : World E) :
  Permutation shuffled gameCards -> star (step chaosOf) (mount shuffled e t0 r) w -> deck_inv w.
Proof.
  intros Hp Hs. apply (star_invariant (step chaosOf) deck_inv) with (mount shuffled e t0 r);
    [intros; eapply memory_step_inv; eauto | exact Hs |].
  split; simpl; [|lia]. unfold deck_ok. rewrite <- gameCards_strip. now apply Permutation_map.
Qed.

End Runs.

(** ** Cards, pairs and counts *)

Definition count_matched (l : list MemoryCard) : nat := List.length (filter isMatched l).

(** The two cards of a pair agree on being matched. *)
Definition pairs_agree (l : list MemoryCard) : Prop :=
  forall c c', In c l -> In c' l -> Nat.div (id c) 2 = Nat.div (id c') 2 -> isMatched c = isMatched c'.

Lemma find_card_In i l c : find_card i l = Some c -> In c l /\ id c = i.
Proof.
  intro Hf. apply find_some in Hf as [Hin Hi]. split; [exact Hin | now apply Nat.eqb_eq].
Qed.

Lemma find_card_map f i l :
  (forall c, id (f c) = id c) -> find_card i (map f l) = option_map f (find_card i l).
Proof.
  intro Hf. induction l as [|c r IH]; [reflexivity|]. simpl. rewrite Hf.
  destruct (Nat.eqb (id c) i); [reflexivity | exact IH].
Qed.

Lemma find_card_unique l c : NoDup (map id l) -> In c l -> find_card (id c) l = Some c.
Proof.
  induction l as [|d r IH]; intros Hnd Hin; [destruct Hin|]. inversion Hnd as [|? ? Hn Hd]; subst.
  simpl. destruct Hin as [<-|Hin]; [now rewrite Nat.eqb_refl|].
  destruct (Nat.eqb (id d) (id c)) eqn:E; [|now apply IH].
  exfalso. apply Nat.eqb_eq in E. apply Hn. rewrite E. now apply in_map.
Qed.

Lemma deck_find l i : deck_ok l -> (i < 16)%nat -> exists c, find_card i l = Some c.
Proof.
  intros Hd Hi. assert (Hin : In i (map id l))
    by (apply (Permutation_in _ (Permutation_sym (deck_ok_ids l Hd))); apply in_seq; lia).
  apply in_map_iff in Hin as [c [<- Hc]]. exists c. apply find_card_unique; auto using deck_ok_NoDup.
Qed.

Lemma deck_length l : deck_ok l -> List.length l = 16%nat.
Proof. intro Hd. apply Permutation_length in Hd. now rewrite length_map in Hd. Qed.

(** Two cards of the deck show the same face exactly when they are of one
    pair (the two [🎪] pairs differ in colour). *)
Lemma same_face i j : (i < 16)%nat -> (j < 16)%nat ->
  String.eqb (sym_of i) (sym_of j) && String.eqb (col_of i) (col_of j) = Nat.eqb (Nat.div i 2) (Nat.div j 2).
Proof.
  intros Hi Hj.
  assert (Hall : forallb (fun i => forallb (fun j =>
            Bool.eqb (String.eqb (sym_of i) (sym_of j) && String.eqb (col_of i) (col_of j))
                     (Nat.eqb (Nat.div i 2) (Nat.div j 2))) (seq 0 16)) (seq 0 16) = true)
    by (vm_compute; reflexivity).
  rewrite forallb_forall in Hall. specialize (Hall i ltac:(apply in_seq; lia)).
  rewrite forallb_forall in Hall. specialize (Hall j ltac:(apply in_seq; lia)).
  now apply Bool.eqb_prop in Hall.
Qed.

(** Three ids with one quotient by 2: the third is one of the first two. *)
Lemma same_pair_ids a b c :
  a <> b -> Nat.div a 2 = Nat.div b 2 -> Nat.div c 2 = Nat.div a 2 -> c = a \/ c = b.
Proof.
  intros Hab Hb Hc.
  pose proof (Nat.div_mod_eq a 2). pose proof (Nat.div_mod_eq b 2). pose proof (Nat.div_mod_eq c 2).
  pose proof (Nat.mod_upper_bound a 2). pose proof (Nat.mod_upper_bound b 2).
  pose proof (Nat.mod_upper_bound c 2). lia.
Qed.

Lemma count_matched_map f l :
  (forall c, isMatched (f c) = isMatched c) -> count_matched (map f l) = count_matched l.
Proof.
  intro Hf. unfold count_matched. induction l as [|c r IH]; [reflexivity|].
  simpl. rewrite Hf. destruct (isMatched c); simpl; now rewrite IH.
Qed.

Lemma count_matched_le l : (count_matched l <= List.length l)%nat.
Proof. apply filter_length_le. Qed.

Lemma pairs_agree_map f l :
  (forall c, id (f c) = id c) -> (forall c, isMatched (f c) = isMatched c) ->
  pairs_agree l -> pairs_agree (map f l).
Proof.
  intros Hi Hm Hp c c' Hc Hc' E.
  apply in_map_iff in Hc as [d [<- Hd]], Hc' as [d' [<- Hd']].
  rewrite !Hm. apply Hp; auto. now rewrite <- (Hi d), <- (Hi d').
Qed.

Lemma none_matched_agree l : count_matched l = 0%nat -> pairs_agree l.
Proof.
  intros H0 c c' Hc Hc' _. unfold count_matched in H0. apply length_zero_iff_nil in H0.
  destruct (isMatched c) eqn:E; [|destruct (isMatched c') eqn:E'; [|reflexivity]].
  - assert (Hf : In c (filter isMatched l)) by (now apply filter_In). rewrite H0 in Hf. destruct Hf.
  - assert (Hf : In c' (filter isMatched l)) by (now apply filter_In). rewrite H0 in Hf. destruct Hf.
Qed.

Lemma NoDup_map_filter_ids (f : MemoryCard -> bool) l : NoDup (map id l) -> NoDup (map id (filter f l)).
Proof.
  induction l as [|c r IH]; simpl; intro H; [constructor|].
  inversion H as [|? ? Hn Hd]; subst. destruct (f c); simpl; auto.
  constructor; auto. intro Hin. apply Hn.
  apply in_map_iff in Hin as [d [<- Hdin]]. apply filter_In in Hdin as [Hdin _]. now apply in_map.
Qed.

(** Marking two cards of one pair matched. *)
Section Mark.
Variables (a b : nat) (l : list MemoryCard).
Hypothesis Hnd : NoDup (map id l).
Hypothesis Hab : a <> b.

Definition marked (c : MemoryCard) : bool := Nat.eqb (id c) a || Nat.eqb (id c) b.

Lemma count_mark_gain :
  count_matched (map (fun c => if marked c then set_matched true c else c) l) =
  (count_matched l + List.length (filter (fun c => marked c && negb (isMatched c)) l))%nat.
Proof.
  clear Hnd Hab. unfold count_matched. induction l as [|c r IH]; [reflexivity|].
  simpl. destruct (marked c), (isMatched c); simpl; rewrite IH; lia.
Qed.

Lemma gain_two ca cb :
  In ca l -> id ca = a -> isMatched ca = false -> In cb l -> id cb = b -> isMatched cb = false ->
  List.length (filter (fun c => marked c && negb (isMatched c)) l) = 2%nat.
Proof.
  intros Ha Ia Ma Hb Ib Mb. set (F := filter _ l).
  assert (HF : NoDup (map id F)) by (apply NoDup_map_filter_ids; exact Hnd).
  apply Nat.le_antisymm.
  - rewrite <- (length_map id F). apply (NoDup_incl_length HF (l' := [a; b])).
    intros i Hi. apply in_map_iff in Hi as [c [<- Hc]]. apply filter_In in Hc as [_ Hc].
    apply andb_true_iff in Hc as [Hc _]. unfold marked in Hc.
    apply orb_true_iff in Hc as [Hc|Hc]; apply Nat.eqb_eq in Hc; rewrite Hc; simpl; auto.
  - rewrite <- (length_map id F). change 2%nat with (List.length [a; b]).
    apply NoDup_incl_length; [constructor; [intros [E|[]]; auto | repeat constructor; intros []]|].
    intros i [<-|[<-|[]]]; apply in_map_iff; [exists ca | exists cb]; split; auto;
      apply filter_In; split; auto; unfold marked; [rewrite Ia | rewrite Ib]; rewrite Ma || rewrite Mb;
      rewrite ?Nat.eqb_refl, ?orb_true_r; reflexivity.
Qed.

End Mark.

(** ** Calm play *)

Section Calm.
Context {E : Type} `{StabilityStoreLaws E} (chaosOf : E -> bool).

(** The steps of a game without the two chaos intervals, in which NEW GAME
    is pressed only when [resets] allows it and no check is pending. *)
Inductive calm_step (resets : bool) : World E -> World E -> Prop :=
  | calm_click w cardId : calm_step resets w (handleCardClick cardId w)
  | calm_timer t w :
      Timers.earliest (Timers.pending (timers w)) = Some t -> calm_step resets w (fire_timer t w)
  | calm_wait t w :
      clock w <= t -> Forall (fun u => t <= Timers.t_due u) (Timers.pending (timers w)) ->
      calm_step resets w (with_clock t w)
  | calm_reset shuffled w :
      resets = true -> Permutation shuffled gameCards -> Timers.pending (timers w) = [] ->
      calm_step resets w (initializeGame shuffled w)
  | calm_pause w : calm_step resets w (togglePause w)
  | calm_store w o : calm_step resets w (with_store (store_apply o (store w)) w).

Lemma calm_is_step b (w w' : World E) : calm_step b w w' -> step chaosOf w w'.
Proof. destruct 1; constructor; assumption. Qed.

(** The selection, the pending check and the counters agree with the
    cards. *)
Record consistent (w : World E) : Prop := {
  co_deck : deck_ok (cards (game w));
  co_nodup : NoDup (selectedCards (game w));
  co_selected : Forall (fun i => exists c, find_card i (cards (game w)) = Some c /\
                                   isFlipped c = true /\ isMatched c = false) (selectedCards (game w));
  co_pending :
    (Timers.pending (timers w) = [] /\ (List.length (selectedCards (game w)) <= 1)%nat) \/
    (List.length (selectedCards (game w)) = 2%nat /\
     exists t snap, Timers.pending (timers w) = [t] /\
       Timers.t_cb t = CheckMatch (selectedCards (game w)) snap /\ deck_ok snap);
  co_pairs : pairs_agree (cards (game w));
  co_count : (2 * matches (game w))%nat = count_matched (cards (game w));
  co_over : gameOver (game w) = Nat.eqb (matches (game w)) 8
}.

Definition flip_one (cardId : nat) (c : MemoryCard) : MemoryCard :=
  if Nat.eqb (id c) cardId then set_flipped true c else c.

Lemma flip_one_id i c : id (flip_one i c) = id c.
Proof. unfold flip_one. now destruct (Nat.eqb _ _). Qed.

Lemma flip_one_matched i c : isMatched (flip_one i c) = isMatched c.
Proof. unfold flip_one. now destruct (Nat.eqb _ _). Qed.

Lemma flip_one_strip i c : strip (flip_one i c) = strip c.
Proof. unfold flip_one. now destruct (Nat.eqb (id c) i). Qed.

Lemma flip_one_flipped i c : isFlipped c = true -> isFlipped (flip_one i c) = true.
Proof. unfold flip_one. now destruct (Nat.eqb _ _). Qed.

Lemma click_consistent cardId (w : World E) :
  consistent w -> consistent (handleCardClick cardId w).
Proof.
  intros Hc. destruct Hc as [Hd Hnd Hsel Hpend Hp Hcount Hover].
  unfold handleCardClick.
  destruct (_ || _); [split; assumption|].
  destruct (find_card cardId (cards (game w))) as [card|] eqn:Ef; [|split; assumption].
  destruct (isFlipped card || isMatched card || _)%bool eqn:Eg; [split; assumption|].
  apply orb_false_iff in Eg as [Eg Hlen]. apply orb_false_iff in Eg as [Efl Ema].
  apply Nat.leb_gt in Hlen.
  assert (Hnotin : ~ In cardId (selectedCards (game w))).
  { intro Hin. rewrite Forall_forall in Hsel. destruct (Hsel _ Hin) as (c & Ec & Fc & _).
    rewrite Ef in Ec. injection Ec as <-. congruence. }
  change (fun c => if Nat.eqb (id c) cardId then set_flipped true c else c) with (flip_one cardId).
  assert (Hfind : forall j, find_card j (map (flip_one cardId) (cards (game w))) =
                            option_map (flip_one cardId) (find_card j (cards (game w))))
    by (intro j; apply find_card_map, flip_one_id).
  assert (Hpend0 : Timers.pending (timers w) = []) by (destruct Hpend as [[? ?]|[? _]]; [auto | lia]).
  assert (Hsel' : Forall (fun i => exists c, find_card i (map (flip_one cardId) (cards (game w))) = Some c /\
                     isFlipped c = true /\ isMatched c = false) (selectedCards (game w) ++ [cardId])).
  { apply Forall_app. split.
    - eapply Forall_impl; [|exact Hsel]. intros i (c & Ec & Fc & Mc).
      exists (flip_one cardId c). rewrite Hfind, Ec, flip_one_matched.
      repeat split; auto using flip_one_flipped.
    - constructor; [|constructor]. exists (flip_one cardId card). rewrite Hfind, Ef.
      cbn [option_map]. apply find_card_In in Ef as [_ Ei]. unfold flip_one. rewrite Ei, Nat.eqb_refl.
      repeat split; auto. }
  assert (Hnd' : NoDup (selectedCards (game w) ++ [cardId])).
  { apply NoDup_app; auto using NoDup_cons, NoDup_nil. intros x Hx [<-|[]]. contradiction. }
  assert (Hd' : deck_ok (map (flip_one cardId) (cards (game w))))
    by (apply deck_ok_flags; [apply flip_one_strip | exact Hd]).
  assert (Hp' : pairs_agree (map (flip_one cardId) (cards (game w))))
    by (apply pairs_agree_map; auto using flip_one_id, flip_one_matched).
  assert (Hc' : count_matched (map (flip_one cardId) (cards (game w))) = count_matched (cards (game w)))
    by (apply count_matched_map, flip_one_matched).
  rewrite length_app in *. simpl List.length in *.
  destruct (Nat.eqb (List.length (selectedCards (game w)) + 1) 2) eqn:E2.
  - apply Nat.eqb_eq in E2. split; simpl; auto; try (rewrite Hc'; lia).
    right. split; [rewrite length_app; simpl; lia|].
    eexists _, _. rewrite Hpend0. split; [reflexivity|]. split; [reflexivity | exact Hd'].
  - apply Nat.eqb_neq in E2. split; simpl; auto; try (rewrite Hc'; lia).
    left. split; [exact Hpend0 | rewrite length_app; simpl; lia].
Qed.

Lemma marked_iff a b c : marked a b c = true <-> id c = a \/ id c = b.
Proof. unfold marked. rewrite orb_true_iff, !Nat.eqb_eq. reflexivity. Qed.

Lemma mark_id a b f c :
  (forall d, id (f d) = id d) -> id (if marked a b c then f c else c) = id c.
Proof. intro Hf. destruct (marked a b c); auto. Qed.

Lemma pairs_mark a b l :
  pairs_agree l -> a <> b -> Nat.div a 2 = Nat.div b 2 ->
  pairs_agree (map (fun c => if marked a b c then set_matched true c else c) l).
Proof.
  intros Hp Hab Hq c c' Hc Hc' Ecc.
  apply in_map_iff in Hc as [d [<- Hd]], Hc' as [d' [<- Hd']].
  rewrite !(mark_id a b (set_matched true)) in Ecc by reflexivity.
  destruct (marked a b d) eqn:Md, (marked a b d') eqn:Md'; try reflexivity.
  - exfalso. apply marked_iff in Md. apply Bool.not_true_iff_false in Md'. apply Md', marked_iff.
    apply (same_pair_ids a b); auto. destruct Md as [<-|<-]; congruence.
  - exfalso. apply marked_iff in Md'. apply Bool.not_true_iff_false in Md. apply Md, marked_iff.
    apply (same_pair_ids a b); auto. destruct Md' as [<-|<-]; congruence.
  - now apply Hp.
Qed.

Lemma mark_pair_marked fa fb f l :
  mark_pair fa fb f l = map (fun c => if marked (id fa) (id fb) c then f c else c) l.
Proof. reflexivity. Qed.

Lemma fire_consistent t (w : World E) :
  consistent w -> Timers.earliest (Timers.pending (timers w)) = Some t -> consistent (fire_timer t w).
Proof.
  intros Hc He. destruct Hc as [Hd Hnd Hsel Hpend Hp Hcount Hover].
  destruct Hpend as [[Hq _]|[Hlen (t' & snap & Hq & Hcb & Hsnap)]]; rewrite Hq in He;
    [discriminate|]. injection He as <-.
  destruct (selectedCards (game w)) as [|a [|b [|? ?]]] eqn:Es; simpl in Hlen; try lia.
  inversion Hnd as [|? ? Hab _]; subst. assert (Hab' : a <> b) by (intro; apply Hab; now left).
  inversion Hsel as [|? ? (ca & Eca & Fa & Ma) Hsel2]; subst.
  inversion Hsel2 as [|? ? (cb & Ecb & Fb & Mb) _]; subst.
  apply find_card_In in Eca as [Ina Ia], Ecb as [Inb Ib].
  destruct (deck_ok_faces _ ca Hd Ina) as [Ha16 _], (deck_ok_faces _ cb Hd Inb) as [Hb16 _].
  rewrite Ia in Ha16. rewrite Ib in Hb16.
  destruct (deck_find snap a Hsnap Ha16) as [fa Efa], (deck_find snap b Hsnap Hb16) as [fb Efb].
  pose proof Efa as Efa'. pose proof Efb as Efb'.
  apply find_card_In in Efa' as [Infa Ifa], Efb' as [Infb Ifb].
  destruct (deck_ok_faces _ fa Hsnap Infa) as (_ & Sa & Ca).
  destruct (deck_ok_faces _ fb Hsnap Infb) as (_ & Sb & Cb).
  rewrite Ifa in Sa, Ca. rewrite Ifb in Sb, Cb.
  assert (Hq0 : Timers.pending (Timers.clearTimeout (Timers.t_id t') (timers w)) = []).
  { simpl. rewrite Hq. unfold Timers.remove_timer. simpl. now rewrite Nat.eqb_refl. }
  unfold fire_timer. rewrite Hcb. unfold runCallback, checkMatch. cbn [map nth]. rewrite Efa, Efb.
  rewrite Sa, Sb, Ca, Cb, (same_face a b Ha16 Hb16).
  pose proof (deck_length _ Hd) as H16.
  destruct (Nat.eqb (Nat.div a 2) (Nat.div b 2)) eqn:Eq.
  - apply Nat.eqb_eq in Eq.
    pose proof (count_mark_gain a b (cards (game w))) as Hgain.
    rewrite (gain_two a b (cards (game w)) (deck_ok_NoDup _ Hd) Hab' ca cb) in Hgain by auto.
    pose proof (count_matched_le (map (fun c => if marked a b c then set_matched true c else c)
                                   (cards (game w)))) as Hle.
    rewrite length_map in Hle.
    assert (Hm8 : Nat.eqb (matches (game w)) 8 = false) by (apply Nat.eqb_neq; lia).
    split; simpl; rewrite ?mark_pair_marked, ?Ifa, ?Ifb; auto using NoDup_nil.
    + apply deck_ok_flags; [intro c; now destruct (marked a b c) | exact Hd].
    + now apply pairs_mark.
    + rewrite Hgain. lia.
    + destruct (Nat.eqb (matches (game w)) 7); simpl; [reflexivity | rewrite Hover; exact Hm8].
  - split; simpl; rewrite ?mark_pair_marked, ?Ifa, ?Ifb; auto using NoDup_nil.
    + apply deck_ok_flags; [intro c; now destruct (marked a b c) | exact Hd].
    + apply pairs_agree_map; [intro; apply (mark_id a b (set_flipped false)); reflexivity| |exact Hp].
      intro c. now destruct (marked a b c).
    + rewrite count_matched_map; [lia|]. intro c. now destruct (marked a b c).
Qed.

Lemma gameCards_unmatched c : In c gameCards -> isMatched c = false.
Proof. intro Hc. cbn in Hc. intuition (subst; reflexivity). Qed.

Lemma fresh_count shuffled : Permutation shuffled gameCards -> count_matched shuffled = 0%nat.
Proof.
  intro Hp. unfold count_matched. apply length_zero_iff_nil.
  destruct (filter isMatched shuffled) as [|c r] eqn:Ef; [reflexivity|]. exfalso.
  assert (Hc : In c (filter isMatched shuffled)) by (rewrite Ef; now left).
  apply filter_In in Hc as [Hc Hm]. rewrite (gameCards_unmatched c) in Hm; [discriminate|].
  exact (Permutation_in _ Hp Hc).
Qed.

Lemma reset_consistent shuffled (w : World E) :
  Permutation shuffled gameCards -> Timers.pending (timers w) = [] ->
  consistent (initializeGame shuffled w).
Proof.
  intros Hp Hq. split; simpl; auto using NoDup_nil.
  - unfold deck_ok. rewrite <- gameCards_strip. now apply Permutation_map.
  - apply none_matched_agree, fresh_count, Hp.
  - now rewrite fresh_count.
Qed.

Lemma calm_consistent b (w w' : World E) : consistent w -> calm_step b w w' -> consistent w'.
Proof.
  intros Hc Hs. destruct Hs as [w i|t w He|t w _ _|l w _ Hp Hq|w|w o].
  - now apply click_consistent.
  - now apply fire_consistent.
  - destruct Hc. split; assumption.
  - now apply reset_consistent.
  - destruct Hc. split; assumption.
  - destruct Hc. split; assumption.
Qed.

Lemma mount_consistent shuffled (e : E) t0 r :
  Permutation shuffled gameCards -> consistent (mount shuffled e t0 r).
Proof. intro Hp. now apply reset_consistent. Qed.

Lemma count_all l : count_matched l = List.length l <-> Forall (fun c => isMatched c = true) l.
Proof.
  unfold count_matched. induction l as [|c r IH]; simpl; [split; auto|].
  pose proof (filter_length_le isMatched r). destruct (isMatched c) eqn:Em; simpl.
  - rewrite Forall_cons_iff. split; [intro H'; split; [exact Em | apply IH; lia] | intros [_ Hr]; apply IH in Hr; lia].
  - split; [lia | intro Hf; inversion Hf; congruence].
Qed.

(** A consistent game is over exactly when every card is matched. *)
Lemma consistent_over (w : World E) :
  consistent w -> gameOver (game w) = true <-> Forall (fun c => isMatched c = true) (cards (game w)).
Proof.
  intros [Hd _ _ _ _ Hcount Hover]. rewrite Hover, Nat.eqb_eq, <- count_all, (deck_length _ Hd).
  pose proof (count_matched_le (cards (game w))). rewrite (deck_length _ Hd) in H1. lia.
Qed.

(** ** A card no check will turn back *)

(** Card [i] is face up, unmatched and not selected. *)
Definition stranded (i : nat) (w : World E) : Prop :=
  exists c, find_card i (cards (game w)) = Some c /\ isFlipped c = true /\ isMatched c = false /\
    ~ In i (selectedCards (game w)).

Lemma click_stranded i j (w : World E) : stranded i w -> stranded i (handleCardClick j w).
Proof.
  intros (c & Ec & Fc & Mc & Ns). unfold handleCardClick.
  destruct (_ || _); [exists c; auto|].
  destruct (find_card j _) as [card|] eqn:Ej; [|exists c; auto].
  destruct (isFlipped card || isMatched card || _)%bool eqn:Eg; [exists c; auto|].
  assert (Hij : i <> j).
  { intros <-. rewrite Ec in Ej. injection Ej as <-. rewrite Fc in Eg. discriminate. }
  change (fun c => if Nat.eqb (id c) j then set_flipped true c else c) with (flip_one j).
  assert (Hf : find_card i (map (flip_one j) (cards (game w))) = Some c).
  { rewrite find_card_map, Ec by apply flip_one_id. simpl. unfold flip_one.
    apply find_card_In in Ec as [_ Ic]. rewrite Ic. now rewrite (proj2 (Nat.eqb_neq i j) Hij). }
  destruct (Nat.eqb _ 2); exists c; simpl; repeat split; auto;
    rewrite in_app_iff; intros [Hi|[Hi|[]]]; auto.
Qed.

Lemma checkMatch_stranded i sel snap (w : World E) :
  ~ In i sel -> stranded i w -> stranded i (checkMatch sel snap w).
Proof.
  intros Hn (c & Ec & Fc & Mc & Ns). unfold checkMatch.
  set (found := map (fun k => find_card k snap) sel).
  assert (Hfound : forall n f, nth n found None = Some f -> In (id f) sel).
  { intros n f Hnf. assert (Hin : In (Some f) found) by (rewrite <- Hnf; apply nth_In;
      destruct (Nat.lt_ge_cases n (List.length found)) as [Hl|Hl]; [exact Hl|];
      rewrite nth_overflow in Hnf by exact Hl; discriminate).
    apply in_map_iff in Hin as [k [Ek Hk]]. apply find_card_In in Ek as [_ <-]. exact Hk. }
  destruct (nth 0 found None) as [fa|] eqn:Ea, (nth 1 found None) as [fb|] eqn:Eb;
    try (exists c; simpl; auto; fail).
  apply Hfound in Ea. apply Hfound in Eb.
  assert (Hm : forall f, (forall d, id (f d) = id d) ->
            find_card i (mark_pair fa fb f (cards (game w))) = Some c).
  { intros f Hf. rewrite mark_pair_marked, find_card_map, Ec by (intro; now apply mark_id).
    simpl. apply find_card_In in Ec as [_ Ic].
    destruct (marked (id fa) (id fb) c) eqn:Mk; [|reflexivity].
    apply marked_iff in Mk as [Mk|Mk]; exfalso; apply Hn; rewrite <- Ic, Mk; assumption. }
  destruct (_ && _); exists c; simpl; rewrite Hm; auto.
Qed.

Lemma play_stranded i (w w' : World E) :
  consistent w -> stranded i w -> calm_step false w w' -> stranded i w'.
Proof.
  intros Hc Hst Hs. destruct Hs as [w j|t w He|t w _ _|l w Hf _ _|w|w o].
  - now apply click_stranded.
  - destruct Hc as [_ _ _ Hpend _ _ _].
    destruct Hpend as [[Hq _]|[_ (t' & snap & Hq & Hcb & _)]]; rewrite Hq in He; [discriminate|].
    injection He as <-. unfold fire_timer. rewrite Hcb. apply checkMatch_stranded.
    + destruct Hst as (_ & _ & _ & _ & Ns). exact Ns.
    + destruct Hst as (c & ?). exists c. exact H1.
  - exact Hst.
  - discriminate.
  - exact Hst.
  - exact Hst.
Qed.

(** From a consistent state with a stranded card, no run of play without
    NEW GAME ends the game. *)
Lemma stranded_never_over i (w w' : World E) :
  consistent w -> stranded i w -> star (calm_step false) w w' -> gameOver (game w') = false.
Proof.
  intros Hc Hst Hs.
  assert (Hinv : consistent w' /\ stranded i w').
  { apply (star_invariant (calm_step false) (fun w => consistent w /\ stranded i w)) with w;
      [intros x y [Hx Hy] Hxy; split; [eapply calm_consistent | eapply play_stranded]; eauto
      | exact Hs | split; assumption]. }
  destruct Hinv as [Hc' (c & Ec & _ & Mc & _)].
  destruct (gameOver (game w')) eqn:Eo; [|reflexivity]. exfalso.
  apply (consistent_over w' Hc') in Eo. rewrite Forall_forall in Eo.
  apply find_card_In in Ec as [Hin _]. rewrite (Eo c Hin) in Mc. discriminate.
Qed.

End Calm.

(** ** Concrete runs *)

(** A store without chaos mode, and a generator that always draws 0. *)
Definition calm_chaos (_ : Q) : bool := false.
Definition zero_rng (_ : nat) : Q := 0.

(** Cards 0 and 2 are picked; NEW GAME is pressed before their check
    fires; card 5 of the new game is picked; the old check fires. *)
Definition stale_start : World Q := mount gameCards 85 0 zero_rng.
Definition stale_clicked : World Q :=
  with_clock 1000 (handleCardClick 5 (initializeGame gameCards
    (handleCardClick 2 (handleCardClick 0 stale_start)))).
Definition fire_next (w : World Q) : World Q :=
  match Timers.earliest (Timers.pending (timers w)) with
  | Some t => fire_timer t w
  | None => w
  end.
Definition stale_fired : World Q := fire_next stale_clicked.

(** Stability 20 (glitch 0.8); the seventeenth draw is 0.95, so the first
    chaos tick redraws the faces, all of them face down. *)
Definition self_rng (n : nat) : Q := if Nat.eqb n 16 then 19 # 20 else 0.
Definition self_start : World Q := mount gameCards 20 0 self_rng.
Definition self_redrawn : World Q := st_exec (chaosTick calm_chaos) (handleCardClick 0 self_start).
Definition self_fired : World Q := fire_next (with_clock 1000 (handleCardClick 0 self_redrawn)).

(** Cards 0 and 1, a pair, are picked and their check fires. *)
Definition pair_fired : World Q :=
  fire_next (with_clock 1000 (handleCardClick 1 (handleCardClick 0 stale_start))).

Lemma fire_next_calm b (w : World Q) :
  Timers.earliest (Timers.pending (timers w)) <> None -> calm_step b w (fire_next w).
Proof.
  unfold fire_next. destruct (Timers.earliest _) eqn:Et; [|congruence]. intros _. now constructor.
Qed.

Lemma fire_next_step (w : World Q) :
  Timers.earliest (Timers.pending (timers w)) <> None -> step calm_chaos w (fire_next w).
Proof. intro Hn. apply (calm_is_step calm_chaos false). now apply fire_next_calm. Qed.

Ltac run_fire := eapply star_step; [apply fire_next_step; vm_compute; discriminate |].

Lemma stale_reachable : star (step calm_chaos) stale_start stale_fired.
Proof.
  unfold stale_fired, stale_clicked.
  eapply star_step; [apply step_click with (cardId := 0%nat)|].
  eapply star_step; [apply step_click with (cardId := 2%nat)|].
  eapply star_step; [apply step_reset with (shuffled := gameCards), Permutation_refl|].
  eapply star_step; [apply step_click with (cardId := 5%nat)|].
  eapply star_step; [apply step_wait with (t := 1000); [qle_vm | vm_compute; repeat constructor; qle_vm]|].
  run_fire. apply star_refl.
Qed.

Lemma stale_consistent : consistent stale_fired.
Proof.
  assert (Hs : map strip (cards (game stale_fired)) = gameCards) by (vm_compute; reflexivity).
  assert (H0 : count_matched (cards (game stale_fired)) = 0%nat) by (vm_compute; reflexivity).
  split.
  - unfold deck_ok. rewrite Hs. reflexivity.
  - vm_compute. constructor.
  - vm_compute. constructor.
  - left. vm_compute. split; [reflexivity | auto].
  - now apply none_matched_agree.
  - now rewrite H0.
  - reflexivity.
Qed.

Lemma pair_reachable : star (calm_step true) stale_start pair_fired.
Proof.
  unfold pair_fired.
  eapply star_step; [apply calm_click with (cardId := 0%nat)|].
  eapply star_step; [apply calm_click with (cardId := 1%nat)|].
  eapply star_step; [apply calm_wait with (t := 1000); [qle_vm | vm_compute; repeat constructor; qle_vm]|].
  eapply star_step; [apply fire_next_calm; vm_compute; discriminate|]. apply star_refl.
Qed.

Lemma self_reachable : star (step calm_chaos) self_start self_fired.
Proof.
  unfold self_fired, self_redrawn.
  eapply star_step; [apply step_click with (cardId := 0%nat)|].
  eapply star_step; [apply step_chaos; vm_compute; reflexivity|].
  eapply star_step; [apply step_click with (cardId := 0%nat)|].
  eapply star_step; [apply step_wait with (t := 1000); [qle_vm | vm_compute; repeat constructor; qle_vm]|].
  run_fire. apply star_refl.
Qed.

(** ** Properties *)

(** C16: Whatever is played, in every reachable state the board holds the
    deck's sixteen ids, each card showing the symbol and colour of its id's
    pair, and at most two cards are selected. *)
Theorem reachable_deck_wf {E : Type} `{StabilityStoreLaws E} (chaosOf : E -> bool)
    shuffled (e : E) t0 r (w : World E) :
  Permutation shuffled gameCards -> star (step chaosOf) (mount shuffled e t0 r) w ->
  Permutation (map id (cards (game w))) (seq 0 16) /\
  Forall (fun c => symbol c = sym_of (id c) /\ color c = col_of (id c)) (cards (game w)) /\
  (List.length (selectedCards (game w)) <= 2)%nat.
Proof.
  intros Hp Hs. destruct (memory_star_inv chaosOf shuffled e t0 r w Hp Hs) as [Hd Hl].
  split; [now apply deck_ok_ids|]. split; [|exact Hl].
  apply Forall_forall. intros c Hc. now destruct (deck_ok_faces _ c Hd Hc) as [_ Hf].
Qed.

Lemma reachable_deck_wf_witness :
  Permutation gameCards gameCards /\
  Permutation (map id (cards (game stale_fired))) (seq 0 16).
Proof.
  split; [apply Permutation_refl|].
  apply (reachable_deck_wf calm_chaos gameCards 85 0 zero_rng stale_fired (Permutation_refl _)
           stale_reachable).
Defined.

(** C17: Without the chaos intervals, and with NEW GAME pressed only when
    no check is pending, the match counter is half the number of matched
    cards, never exceeds 8, and the game is over exactly when every card is
    matched. *)
Theorem calm_play_consistent {E : Type} `{StabilityStoreLaws E} shuffled (e : E) t0 r (w : World E) :
  Permutation shuffled gameCards -> star (calm_step true) (mount shuffled e t0 r) w ->
  (2 * matches (game w) = count_matched (cards (game w)))%nat /\ (matches (game w) <= 8)%nat /\
  (gameOver (game w) = true <-> Forall (fun c => isMatched c = true) (cards (game w))).
Proof.
  intros Hp Hs.
  assert (Hc : consistent w)
    by (apply (star_invariant (calm_step true) consistent) with (mount shuffled e t0 r);
        [intros; eapply calm_consistent; eauto | exact Hs | now apply mount_consistent]).
  split; [exact (co_count _ Hc)|]. split; [|now apply consistent_over].
  pose proof (co_count _ Hc) as Hk. pose proof (count_matched_le (cards (game w))) as Hle.
  rewrite (deck_length _ (co_deck _ Hc)) in Hle. lia.
Qed.

Lemma calm_play_consistent_witness :
  Permutation gameCards gameCards /\ (2 * matches (game pair_fired) = count_matched (cards (game pair_fired)))%nat.
Proof.
  split; [apply Permutation_refl|].
  apply (calm_play_consistent gameCards 85 0 zero_rng pair_fired (Permutation_refl _) pair_reachable).
Defined.

(** A check scheduled before NEW GAME still fires in the new game and
    clears its selection: card 5, picked in the new game, stays face up,
    unmatched and unselected, so it can be clicked no more, no check turns
    it back, and no play short of another NEW GAME ends the game. *)
Theorem stale_check_strands_card :
  star (step calm_chaos) stale_start stale_fired /\ stranded 5 stale_fired /\
  forall w, star (calm_step false) stale_fired w -> gameOver (game w) = false.
Proof.
  assert (Hst : stranded 5 stale_fired)
    by (eexists; split; [vm_compute; reflexivity | vm_compute; repeat split; intros []]).
  split; [exact stale_reachable|]. split; [exact Hst|].
  intros w Hs. exact (stranded_never_over 5 stale_fired w stale_consistent Hst Hs).
Qed.

(** When the chaos interval redraws the faces, a selected card can be
    turned face down; clicking it again selects it twice, and the check
    matches the card with itself: one match is counted for one matched
    card. *)
Theorem chaos_card_matches_itself :
  star (step calm_chaos) self_start self_fired /\ matches (game self_fired) = 1%nat /\
  count_matched (cards (game self_fired)) = 1%nat.
Proof. split; [exact self_reachable | split; vm_compute; reflexivity]. Qed.

End Memory.
