(* ===== verification/Repair.v ===== *)
(** * The repair puzzle of [screens/RepairScreen.tsx]

    [RepairScreenContent] keeps the eight fragments with their [placed]
    flags, the eight drop zones ([placedFragments], [null] or the fragment
    dropped there), the progress in percent, [isRepaired] and the repair
    level (lines 108-112).  Mounting sets the universe to [FIX_IT] (lines
    114-116).  [handleDrop] (lines 118-140) accepts a fragment into an
    empty zone, recomputes the progress, and at 100 % marks the system
    repaired, repairs stability by [25 + 10 * repairLevel] and schedules the
    return to the dashboard 3000 ms later.  PURGE_BUFFERS runs
    [handleReset] (lines 142-148), which restores the puzzle and raises the
    level; BACK and RESTART GAME navigate to the dashboard.

    The world holds the screen, the chaos context's state, the route, a
    clock and the [setTimeout] queue.  A drop is a step with a fragment of
    the tool panel (the unplaced ones, line 349) and a zone index of the
    board ([placedFragments.map], lines 203-210).  The handler that runs
    is the one of the screen's mount: each [DropZone] gives [useDrop] a
    spec factory without a dependency list (lines 69-75), and react-dnd
    (from version 14, the first with spec factories) memoises such a spec
    once, so its [drop] keeps the [onDrop] of the zone's first render.
    This is a property of the library, outside the repository, and the
    one assumption of [step].  Leaving the route unmounts the screen;
    coming back mounts a fresh one, while pending timeouts survive.

    The theorems: the puzzle can never be completed ([repair_never_completes]),
    a second drop undoes the first ([second_drop_undoes_first]), and the
    handler run on the current state would have solved it
    ([current_handler_completes]). *)

From S2P Require Import Prelude Stability Timers Chaos.
From Stdlib Require Import QArith Qfield Qround Qminmax Lqa ZArith List String Bool Lia Permutation.
Import ListNotations.

Open Scope Q_scope.
Open Scope chaos_scope.

Module Repair.

(** ** Data (lines 12-28) *)

Record Fragment := mkFragment {
  fid : nat;
  ftype : string;
  fcolor : string;
  placed : bool
}.

Definition FRAGMENTS : list Fragment := [
  mkFragment 1 "CORE" "#00f0ff" false;
  mkFragment 2 "POWER" "#ffff00" false;
  mkFragment 3 "SHIELD" "#39ff14" false;
  mkFragment 4 "MATRIX" "#ff006e" false;
  mkFragment 5 "GLITCH" "#bf40bf" false;
  mkFragment 6 "NEURAL" "#00ff88" false;
  mkFragment 7 "QUANTUM" "#ff00ff" false;
  mkFragment 8 "PLASMA" "#ff8800" false]%string.

Definition set_placed (b : bool) (f : Fragment) : Fragment :=
  mkFragment (fid f) (ftype f) (fcolor f) b.

Record Screen := mkScreen {
  fragments : list Fragment;
  placedFragments : list (option Fragment);
  progress : Q;
  isRepaired : bool;
  repairLevel : nat
}.

(** [useState(FRAGMENTS)], [Array(8).fill(null)], 0, false, 1. *)
Definition initialScreen : Screen := mkScreen FRAGMENTS (repeat None 8) 0 false 1.

Inductive Callback := NavigateDashboard.  (* () => navigate("/dashboard"), lines 135-137 *)

Record World := mkWorld {
  screen : option Screen;   (* [None] while another route is shown *)
  cs : Chaos.ChaosState;
  route : string;
  clock : Q;
  timers : Timers.queue Callback
}.

Definition with_screen s w := mkWorld s (cs w) (route w) (clock w) (timers w).
Definition with_cs c w := mkWorld (screen w) c (route w) (clock w) (timers w).
Definition with_clock t w := mkWorld (screen w) (cs w) (route w) t (timers w).
Definition with_timers q w := mkWorld (screen w) (cs w) (route w) (clock w) q.

(** [navigate(path)]: the route changes and the screen unmounts. *)
Definition navigate (path : string) (w : World) : World :=
  mkWorld None (cs w) path (clock w) (timers w).

(** ** Operations *)

(** [newPlaced.filter(f => f !== null).length] *)
Fixpoint count_placed (l : list (option Fragment)) : nat :=
  match l with
  | [] => 0
  | Some _ :: r => S (count_placed r)
  | None :: r => count_placed r
  end.

(** [newPlaced[index] = item] on a copy, for an index of the board. *)
Fixpoint set_slot (l : list (option Fragment)) (index : nat) (item : Fragment) : list (option Fragment) :=
  match l, index with
  | [], _ => []
  | _ :: r, O => Some item :: r
  | x :: r, S k => x :: set_slot r k item
  end.

(** [(count / 8) * 100] *)
Definition progress_of (l : list (option Fragment)) : Q := (Qnat (count_placed l) / 8) * 100.

(** [handleDrop] (lines 118-140) of the render whose state is [sc]: it
    reads [placedFragments], [fragments] and [repairLevel] from its
    closure; the setters it calls write the screen, and the fields it does
    not set keep their current values. *)
Definition handleDrop (sc : Screen) (item : Fragment) (index : nat) (w : World) : World :=
  match screen w with
  | None => w
  | Some s =>
      match nth_error (placedFragments sc) index with
      | Some (Some _) => w
      | _ =>
          if placed item then w else
          let newPlaced := set_slot (placedFragments sc) index item in
          let newFragments :=
            map (fun f => if Nat.eqb (fid f) (fid item) then set_placed true f else f) (fragments sc) in
          let newProgress := progress_of newPlaced in
          if 100 <=? newProgress then
            let stabilityBonus := 25 + Qnat (repairLevel sc) * 10 in
            mkWorld (Some (mkScreen newFragments newPlaced newProgress true (repairLevel s)))
              (store_repair stabilityBonus (cs w)) (route w) (clock w)
              (Timers.setTimeout (clock w) 3000 NavigateDashboard (timers w))
          else with_screen (Some (mkScreen newFragments newPlaced newProgress (isRepaired s) (repairLevel s))) w
      end
  end.

(** [handleReset] (lines 142-148), the PURGE_BUFFERS button. *)
Definition handleReset (w : World) : World :=
  match screen w with
  | None => w
  | Some s => with_screen (Some (mkScreen FRAGMENTS (repeat None 8) 0 false (S (repairLevel s)))) w
  end.

(** Mounting at [/repair]: the initial state, then the effect
    [setUniverse("FIX_IT")]. *)
Definition mount (w : World) : World :=
  mkWorld (Some initialScreen) (Chaos.set_universe Chaos.FIX_IT (cs w)) "/repair"%string
    (clock w) (timers w).

Definition fire_timer (t : Timers.timer Callback) (w : World) : World :=
  match Timers.t_cb t with
  | NavigateDashboard =>
      navigate "/dashboard" (with_timers (Timers.clearTimeout (Timers.t_id t) (timers w))
                               (with_clock (Timers.t_due t) w))
  end.

(** The tool panel (line 349) and its QUEUE_EMPTY message (line 353). *)
Definition toolPanel (s : Screen) : list Fragment := filter (fun f => negb (placed f)) (fragments s).
Definition queueEmpty (s : Screen) : bool := forallb placed (fragments s).

(** The checklist (lines 367-375): entry [k] is STABLE from [12.5 * k] %. *)
Definition checklist (s : Screen) : list bool :=
  map (fun k => (25 # 2) * Qnat k <=? progress s) (seq 1 8).

(** ** The page runtime *)

(** A drop runs the [onDrop] of the [DropZone]'s first render (lines
    69-75): [useDrop] is given a spec factory and no dependency list, and
    react-dnd memoises such a spec with an empty one, so the zone keeps
    the [handleDrop] of the screen's mount, whose state is
    [initialScreen].  The dragged item is a fragment of the tool panel,
    unplaced. *)
Inductive step : World -> World -> Prop :=
  | step_drop w s item index :
      screen w = Some s -> In item (toolPanel s) -> (index < List.length (placedFragments s))%nat ->
      step w (handleDrop initialScreen item index w)
  | step_reset w : step w (handleReset w)
  | step_back w : screen w <> None -> step w (navigate "/dashboard" w)
  | step_mount w : screen w = None -> step w (mount w)
  | step_timer t w :
      Timers.earliest (Timers.pending (timers w)) = Some t -> step w (fire_timer t w)
  | step_wait t w :
      clock w <= t -> Forall (fun u => t <= Timers.t_due u) (Timers.pending (timers w)) ->
      step w (with_clock t w).

(** ** The board *)

Fixpoint somes (l : list (option Fragment)) : list Fragment :=
  match l with
  | [] => []
  | Some f :: r => f :: somes r
  | None :: r => somes r
  end.

Lemma count_somes l : count_placed l = List.length (somes l).
Proof. induction l as [|[f|] r IH]; simpl; auto. Qed.

Lemma count_placed_le l : (count_placed l <= List.length l)%nat.
Proof. induction l as [|[f|] r IH]; simpl; lia. Qed.

Lemma set_slot_length l i item : List.length (set_slot l i item) = List.length l.
Proof. revert i. induction l as [|x r IH]; intros [|i]; simpl; auto. Qed.

(** Filling an empty zone adds the fragment to the board. *)
Lemma set_slot_somes l i item :
  nth_error l i = Some None -> Permutation (somes (set_slot l i item)) (item :: somes l).
Proof.
  revert i. induction l as [|x r IH]; intros [|i] Hi; simpl in *; try discriminate.
  - injection Hi as ->. reflexivity.
  - destruct x as [f|]; [|now apply IH].
    rewrite (IH i Hi). apply perm_swap.
Qed.

Lemma nth_error_slot (l : list (option Fragment)) i :
  (i < List.length l)%nat -> (forall o, nth_error l i <> Some (Some o)) -> nth_error l i = Some None.
Proof.
  intros Hi Hn. destruct (nth_error l i) as [[o|]|] eqn:E.
  - exfalso. exact (Hn o eq_refl).
  - reflexivity.
  - apply nth_error_None in E. lia.
Qed.

Lemma progress_of_eq l : progress_of l == Qnat (count_placed l) * (25 # 2).
Proof. unfold progress_of. field. Qed.

(** The progress reaches 100 exactly when all eight zones are filled. *)
Lemma progress_full l : (100 <=? progress_of l) = (8 <=? count_placed l)%nat.
Proof.
  rewrite progress_of_eq. destruct (Nat.leb_spec 8 (count_placed l)) as [H|H].
  - apply Qleb_iff. apply (Qnat_le 8) in H. change (Qnat 8) with 8 in H. lra.
  - apply Qleb_false. apply (Qnat_lt _ 8) in H. change (Qnat 8) with 8 in H. lra.
Qed.

(** ** The fragments *)

Definition mark (item : Fragment) (f : Fragment) : Fragment :=
  if Nat.eqb (fid f) (fid item) then set_placed true f else f.

Lemma mark_unflag item f : set_placed false (mark item f) = set_placed false f.
Proof. unfold mark. now destruct (Nat.eqb _ _). Qed.

Lemma map_unflag_mark item l :
  map (set_placed false) (map (mark item) l) = map (set_placed false) l.
Proof. rewrite map_map. apply map_ext, mark_unflag. Qed.

Lemma FRAGMENTS_ids : map fid FRAGMENTS = seq 1 8.
Proof. reflexivity. Qed.

Lemma unflag_ids l : map (set_placed false) l = FRAGMENTS -> map fid l = seq 1 8.
Proof.
  intro Hl. rewrite <- FRAGMENTS_ids, <- Hl, map_map. reflexivity.
Qed.

(** Placing an unplaced fragment of a list with distinct ids adds exactly
    its id to the placed ones. *)
Lemma placed_ids_mark item l :
  NoDup (map fid l) -> In item l -> placed item = false ->
  Permutation (map fid (filter placed (map (mark item) l))) (fid item :: map fid (filter placed l)).
Proof.
  induction l as [|f r IH]; intros Hnd Hin Hp; [destruct Hin|]. simpl in Hnd |- *.
  inversion Hnd as [|? ? Hf Hr]; subst.
  destruct Hin as [<-|Hin].
  - assert (Hm : mark f f = set_placed true f) by (unfold mark; now rewrite Nat.eqb_refl).
    rewrite Hm, Hp. simpl.
    replace (map (mark f) r) with r; [reflexivity|].
    rewrite <- (map_id r) at 1. apply map_ext_in. intros g Hg. unfold mark.
    destruct (Nat.eqb_spec (fid g) (fid f)) as [E|]; [|reflexivity].
    exfalso. apply Hf. rewrite <- E. now apply in_map.
  - destruct (Nat.eqb_spec (fid f) (fid item)) as [E|Ne].
    + exfalso. apply Hf. rewrite E. now apply in_map.
    + assert (Hm : mark item f = f) by (unfold mark; now rewrite (proj2 (Nat.eqb_neq _ _) Ne)).
      rewrite Hm. destruct (placed f); simpl; [|now apply IH].
      rewrite (IH Hr Hin Hp). apply perm_swap.
Qed.

Lemma filter_unplaced l : map (set_placed false) l = FRAGMENTS -> filter placed l = [] ->
  l = FRAGMENTS.
Proof.
  intros Hl. revert Hl. generalize FRAGMENTS. induction l as [|f r IH]; intros L Hl Hf; [exact Hl|].
  destruct L as [|g L]; [discriminate|]. simpl in Hl, Hf. injection Hl as Hg HL.
  destruct f as [i t c b]; destruct b; [discriminate|]. cbn in Hg. subst g.
  f_equal. now apply IH.
Qed.

Lemma toolPanel_spec s item : In item (toolPanel s) -> In item (fragments s) /\ placed item = false.
Proof. unfold toolPanel. rewrite filter_In, negb_true_iff. auto. Qed.

Lemma chaos_repair_stability a c :
  Chaos.stability (store_repair a c) = Stability.repairStability a (Chaos.stability c).
Proof. reflexivity. Qed.

Lemma nth_error_repeat_None i : (i < 8)%nat -> nth_error (repeat (@None Fragment) 8) i = Some None.
Proof. intro Hi. apply nth_error_slot; [rewrite repeat_length; exact Hi|]. intros o E. apply nth_error_In, repeat_spec in E. discriminate. Qed.

(** One fragment on the empty board. *)
Lemma count_one i item : (i < 8)%nat -> count_placed (set_slot (repeat None 8) i item) = 1%nat.
Proof.
  intro Hi. rewrite count_somes.
  pose proof (Permutation_length (set_slot_somes _ _ item (nth_error_repeat_None i Hi))) as E.
  rewrite E. reflexivity.
Qed.

(** The drop of the mount's handler, in closed form: the board of the
    mount with one fragment, whatever the current board holds. *)
Lemma stale_drop_eq w s item index :
  screen w = Some s -> placed item = false -> (index < 8)%nat ->
  handleDrop initialScreen item index w =
  with_screen (Some (mkScreen (map (mark item) FRAGMENTS) (set_slot (repeat None 8) index item)
                       (progress_of (set_slot (repeat None 8) index item)) (isRepaired s) (repairLevel s))) w.
Proof.
  intros Hs Hp Hi. unfold handleDrop. rewrite Hs. cbn [placedFragments initialScreen fragments].
  rewrite (nth_error_repeat_None index Hi), Hp, progress_full, (count_one index item Hi). reflexivity.
Qed.

(** ** The invariant *)

(** The fragments are the catalogue's with their flags; the board has
    eight zones holding exactly the placed fragments; the progress, the
    repaired flag and the level agree with it. *)
Record screen_wf (s : Screen) : Prop := {
  sw_frags : map (set_placed false) (fragments s) = FRAGMENTS;
  sw_zones : List.length (placedFragments s) = 8%nat;
  sw_board : Permutation (map fid (somes (placedFragments s))) (map fid (filter placed (fragments s)));
  sw_progress : progress s == progress_of (placedFragments s);
  sw_repaired : isRepaired s = (8 <=? count_placed (placedFragments s))%nat;
  sw_level : (1 <= repairLevel s)%nat
}.

(** What a run from the mount of a world [w0] keeps: the stability and the
    pending timeouts of [w0] (no bonus, no new timeout), and a screen with
    at most one fragment on its board. *)
Definition world_wf (w0 w : World) : Prop :=
  Chaos.stability (cs w) = Chaos.stability (cs w0) /\
  incl (Timers.pending (timers w)) (Timers.pending (timers w0)) /\
  match screen w with None => True | Some s => screen_wf s /\ (count_placed (placedFragments s) <= 1)%nat end.

Lemma fresh_wf n : (1 <= n)%nat -> screen_wf (mkScreen FRAGMENTS (repeat None 8) 0 false n).
Proof. intro Hn. split; simpl; auto; reflexivity. Qed.

(** A fragment of the tool panel is a fragment of the catalogue. *)
Lemma panel_in_catalogue s item : screen_wf s -> In item (toolPanel s) -> In item FRAGMENTS.
Proof.
  intros Hw Hi. apply toolPanel_spec in Hi as [Hin Hp]. rewrite <- (sw_frags s Hw).
  replace item with (set_placed false item) by (destruct item as [a b c d]; cbn in Hp; now subst).
  now apply in_map.
Qed.

Lemma stale_drop_wf s0 item index :
  screen_wf s0 -> (count_placed (placedFragments s0) <= 1)%nat -> In item (toolPanel s0) -> (index < 8)%nat ->
  screen_wf (mkScreen (map (mark item) FRAGMENTS) (set_slot (repeat None 8) index item)
               (progress_of (set_slot (repeat None 8) index item)) (isRepaired s0) (repairLevel s0)) /\
  (count_placed (set_slot (repeat None 8) index item) <= 1)%nat.
Proof.
  intros Hw Hc Hi Hx. pose proof (toolPanel_spec s0 item Hi) as [_ Hp].
  pose proof (count_one index item Hx) as E1. split; [|lia].
  split; cbn [fragments placedFragments progress isRepaired repairLevel].
  - rewrite map_unflag_mark. reflexivity.
  - rewrite set_slot_length. reflexivity.
  - rewrite (Permutation_map fid (set_slot_somes _ _ item (nth_error_repeat_None index Hx))).
    rewrite (placed_ids_mark item FRAGMENTS (ltac:(rewrite FRAGMENTS_ids; apply seq_NoDup))
               (panel_in_catalogue s0 item Hw Hi) Hp). reflexivity.
  - reflexivity.
  - rewrite E1, (sw_repaired s0 Hw). 
    destruct (Nat.leb_spec 8 (count_placed (placedFragments s0))); [lia | reflexivity].
  - exact (sw_level s0 Hw).
Qed.

Lemma repair_step_wf w0 w w' : world_wf w0 w -> step w w' -> world_wf w0 w'.
Proof.
  intros (Hst & Hq & Hw) Hs. destruct Hs as [w s item index Hs Hi Hl|w|w _|w _|t w Ht|t w _ _].
  - rewrite Hs in Hw. destruct Hw as [Hsw Hc]. rewrite (sw_zones s Hsw) in Hl.
    rewrite (stale_drop_eq w s item index Hs (proj2 (toolPanel_spec s item Hi)) Hl).
    split; [exact Hst|]. split; [exact Hq|]. exact (stale_drop_wf s item index Hsw Hc Hi Hl).
  - unfold handleReset. destruct (screen w) as [s|] eqn:Es; [|split; [exact Hst|split; [exact Hq|now rewrite Es]]].
    split; [exact Hst|]. split; [exact Hq|]. cbn. split; [apply fresh_wf; lia|cbn; lia].
  - split; [exact Hst|]. split; [exact Hq | exact I].
  - split; [exact Hst|]. split; [exact Hq|]. split; [apply fresh_wf; lia | cbn; lia].
  - unfold fire_timer. destruct (Timers.t_cb t). split; [exact Hst|]. split; [|exact I].
    intros u Hu. apply Hq. exact (proj1 (proj1 (Timers.In_remove_timer _ _ _) Hu)).
  - exact (conj Hst (conj Hq Hw)).
Qed.

Lemma repair_star_wf w0 w w' : world_wf w0 w -> star step w w' -> world_wf w0 w'.
Proof. intros Hw Hs. exact (star_invariant step (world_wf w0) (repair_step_wf w0) w w' Hs Hw). Qed.

Lemma repair_mount_wf w0 : world_wf w0 (mount w0).
Proof. split; [reflexivity|]. split; [apply incl_refl|]. split; [apply fresh_wf; lia | cbn; lia]. Qed.

(** ** Properties *)

(** C18: The repair puzzle can never be completed: every drop runs the
    [handleDrop] of the mount, which sees an empty board, so in every
    state reachable from the mount at most one zone is filled, the
    progress is at most 12.5 %, the screen is never repaired, the
    stability is never raised and no return to the dashboard is
    scheduled. *)
Theorem repair_never_completes w0 w :
  star step (mount w0) w ->
  Chaos.stability (cs w) = Chaos.stability (cs w0) /\
  incl (Timers.pending (timers w)) (Timers.pending (timers w0)) /\
  forall s, screen w = Some s ->
    isRepaired s = false /\ (count_placed (placedFragments s) <= 1)%nat /\ progress s <= 25 # 2.
Proof.
  intro Hs. destruct (repair_star_wf w0 _ w (repair_mount_wf w0) Hs) as (Hst & Hq & Hw).
  split; [exact Hst|]. split; [exact Hq|]. intros s Es. rewrite Es in Hw. destruct Hw as [Hsw Hc].
  split; [rewrite (sw_repaired s Hsw); apply Nat.leb_gt; lia|]. split; [exact Hc|].
  rewrite (sw_progress s Hsw), progress_of_eq. apply (Qnat_le _ 1) in Hc. change (Qnat 1) with 1 in Hc. lra.
Qed.

(** The screen mounted from the dashboard; CORE dropped into the first
    zone, then POWER into the second. *)
Definition repair_start : World :=
  mount (mkWorld None Chaos.initialState "/dashboard"%string 0 Timers.empty_queue).
Definition core : Fragment := nth 0 FRAGMENTS (mkFragment 0 "" "" false).
Definition power : Fragment := nth 1 FRAGMENTS (mkFragment 0 "" "" false).
Definition one_drop : World := handleDrop initialScreen core 0 repair_start.
Definition two_drops : World := handleDrop initialScreen power 1 one_drop.

Lemma two_drops_steps : star step repair_start two_drops.
Proof.
  eapply star_step; [apply (step_drop repair_start initialScreen core 0); vm_compute; [reflexivity | tauto | lia]|].
  apply star_one. apply (step_drop one_drop (mkScreen (map (mark core) FRAGMENTS) (set_slot (repeat None 8) 0 core)
    (progress_of (set_slot (repeat None 8) 0 core)) false 1)); vm_compute; [reflexivity | tauto | lia].
Qed.

Lemma repair_never_completes_witness :
  Chaos.stability (cs two_drops) = Chaos.stability (cs (mkWorld None Chaos.initialState "/dashboard"%string 0 Timers.empty_queue)) /\
  incl (Timers.pending (timers two_drops)) (Timers.pending (timers (mkWorld None Chaos.initialState "/dashboard"%string 0 Timers.empty_queue))) /\
  forall s, screen two_drops = Some s ->
    isRepaired s = false /\ (count_placed (placedFragments s) <= 1)%nat /\ progress s <= 25 # 2.
Proof. apply repair_never_completes. exact two_drops_steps. Defined.

(** The second drop undoes the first: CORE leaves its zone and is back in
    the tool panel, and the progress stays at 12.5 %. *)
Lemma second_drop_undoes_first :
  option_map placedFragments (screen two_drops) = Some (None :: Some power :: repeat None 6) /\
  option_map (fun s => map fid (toolPanel s)) (screen two_drops) = Some [1; 3; 4; 5; 6; 7; 8]%nat /\
  option_map (fun s => Qeqb (progress s) (25 # 2)) (screen two_drops) = Some true.
Proof. split; [|split]; vm_compute; reflexivity. Qed.

(** The handler itself is right: run with the state of the current render
    (what a dependency list [[placedFragments, fragments, repairLevel]]
    for [useDrop] would give), eight drops, each fragment into the zone of
    its rank, solve a fresh puzzle of level [n], repair the stability by
    [25 + 10 n] and schedule the return to the dashboard. *)
Definition place_all (w : World) : World :=
  fold_left (fun w f => match screen w with Some s => handleDrop s f (pred (fid f)) w | None => w end) FRAGMENTS w.

Lemma current_handler_completes n c r t q :
  place_all (mkWorld (Some (mkScreen FRAGMENTS (repeat None 8) 0 false n)) c r t q) =
  mkWorld (Some (mkScreen (map (set_placed true) FRAGMENTS) (map Some FRAGMENTS)
                   (progress_of (map Some FRAGMENTS)) true n))
    (store_repair (25 + Qnat n * 10) c) r t (Timers.setTimeout t 3000 NavigateDashboard q).
Proof. vm_compute. reflexivity. Qed.

End Repair.
