(* ===== verification/Cheat.v ===== *)
(** * The cheat console of [components/CheatConsole.tsx]

    [CheatConsole] keeps the text of its input and the lines of its output
    (lines 20-21).  Submitting the form ([handleSubmit], lines 23-45) echoes
    the upper-cased, trimmed input, then answers HELP with the list of
    codes, a known code with its effect, anything else with an error, and
    clears the input.  The console knows no cheat's effect beyond the text:
    nothing else of the application reads it.

    Strings are byte strings; [toUpperCase] and [trim] are modelled on
    ASCII: letters a-z are raised, and the whitespace trimmed is space,
    tab, line feed, vertical tab, form feed and carriage return.  The
    non-ASCII upper-casing and whitespace of JavaScript are not modelled. *)

From S2P Require Import Prelude.
From Stdlib Require Import List String Ascii Bool Arith Lia.
Import ListNotations.

Open Scope string_scope.

Module Cheat.

(** ** Data (lines 11-21) *)

Record CheatCode := mkCheat { code : string; effect : string }.

Definition CHEAT_CODES : list CheatCode := [
  mkCheat "GODMODE" "Invincibility activated";
  mkCheat "MAXPOWER" "All stats maxed out";
  mkCheat "UNLOCKALL" "All levels unlocked";
  mkCheat "NOCLIP" "No collision mode enabled";
  mkCheat "SPEEDRUN" "2x speed activated"].

Record Console := mkConsole { input : string; output : list string }.

Definition initialConsole : Console :=
  mkConsole "" ["Cheat console initialized..."; "Type a cheat code or 'HELP' for list"].

(** ** String functions *)

Definition upper_ascii (c : ascii) : ascii :=
  let n := nat_of_ascii c in
  if Nat.leb 97 n && Nat.leb n 122 then ascii_of_nat (n - 32) else c.

(** [String.prototype.toUpperCase] on ASCII. *)
Fixpoint toUpperCase (s : string) : string :=
  match s with
  | EmptyString => EmptyString
  | String c r => String (upper_ascii c) (toUpperCase r)
  end.

Definition is_space (c : ascii) : bool :=
  let n := nat_of_ascii c in Nat.eqb n 32 || (Nat.leb 9 n && Nat.leb n 13).

Fixpoint drop_spaces (l : list ascii) : list ascii :=
  match l with
  | [] => []
  | c :: r => if is_space c then drop_spaces r else l
  end.

(** [String.prototype.trim]: the leading, then the trailing whitespace. *)
Definition trim (s : string) : string :=
  string_of_list_ascii (rev (drop_spaces (rev (drop_spaces (list_ascii_of_string s))))).

(** ** Operations *)

(** The input's [onChange] (line 119). *)
Definition setInput (v : string) (c : Console) : Console := mkConsole v (output c).

(** [CHEAT_CODES.find(c => c.code === code)] *)
Definition find_cheat (s : string) : option CheatCode :=
  find (fun c => String.eqb (code c) s) CHEAT_CODES.

(** The lines the answer appends after the echo (lines 29-42). *)
Definition answer (s : string) : list string :=
  if String.eqb s "HELP" then
    "Available cheat codes:" :: map (fun c => "  " ++ code c ++ " - " ++ effect c) CHEAT_CODES
  else match find_cheat s with
       | Some cheat => ["✓ " ++ effect cheat; ""]
       | None => ["✗ Invalid cheat code. Type HELP for list."; ""]
       end.

(** [handleSubmit] (lines 23-45): the updaters run in order on [output]. *)
Definition handleSubmit (c : Console) : Console :=
  let s := toUpperCase (trim (input c)) in
  mkConsole "" ((output c ++ ["> " ++ s]) ++ answer s).

(** A session of the console: typing and submitting. *)
Inductive step : Console -> Console -> Prop :=
  | step_type c v : step c (setInput v c)
  | step_submit c : step c (handleSubmit c).

(** ** Lemmas on the string functions *)

Definition chars := list_ascii_of_string.

Lemma chars_toUpperCase s : chars (toUpperCase s) = map upper_ascii (chars s).
Proof. induction s as [|c r IH]; simpl; [reflexivity | now rewrite IH]. Qed.

Lemma chars_append s t : chars (s ++ t) = (chars s ++ chars t)%list.
Proof. induction s as [|c r IH]; simpl; [reflexivity | now rewrite IH]. Qed.

(** Raising a character does not change whether it is whitespace. *)
Lemma is_space_upper c : is_space (upper_ascii c) = is_space c.
Proof. destruct c as [[] [] [] [] [] [] [] []]; reflexivity. Qed.

Lemma drop_spaces_app p l :
  forallb is_space p = true -> drop_spaces (p ++ l)%list = drop_spaces l.
Proof. induction p as [|c r IH]; simpl; [reflexivity|]. intro H. apply andb_prop in H as [-> H]. auto. Qed.

Lemma drop_spaces_keep c l : is_space c = false -> drop_spaces (c :: l) = c :: l.
Proof. simpl. now intros ->. Qed.

Lemma forallb_rev {A} (f : A -> bool) l : forallb f (rev l) = forallb f l.
Proof. induction l as [|x r IH]; simpl; [reflexivity|]. rewrite forallb_app, IH. simpl. now rewrite andb_true_r, andb_comm. Qed.

(** Trimming a word padded with whitespace gives the word back. *)
Lemma trim_padded p1 v p2 :
  forallb is_space (chars p1) = true -> forallb is_space (chars p2) = true ->
  (exists c r, chars v = c :: r /\ is_space c = false) ->
  (exists c r, rev (chars v) = c :: r /\ is_space c = false) ->
  trim (p1 ++ v ++ p2) = v.
Proof.
  intros H1 H2 (c & r & Hv & Hc) (d & q & Hr & Hd). unfold trim. fold chars.
  rewrite !chars_append, drop_spaces_app by exact H1.
  rewrite Hv, <- app_comm_cons, drop_spaces_keep by exact Hc. rewrite app_comm_cons, <- Hv, rev_app_distr.
  rewrite drop_spaces_app by (now rewrite forallb_rev).
  rewrite Hr, drop_spaces_keep by exact Hd. rewrite <- Hr, rev_involutive.
  apply string_of_list_ascii_of_string.
Qed.

(** A word whose upper case is a cheat code neither starts nor ends with
    whitespace. *)
Lemma upper_code_ends v k :
  In k CHEAT_CODES -> toUpperCase v = code k ->
  (exists c r, chars v = c :: r /\ is_space c = false) /\
  (exists c r, rev (chars v) = c :: r /\ is_space c = false).
Proof.
  intros Hk Hv. assert (Hm : map upper_ascii (chars v) = chars (code k)) by now rewrite <- chars_toUpperCase, Hv.
  assert (Hr : map upper_ascii (rev (chars v)) = rev (chars (code k))) by now rewrite map_rev, Hm.
  split.
  - destruct (chars v) as [|c r]; [cbn in Hk; intuition (subst; discriminate)|].
    exists c, r. split; [reflexivity|]. rewrite <- is_space_upper. simpl in Hm.
    cbn in Hk; intuition (subst; cbn in Hm; injection Hm; intros;
      match goal with Hh : upper_ascii _ = _ |- _ => rewrite Hh; reflexivity end).
  - destruct (rev (chars v)) as [|c r]; [cbn in Hk; intuition (subst; discriminate)|].
    exists c, r. split; [reflexivity|]. rewrite <- is_space_upper. simpl in Hr.
    cbn in Hk; intuition (subst; cbn in Hr; injection Hr; intros;
      match goal with Hh : upper_ascii _ = _ |- _ => rewrite Hh; reflexivity end).
Qed.

Lemma answer_code k : In k CHEAT_CODES -> answer (code k) = ["✓ " ++ effect k; ""].
Proof. cbn. intuition (subst; reflexivity). Qed.

(** ** Properties *)

(** A cheat code typed in any letter case and padded with whitespace
    on either side is accepted: the console echoes the code and answers
    with that cheat's effect. *)
Theorem padded_code_accepted (c : Console) k p1 v p2 :
  In k CHEAT_CODES -> toUpperCase v = code k ->
  forallb is_space (chars p1) = true -> forallb is_space (chars p2) = true ->
  handleSubmit (setInput (p1 ++ v ++ p2) c) =
  mkConsole "" (output c ++ ["> " ++ code k; "✓ " ++ effect k; ""]).
Proof.
  intros Hk Hv H1 H2. destruct (upper_code_ends v k Hk Hv) as [Hs He].
  unfold handleSubmit. cbn [input output setInput]. rewrite trim_padded, Hv, answer_code by assumption.
  now rewrite <- app_assoc.
Qed.

Lemma padded_code_accepted_witness :
  handleSubmit (setInput (" " ++ "GodMode" ++ "  ") initialConsole) =
  mkConsole "" (output initialConsole ++ ["> GODMODE"; "✓ Invincibility activated"; ""]).
Proof. apply (padded_code_accepted initialConsole (mkCheat "GODMODE" "Invincibility activated")); cbn; auto. Defined.

(** Every code the HELP answer lists is accepted when submitted as
    listed, and nothing outside the list is: the answer to a normalised
    input is a success exactly when it is one of the listed codes. *)
Theorem help_lists_accepted s :
  s <> "HELP" ->
  (exists k, In k CHEAT_CODES /\ code k = s /\ answer s = ["✓ " ++ effect k; ""]) \/
  (~ In s (map code CHEAT_CODES) /\ answer s = ["✗ Invalid cheat code. Type HELP for list."; ""]).
Proof.
  intro Hh. unfold answer. rewrite (proj2 (String.eqb_neq _ _) Hh).
  destruct (find_cheat s) as [k|] eqn:Ef.
  - left. exists k. apply find_some in Ef as [Hk Hc]. apply String.eqb_eq in Hc. auto.
  - right. split; [|reflexivity]. intro Hin. apply in_map_iff in Hin as [k [Hc Hk]].
    apply (find_none _ _ Ef) in Hk. rewrite Hc, String.eqb_refl in Hk. discriminate.
Qed.

Lemma help_lists_accepted_witness : "NOCLIP" <> "HELP" /\
  exists k, In k CHEAT_CODES /\ code k = "NOCLIP" /\ answer "NOCLIP" = ["✓ " ++ effect k; ""].
Proof.
  assert (Hn : "NOCLIP" <> "HELP") by discriminate. split; [exact Hn|].
  destruct (help_lists_accepted "NOCLIP" Hn) as [H|[Hc _]]; [exact H|].
  exfalso. apply Hc. cbn. tauto.
Defined.

End Cheat.
