(* ===== verification/Login.v ===== *)
(** * The login screen of [screens/LoginScreen.tsx]

    [LoginScreen] keeps the selected letters, the shuffled letter pool,
    the PIN, [isUnlocking] and three visibility flags (lines 19-25), and
    renders the cheat console of [Cheat] and a [GlitchPopup]
    (components/GlitchPopup.tsx).  Its effect (lines 27-58), re-run
    whenever [showCheatConsole] changes, installs the keyboard handler and
    arms two timeouts: the glitch popup after 5000 ms and the achievement
    toast after 8000 ms; its cleanup clears both.  [handleUnlock] (lines
    74-85) accepts the code ARCADE by scheduling the move to [/boot] 2000 ms
    later and otherwise clears the letters.

    The popup's auto-close effect (GlitchPopup.tsx lines 22-27) depends on
    [onClose], which LoginScreen passes as a new arrow at every render: it
    re-runs after every render of the screen, clearing its 3000 ms timeout
    and, while the popup is shown, arming a new one.  So each handler here
    says whether it made the screen render: React skips a render when every
    state update sets a value equal ([Object.is]) to the current one, and a
    fresh array is never equal.  After a render the child's effect runs
    before the parent's.  The console's own typing and submitting render
    only the console. *)

From S2P Require Import Prelude Timers Cheat.
From Stdlib Require Import QArith Qminmax Lqa List String Ascii Bool Arith Lia Permutation.
Import ListNotations.

Open Scope Q_scope.
Open Scope chaos_scope.

Module Login.

(** ** Data (lines 14-25) *)

Definition LETTERS : list string := ["A"; "R"; "C"; "D"; "E"]%string.
Definition CORRECT_CODE : string := "ARCADE"%string.

Record Screen := mkScreen {
  selectedLetters : list string;
  shuffledLetters : list string;
  pin : string;
  isUnlocking : bool;
  showCheatConsole : bool;
  showAchievement : bool;
  showGlitch : bool;
  console : Cheat.Console
}.

Inductive Callback :=
  | ShowGlitch        (* () => setShowGlitch(true), lines 44-46 *)
  | ShowAchievement   (* () => setShowAchievement(true), lines 49-51 *)
  | NavigateBoot      (* () => navigate("/boot"), lines 78-80 *)
  | ClosePopup.       (* setTimeout(onClose, duration), GlitchPopup.tsx line 24 *)

Record World := mkWorld {
  screen : option Screen;
  route : string;
  clock : Q;
  timers : Timers.queue Callback;
  effect_timers : list nat;     (* glitchTimer and achievementTimer of the last run *)
  popup_timer : option nat      (* the popup's auto-close timer *)
}.

Definition with_screen s w := mkWorld (Some s) (route w) (clock w) (timers w) (effect_timers w) (popup_timer w).
Definition with_timers q w := mkWorld (screen w) (route w) (clock w) q (effect_timers w) (popup_timer w).
Definition with_clock t w := mkWorld (screen w) (route w) t (timers w) (effect_timers w) (popup_timer w).

Definition set_selected l s := mkScreen l (shuffledLetters s) (pin s) (isUnlocking s)
  (showCheatConsole s) (showAchievement s) (showGlitch s) (console s).
Definition set_shuffled l s := mkScreen (selectedLetters s) l (pin s) (isUnlocking s)
  (showCheatConsole s) (showAchievement s) (showGlitch s) (console s).
Definition set_pin p s := mkScreen (selectedLetters s) (shuffledLetters s) p (isUnlocking s)
  (showCheatConsole s) (showAchievement s) (showGlitch s) (console s).
Definition set_unlocking b s := mkScreen (selectedLetters s) (shuffledLetters s) (pin s) b
  (showCheatConsole s) (showAchievement s) (showGlitch s) (console s).
Definition set_cheat b s := mkScreen (selectedLetters s) (shuffledLetters s) (pin s) (isUnlocking s)
  b (showAchievement s) (showGlitch s) (console s).
Definition set_achievement b s := mkScreen (selectedLetters s) (shuffledLetters s) (pin s) (isUnlocking s)
  (showCheatConsole s) b (showGlitch s) (console s).
Definition set_glitch b s := mkScreen (selectedLetters s) (shuffledLetters s) (pin s) (isUnlocking s)
  (showCheatConsole s) (showAchievement s) b (console s).
Definition set_console c s := mkScreen (selectedLetters s) (shuffledLetters s) (pin s) (isUnlocking s)
  (showCheatConsole s) (showAchievement s) (showGlitch s) c.

(** ** Effects *)

Definition clear_all (hs : list nat) (q : Timers.queue Callback) : Timers.queue Callback :=
  fold_left (fun q h => Timers.clearTimeout h q) hs q.

(** The effect on [[showCheatConsole]]: cleanup, then the two timeouts. *)
Definition loginEffect (w : World) : World :=
  let q0 := clear_all (effect_timers w) (timers w) in
  let q1 := Timers.setTimeout (clock w) 5000 ShowGlitch q0 in
  let q2 := Timers.setTimeout (clock w) 8000 ShowAchievement q1 in
  mkWorld (screen w) (route w) (clock w) q2 [Timers.next_id q0; Timers.next_id q1] (popup_timer w).

(** The popup's auto-close effect, after a render of the screen. *)
Definition popupEffect (w : World) : World :=
  let q0 := match popup_timer w with Some h => Timers.clearTimeout h (timers w) | None => timers w end in
  match screen w with
  | Some s =>
      if showGlitch s then
        mkWorld (screen w) (route w) (clock w) (Timers.setTimeout (clock w) 3000 ClosePopup q0)
          (effect_timers w) (Some (Timers.next_id q0))
      else mkWorld (screen w) (route w) (clock w) q0 (effect_timers w) None
  | None => mkWorld (screen w) (route w) (clock w) q0 (effect_timers w) None
  end.

(** The effects after a handler: none without a render; after one, the
    child's, then the parent's when its dependency changed. *)
Definition commit (rendered : bool) (before : bool) (w : World) : World :=
  if rendered then
    let w1 := popupEffect w in
    match screen w1 with
    | Some s => if Bool.eqb before (showCheatConsole s) then w1 else loginEffect w1
    | None => w1
    end
  else w.

(** ** Handlers *)

(** The keyboard handler of the effect (lines 29-39). *)
Definition key_screen (key : string) (s : Screen) : Screen :=
  let s1 := if String.eqb key "`" || String.eqb key "~" then set_cheat (negb (showCheatConsole s)) s else s in
  if String.eqb key "Escape" && showCheatConsole s then set_cheat false s1 else s1.

(** [handleLetterClick] (lines 60-64): [None] when no state is set. *)
Definition handleLetterClick (letter : string) (s : Screen) : option Screen :=
  if (List.length (selectedLetters s) <? 6)%nat then Some (set_selected (selectedLetters s ++ [letter]) s)
  else None.

(** The PIN input (line 198): [e.target.value.slice(0, 4)]. *)
Definition setPin (v : string) (s : Screen) : Screen := set_pin (substring 0 4 v) s.

(** The UNLOCK button is disabled unless six letters and four PIN
    characters are entered (line 212). *)
Definition unlock_enabled (s : Screen) : bool :=
  Nat.eqb (List.length (selectedLetters s)) 6 && Nat.eqb (String.length (pin s)) 4.

(** [handleUnlock] (lines 74-85). *)
Definition handleUnlock (w : World) (s : Screen) : World :=
  let code := String.concat "" (selectedLetters s) in
  if String.eqb code CORRECT_CODE then
    mkWorld (Some (set_unlocking true s)) (route w) (clock w)
      (Timers.setTimeout (clock w) 2000 NavigateBoot (timers w)) (effect_timers w) (popup_timer w)
  else with_screen (set_selected [] s) w.

(** Unmounting: both effects' cleanups. *)
Definition unmount (w : World) : World :=
  let q0 := match popup_timer w with Some h => Timers.clearTimeout h (timers w) | None => timers w end in
  mkWorld None (route w) (clock w) (clear_all (effect_timers w) q0) [] None.

(** A fired timeout: removed from the queue, then its callback. *)
Definition fire_timer (t : Timers.timer Callback) (w : World) : World :=
  let w0 := with_timers (Timers.clearTimeout (Timers.t_id t) (timers w)) (with_clock (Timers.t_due t) w) in
  match screen w0 with
  | None => w0
  | Some s =>
      match Timers.t_cb t with
      | ShowGlitch => commit (negb (showGlitch s)) (showCheatConsole s) (with_screen (set_glitch true s) w0)
      | ShowAchievement =>
          commit (negb (showAchievement s)) (showCheatConsole s) (with_screen (set_achievement true s) w0)
      | ClosePopup => commit (showGlitch s) (showCheatConsole s) (with_screen (set_glitch false s) w0)
      | NavigateBoot => unmount (mkWorld (screen w0) "/boot"%string (clock w0) (timers w0)
                                   (effect_timers w0) (popup_timer w0))
      end
  end.

(** Mounting at [/] with the pool shuffled to [shuffled]: the first
    render, then the popup's effect and the screen's. *)
Definition mount (shuffled : list string) (t0 : Q) (q : Timers.queue Callback) : World :=
  loginEffect (popupEffect (mkWorld (Some (mkScreen [] shuffled "" false false false false Cheat.initialConsole))
                              "/"%string t0 q [] None)).

(** ** The page runtime *)

Inductive step : World -> World -> Prop :=
  | step_key w s key :
      screen w = Some s ->
      let s' := key_screen key s in
      step w (commit (negb (Bool.eqb (showCheatConsole s) (showCheatConsole s'))) (showCheatConsole s)
                (with_screen s' w))
  | step_letter w s letter :
      screen w = Some s -> In letter (shuffledLetters s) ->
      step w (match handleLetterClick letter s with
              | Some s' => commit true (showCheatConsole s) (with_screen s' w)
              | None => w
              end)
  | step_shuffle w s l :
      screen w = Some s -> Permutation l (shuffledLetters s) ->
      step w (commit true (showCheatConsole s) (with_screen (set_shuffled l s) w))
  | step_clear w s :
      screen w = Some s -> step w (commit true (showCheatConsole s) (with_screen (set_selected [] s) w))
  | step_pin w s v :
      screen w = Some s ->
      step w (commit (negb (String.eqb (substring 0 4 v) (pin s))) (showCheatConsole s)
                (with_screen (setPin v s) w))
  | step_unlock w s :
      screen w = Some s -> unlock_enabled s = true ->
      step w (commit (negb (String.eqb (String.concat "" (selectedLetters s)) CORRECT_CODE) || negb (isUnlocking s))
                (showCheatConsole s) (handleUnlock w s))
  | step_console w s c' :
      screen w = Some s -> showCheatConsole s = true -> Cheat.step (console s) c' ->
      step w (with_screen (set_console c' s) w)
  | step_close_console w s :
      screen w = Some s ->
      step w (commit (showCheatConsole s) (showCheatConsole s) (with_screen (set_cheat false s) w))
  | step_close_achievement w s :
      screen w = Some s ->
      step w (commit (showAchievement s) (showCheatConsole s) (with_screen (set_achievement false s) w))
  | step_close_glitch w s :
      screen w = Some s ->
      step w (commit (showGlitch s) (showCheatConsole s) (with_screen (set_glitch false s) w))
  | step_timer t w :
      Timers.earliest (Timers.pending (timers w)) = Some t -> step w (fire_timer t w)
  | step_wait t w :
      clock w <= t -> Forall (fun u => t <= Timers.t_due u) (Timers.pending (timers w)) ->
      step w (with_clock t w).

(** ** The invariant *)

Record screen_ok (s : Screen) : Prop := {
  ok_len : (List.length (selectedLetters s) <= 6)%nat;
  ok_letters : Forall (fun l => In l LETTERS) (selectedLetters s);
  ok_pool : Permutation (shuffledLetters s) LETTERS;
  ok_pin : (String.length (pin s) <= 4)%nat
}.

(** A pending move to [/boot] was scheduled by an accepted unlock. *)
Definition nav_ok (s : Screen) (t : Timers.timer Callback) : Prop :=
  Timers.t_cb t = NavigateBoot -> isUnlocking s = true.

Definition login_wf (w : World) : Prop :=
  match screen w with
  | Some s => route w = "/"%string /\ screen_ok s /\ Forall (nav_ok s) (Timers.pending (timers w))
  | None => True
  end.

Section Queue.
Variable P : Timers.timer Callback -> Prop.

Lemma Forall_clear h q : Forall P (Timers.pending q) -> Forall P (Timers.pending (Timers.clearTimeout h q)).
Proof. intro Hq. apply Forall_forall. intros t Ht. apply Timers.In_remove_timer in Ht as [Ht _]. now apply (proj1 (Forall_forall _ _) Hq). Qed.

Lemma Forall_clear_all hs q : Forall P (Timers.pending q) -> Forall P (Timers.pending (clear_all hs q)).
Proof. revert q. induction hs as [|h r IH]; intros q Hq; [exact Hq|]. apply IH, Forall_clear, Hq. Qed.

Lemma Forall_set now d cb q :
  Forall P (Timers.pending q) -> (forall id due, P (Timers.mkTimer id due cb)) ->
  Forall P (Timers.pending (Timers.setTimeout now d cb q)).
Proof. intros Hq Hn. unfold Timers.setTimeout. simpl. apply Forall_app. split; [exact Hq | constructor; auto]. Qed.
End Queue.

Lemma nav_other s id due cb : cb <> NavigateBoot -> nav_ok s (Timers.mkTimer id due cb).
Proof. intros Hc He. contradiction. Qed.

Lemma popupEffect_screen w : screen (popupEffect w) = screen w.
Proof. unfold popupEffect. destruct (screen w) as [s|]; [destruct (showGlitch s)|]; reflexivity. Qed.

Lemma popupEffect_route w : route (popupEffect w) = route w.
Proof. unfold popupEffect. destruct (screen w) as [s|]; [destruct (showGlitch s)|]; reflexivity. Qed.

Lemma commit_screen r b w : screen (commit r b w) = screen w.
Proof.
  unfold commit. destruct r; [|reflexivity].
  destruct (screen (popupEffect w)) as [s|]; [destruct (Bool.eqb _ _)|]; apply popupEffect_screen.
Qed.

Lemma commit_route r b w : route (commit r b w) = route w.
Proof.
  unfold commit. destruct r; [|reflexivity].
  destruct (screen (popupEffect w)) as [s|]; [destruct (Bool.eqb _ _)|]; apply popupEffect_route.
Qed.

(** The effects arm only popup and toast timeouts. *)
Lemma commit_pending r b w s :
  Forall (nav_ok s) (Timers.pending (timers w)) -> Forall (nav_ok s) (Timers.pending (timers (commit r b w))).
Proof.
  intro Hq. assert (Hp : Forall (nav_ok s) (Timers.pending (timers (popupEffect w)))).
  { unfold popupEffect. destruct (popup_timer w) as [h|];
      destruct (screen w) as [s'|]; try destruct (showGlitch s'); cbn [timers];
      try apply Forall_set; try apply Forall_clear; try exact Hq; intros; apply nav_other; discriminate. }
  unfold commit. destruct r; [|exact Hq].
  destruct (screen (popupEffect w)) as [s'|]; [destruct (Bool.eqb _ _)|]; [exact Hp| |exact Hp].
  unfold loginEffect. cbn [timers].
  apply Forall_set; [apply Forall_set; [apply Forall_clear_all, Hp|]|]; intros; apply nav_other; discriminate.
Qed.

Lemma commit_wf r b w : login_wf w -> login_wf (commit r b w).
Proof.
  unfold login_wf. rewrite commit_screen, commit_route. destruct (screen w) as [s|]; [|auto].
  intros (Hr & Hs & Hq). split; [exact Hr | split; [exact Hs | now apply commit_pending]].
Qed.

Lemma substring_length n m str : (String.length (substring n m str) <= m)%nat.
Proof.
  revert n m. induction str as [|c r IH]; intros [|n] [|m]; simpl; try lia.
  all: first [specialize (IH 0%nat m); lia | apply IH].
Qed.

(** A screen with the same letters, pool, PIN and [isUnlocking]. *)
Definition same_core (s s' : Screen) : Prop :=
  selectedLetters s' = selectedLetters s /\ shuffledLetters s' = shuffledLetters s /\
  pin s' = pin s /\ isUnlocking s' = isUnlocking s.

Lemma screen_ok_core s s' : same_core s s' -> screen_ok s -> screen_ok s'.
Proof. intros (H1 & H2 & H3 & _) [Hl Hs Hp Hn]. split; rewrite ?H1, ?H2, ?H3; assumption. Qed.

Lemma with_screen_wf w s s' :
  screen w = Some s -> login_wf w -> screen_ok s' -> isUnlocking s' = isUnlocking s ->
  login_wf (with_screen s' w).
Proof.
  unfold login_wf. intros Hs. rewrite Hs. intros (Hr & _ & Hq) Hok Hu. cbn [screen with_screen].
  split; [exact Hr | split; [exact Hok|]]. cbn [timers]. revert Hq. apply Forall_impl.
  unfold nav_ok. rewrite Hu. auto.
Qed.

Lemma core_wf w s s' : screen w = Some s -> login_wf w -> same_core s s' -> login_wf (with_screen s' w).
Proof.
  intros Hs Hw Hc. apply (with_screen_wf w s); [exact Hs | exact Hw | | apply Hc].
  apply (screen_ok_core s); [exact Hc|]. unfold login_wf in Hw. rewrite Hs in Hw. apply Hw.
Qed.

Lemma key_core key s : same_core s (key_screen key s).
Proof.
  unfold key_screen. destruct (_ || _), (_ && _); repeat split.
Qed.

Lemma wf_screen_ok w s : screen w = Some s -> login_wf w -> screen_ok s.
Proof. unfold login_wf. intros ->. intros (_ & Hs & _). exact Hs. Qed.

Lemma fire_base_wf (t : Timers.timer Callback) w :
  login_wf w ->
  login_wf (with_timers (Timers.clearTimeout (Timers.t_id t) (timers w)) (with_clock (Timers.t_due t) w)).
Proof.
  unfold login_wf. cbn [screen with_timers with_clock route timers].
  destruct (screen w); [|auto]. intros (Hr & Hs & Hq). split; [exact Hr | split; [exact Hs | now apply Forall_clear]].
Qed.

Lemma login_step_wf w w' : login_wf w -> step w w' -> login_wf w'.
Proof.
  intros Hw Hs. pose proof Hw as Hw0. destruct Hs as
    [w s key Es s'|w s letter Es Hin|w s l Es Hp|w s Es|w s v Es|w s Es Hen|w s c' Es _ _
    |w s Es|w s Es|w s Es|t w Et|t w _ _];
    try (apply commit_wf; apply (core_wf w s); [exact Es | exact Hw | repeat split]; fail).
  - apply commit_wf, (core_wf w s); [exact Es | exact Hw | apply key_core].
  - destruct (handleLetterClick letter s) as [s'|] eqn:El; [|exact Hw]. apply commit_wf.
    unfold handleLetterClick in El. destruct (Nat.ltb_spec (List.length (selectedLetters s)) 6); [|discriminate].
    injection El as <-. destruct (wf_screen_ok w s Es Hw) as [Hl Hls Hpool Hpin].
    apply (with_screen_wf w s); [exact Es | exact Hw | split; cbn | reflexivity]; auto.
    + rewrite length_app. simpl. lia.
    + apply Forall_app. split; [exact Hls|]. constructor; [|constructor].
      exact (Permutation_in _ Hpool Hin).
  - apply commit_wf. destruct (wf_screen_ok w s Es Hw) as [Hl Hls Hpool Hpin].
    apply (with_screen_wf w s); [exact Es | exact Hw | split; cbn; auto | reflexivity].
    now rewrite Hp.
  - apply commit_wf. destruct (wf_screen_ok w s Es Hw) as [Hl Hls Hpool Hpin].
    apply (with_screen_wf w s); [exact Es | exact Hw | split; cbn; auto; lia | reflexivity].
  - apply commit_wf. destruct (wf_screen_ok w s Es Hw) as [Hl Hls Hpool Hpin].
    apply (with_screen_wf w s); [exact Es | exact Hw | split; cbn; auto; apply substring_length | reflexivity].
  - apply commit_wf. unfold handleUnlock. destruct (String.eqb _ _).
    + unfold login_wf in Hw |- *. rewrite Es in Hw. destruct Hw as (Hr & Hok & _). cbn [screen route].
      split; [exact Hr | split; [destruct Hok; split; assumption|]]. apply Forall_forall. intros u _ _. reflexivity.
    + destruct (wf_screen_ok w s Es Hw) as [Hl Hls Hpool Hpin].
      apply (with_screen_wf w s); [exact Es | exact Hw | split; cbn; auto; lia | reflexivity].
  - apply (core_wf w s); [exact Es | exact Hw | repeat split].
  - pose proof (fire_base_wf t w Hw) as Hb. unfold fire_timer.
    set (w0 := with_timers _ _) in *. assert (E0 : screen w0 = screen w) by reflexivity.
    rewrite E0. destruct (screen w) as [s|] eqn:Es; [|exact Hb].
    destruct (Timers.t_cb t); try (apply commit_wf, (core_wf w0 s); [exact E0 | exact Hb | repeat split]).
    exact I.
  - unfold login_wf in Hw |- *. cbn [screen with_clock route timers]. exact Hw.
Qed.

Lemma login_star_wf w w' : login_wf w -> star step w w' -> login_wf w'.
Proof.
  intros Hw Hs. apply (star_invariant step login_wf) with w; [intros; eapply login_step_wf; eauto | exact Hs | exact Hw].
Qed.

Lemma login_mount_wf shuffled t0 q :
  Permutation shuffled LETTERS -> Forall (fun u => Timers.t_cb u <> NavigateBoot) (Timers.pending q) ->
  login_wf (mount shuffled t0 q).
Proof.
  intros Hp Hq. unfold mount. pose (s := mkScreen [] shuffled "" false false false false Cheat.initialConsole).
  assert (H0 : login_wf (mkWorld (Some s) "/"%string t0 q [] None)).
  { unfold login_wf. cbn. split; [reflexivity | split; [split; cbn; auto; lia|]].
    revert Hq. apply Forall_impl. intros u Hu He. contradiction. }
  exact (commit_wf true true _ H0).
Qed.

(** ** An executable run of the screen *)

Inductive Event :=
  | EKey (key : string) | ELetter (letter : string) | EClear | EPin (v : string) | EUnlock
  | ETypeCheat (v : string) | ESubmitCheat | ECloseConsole | ECloseAchievement | ECloseGlitch
  | EFire | EWait (t : Q).

Definition on_screen (w : World) (f : Screen -> World) : World :=
  match screen w with Some s => f s | None => w end.

(** The world after an event, as [step] relates it. *)
Definition run_event (e : Event) (w : World) : World :=
  match e with
  | EKey key => on_screen w (fun s => let s' := key_screen key s in
      commit (negb (Bool.eqb (showCheatConsole s) (showCheatConsole s'))) (showCheatConsole s) (with_screen s' w))
  | ELetter l => on_screen w (fun s => match handleLetterClick l s with
      | Some s' => commit true (showCheatConsole s) (with_screen s' w) | None => w end)
  | EClear => on_screen w (fun s => commit true (showCheatConsole s) (with_screen (set_selected [] s) w))
  | EPin v => on_screen w (fun s =>
      commit (negb (String.eqb (substring 0 4 v) (pin s))) (showCheatConsole s) (with_screen (setPin v s) w))
  | EUnlock => on_screen w (fun s =>
      commit (negb (String.eqb (String.concat "" (selectedLetters s)) CORRECT_CODE) || negb (isUnlocking s))
        (showCheatConsole s) (handleUnlock w s))
  | ETypeCheat v => on_screen w (fun s => with_screen (set_console (Cheat.setInput v (console s)) s) w)
  | ESubmitCheat => on_screen w (fun s => with_screen (set_console (Cheat.handleSubmit (console s)) s) w)
  | ECloseConsole => on_screen w (fun s =>
      commit (showCheatConsole s) (showCheatConsole s) (with_screen (set_cheat false s) w))
  | ECloseAchievement => on_screen w (fun s =>
      commit (showAchievement s) (showCheatConsole s) (with_screen (set_achievement false s) w))
  | ECloseGlitch => on_screen w (fun s =>
      commit (showGlitch s) (showCheatConsole s) (with_screen (set_glitch false s) w))
  | EFire => match Timers.earliest (Timers.pending (timers w)) with Some t => fire_timer t w | None => w end
  | EWait t => with_clock t w
  end.

(** When the event can happen. *)
Definition enabled (e : Event) (w : World) : bool :=
  match e, screen w with
  | EFire, _ => match Timers.earliest (Timers.pending (timers w)) with Some _ => true | None => false end
  | EWait t, _ => (clock w <=? t) && forallb (fun u => t <=? Timers.t_due u) (Timers.pending (timers w))
  | _, None => false
  | ELetter l, Some s => existsb (String.eqb l) (shuffledLetters s)
  | EUnlock, Some s => unlock_enabled s
  | (ETypeCheat _ | ESubmitCheat), Some s => showCheatConsole s
  | _, Some _ => true
  end.

Fixpoint run (es : list Event) (w : World) : World :=
  match es with [] => w | e :: r => run r (run_event e w) end.

Fixpoint run_ok (es : list Event) (w : World) : bool :=
  match es with [] => true | e :: r => enabled e w && run_ok r (run_event e w) end.

Lemma run_event_step e w : enabled e w = true -> step w (run_event e w).
Proof.
  intro He. destruct e; unfold enabled in He; unfold run_event, on_screen;
    try (destruct (screen w) as [s|] eqn:Es; [|discriminate]).
  - now apply step_key.
  - apply (step_letter w s); [exact Es|]. apply existsb_exists in He as [l [Hl Hq]].
    apply String.eqb_eq in Hq. now subst.
  - now apply step_clear.
  - now apply step_pin.
  - now apply step_unlock.
  - apply (step_console w s); [exact Es | exact He | constructor].
  - apply (step_console w s); [exact Es | exact He | constructor].
  - now apply step_close_console.
  - now apply step_close_achievement.
  - now apply step_close_glitch.
  - destruct (Timers.earliest _) eqn:Et; [now apply step_timer | discriminate].
  - apply andb_prop in He as [Hc Hf]. apply step_wait; [now apply Qleb_iff|].
    apply Forall_forall. intros u Hu. apply Qleb_iff. exact (proj1 (forallb_forall _ _) Hf u Hu).
Qed.

Lemma run_star es w : run_ok es w = true -> star step w (run es w).
Proof.
  revert w. induction es as [|e r IH]; intros w Hok; [apply star_refl|].
  simpl in Hok. apply andb_prop in Hok as [He Hr]. eapply star_step; [apply run_event_step, He | apply IH, Hr].
Qed.

(** ** Concrete runs *)

Definition login_start : World := mount LETTERS 0 Timers.empty_queue.

(** A, R, C, A, D, E, a four-character PIN, UNLOCK, and 2000 ms. *)
Definition arcade_events (p : string) : list Event :=
  [ELetter "A"; ELetter "R"; ELetter "C"; ELetter "A"; ELetter "D"; ELetter "E";
   EPin p; EUnlock; EWait 2000; EFire]%string.

(** The popup is shown at 5000 ms and closed; the console is opened at
    6000 ms; then time runs to 11000 ms. *)
Definition reshow_events : list Event :=
  [EWait 5000; EFire; ECloseGlitch; EWait 6000; EKey "~"; EWait 11000; EFire]%string.

(** No user action: the popup at 5000 ms, the toast at 8000 ms, then
    10000 ms. *)
Definition idle_events : list Event := [EWait 5000; EFire; EWait 8000; EFire; EWait 10000].

(** ** Properties *)

(** C19: In every state reachable from mounting the login screen over a
    shuffle of the letters, the screen is at [/], at most six letters
    are selected and all are letters of the pool, the PIN has at most four
    characters, and a pending move to [/boot] exists only once an unlock
    has been accepted. *)
Theorem reachable_login_wf shuffled t0 q w :
  Permutation shuffled LETTERS -> Forall (fun u => Timers.t_cb u <> NavigateBoot) (Timers.pending q) ->
  star step (mount shuffled t0 q) w ->
  forall s, screen w = Some s ->
    route w = "/"%string /\ (List.length (selectedLetters s) <= 6)%nat /\
    Forall (fun l => In l LETTERS) (selectedLetters s) /\ (String.length (pin s) <= 4)%nat /\
    (forall t, In t (Timers.pending (timers w)) -> Timers.t_cb t = NavigateBoot -> isUnlocking s = true).
Proof.
  intros Hp Hq Hs s Es. pose proof (login_star_wf _ _ (login_mount_wf shuffled t0 q Hp Hq) Hs) as Hw.
  unfold login_wf in Hw. rewrite Es in Hw. destruct Hw as (Hr & [Hl Hls _ Hpin] & Hn).
  repeat split; auto. intros t Ht. exact (proj1 (Forall_forall _ _) Hn t Ht).
Qed.

Lemma reachable_login_wf_witness :
  Permutation LETTERS LETTERS /\
  forall s, screen (run reshow_events login_start) = Some s -> route (run reshow_events login_start) = "/"%string.
Proof.
  split; [apply Permutation_refl|]. intros s Es.
  apply (reachable_login_wf LETTERS 0 Timers.empty_queue _ (Permutation_refl _) (Forall_nil _)
           (run_star reshow_events login_start ltac:(vm_compute; reflexivity)) s Es).
Defined.

(** C20: Whatever four characters are typed as PIN, selecting A, R, C, A,
    D, E and pressing UNLOCK leads to [/boot] 2000 ms later: the letters
    can be reused, and the PIN is never compared with anything. *)
Theorem arcade_opens_boot (a b c d : ascii) :
  let p := String a (String b (String c (String d EmptyString))) in
  star step login_start (run (arcade_events p) login_start) /\
  route (run (arcade_events p) login_start) = "/boot"%string /\
  screen (run (arcade_events p) login_start) = None /\ clock (run (arcade_events p) login_start) == 2000.
Proof.
  intro p. split; [apply run_star; vm_compute; reflexivity|].
  vm_compute. repeat split; reflexivity.
Qed.

(** Opening the cheat console re-runs the screen's effect, which arms
    the glitch popup again: a popup shown at 5000 ms and closed comes back
    at 11000 ms after the console is opened at 6000 ms, and the toast due
    at 8000 ms has not been shown. *)
Theorem console_reshows_popup :
  star step login_start (run reshow_events login_start) /\
  (exists s, screen (run reshow_events login_start) = Some s /\ showGlitch s = true /\ showAchievement s = false) /\
  clock (run reshow_events login_start) == 11000.
Proof.
  split; [apply run_star; vm_compute; reflexivity|].
  split; [eexists; split; [vm_compute; reflexivity | split; reflexivity] | vm_compute; reflexivity].
Qed.

(** The popup's 3000 ms auto-close is re-armed by every render of the
    screen: shown at 5000 ms, it is still shown at 10000 ms without any user
    action, because the toast's render at 8000 ms restarted its timeout. *)
Theorem popup_outlives_duration :
  star step login_start (run idle_events login_start) /\
  (exists s, screen (run idle_events login_start) = Some s /\ showGlitch s = true) /\
  clock (run idle_events login_start) == 10000.
Proof.
  split; [apply run_star; vm_compute; reflexivity|].
  split; [eexists; split; [vm_compute; reflexivity | reflexivity] | vm_compute; reflexivity].
Qed.

End Login.
