(* ===== verification/Dashboard.v ===== *)
(** * The dashboard of [screens/DashboardScreen.tsx], over the chaos context

    [DashboardScreen] keeps the game cards, the riddle being answered and
    its answer, the logout flag and the game chosen for a modal (lines
    90-94).  Its handlers call the chaos context: the CHAOS MODE toggle
    calls [setChaosMode] (line 166), a game card of a screen sets the
    universe and navigates (lines 96-114), LOGOUT switches chaos mode on,
    starts the logout sequence, damages stability by 100 and navigates to
    [/] 2500 ms later (lines 124-134).

    The world pairs the dashboard with the provider's world of [ChaosRun]:
    a dashboard handler that calls the context is one task of [ChaosRun]
    ([run_task]: the calls in order, then the re-render that re-creates
    the scheduler's interval), and every step of the provider (other
    components' calls, its timers, its interval, the passage of time) is a
    step of the page as long as the dashboard's own timeout is not overdue.
    The dashboard's [setTimeout] queue is kept beside the provider's, on
    the provider's clock. *)

From S2P Require Import Prelude Stability Timers Chaos ChaosRun Cheat.
From Stdlib Require Import QArith Qminmax Lqa List String Bool Arith Lia.
Import ListNotations.

Open Scope Q_scope.
Open Scope chaos_scope.

Module Dashboard.

(** ** Data (lines 13-85) *)

Record Game := mkGame {
  gid : nat;
  gname : string;
  icon : string;
  gcolor : string;
  locked : bool;
  riddle : option string;
  answer : option string;
  groute : string;
  component : option string   (* the element of [component], by name *)
}.

Definition GAMES : list Game := [
  mkGame 1 "Character Control" "👾" "#00f0ff" false None None "/characters" None;
  mkGame 2 "Glitch Repair" "🔧" "#ff006e" false None None "/repair" None;
  mkGame 3 "System Status" "📊" "#39ff14" false None None "/status" None;
  mkGame 4 "Leaderboard" "🏆" "#ffff00" false None None "/leaderboard" None;
  mkGame 5 "Snake Chaos" "🐍" "#00ff88" false None None "/snake" (Some "SnakeGame");
  mkGame 6 "Glitch Breaker" "🎮" "#ff00ff" false None None "/breaker" (Some "GlitchBreaker");
  mkGame 7 "Chaos Memory" "🧠" "#ff8800" false None None "/memory" (Some "ChaosMemory")]%string.

Definition unlock (g : Game) : Game :=
  mkGame (gid g) (gname g) (icon g) (gcolor g) false (riddle g) (answer g) (groute g) (component g).

Record Dash := mkDash {
  games : list Game;
  riddleGame : option Game;
  riddleAnswer : string;
  localLogout : bool;
  activeGame : option string
}.

Definition initialDash : Dash := mkDash GAMES None ""%string false None.

Inductive Callback := NavigateHome.   (* () => navigate("/"), lines 131-133 *)

Record World := mkWorld {
  dash : option Dash;
  cw : Chaos.World;
  route : string;
  dq : Timers.queue Callback
}.

Definition with_dash d w := mkWorld (Some d) (cw w) (route w) (dq w).
Definition with_cw c w := mkWorld (dash w) c (route w) (dq w).

Definition navigate (path : string) (w : World) : World := mkWorld None (cw w) path (dq w).

(** ** Handlers *)

(** [universeMap[game.route] || "DEFAULT"] (lines 105-111). *)
Definition universeMap (r : string) : Chaos.UniverseType :=
  if String.eqb r "/characters" then Chaos.HEROS_DUTY
  else if String.eqb r "/repair" then Chaos.FIX_IT
  else if String.eqb r "/status" then Chaos.DEFAULT
  else if String.eqb r "/leaderboard" then Chaos.SUGAR_RUSH
  else Chaos.DEFAULT.

(** [handleGameClick] (lines 96-114). *)
Definition handleGameClick (g : Game) (d : Dash) (w : World) : World :=
  if locked g then with_dash (mkDash (games d) (Some g) "" (localLogout d) (activeGame d)) w
  else match component g with
       | Some c => with_dash (mkDash (games d) (riddleGame d) (riddleAnswer d) (localLogout d) (Some c)) w
       | None => navigate (groute g)
                   (with_cw (ChaosRun.user_call (ChaosRun.CallSetUniverse (universeMap (groute g))) (cw w)) w)
       end.

(** The answer input (line 373). *)
Definition setRiddleAnswer (v : string) (d : Dash) : Dash :=
  mkDash (games d) (riddleGame d) (Cheat.toUpperCase v) (localLogout d) (activeGame d).

(** [handleRiddleSubmit] (lines 116-122). *)
Definition handleRiddleSubmit (d : Dash) : Dash :=
  match riddleGame d with
  | Some rg =>
      if match answer rg with Some a => String.eqb (Cheat.toUpperCase (riddleAnswer d)) a | None => false end
      then mkDash (map (fun g => if Nat.eqb (gid g) (gid rg) then unlock g else g) (games d)) None ""
             (localLogout d) (activeGame d)
      else d
  | None => d
  end.

Definition closeRiddle (d : Dash) : Dash :=
  mkDash (games d) None (riddleAnswer d) (localLogout d) (activeGame d).

(** The three context calls of [handleLogout], in one task. *)
Definition logout_calls : St Chaos.World unit :=
  Chaos.setChaosMode true ;; Chaos.triggerLogoutSequence ;; Chaos.damageStability 100.

(** [handleLogout] (lines 124-134). *)
Definition handleLogout (d : Dash) (w : World) : World :=
  mkWorld (Some (mkDash (games d) (riddleGame d) (riddleAnswer d) true (activeGame d)))
    (ChaosRun.run_task logout_calls (cw w)) (route w)
    (Timers.setTimeout (Chaos.now (cw w)) 2500 NavigateHome (dq w)).

(** The CHAOS MODE toggle (line 166). *)
Definition toggleChaos (w : World) : World :=
  with_cw (ChaosRun.user_call (ChaosRun.CallSetChaosMode (negb (Chaos.isChaosMode (Chaos.cs (cw w))))) (cw w)) w.

(** The LOCKED GAMES count (line 293). *)
Definition lockedCount (d : Dash) : nat := List.length (filter locked (games d)).

(** A game card is disabled when locked and no riddle is open (line 232). *)
Definition card_enabled (g : Game) (d : Dash) : bool :=
  negb (locked g && match riddleGame d with None => true | Some _ => false end).

Definition fire_timer (t : Timers.timer Callback) (w : World) : World :=
  match Timers.t_cb t with
  | NavigateHome => mkWorld None (cw w) "/" (Timers.clearTimeout (Timers.t_id t) (dq w))
  end.

Definition mount (c : Chaos.World) (q : Timers.queue Callback) : World :=
  mkWorld (Some initialDash) c "/dashboard" q.

(** ** The page runtime *)

Inductive step : World -> World -> Prop :=
  | step_provider w c' :
      ChaosRun.step (cw w) c' ->
      Forall (fun u => Chaos.now c' <= Timers.t_due u) (Timers.pending (dq w)) ->
      step w (with_cw c' w)
  | step_toggle w d : dash w = Some d -> step w (toggleChaos w)
  | step_logout w d : dash w = Some d -> step w (handleLogout d w)
  | step_game w d g :
      dash w = Some d -> In g (games d) -> card_enabled g d = true -> step w (handleGameClick g d w)
  | step_answer w d g v : dash w = Some d -> riddleGame d = Some g -> step w (with_dash (setRiddleAnswer v d) w)
  | step_submit w d g : dash w = Some d -> riddleGame d = Some g -> step w (with_dash (handleRiddleSubmit d) w)
  | step_close_riddle w d g : dash w = Some d -> riddleGame d = Some g -> step w (with_dash (closeRiddle d) w)
  | step_nav w d p :
      dash w = Some d -> In p ["/characters"; "/repair"; "/status"]%string -> step w (navigate p w)
  | step_timer t w :
      Timers.earliest (Timers.pending (dq w)) = Some t -> Chaos.now (cw w) == Timers.t_due t ->
      step w (fire_timer t w).

(** ** Tasks of the dashboard on the provider *)

Lemma task_wf h c :
  ChaosRun.keeps_clock h -> st_preserves ChaosRun.inv h -> ChaosRun.wf c ->
  ChaosRun.wf (ChaosRun.run_task h c) /\ Chaos.now (ChaosRun.run_task h c) = Chaos.now c.
Proof.
  intros Hk Hi [Hinv Hle Hper]. split.
  - apply ChaosRun.run_task_wf; [exact Hk | exact (Hi c Hinv) | exact Hle | exact Hper].
  - unfold ChaosRun.run_task. rewrite ChaosRun.now_rerender. apply (ChaosRun.keeps_clock_exec h c Hk).
Qed.

Lemma call_wf k c :
  ChaosRun.call_ok k -> ChaosRun.wf c ->
  ChaosRun.wf (ChaosRun.user_call k c) /\ Chaos.now (ChaosRun.user_call k c) = Chaos.now c.
Proof. intros Hk Hc. apply task_wf; [apply ChaosRun.keeps_clock_call | now apply ChaosRun.inv_call | exact Hc]. Qed.

Lemma damage_100_ok : ChaosRun.call_ok (ChaosRun.CallDamageStability 100).
Proof. split; [lra | exists 200%Z; reflexivity]. Qed.

Lemma logout_calls_eq :
  logout_calls = (ChaosRun.callHandler (ChaosRun.CallSetChaosMode true) ;;
                  ChaosRun.callHandler ChaosRun.CallTriggerLogoutSequence ;;
                  ChaosRun.callHandler (ChaosRun.CallDamageStability 100)).
Proof. reflexivity. Qed.

Lemma logout_wf c :
  ChaosRun.wf c -> ChaosRun.wf (ChaosRun.run_task logout_calls c) /\
  Chaos.now (ChaosRun.run_task logout_calls c) = Chaos.now c.
Proof.
  apply task_wf; rewrite logout_calls_eq.
  - intros n i p. repeat (apply st_preserves_bind; [apply ChaosRun.keeps_clock_call | intros []]).
    apply ChaosRun.keeps_clock_call.
  - repeat (apply st_preserves_bind; [apply ChaosRun.inv_call; exact I | intros []]).
    apply ChaosRun.inv_call, damage_100_ok.
Qed.

(** ** The invariant *)

Definition dash_wf (w : World) : Prop :=
  ChaosRun.wf (cw w) /\
  Forall (fun u => Chaos.now (cw w) <= Timers.t_due u) (Timers.pending (dq w)) /\
  (forall d, dash w = Some d -> games d = GAMES /\ riddleGame d = None).

Lemma Forall_due_clear (P : Timers.timer Callback -> Prop) h q :
  Forall P (Timers.pending q) -> Forall P (Timers.pending (Timers.clearTimeout h q)).
Proof.
  intro Hq. apply Forall_forall. intros t Ht. apply Timers.In_remove_timer in Ht as [Ht _].
  exact (proj1 (Forall_forall _ _) Hq t Ht).
Qed.

Lemma GAMES_unlocked g : In g GAMES -> locked g = false.
Proof. cbn. intuition (subst; reflexivity). Qed.

Lemma dash_step_wf w w' : dash_wf w -> step w w' -> dash_wf w'.
Proof.
  intros (Hc & Hq & Hd) Hs.
  destruct Hs as [w c' Hst Hall|w d Es|w d Es|w d g Es Hg He|w d g v Es Er|w d g Es Er|w d g Es Er|w d p Es Hp|t w Et Ht];
    try (destruct (Hd d Es) as [_ Hn]; rewrite Hn in Er; discriminate).
  - split; [exact (ChaosRun.step_wf _ _ Hc Hst) | split; [exact Hall | exact Hd]].
  - destruct (call_wf (ChaosRun.CallSetChaosMode (negb (Chaos.isChaosMode (Chaos.cs (cw w))))) (cw w) I Hc) as [Hc' Hn].
    unfold toggleChaos, with_cw. split; [exact Hc'|]. cbn [cw dq dash]. rewrite Hn. split; [exact Hq | exact Hd].
  - destruct (logout_wf (cw w) Hc) as [Hc' Hn]. unfold handleLogout. split; [exact Hc'|]. cbn [cw dq dash].
    rewrite Hn. split.
    + unfold Timers.setTimeout. cbn. apply Forall_app. split; [exact Hq|]. constructor; [|constructor].
      cbn. assert (0 <= Qmax 0 2500) by apply Q.le_max_l. lra.
    + intros d' Ed. injection Ed as <-. cbn. exact (Hd d Es).
  - destruct (Hd d Es) as [Eg Hr]. rewrite Eg in Hg. unfold handleGameClick. rewrite (GAMES_unlocked g Hg).
    destruct (component g) as [k|].
    + split; [exact Hc | split; [exact Hq|]]. intros d' Ed. injection Ed as <-. cbn. auto.
    + destruct (call_wf (ChaosRun.CallSetUniverse (universeMap (groute g))) (cw w) I Hc) as [Hc' Hn].
      split; [exact Hc'|]. cbn [navigate with_cw cw dq dash]. rewrite Hn. split; [exact Hq|]. discriminate.
  - split; [exact Hc | split; [exact Hq | discriminate]].
  - unfold fire_timer. destruct (Timers.t_cb t). split; [exact Hc | split; [now apply Forall_due_clear | discriminate]].
Qed.

Lemma dash_star_wf w w' : dash_wf w -> star step w w' -> dash_wf w'.
Proof.
  intros Hw Hs. apply (star_invariant step dash_wf) with w; [intros; eapply dash_step_wf; eauto | exact Hs | exact Hw].
Qed.

Lemma logout_cs c :
  Chaos.cs (ChaosRun.run_task logout_calls c) =
  Chaos.set_stability (Stability.damageStability 100 (Chaos.stability (Chaos.cs c)))
    (Chaos.set_logout true (Chaos.set_chaos true (Chaos.cs c))).
Proof. unfold ChaosRun.run_task. rewrite ChaosRun.cs_rerender. reflexivity. Qed.

(** ** Properties *)

(** Over a provider in its invariant, every state reachable from
    mounting the dashboard keeps the provider's invariant (stability in
    [0, 100] on its half-unit grid, the scheduler's interval armed, every
    active effect's timeout pending), and no game card is ever locked, so
    no riddle is ever opened. *)
Theorem reachable_dashboard_wf c w :
  ChaosRun.wf c -> star step (mount c Timers.empty_queue) w ->
  Stability.in_bounds (Chaos.stability (Chaos.cs (cw w))) /\ ChaosRun.wf (cw w) /\
  forall d, dash w = Some d -> lockedCount d = 0%nat /\ riddleGame d = None.
Proof.
  intros Hc Hs.
  assert (H0 : dash_wf (mount c Timers.empty_queue))
    by (split; [exact Hc | split; [constructor | intros d Ed; injection Ed as <-; split; reflexivity]]).
  destruct (dash_star_wf _ _ H0 Hs) as (Hc' & _ & Hd). split; [apply Hc'|]. split; [exact Hc'|].
  intros d Ed. destruct (Hd d Ed) as [Eg Er]. unfold lockedCount. rewrite Eg. split; [reflexivity | exact Er].
Qed.

Definition calm_rng (_ : nat) : Q := 0.

Lemma reachable_dashboard_wf_witness :
  ChaosRun.wf (ChaosRun.mount calm_rng) /\
  ChaosRun.wf (cw (handleLogout initialDash (mount (ChaosRun.mount calm_rng) Timers.empty_queue))).
Proof.
  split; [apply ChaosRun.mount_wf|].
  apply (reachable_dashboard_wf (ChaosRun.mount calm_rng)); [apply ChaosRun.mount_wf|].
  apply star_one. apply (step_logout _ initialDash). reflexivity.
Defined.

(** LOGOUT over a provider in its invariant leaves stability at 0,
    the logout sequence started and chaos mode on, keeps the provider's
    invariant, and schedules the move to [/] 2500 ms later. *)
Theorem logout_collapses w d :
  ChaosRun.wf (cw w) ->
  Chaos.stability (Chaos.cs (cw (handleLogout d w))) == 0 /\
  Chaos.isLoggingOut (Chaos.cs (cw (handleLogout d w))) = true /\
  Chaos.isChaosMode (Chaos.cs (cw (handleLogout d w))) = true /\
  ChaosRun.wf (cw (handleLogout d w)) /\
  In (Timers.mkTimer (Timers.next_id (dq w)) (Chaos.now (cw w) + Qmax 0 2500) NavigateHome)
     (Timers.pending (dq (handleLogout d w))).
Proof.
  intro Hc. pose proof (ChaosRun.inv_bounds _ (ChaosRun.wf_inv _ Hc)) as [H0 H100].
  unfold handleLogout. cbn [cw dq]. rewrite !logout_cs.
  split; [cbn; unfold Stability.damageStability; qsolve|].
  split; [reflexivity | split; [reflexivity|]]. split; [exact (proj1 (logout_wf _ Hc))|].
  cbn. apply in_or_app. right. now left.
Qed.

Lemma logout_collapses_witness :
  ChaosRun.wf (cw (mount (ChaosRun.mount calm_rng) Timers.empty_queue)) /\
  Chaos.stability (Chaos.cs (cw (handleLogout initialDash (mount (ChaosRun.mount calm_rng) Timers.empty_queue)))) == 0.
Proof.
  split; [apply ChaosRun.mount_wf|].
  apply (logout_collapses (mount (ChaosRun.mount calm_rng) Timers.empty_queue) initialDash), ChaosRun.mount_wf.
Defined.

(** The three game cards that carry a component (Snake, Glitch
    Breaker, Memory) neither navigate nor call the context: the click only
    stores the component in [activeGame], which nothing renders. *)
Theorem game_cards_inert w d g :
  In g GAMES -> component g <> None ->
  cw (handleGameClick g d w) = cw w /\ route (handleGameClick g d w) = route w /\
  dq (handleGameClick g d w) = dq w /\
  exists d', dash (handleGameClick g d w) = Some d' /\ games d' = games d /\
    riddleGame d' = riddleGame d /\ localLogout d' = localLogout d /\ activeGame d' = component g.
Proof.
  intros Hg Hc. unfold handleGameClick. rewrite (GAMES_unlocked g Hg).
  destruct (component g) as [k|]; [|contradiction].
  repeat split. eexists. repeat split.
Qed.

(** The Snake Chaos card. *)
Definition snake_card : Game := nth 4 GAMES (mkGame 0 "" "" "" false None None "" None).

Lemma game_cards_inert_witness :
  In snake_card GAMES /\
  cw (handleGameClick snake_card initialDash
        (mount (ChaosRun.mount calm_rng) Timers.empty_queue)) = ChaosRun.mount calm_rng.
Proof.
  assert (Hin : In snake_card GAMES) by (cbn; tauto).
  split; [exact Hin|].
  exact (proj1 (game_cards_inert (mount (ChaosRun.mount calm_rng) Timers.empty_queue) initialDash _ Hin
                  ltac:(cbn; discriminate))).
Defined.

End Dashboard.
