(* ===== verification/Scoreboard.v ===== *)
(** * The leaderboard screen of [screens/LeaderboardScreen.tsx]

    [LeaderboardScreen] shows ten fixed players (lines 20-31) and counts
    each score up from 0 (lines 38-63): the mount effect sets every
    displayed score to 0, then starts one [setInterval] per player that,
    [steps = 60] times, adds [score / 60] to a running value, shows it
    rounded, and at the sixtieth firing shows the exact score and clears
    itself.

    The ten intervals are created in order with the same period, so they
    fire in rounds, in creation order; a round is [fire_round].  The period
    [duration / steps = 2000 / 60] is passed to [setInterval], whose
    timeout is a WebIDL [long]: the browser truncates it to 33 ms, so a
    round takes 33 ms and the sixty rounds 1980 ms.  The displayed scores
    are the object [animatingScores], an association list from ids to
    numbers updated with [{ ...prev, [id]: v }].

    The numbers the intervals compute, [score / steps], [current +=
    increment] and [current = player.score], are IEEE doubles: Rocq's
    primitive [float], whose operations round as JavaScript's do.
    [Math.round] of a finite double is [floor (x + 1/2)] of its exact
    value [toQ x].  The accumulated sum is not [k * score / 60]: the
    rounding of the sixty additions shows, e.g., 83332 where the exact
    value rounds to 83333 ([count_up_rounding]). *)

From S2P Require Import Prelude.
From Stdlib Require Import QArith Qround Lqa Floats ZArith List String Bool Arith Lia.
Import ListNotations.

Open Scope Q_scope.
Open Scope chaos_scope.

Module Scoreboard.

(** ** Data (lines 11-31) *)

Record Player := mkPlayer {
  pid : nat;
  pname : string;
  score : float;
  puniverse : string;
  badge : string;
  isCurrentUser : bool
}.

Definition PLAYERS : list Player := [
  mkPlayer 1 "RALPH" 99999%float "Fix-It Felix Jr." "üî®" false;
  mkPlayer 2 "VANELLOPE" 88888%float "Sugar Rush" "üç¨" false;
  mkPlayer 3 "FELIX" 77777%float "Fix-It Felix Jr." "üîß" true;
  mkPlayer 4 "CALHOUN" 66666%float "Hero's Duty" "‚öîÔ∏è" false;
  mkPlayer 5 "TURBO" 55555%float "Sugar Rush" "üèÅ" false;
  mkPlayer 6 "GENE" 44444%float "Fix-It Felix Jr." "üëî" false;
  mkPlayer 7 "TAFFYTA" 33333%float "Sugar Rush" "üçì" false;
  mkPlayer 8 "KING CANDY" 22222%float "Sugar Rush" "üëë" false;
  mkPlayer 9 "SOUR BILL" 11111%float "Sugar Rush" "üçã" false;
  mkPlayer 10 "MARKOWSKI" 10000%float "Hero's Duty" "üéñÔ∏è" false]%string.

(** [const steps = 60] and [const duration = 2000] (lines 47-48). *)
Definition steps : nat := 60.
Definition duration : Q := 2000.

(** [steps] as the number [player.score] is divided by. *)
Definition stepsF : float := 60%float.

(** The exact value of a finite double. *)
Definition toQ (f : float) : Q :=
  match Prim2SF f with
  | S754_finite sgn m e => (if sgn then -1 else 1) * inject_Z (Zpos m) * Qpower (inject_Z 2) e
  | _ => 0
  end.

(** [duration / steps] converted to the [long] timeout of [setInterval]. *)
Definition period : Q := inject_Z (Qfloor (duration / Qnat steps)).

(** One interval's closure state: [step], [current], and whether it has
    been cleared. *)
Record Counter := mkCounter { cplayer : Player; cstep : nat; current : float; active : bool }.

Record Screen := mkScreen {
  players : list Player;
  animatingScores : list (nat * Z);
  counters : list Counter;
  clock : Q
}.

(** ** Operations *)

(** [{ ...prev, [id]: v }] *)
Fixpoint set_score (id : nat) (v : Z) (l : list (nat * Z)) : list (nat * Z) :=
  match l with
  | [] => [(id, v)]
  | (k, x) :: r => if Nat.eqb k id then (k, v) :: r else (k, x) :: set_score id v r
  end.

Fixpoint lookup (id : nat) (l : list (nat * Z)) : option Z :=
  match l with
  | [] => None
  | (k, x) :: r => if Nat.eqb k id then Some x else lookup id r
  end.

(** The interval's callback on its closure (lines 53-61). *)
Definition tick (c : Counter) : Counter :=
  let s := S (cstep c) in
  let cur := (current c + score (cplayer c) / stepsF)%float in
  if (steps <=? s)%nat then mkCounter (cplayer c) s (score (cplayer c)) false
  else mkCounter (cplayer c) s cur true.

(** One round: every interval not yet cleared fires, in order, and
    [setAnimatingScores] records its rounded value. *)
Fixpoint fire_all (cs : list Counter) (scores : list (nat * Z)) : list Counter * list (nat * Z) :=
  match cs with
  | [] => ([], scores)
  | c :: r =>
      if active c then
        let c' := tick c in
        let (r', sc) := fire_all r (set_score (pid (cplayer c)) (js_round (toQ (current c'))) scores) in
        (c' :: r', sc)
      else let (r', sc) := fire_all r scores in (c :: r', sc)
  end.

Definition fire_round (s : Screen) : Screen :=
  let (cs, sc) := fire_all (counters s) (animatingScores s) in
  mkScreen (players s) sc cs (clock s + period).

(** The mount effect (lines 38-63) at time [t0]. *)
Definition mount (ps : list Player) (t0 : Q) : Screen :=
  mkScreen ps (map (fun p => (pid p, 0%Z)) ps) (map (fun p => mkCounter p 0 0%float true) ps) t0.

Fixpoint animate (n : nat) (s : Screen) : Screen :=
  match n with O => s | S k => animate k (fire_round s) end.

(** [getRankColor] (lines 65-70). *)
Definition getRankColor (rank : nat) : string :=
  match rank with 1%nat => "#ffff00" | 2%nat => "#00f0ff" | 3%nat => "#ff006e" | _ => "#bf40bf" end%string.

Inductive RankIcon := Crown | Trophy | Medal | Star.

(** [getRankIcon] (lines 72-77). *)
Definition getRankIcon (rank : nat) : RankIcon :=
  match rank with 1%nat => Crown | 2%nat => Trophy | 3%nat => Medal | _ => Star end.

(** [animatingScores[id]?.toLocaleString() || 0]: an id without an entry
    shows 0 (a shown 0 is the string "0", which is truthy). *)
Definition shown (s : Screen) (id : nat) : Z :=
  match lookup id (animatingScores s) with Some v => v | None => 0%Z end.

(** A row of the full ranking (lines 273-364). *)
Record Row := mkRow {
  rank : nat; rowColor : string; rowIcon : RankIcon; highlighted : bool; rowPlayer : Player; rowScore : Z
}.

Fixpoint rows_from (s : Screen) (index : nat) (ps : list Player) : list Row :=
  match ps with
  | [] => []
  | p :: r =>
      mkRow (S index) (getRankColor (S index)) (getRankIcon (S index)) (isCurrentUser p) p (shown s (pid p))
        :: rows_from s (S index) r
  end.

(** [players.map((player, index) => ...)] *)
Definition rows (s : Screen) : list Row := rows_from s 0 (players s).

(** The podium (lines 111-262): second, first and third place, each with
    its rank, its player [players[i]] and the shown score; an index out of
    range makes the render throw: [None]. *)
Definition podium (s : Screen) : list (option (nat * Player * Z)) :=
  map (fun '(r, i) => option_map (fun p => (r, p, shown s (pid p))) (nth_error (players s) i))
    [(2, 1); (1, 0); (3, 2)]%nat.

(** The statistics panel (lines 379-384); [players[i]] out of range is
    [undefined], whose [.score] throws: [None]. *)
Record Stats := mkStats { total_players : nat; top_score : option float; your_rank : string; your_score : option float }.

Definition stats (s : Screen) : Stats :=
  mkStats (List.length (players s)) (option_map score (nth_error (players s) 0)) "#3"
    (option_map score (nth_error (players s) 2)).

(** ** The running value *)

(** [current] after [k] additions of [inc] to 0. *)
Fixpoint accumulate (k : nat) (inc : float) : float :=
  match k with O => 0%float | S k => (accumulate k inc + inc)%float end.

(** The interval's [current] after [k] firings. *)
Definition running (k : nat) (p : Player) : float :=
  if (k <? steps)%nat then accumulate k (score p / stepsF)%float else score p.

Definition at_step (k : nat) (c : Counter) (p : Player) : Prop :=
  cplayer c = p /\ cstep c = Nat.min k steps /\ active c = (k <? steps)%nat /\ current c = running k p.

(** ** One interval, one round *)

Lemma tick_at k c p : at_step k c p -> (k < steps)%nat -> at_step (S k) (tick c) p.
Proof.
  intros (Hp & Hst & Ha & Hc) Hk. unfold tick. rewrite Hst, Hp, Nat.min_l by lia.
  destruct (Nat.leb_spec steps (S k)) as [Hs|Hs]; repeat split; cbn [cplayer cstep active current].
  - lia.
  - symmetry. apply Nat.ltb_ge. lia.
  - unfold running. now rewrite (proj2 (Nat.ltb_ge _ _) Hs).
  - lia.
  - symmetry. apply Nat.ltb_lt. exact Hs.
  - rewrite Hc. unfold running. now rewrite (proj2 (Nat.ltb_lt _ _) Hk), (proj2 (Nat.ltb_lt _ _) Hs).
Qed.

Lemma at_done k c p : at_step k c p -> (steps <= k)%nat -> at_step (S k) c p /\ active c = false.
Proof.
  intros (Hp & Hst & Ha & Hc) Hk. rewrite (proj2 (Nat.ltb_ge _ _) Hk) in Ha.
  repeat split; auto.
  - rewrite Hst. lia.
  - rewrite Ha. symmetry. apply Nat.ltb_ge. lia.
  - rewrite Hc. unfold running. now rewrite (proj2 (Nat.ltb_ge _ _) Hk), (proj2 (Nat.ltb_ge _ _) (le_S _ _ Hk)).
Qed.

Lemma lookup_set_same id v l : lookup id (set_score id v l) = Some v.
Proof.
  induction l as [|[k x] r IH]; simpl; [now rewrite Nat.eqb_refl|].
  destruct (Nat.eqb_spec k id); simpl; [now rewrite (proj2 (Nat.eqb_eq k id))|].
  rewrite (proj2 (Nat.eqb_neq k id)) by assumption. exact IH.
Qed.

Lemma lookup_set_other id id' v l : id <> id' -> lookup id (set_score id' v l) = lookup id l.
Proof.
  intro Hne. induction l as [|[k x] r IH]; simpl.
  - rewrite (proj2 (Nat.eqb_neq id' id)); auto.
  - destruct (Nat.eqb_spec k id') as [->|Hk]; simpl.
    + now rewrite (proj2 (Nat.eqb_neq id' id)) by auto.
    + destruct (Nat.eqb k id); [reflexivity | exact IH].
Qed.

(** A round in which every interval is still armed. *)
Lemma fire_all_active k cs ps sc :
  (k < steps)%nat -> Forall2 (at_step k) cs ps -> NoDup (map pid ps) ->
  Forall2 (at_step (S k)) (fst (fire_all cs sc)) ps /\
  (forall p, In p ps -> lookup (pid p) (snd (fire_all cs sc)) = Some (js_round (toQ (running (S k) p)))) /\
  (forall id, ~ In id (map pid ps) -> lookup id (snd (fire_all cs sc)) = lookup id sc).
Proof.
  intros Hk Hf. revert sc. induction Hf as [|c p cs ps Hc Hf IH]; intros sc Hnd; [repeat split; auto; intros ? []|].
  inversion Hnd as [|? ? Hn Hnd']; subst. pose proof Hc as (Hp & _ & Ha & _).
  rewrite (proj2 (Nat.ltb_lt _ _) Hk) in Ha. pose proof (tick_at k c p Hc Hk) as Ht.
  cbn [fire_all]. rewrite Ha, Hp.
  set (sc1 := set_score (pid p) (js_round (toQ (current (tick c)))) sc).
  destruct (IH sc1 Hnd') as (Hf' & Hl & Ho). destruct (fire_all cs sc1) as [r' sc'] eqn:Er. cbn [fst snd] in *.
  split; [constructor; assumption|]. split.
  - intros q [<-|Hq]; [|now apply Hl]. rewrite (Ho (pid p) Hn). unfold sc1. rewrite lookup_set_same.
    destruct Ht as (_ & _ & _ & ->). reflexivity.
  - intros id Hid. rewrite Ho by (intro; apply Hid; now right). unfold sc1.
    apply lookup_set_other. intro; apply Hid; now left.
Qed.

(** A round after every interval has been cleared changes nothing. *)
Lemma fire_all_done k cs ps sc :
  (steps <= k)%nat -> Forall2 (at_step k) cs ps ->
  fire_all cs sc = (cs, sc) /\ Forall2 (at_step (S k)) cs ps.
Proof.
  intros Hk Hf. revert sc. induction Hf as [|c p cs ps Hc Hf IH]; intros sc; [split; [reflexivity | constructor]|].
  destruct (at_done k c p Hc Hk) as [Hc' Ha]. cbn [fire_all]. rewrite Ha.
  destruct (IH sc) as [Er Hf']. rewrite Er. split; [reflexivity | constructor; assumption].
Qed.

Lemma animate_S n s : animate (S n) s = fire_round (animate n s).
Proof. revert s. induction n as [|n IH]; intro s; [reflexivity|]. cbn [animate] in *. apply IH. Qed.

Lemma animate_players n s : players (animate n s) = players s.
Proof. revert s. induction n as [|n IH]; intro s; [reflexivity|]. cbn [animate]. rewrite IH. unfold fire_round. now destruct (fire_all _ _). Qed.

Lemma period_eq : period == 33.
Proof. reflexivity. Qed.

Lemma running_after k p : (steps <= k)%nat -> running k p = score p.
Proof. intro Hk. unfold running. now rewrite (proj2 (Nat.ltb_ge _ _) Hk). Qed.

(** After [n] rounds: every interval at its [n]-th firing, every shown
    score [Math.round] of its running value, the clock [33 n] ms after
    mounting. *)
Lemma animate_spec ps t0 n :
  NoDup (map pid ps) ->
  Forall2 (at_step n) (counters (animate n (mount ps t0))) ps /\
  (forall p, In p ps -> lookup (pid p) (animatingScores (animate n (mount ps t0))) = Some (js_round (toQ (running n p)))) /\
  clock (animate n (mount ps t0)) == t0 + Qnat n * 33.
Proof.
  intro Hnd. induction n as [|n (Hf & Hl & Hc)].
  - split; [|split].
    + cbn. induction ps as [|p ps IH]; constructor; [repeat split; reflexivity | apply IH; now inversion Hnd].
    + intros p Hp. cbn. assert (Hl : forall l, In p l -> lookup (pid p) (map (fun q => (pid q, 0%Z)) l) = Some 0%Z).
      { induction l as [|q l IH]; [intros []|]. intros [<-|Hq]; simpl; [now rewrite Nat.eqb_refl|].
        destruct (Nat.eqb _ _); [reflexivity | now apply IH]. }
      rewrite Hl by exact Hp. vm_compute. reflexivity.
    + cbn. rewrite Qnat_0. lra.
  - rewrite animate_S. unfold fire_round. destruct (Nat.lt_ge_cases n steps) as [Hk|Hk].
    + destruct (fire_all_active n _ ps (animatingScores (animate n (mount ps t0))) Hk Hf Hnd) as (Hf' & Hl' & _).
      destruct (fire_all _ _) as [cs sc]. cbn [fst snd counters animatingScores clock] in *.
      split; [exact Hf' | split; [exact Hl'|]]. rewrite Hc, Qnat_succ, period_eq. lra.
    + destruct (fire_all_done n _ ps (animatingScores (animate n (mount ps t0))) Hk Hf) as [Er Hf'].
      rewrite Er. cbn [counters animatingScores clock]. split; [exact Hf'|]. split; [|rewrite Hc, Qnat_succ, period_eq; lra].
      intros p Hp. rewrite Hl by exact Hp. now rewrite !running_after by lia.
Qed.

Lemma PLAYERS_ids : NoDup (map pid PLAYERS).
Proof. cbn. repeat constructor; cbn; intuition discriminate. Qed.

(** The rounded running values of a player over the sixty firings: from
    0, never decreasing, never above the rounded score. *)
Definition counts_up (p : Player) : bool :=
  let r k := js_round (toQ (running k p)) in
  forallb (fun k => (0 <=? r k)%Z && (r k <=? r (S k))%Z && (r (S k) <=? js_round (toQ (score p)))%Z) (seq 0 steps).

Lemma PLAYERS_count_up : forallb counts_up PLAYERS = true.
Proof. vm_compute. reflexivity. Qed.

Lemma counts_up_spec p k :
  counts_up p = true -> (k < steps)%nat ->
  (0 <= js_round (toQ (running k p)) <= js_round (toQ (running (S k) p)))%Z /\
  (js_round (toQ (running (S k) p)) <= js_round (toQ (score p)))%Z.
Proof.
  intros H Hk. unfold counts_up in H. rewrite forallb_forall in H.
  specialize (H k (proj2 (in_seq steps 0 k) (conj (Nat.le_0_l k) Hk))).
  apply andb_true_iff in H as [H H3]. apply andb_true_iff in H as [H1 H2].
  apply Z.leb_le in H1, H2, H3. lia.
Qed.

(** ** Properties *)

(** C22: The count-up terminates: from the sixtieth round on, every
    interval has cleared itself and every player's shown score is
    [Math.round(player.score)]; the sixtieth round happens 1980 ms after
    mounting, not the 2000 ms of [duration], because the period is
    truncated to 33 ms. *)
Theorem count_up_settles ps t0 n :
  NoDup (map pid ps) -> (steps <= n)%nat ->
  (forall p, In p ps -> lookup (pid p) (animatingScores (animate n (mount ps t0))) = Some (js_round (toQ (score p)))) /\
  Forall (fun c => active c = false) (counters (animate n (mount ps t0))) /\
  clock (animate steps (mount ps t0)) == t0 + 1980.
Proof.
  intros Hnd Hn. destruct (animate_spec ps t0 n Hnd) as (Hf & Hl & _).
  destruct (animate_spec ps t0 steps Hnd) as (_ & _ & Hc).
  split; [|split].
  - intros p Hp. rewrite (Hl p Hp). now rewrite running_after.
  - clear Hl Hc Hnd. revert Hf. generalize (counters (animate n (mount ps t0))) as cs. intros cs Hf.
    induction Hf as [|c p cs qs (_ & _ & Ha & _) _ IH]; constructor; [|exact IH].
    now rewrite Ha, (proj2 (Nat.ltb_ge _ _) Hn).
  - rewrite Hc. reflexivity.
Qed.

Lemma count_up_settles_witness :
  lookup 10 (animatingScores (animate 60 (mount PLAYERS 0))) = Some (js_round (toQ 10000%float)) /\
  clock (animate 60 (mount PLAYERS 0)) == 1980.
Proof.
  destruct (count_up_settles PLAYERS 0 60 PLAYERS_ids (le_n _)) as (Hl & _ & Hc). split.
  - exact (Hl (mkPlayer 10 "MARKOWSKI" 10000%float "Hero's Duty" "üéñÔ∏è" false) ltac:(cbn; tauto)).
  - rewrite Hc. reflexivity.
Defined.

(** C21: The shown scores of the leaderboard count up: for every player of
    [PLAYERS], in double arithmetic, the score shown after any round lies
    between 0 and the final score, and the next round never shows less. *)
Theorem count_up_bounded t0 n p :
  In p PLAYERS ->
  exists v w,
    lookup (pid p) (animatingScores (animate n (mount PLAYERS t0))) = Some v /\
    lookup (pid p) (animatingScores (animate (S n) (mount PLAYERS t0))) = Some w /\
    (0 <= v <= w)%Z /\ (w <= js_round (toQ (score p)))%Z.
Proof.
  intros Hp. destruct (animate_spec PLAYERS t0 n PLAYERS_ids) as (_ & Hl & _).
  destruct (animate_spec PLAYERS t0 (S n) PLAYERS_ids) as (_ & Hl' & _).
  exists (js_round (toQ (running n p))), (js_round (toQ (running (S n) p))).
  rewrite (Hl p Hp), (Hl' p Hp). split; [reflexivity | split; [reflexivity|]].
  assert (Hc : counts_up p = true) by (apply (proj1 (forallb_forall _ _) PLAYERS_count_up p Hp)).
  destruct (Nat.lt_ge_cases n steps) as [Hk|Hk]; [exact (counts_up_spec p n Hc Hk)|].
  rewrite !running_after by lia. destruct (counts_up_spec p 59 Hc ltac:(cbv; lia)) as [[H0 H1] _].
  rewrite (running_after 60) in H1 by (cbv; lia). lia.
Qed.

Lemma count_up_bounded_witness :
  exists v w,
    lookup 1 (animatingScores (animate 50 (mount PLAYERS 0))) = Some v /\
    lookup 1 (animatingScores (animate 51 (mount PLAYERS 0))) = Some w /\
    (0 <= v <= w)%Z /\ (w <= js_round (toQ 99999%float))%Z.
Proof.
  exact (count_up_bounded 0 50 (mkPlayer 1 "RALPH" 99999%float "Fix-It Felix Jr." "üî®" false) ltac:(cbn; tauto)).
Defined.

(** The count-up is not [Math.round(k * score / 60)]: the sixty double
    additions of [score / 60] drift, and after fifty rounds RALPH's
    99999 shows 83332 where the exact value rounds to 83333. *)
Lemma count_up_rounding :
  lookup 1 (animatingScores (animate 50 (mount PLAYERS 0))) = Some 83332%Z /\
  js_round (50 * 99999 / 60) = 83333%Z.
Proof. vm_compute. split; reflexivity. Qed.

(** The statistics panel agrees with the ranking: on the screen of
    [PLAYERS], after any number of rounds, the one highlighted row is the
    current user's, ranked third, which is the hard-coded YOUR RANK, and the
    hard-coded YOUR SCORE [players[2].score] is that row's player's score;
    TOP SCORE is the first row's; the podium shows the first three rows'
    players under their ranks. *)
Theorem stats_match_rows t0 n :
  let s := animate n (mount PLAYERS t0) in
  filter highlighted (rows s) = [nth 2 (rows s) (nth 0 (rows s) (mkRow 0 "" Star false (hd (mkPlayer 0 "" 0 "" "" false) PLAYERS) 0))] /\
  your_rank (stats s) = "#3"%string /\
  option_map (fun r => score (rowPlayer r)) (nth_error (rows s) 2) = your_score (stats s) /\
  option_map (fun r => rank r) (nth_error (rows s) 2) = Some 3%nat /\
  option_map (fun r => score (rowPlayer r)) (nth_error (rows s) 0) = top_score (stats s) /\
  map (option_map (fun '(r, p, _) => (r, p))) (podium s) =
    map (fun r => Some (rank r, rowPlayer r)) [nth 1 (rows s) (hd (mkRow 0 "" Star false (hd (mkPlayer 0 "" 0 "" "" false) PLAYERS) 0) (rows s)); hd (mkRow 0 "" Star false (hd (mkPlayer 0 "" 0 "" "" false) PLAYERS) 0) (rows s); nth 2 (rows s) (hd (mkRow 0 "" Star false (hd (mkPlayer 0 "" 0 "" "" false) PLAYERS) 0) (rows s))].
Proof. intro s. assert (Hp : players s = PLAYERS) by apply animate_players. unfold rows, stats, podium. rewrite Hp. repeat split. Qed.

End Scoreboard.
