(* ===== verification/Characters.v ===== *)
(** * The character hub of [screens/CharacterScreen.tsx]

    [CharacterScreen] (route [/characters]) shows four fixed characters
    (lines 26-83) whose power and defense the user sets with two range
    sliders per card ([handlePowerChange] and [handleDefenseChange], lines
    95-105), and a detail modal for a selected character
    ([selectedChar], line 89) with FIX GLITCH (to [/repair]) and
    DISCONNECT.  Mounting sets the chaos provider's universe to
    [HEROS_DUTY] (lines 91-93).

    A slider is an [<input type="range" min="0" max="100">]: the browser
    sanitises its value to the decimal string of an integer in [0, 100], so
    [parseInt(e.target.value)] is that integer; a slider event is a step
    carrying such a value.  The screen reads [stability] and
    [glitchIntensity] from the context but never uses them. *)

From S2P Require Import Prelude Chaos.
From Stdlib Require Import ZArith List String Bool Arith Lia.
Import ListNotations.

Open Scope string_scope.

Module Characters.

(** ** Data (lines 11-83) *)

Inductive Status := active | resting | critical.

Record Character := mkCharacter {
  id : nat;
  name : string;
  universe : string;
  health : Z;
  power : Z;
  defense : Z;
  color : string;
  status : Status;
  ability : string;
  quote : string;
  image : string;
  pixelIcon : string
}.

Definition CHARACTERS : list Character := [
  mkCharacter 1 "Ralph" "Fix-It Felix Jr." 95 85 70 "#ff006e" active "Wreck-It Smash" "I'm gonna wreck it!"
    "https://images.unsplash.com/photo-1613992519026-c1a3bb8341ff?crop=entropy&cs=tinysrgb&fit=max&fm=jpg&w=400" "🤜";
  mkCharacter 2 "Vanellope" "Sugar Rush" 88 92 65 "#00f0ff" active "Glitch Teleport" "I'm a racer!"
    "https://images.unsplash.com/photo-1765448857057-2aaccd430d2f?crop=entropy&cs=tinysrgb&fit=max&fm=jpg&w=400" "🍬";
  mkCharacter 3 "Felix" "Fix-It Felix Jr." 92 75 90 "#ffff00" active "Fix-It Hammer" "I can fix it!"
    "https://images.unsplash.com/photo-1718397363344-8caacba3a5bd?crop=entropy&cs=tinysrgb&fit=max&fm=jpg&w=400" "🔨";
  mkCharacter 4 "Sergeant Calhoun" "Hero's Duty" 98 90 85 "#39ff14" active "Plasma Blast" "Fear is a 4-letter word!"
    "https://images.unsplash.com/photo-1542751371-adc38448a05e?crop=entropy&cs=tinysrgb&fit=max&fm=jpg&w=400" "🔫"]%Z.

(** ** State (lines 85-89) *)

Record Screen := mkScreen { characters : list Character; selectedChar : option Character }.

Definition initialScreen : Screen := mkScreen CHARACTERS None.

(** The screen, when mounted, with the provider's state and the route. *)
Record World := mkWorld { screen : option Screen; cs : Chaos.ChaosState; route : string }.

Definition with_screen (s : Screen) (w : World) : World := mkWorld (Some s) (cs w) (route w).

Definition navigate (path : string) (w : World) : World := mkWorld None (cs w) path.

(** ** Operations *)

(** [{ ...c, power: value }] and [{ ...c, defense: value }] *)
Definition set_power (v : Z) (c : Character) : Character :=
  mkCharacter (id c) (name c) (universe c) (health c) v (defense c) (color c) (status c)
    (ability c) (quote c) (image c) (pixelIcon c).

Definition set_defense (v : Z) (c : Character) : Character :=
  mkCharacter (id c) (name c) (universe c) (health c) (power c) v (color c) (status c)
    (ability c) (quote c) (image c) (pixelIcon c).

(** [handlePowerChange] (lines 95-99). *)
Definition handlePowerChange (i : nat) (value : Z) (s : Screen) : Screen :=
  mkScreen (map (fun c => if Nat.eqb (id c) i then set_power value c else c) (characters s)) (selectedChar s).

(** [handleDefenseChange] (lines 101-105). *)
Definition handleDefenseChange (i : nat) (value : Z) (s : Screen) : Screen :=
  mkScreen (map (fun c => if Nat.eqb (id c) i then set_defense value c else c) (characters s)) (selectedChar s).

(** The values a range slider with [min="0" max="100"] delivers. *)
Definition slider_value (v : Z) : bool := (0 <=? v)%Z && (v <=? 100)%Z.

(** [setSelectedChar(char)] (line 243) and [setSelectedChar(null)]
    (the backdrop, line 264, and DISCONNECT, line 298). *)
Definition select (c : Character) (s : Screen) : Screen := mkScreen (characters s) (Some c).
Definition deselect (s : Screen) : Screen := mkScreen (characters s) None.

(** Mounting: the initial state and the effect [setUniverse("HEROS_DUTY")]. *)
Definition mount (w : World) : World :=
  mkWorld (Some initialScreen) (Chaos.set_universe Chaos.HEROS_DUTY (cs w)) "/characters".

Inductive step : World -> World -> Prop :=
  | step_mount w : screen w = None -> step w (mount w)
  | step_power w s c v :
      screen w = Some s -> In c (characters s) -> slider_value v = true ->
      step w (with_screen (handlePowerChange (id c) v s) w)
  | step_defense w s c v :
      screen w = Some s -> In c (characters s) -> slider_value v = true ->
      step w (with_screen (handleDefenseChange (id c) v s) w)
  | step_select w s c : screen w = Some s -> In c (characters s) -> step w (with_screen (select c s) w)
  | step_deselect w s : screen w = Some s -> step w (with_screen (deselect s) w)
  | step_back w s : screen w = Some s -> step w (navigate "/dashboard" w)
  | step_fix w s c : screen w = Some s -> selectedChar s = Some c -> step w (navigate "/repair" w).

(** The first card of a given id. *)
Definition find_char (i : nat) (l : list Character) : option Character :=
  find (fun c => Nat.eqb (id c) i) l.

(** ** The invariant *)

(** A card without its two slider values. *)
Definition base (c : Character) : Character := set_defense 0 (set_power 0 c).

Definition stat_ok (v : Z) : Prop := (0 <= v <= 100)%Z.

Definition card_ok (c : Character) : Prop := stat_ok (power c) /\ stat_ok (defense c).

(** The cards are the four characters in their order, changed only in
    their power and defense, which stay in [0, 100]; the selected character
    is one of them. *)
Definition screen_wf (s : Screen) : Prop :=
  map base (characters s) = map base CHARACTERS /\ Forall card_ok (characters s) /\
  (forall c, selectedChar s = Some c -> In (base c) (map base CHARACTERS) /\ card_ok c).

Definition world_wf (w : World) : Prop :=
  Chaos.currentUniverse (cs w) = Chaos.HEROS_DUTY /\
  match screen w with None => True | Some s => screen_wf s end.

Lemma slider_ok v : slider_value v = true -> stat_ok v.
Proof. unfold slider_value, stat_ok. intro H. apply andb_prop in H as [H1 H2]. apply Z.leb_le in H1, H2. lia. Qed.

(** Updating the cards of one id with a function that keeps [base] and
    [card_ok]. *)
Section Update.
Variable f : Character -> Character.
Hypothesis f_base : forall c, base (f c) = base c.
Hypothesis f_ok : forall c, card_ok c -> card_ok (f c).

Definition update (i : nat) (l : list Character) : list Character :=
  map (fun c => if Nat.eqb (id c) i then f c else c) l.

Lemma update_base i l : map base (update i l) = map base l.
Proof. unfold update. rewrite map_map. apply map_ext. intro c. now destruct (Nat.eqb (id c) i). Qed.

Lemma update_ok i l : Forall card_ok l -> Forall card_ok (update i l).
Proof. induction 1 as [|c r Hc _ IH]; constructor; [destruct (Nat.eqb (id c) i); auto | exact IH]. Qed.

Lemma update_wf i s : screen_wf s -> screen_wf (mkScreen (update i (characters s)) (selectedChar s)).
Proof. intros (Hb & Ho & Hs). split; [|split]; cbn [characters selectedChar]; auto using update_ok. now rewrite update_base. Qed.
End Update.

Lemma handlePowerChange_update i v s : handlePowerChange i v s = mkScreen (update (set_power v) i (characters s)) (selectedChar s).
Proof. reflexivity. Qed.

Lemma handleDefenseChange_update i v s : handleDefenseChange i v s = mkScreen (update (set_defense v) i (characters s)) (selectedChar s).
Proof. reflexivity. Qed.

Lemma hub_initial_wf : screen_wf initialScreen.
Proof. split; [reflexivity | split; [repeat constructor; cbn; lia | discriminate]]. Qed.

Lemma hub_step_wf w w' : world_wf w -> step w w' -> world_wf w'.
Proof.
  intros [Hu Hw] Hs. destruct Hs as [w _|w s c v E Hc Hv|w s c v E Hc Hv|w s c E Hc|w s E|w s E|w s c E _];
    unfold world_wf, with_screen, navigate in *; cbn [screen cs] in *; try rewrite E in Hw; try (split; easy).
  - split; [reflexivity | exact hub_initial_wf].
  - split; [exact Hu|]. rewrite handlePowerChange_update. apply update_wf; [reflexivity | |exact Hw].
    intros d [Hp Hd]. split; [apply slider_ok, Hv | exact Hd].
  - split; [exact Hu|]. rewrite handleDefenseChange_update. apply update_wf; [reflexivity | |exact Hw].
    intros d [Hp Hd]. split; [exact Hp | apply slider_ok, Hv].
  - split; [exact Hu|]. destruct Hw as (Hb & Ho & Hs). split; [exact Hb | split; [exact Ho|]].
    intros d Ed. injection Ed as <-. rewrite <- Hb. split; [apply in_map, Hc | exact (proj1 (Forall_forall _ _) Ho c Hc)].
  - split; [exact Hu|]. destruct Hw as (Hb & Ho & _). split; [exact Hb | split; [exact Ho | discriminate]].
Qed.

(** The card of a given id after an update of one id. *)
Lemma find_update f i j l :
  (forall c, id (f c) = id c) ->
  find_char j (update f i l) = option_map (fun c => if Nat.eqb j i then f c else c) (find_char j l).
Proof.
  intro Hid. induction l as [|c r IH]; [reflexivity|]. unfold find_char in *. cbn.
  destruct (Nat.eqb_spec (id c) i) as [Ei|Ei]; [rewrite Hid|];
    destruct (Nat.eqb_spec (id c) j) as [Ej|Ej]; try exact IH; cbn; f_equal.
  - now rewrite (proj2 (Nat.eqb_eq j i)) by congruence.
  - now rewrite (proj2 (Nat.eqb_neq j i)) by congruence.
Qed.

Lemma option_map_if_true (f : Character -> Character) b o :
  b = true -> option_map (fun c => if b then f c else c) o = option_map f o.
Proof. now intros ->. Qed.

Lemma option_map_if_false (f : Character -> Character) b o :
  b = false -> option_map (fun c => if b then f c else c) o = o.
Proof. intros ->. now destruct o. Qed.

(** ** Properties *)

(** Every screen reachable from mounting the hub keeps the four
    characters in order with all their fields but power and defense, keeps
    every power and defense in [0, 100], selects only one of the four, and
    leaves the provider in the HEROS_DUTY universe. *)
Theorem reachable_characters_wf w0 w : star step (mount w0) w -> world_wf w.
Proof.
  intro Hs. apply (star_invariant step world_wf hub_step_wf (mount w0) w Hs).
  split; [reflexivity | exact hub_initial_wf].
Qed.

Definition hub0 : World := mkWorld None Chaos.initialState "/dashboard".

Lemma reachable_characters_wf_witness :
  star step (mount hub0) (with_screen (handlePowerChange 1 100 initialScreen) (mount hub0)) /\
  world_wf (with_screen (handlePowerChange 1 100 initialScreen) (mount hub0)).
Proof.
  assert (Hs : star step (mount hub0) (with_screen (handlePowerChange 1 100 initialScreen) (mount hub0))).
  { apply star_one. apply (step_power (mount hub0) initialScreen (nth 0 CHARACTERS (mkCharacter 0 "" "" 0 0 0 "" active "" "" "" "")) 100); cbn; auto. }
  split; [exact Hs | exact (reachable_characters_wf hub0 _ Hs)].
Defined.

(** Moving a card's PWR slider is always possible on a mounted hub
    and sets that card's power to the slider's value, keeping all its other
    fields, and leaves the card of every other id as it was. *)
Theorem power_slider_sets_card w s c v :
  screen w = Some s -> In c (characters s) -> slider_value v = true ->
  exists s', step w (with_screen s' w) /\
    find_char (id c) (characters s') = option_map (set_power v) (find_char (id c) (characters s)) /\
    forall j, j <> id c -> find_char j (characters s') = find_char j (characters s).
Proof.
  intros E Hc Hv. exists (handlePowerChange (id c) v s). split; [exact (step_power w s c v E Hc Hv)|].
  rewrite handlePowerChange_update. cbn [characters]. split.
  - rewrite find_update by reflexivity. apply option_map_if_true, Nat.eqb_refl.
  - intros j Hj. rewrite find_update by reflexivity. now apply option_map_if_false, Nat.eqb_neq.
Qed.

Lemma power_slider_sets_card_witness :
  exists s', step (mount hub0) (with_screen s' (mount hub0)) /\
    find_char 2 (characters s') = option_map (set_power 0) (find_char 2 CHARACTERS) /\
    forall j, j <> 2%nat -> find_char j (characters s') = find_char j CHARACTERS.
Proof.
  exact (power_slider_sets_card (mount hub0) initialScreen
    (nth 1 CHARACTERS (mkCharacter 0 "" "" 0 0 0 "" active "" "" "" "")) 0 eq_refl ltac:(cbn; tauto) eq_refl).
Defined.

End Characters.
