(* ===== verification/Harvester.v ===== *)
(** * The universe harvester of [screens/SnakeScreen.tsx]

    [SnakeScreen] (route [/snake]) is a snake on a 15 x 15 torus that
    collects the fragment of one of four universes at a time (lines
    13-19): the fragment of [UNIVERSES[score % 4]] lies on the diagonal
    cell [id * 3 % 15] (lines 34 and 60).  Its state is the snake, the
    direction, the score and the two flags [gameStarted] and [gameOver]
    (lines 23-27).  [moveSnake] (lines 36-68) runs the updater of
    [setSnake] on each firing of the game interval (lines 92-96): the head
    moves one cell and wraps, hitting any segment ends the game, reaching
    the fragment grows the snake, raises the score and calls
    [repairStability(2)]; otherwise the tail follows.  The keyboard
    handler (lines 71-89) starts the game on space and turns, refusing the
    reverse of the current [direction] state; [handleRestart] (lines
    98-104) restarts.  Mounting sets the universe to [SUGAR_RUSH] (lines
    29-31).

    The interval is re-created whenever [moveSnake] or [score] change;
    a firing always runs the current render's [moveSnake], so the firing is
    a step on the current state.  The store calls go through the
    [chaos_store] instance of [Chaos.v].  [prev[0]] of an empty snake is
    [undefined] and reading its [x] throws: [moveSnake] is then [None]. *)

From S2P Require Import Prelude Stability Chaos.
From Stdlib Require Import QArith ZArith List String Bool Arith Lia.
Import ListNotations.

Open Scope Z_scope.

Module Harvester.

(** ** Data (lines 10-27) *)

Inductive Direction := UP | DOWN | LEFT | RIGHT.

Definition dir_eqb (a b : Direction) : bool :=
  match a, b with UP, UP | DOWN, DOWN | LEFT, LEFT | RIGHT, RIGHT => true | _, _ => false end.

Record Position := mkPos { x : Z; y : Z }.

Definition pos_eqb (a b : Position) : bool := Z.eqb (x a) (x b) && Z.eqb (y a) (y b).

Definition GRID_SIZE : Z := 15.

Record Universe := mkUniverse { uid : Z; uname : string; ucolor : string; uicon : string }.

Definition UNIVERSES : list Universe := [
  mkUniverse 1 "Fix-It Felix Jr." "#ffff00" "üî®";
  mkUniverse 2 "Sugar Rush" "#ff006e" "üç¨";
  mkUniverse 3 "Hero's Duty" "#39ff14" "‚öîÔ∏è";
  mkUniverse 4 "Fix-It Nexus" "#00f0ff" "ü§ú"]%string.

Record Screen := mkScreen {
  snake : list Position;
  direction : Direction;
  score : nat;
  gameStarted : bool;
  gameOver : bool
}.

Definition initialScreen : Screen := mkScreen [mkPos 7 7] RIGHT 0 false false.

Definition set_snake l s := mkScreen l (direction s) (score s) (gameStarted s) (gameOver s).
Definition set_direction d s := mkScreen (snake s) d (score s) (gameStarted s) (gameOver s).
Definition set_started b s := mkScreen (snake s) (direction s) (score s) b (gameOver s).
Definition set_gameOver b s := mkScreen (snake s) (direction s) (score s) (gameStarted s) b.

Record World := mkWorld { screen : option Screen; cs : Chaos.ChaosState; route : string }.

Definition with_screen (s : Screen) (w : World) : World := mkWorld (Some s) (cs w) (route w).

Definition navigate (path : string) (w : World) : World := mkWorld None (cs w) path.

(** ** Operations *)

(** [UNIVERSES[score % UNIVERSES.length]] (line 34). *)
Definition currentUniverse (score : nat) : Universe :=
  nth (score mod List.length UNIVERSES) UNIVERSES (mkUniverse 0 "" "" "").

(** The fragment's cell [(id * 3 % GRID_SIZE, id * 3 % GRID_SIZE)]
    (line 60, drawn at lines 200-215). *)
Definition target (u : Universe) : Position := mkPos (Z.rem (uid u * 3) GRID_SIZE) (Z.rem (uid u * 3) GRID_SIZE).

(** The [switch (direction)] of lines 43-49. *)
Definition next_head (d : Direction) (h : Position) : Position :=
  match d with
  | UP => mkPos (x h) (y h - 1)
  | DOWN => mkPos (x h) (y h + 1)
  | LEFT => mkPos (x h - 1) (y h)
  | RIGHT => mkPos (x h + 1) (y h)
  end.

(** [(v + GRID_SIZE) % GRID_SIZE] on both coordinates (lines 52-53). *)
Definition wrap (p : Position) : Position :=
  mkPos (Z.rem (x p + GRID_SIZE) GRID_SIZE) (Z.rem (y p + GRID_SIZE) GRID_SIZE).

(** [moveSnake] (lines 36-68): the guard, then the updater of [setSnake]
    with the [setGameOver], [setScore] and [repairStability] calls it
    makes. *)
Definition moveSnake (s : Screen) (c : Chaos.ChaosState) : option (Screen * Chaos.ChaosState) :=
  if negb (gameStarted s) || gameOver s then Some (s, c) else
  match snake s with
  | [] => None
  | head :: _ =>
      let newHead := wrap (next_head (direction s) head) in
      if existsb (pos_eqb newHead) (snake s) then Some (set_gameOver true s, c)
      else if pos_eqb newHead (target (currentUniverse (score s))) then
        Some (mkScreen (newHead :: snake s) (direction s) (S (score s)) (gameStarted s) (gameOver s),
              store_repair 2 c)
      else Some (set_snake (newHead :: removelast (snake s)) s, c)
  end.

(** [handleKeyPress] (lines 71-86). *)
Definition handleKeyPress (key : string) (s : Screen) : Screen :=
  if negb (gameStarted s) && negb (gameOver s) then
    (if String.eqb key " " then set_started true s else s)
  else if gameOver s then s
  else if String.eqb key "ArrowUp" then (if dir_eqb (direction s) DOWN then s else set_direction UP s)
  else if String.eqb key "ArrowDown" then (if dir_eqb (direction s) UP then s else set_direction DOWN s)
  else if String.eqb key "ArrowLeft" then (if dir_eqb (direction s) RIGHT then s else set_direction LEFT s)
  else if String.eqb key "ArrowRight" then (if dir_eqb (direction s) LEFT then s else set_direction RIGHT s)
  else s.

(** The game interval's period [Math.max(80, 150 - score * 5)] (line 93). *)
Definition speed (score : nat) : Z := Z.max 80 (150 - Z.of_nat score * 5).

(** [handleRestart] (lines 98-104): the five setters, batched. *)
Definition handleRestart (s : Screen) : Screen := mkScreen [mkPos 7 7] RIGHT 0 true false.

(** Mounting: the initial state and [setUniverse("SUGAR_RUSH")]. *)
Definition mount (w : World) : World :=
  mkWorld (Some initialScreen) (Chaos.set_universe Chaos.SUGAR_RUSH (cs w)) "/snake".

(** The screen's events: a firing of the game interval, a key, the
    START_SYNC button (line 147, shown before the first start), the
    RE-ESTABLISH and ABANDON buttons of the game-over panel (lines
    163-164), and EXIT and ABORT (lines 279-280). *)
Inductive step : World -> World -> Prop :=
  | step_mount w : screen w = None -> step w (mount w)
  | step_tick w s s' c' : screen w = Some s -> moveSnake s (cs w) = Some (s', c') -> step w (mkWorld (Some s') c' (route w))
  | step_key w s key : screen w = Some s -> step w (with_screen (handleKeyPress key s) w)
  | step_start w s : screen w = Some s -> gameStarted s = false -> gameOver s = false ->
      step w (with_screen (set_started true s) w)
  | step_restart w s : screen w = Some s -> gameOver s = true -> step w (with_screen (handleRestart s) w)
  | step_abandon w s : screen w = Some s -> gameOver s = true -> step w (navigate "/dashboard" w)
  | step_exit w s : screen w = Some s -> step w (navigate "/dashboard" w)
  | step_abort w s : screen w = Some s -> step w (with_screen (set_gameOver true s) w).

(** ** Lemmas on positions and lists *)

Lemma pos_eqb_spec a b : reflect (a = b) (pos_eqb a b).
Proof.
  destruct a as [ax ay], b as [bx by_]. unfold pos_eqb; cbn.
  destruct (Z.eqb_spec ax bx), (Z.eqb_spec ay by_); constructor; congruence.
Qed.

Lemma existsb_pos_false p l : existsb (pos_eqb p) l = false -> ~ In p l.
Proof.
  intros H Hin. assert (existsb (pos_eqb p) l = true) by (apply existsb_exists; exists p; split; [exact Hin | now destruct (pos_eqb_spec p p)]).
  congruence.
Qed.

Lemma length_removelast (l : list Position) : l <> [] -> S (List.length (removelast l)) = List.length l.
Proof.
  induction l as [|b [|c r] IH]; intro H; [congruence | reflexivity|].
  change (removelast (b :: c :: r)) with (b :: removelast (c :: r)). cbn [List.length]. now rewrite IH.
Qed.

(** ** The invariant *)

Definition in_grid (p : Position) : Prop := 0 <= x p < GRID_SIZE /\ 0 <= y p < GRID_SIZE.

(** The snake is a non-empty list of distinct cells of the grid, one
    longer than the score. *)
Definition screen_wf (s : Screen) : Prop :=
  snake s <> [] /\ List.length (snake s) = S (score s) /\ Forall in_grid (snake s) /\ NoDup (snake s).

Definition world_wf (w : World) : Prop :=
  Stability.in_bounds (Chaos.stability (cs w)) /\
  match screen w with None => True | Some s => screen_wf s end.

Lemma rem_grid a : -GRID_SIZE <= a -> 0 <= Z.rem (a + GRID_SIZE) GRID_SIZE < GRID_SIZE.
Proof. unfold GRID_SIZE. intro H. apply Z.rem_bound_pos; lia. Qed.

Lemma wrap_in_grid d h : in_grid h -> in_grid (wrap (next_head d h)).
Proof. unfold in_grid, GRID_SIZE in *. intros [Hx Hy]. destruct d; cbn; split; apply rem_grid; unfold GRID_SIZE; lia. Qed.

(** Wrapping leaves a cell of the grid where it is. *)
Lemma wrap_id p : in_grid p -> wrap p = p.
Proof.
  destruct p as [a b]. unfold in_grid, wrap, GRID_SIZE; cbn. intros [Ha Hb].
  rewrite !Z.rem_mod_nonneg by lia. replace (a + 15) with (a + 1 * 15) by lia. replace (b + 15) with (b + 1 * 15) by lia.
  rewrite !Z_mod_plus_full, !Z.mod_small by lia. reflexivity.
Qed.

Lemma keep_wf s s' : snake s' = snake s -> score s' = score s -> screen_wf s -> screen_wf s'.
Proof. unfold screen_wf. now intros -> ->. Qed.

Lemma moveSnake_wf s c s' c' :
  screen_wf s -> Stability.in_bounds (Chaos.stability c) -> moveSnake s c = Some (s', c') ->
  screen_wf s' /\ Stability.in_bounds (Chaos.stability c').
Proof.
  intros Hw Hb. pose proof Hw as (Hne & Hl & Hg & Hd). unfold moveSnake.
  destruct (negb (gameStarted s) || gameOver s); [intro E; injection E as <- <-; now split|].
  destruct (snake s) as [|h r] eqn:Es; [discriminate|].
  set (nh := wrap (next_head (direction s) h)). inversion Hg as [|? ? Hh _]; subst.
  pose proof (wrap_in_grid (direction s) h Hh) as Hn. fold nh in Hn.
  destruct (existsb (pos_eqb nh) (h :: r)) eqn:Ex; [intro E; injection E as <- <-; exact (conj (keep_wf s _ eq_refl eq_refl Hw) Hb)|].
  apply existsb_pos_false in Ex.
  destruct (pos_eqb nh _); intro E; injection E as <- <-; unfold screen_wf; cbn [snake score set_snake].
  - split; [|apply Stability.repair_in_bounds; [exact Hb | unfold Qle; cbn; lia]].
    repeat split; [discriminate | cbn in Hl |- *; lia | constructor; [exact Hn | exact Hg] | constructor; [exact Ex | exact Hd]].
  - split; [|exact Hb]. repeat split; [discriminate | | |].
    + change (S (List.length (removelast (h :: r))) = S (score s)). rewrite length_removelast by discriminate. exact Hl.
    + constructor; [exact Hn|]. apply Forall_forall. intros a Ha. exact (proj1 (Forall_forall _ _) Hg a (In_removelast _ (h :: r) Ha)).
    + constructor; [intro Hin; exact (Ex (In_removelast _ (h :: r) Hin)) | exact (NoDup_removelast (h :: r) Hd)].
Qed.

Lemma key_snake key s : snake (handleKeyPress key s) = snake s /\ score (handleKeyPress key s) = score s.
Proof. unfold handleKeyPress. repeat match goal with |- context [if ?b then _ else _] => destruct b end; now split. Qed.

Lemma restart_wf d st : screen_wf (mkScreen [mkPos 7 7] d 0 st false).
Proof.
  unfold screen_wf; cbn. split; [discriminate | split; [reflexivity | split]].
  - constructor; [unfold in_grid, GRID_SIZE; cbn; lia | constructor].
  - constructor; [intros [] | constructor].
Qed.


Lemma harvester_step_wf w w' : world_wf w -> step w w' -> world_wf w'.
Proof.
  intros [Hb Hw] Hs. destruct Hs as [w _|w s s' c' E Hm|w s key E|w s E _ _|w s E _|w s E _|w s E|w s E];
    unfold world_wf, with_screen, navigate, mount in *; cbn [screen cs] in *; try rewrite E in Hw; try (split; easy).
  - split; [exact Hb | exact (restart_wf RIGHT false)].
  - apply and_comm, (moveSnake_wf s (cs w) s' c' Hw Hb Hm).
  - split; [exact Hb|]. destruct (key_snake key s) as [H1 H2]. exact (keep_wf s _ H1 H2 Hw).
  - split; [exact Hb|]. exact (restart_wf RIGHT true).
Qed.

Lemma harvester_star_wf w w' : world_wf w -> star step w w' -> world_wf w'.
Proof. intros H Hs. exact (star_invariant step world_wf harvester_step_wf w w' Hs H). Qed.

(** A move whose new cell is a segment of the snake ends the game and
    leaves the store alone. *)
Lemma moveSnake_hit s c h r :
  gameStarted s = true -> gameOver s = false -> snake s = h :: r ->
  In (wrap (next_head (direction s) h)) (h :: r) ->
  moveSnake s c = Some (set_gameOver true s, c).
Proof.
  intros Hs Ho Es Hin. unfold moveSnake. rewrite Hs, Ho, Es. cbn [negb orb].
  replace (existsb _ _) with true; [reflexivity|]. symmetry. apply existsb_exists.
  exists (wrap (next_head (direction s) h)). split; [exact Hin | now destruct (pos_eqb_spec (wrap (next_head (direction s) h)) (wrap (next_head (direction s) h)))].
Qed.

(** ** Properties *)

(** From a store with stability in [0, 100], every state reachable
    from mounting the harvester keeps the stability in [0, 100], and a
    mounted screen's snake is a non-empty list of distinct cells of the
    15 x 15 grid, one cell longer than the score. *)
Theorem reachable_harvester_wf w0 w :
  Stability.in_bounds (Chaos.stability (cs w0)) -> star step (mount w0) w ->
  Stability.in_bounds (Chaos.stability (cs w)) /\
  forall s, screen w = Some s ->
    snake s <> [] /\ List.length (snake s) = S (score s) /\ Forall in_grid (snake s) /\ NoDup (snake s).
Proof.
  intros Hb Hs. destruct (harvester_star_wf (mount w0) w (conj Hb (restart_wf RIGHT false)) Hs) as [Hb' Hw].
  split; [exact Hb'|]. intros s E. rewrite E in Hw. exact Hw.
Qed.

Definition harvest0 : World := mkWorld None Chaos.initialState "/dashboard".

Lemma reachable_harvester_wf_witness :
  Stability.in_bounds (Chaos.stability (cs harvest0)) /\
  Stability.in_bounds (Chaos.stability (cs (with_screen (set_started true initialScreen) (mount harvest0)))).
Proof.
  assert (Hb : Stability.in_bounds (Chaos.stability (cs harvest0))) by (unfold Stability.in_bounds; cbn; split; qle_vm).
  split; [exact Hb|]. refine (proj1 (reachable_harvester_wf harvest0 _ Hb _)).
  apply star_one. exact (step_start (mount harvest0) initialScreen eq_refl eq_refl eq_refl).
Defined.

(** C33: Two arrow keys within one period of the game interval turn the
    snake back on itself: heading RIGHT with its second segment just
    behind the head, ArrowUp then ArrowLeft are both accepted, because the
    guard compares with the [direction] state rather than with the last
    move, and the next firing moves the head onto the second segment and
    ends the game. *)
Theorem quick_turn_reverses s c h r :
  gameStarted s = true -> gameOver s = false -> direction s = RIGHT ->
  snake s = h :: mkPos (x h - 1) (y h) :: r -> in_grid h -> 1 <= x h ->
  let s2 := handleKeyPress "ArrowLeft" (handleKeyPress "ArrowUp" s) in
  direction s2 = LEFT /\ moveSnake s2 c = Some (set_gameOver true s2, c).
Proof.
  intros Hs Ho Hd Es Hg Hx s2.
  assert (E1 : handleKeyPress "ArrowUp" s = set_direction UP s) by (unfold handleKeyPress; rewrite Hs, Ho, Hd; reflexivity).
  assert (E2 : s2 = set_direction LEFT (set_direction UP s)) by (unfold s2; rewrite E1; unfold handleKeyPress; cbn; rewrite Hs, Ho; reflexivity).
  rewrite E2. split; [reflexivity|]. apply (moveSnake_hit _ c h (mkPos (x h - 1) (y h) :: r)); [exact Hs | exact Ho | exact Es|].
  cbn. right; left. symmetry. apply wrap_id. destruct Hg as [Hgx Hgy]. split; cbn; lia.
Qed.

Lemma quick_turn_reverses_witness :
  let s := mkScreen [mkPos 8 7; mkPos 7 7] RIGHT 1 true false in
  let s2 := handleKeyPress "ArrowLeft" (handleKeyPress "ArrowUp" s) in
  direction s2 = LEFT /\ moveSnake s2 Chaos.initialState = Some (set_gameOver true s2, Chaos.initialState).
Proof.
  apply (quick_turn_reverses _ _ (mkPos 8 7) []); try reflexivity; unfold in_grid, GRID_SIZE; cbn; lia.
Defined.

(** Chasing the tail ends the game: a move onto the cell of the last
    segment, which the tail leaves in that same move, is a collision,
    since the updater tests the new head against the whole previous
    snake. *)
Theorem tail_chase_ends_game s c h r t :
  gameStarted s = true -> gameOver s = false -> snake s = h :: r ++ [t] ->
  wrap (next_head (direction s) h) = t ->
  moveSnake s c = Some (set_gameOver true s, c).
Proof.
  intros Hs Ho Es Ht. apply (moveSnake_hit s c h (r ++ [t])); [exact Hs | exact Ho | exact Es|].
  rewrite Ht. right. apply in_or_app. right. now left.
Qed.

Lemma tail_chase_ends_game_witness :
  let s := mkScreen [mkPos 1 0; mkPos 0 0; mkPos 0 1; mkPos 1 1] DOWN 3 true false in
  moveSnake s Chaos.initialState = Some (set_gameOver true s, Chaos.initialState).
Proof. intro s. exact (tail_chase_ends_game s _ (mkPos 1 0) [mkPos 0 0; mkPos 0 1] (mkPos 1 1) eq_refl eq_refl eq_refl eq_refl). Defined.

End Harvester.
