(* ===== verification/Breaker.v ===== *)
(** * The block breaker of [games/GlitchBreaker.tsx]

    [GlitchBreaker] keeps a [GameState] (blocks, score, level, flags and
    combo, lines 16-23 and 36-43), the paddle, the ball's position and
    velocity, and [isGlitching] (lines 44-47).  [initializeLevel] (lines
    54-80) draws forty blocks of random [BLOCK_TYPES] (lines 25-31) and
    resets the ball; the glitch interval (lines 83-100), armed while the
    glitch intensity exceeds 0.6, flips [isGlitching] and re-draws every
    block's [glitched] flag; the game loop (lines 103-189) moves the ball
    every 50 ms with its wall, floor, paddle and block collisions and the
    [damageStability]/[repairStability] calls; the mouse moves the paddle
    (lines 192-202); NEW GAME / PLAY AGAIN run [resetGame] (lines 204-212)
    and PAUSE toggles [isPaused] (line 329).

    The game loop is a [setBallPosition] updater that calls
    [setGameState] with an updater of its own, which mutates the block
    objects it shares with the current state ([block.health--] on the
    shallow copy [[...prev.blocks]]) and writes the closure variable
    [newVelY].  Modelled on values: a hit that does not destroy the block
    leaves the state [prev] with that block's health one lower (the
    mutation is visible through [prev]); a destroyed block is spliced out.
    Two outcomes depend on when React runs these nested updaters, which
    the component does not control: whether the flip of [newVelY] made by
    the inner updater is seen by the [setBallVelocity] call that follows
    it (only if React computed the updater at the call), and whether the
    [combo: 0] update queued from inside the inner updater on a miss
    survives the outer updater's [return prev].  A [Sched] gives both
    choices; the theorems hold for every schedule.

    [Math.random()] is the stream [rng] read in call order; the
    invariant assumes its draws lie in [0, 1), so [Math.floor(r * 5)] is an
    index of [BLOCK_TYPES].  The rest of the application acts on the chaos
    provider as an environment step that keeps stability in [0, 100].
    The component is imported by the dashboard but never rendered
    ([Dashboard.game_cards_inert]). *)

From S2P Require Import Prelude Stability Signals Chaos.
From Stdlib Require Import QArith Qround Qabs Qminmax Lqa ZArith List String Bool Arith Lia.
Import ListNotations.

Open Scope Q_scope.
Open Scope chaos_scope.

Module Breaker.

(** ** Data (lines 7-47) *)

Record GlitchBlock := mkBlock { id : nat; x : Q; y : Q; color : string; health : Z; glitched : bool }.

Record GameState := mkGame {
  blocks : list GlitchBlock;
  score : Z;
  level : Z;
  gameOver : bool;
  isPaused : bool;
  combo : Z
}.

Record BlockType := mkType { tcolor : string; thealth : Z; points : Z }.

Definition BLOCK_TYPES : list BlockType := [
  mkType "#ff006e" 3 10;
  mkType "#00f0ff" 2 20;
  mkType "#39ff14" 1 30;
  mkType "#ffff00" 4 15;
  mkType "#ff00ff" 2 25]%string.

(** A point [{ x, y }]: the ball's position or velocity. *)
Record Point := mkPoint { px : Q; py : Q }.

Definition initialGame : GameState := mkGame [] 0 1 false false 0.

Record World := mkWorld {
  game : GameState;
  paddleX : Q;
  ballPosition : Point;
  ballVelocity : Point;
  isGlitching : bool;
  cs : Chaos.ChaosState;
  rng : nat -> Q;
  rng_pos : nat
}.

Definition with_game g w := mkWorld g (paddleX w) (ballPosition w) (ballVelocity w) (isGlitching w) (cs w) (rng w) (rng_pos w).
Definition with_paddle p w := mkWorld (game w) p (ballPosition w) (ballVelocity w) (isGlitching w) (cs w) (rng w) (rng_pos w).
Definition with_ball b w := mkWorld (game w) (paddleX w) b (ballVelocity w) (isGlitching w) (cs w) (rng w) (rng_pos w).
Definition with_velocity v w := mkWorld (game w) (paddleX w) (ballPosition w) v (isGlitching w) (cs w) (rng w) (rng_pos w).
Definition with_glitching b w := mkWorld (game w) (paddleX w) (ballPosition w) (ballVelocity w) b (cs w) (rng w) (rng_pos w).
Definition with_cs c w := mkWorld (game w) (paddleX w) (ballPosition w) (ballVelocity w) (isGlitching w) c (rng w) (rng_pos w).

Definition set_blocks l g := mkGame l (score g) (level g) (gameOver g) (isPaused g) (combo g).
Definition set_combo c g := mkGame (blocks g) (score g) (level g) (gameOver g) (isPaused g) c.
Definition set_gameOver b g := mkGame (blocks g) (score g) (level g) b (isPaused g) (combo g).
Definition set_paused b g := mkGame (blocks g) (score g) (level g) (gameOver g) b (combo g).
Definition set_health h b := mkBlock (id b) (x b) (y b) (color b) h (glitched b).
Definition set_glitched v b := mkBlock (id b) (x b) (y b) (color b) (health b) v.

(** ** Effects *)

(** [Math.random()] *)
Definition random : St World Q :=
  fun w => (rng w (rng_pos w), mkWorld (game w) (paddleX w) (ballPosition w) (ballVelocity w)
                                       (isGlitching w) (cs w) (rng w) (S (rng_pos w))).

(** [setGameState(updater)], [setBallPosition], [setBallVelocity]. *)
Definition setGameState (f : GameState -> GameState) : St World unit := st_modify (fun w => with_game (f (game w)) w).
Definition setBallPosition (p : Point) : St World unit := st_modify (with_ball p).
Definition setBallVelocity (v : Point) : St World unit := st_modify (with_velocity v).

(** [repairStability] and [damageStability] of the context. *)
Definition repair (a : Q) : St World unit := st_modify (fun w => with_cs (store_repair a (cs w)) w).
Definition damage (a : Q) : St World unit := st_modify (fun w => with_cs (store_damage a (cs w)) w).

(** ** [initializeLevel] (lines 54-80) *)

(** [BLOCK_TYPES[Math.floor(Math.random() * BLOCK_TYPES.length)]] *)
Definition blockType (r : Q) : BlockType :=
  nth (Z.to_nat (Qfloor (r * 5))) BLOCK_TYPES (mkType "" 0 0).

(** The block of the [id]-th iteration, at row [row] and column [col]. *)
Definition block_at (i row col : nat) : St World GlitchBlock :=
  r <- random ;;
  let t := blockType r in
  st_ret (mkBlock i (Qnat col * (25 # 2)) (Qnat row * 8 + 10) (tcolor t) (thealth t) false).

(** The iterations of the two loops, with the running [id]. *)
Definition cells : list (nat * (nat * nat)) :=
  combine (seq 0 40) (flat_map (fun row => map (fun col => (row, col)) (seq 0 8)) (seq 0 5)).

Definition initializeLevel : St World unit :=
  newBlocks <- st_mapM (fun '(i, (row, col)) => block_at i row col) cells ;;
  setGameState (fun prev => mkGame newBlocks (score prev) (level prev) false false (combo prev)) ;;
  setBallPosition (mkPoint 50 80) ;;
  setBallVelocity (mkPoint 2 (-2)).

(** ** The glitch interval (lines 83-100) *)

Definition glitchTick : St World unit :=
  st_modify (fun w => with_glitching (negb (isGlitching w)) w) ;;
  w <- st_get ;;
  newBlocks <- st_mapM (fun b => r <- random ;; st_ret (set_glitched (7 # 10 <? r) b)) (blocks (game w)) ;;
  setGameState (set_blocks newBlocks).

(** ** The game loop (lines 103-189) *)

(** [updatedBlocks.splice(i, 1)] *)
Fixpoint remove_nth {A} (i : nat) (l : list A) : list A :=
  match l, i with
  | [], _ => []
  | _ :: r, O => r
  | a :: r, S k => a :: remove_nth k r
  end.

(** The block at index [i] with its health set, the others unchanged. *)
Fixpoint update_nth {A} (i : nat) (f : A -> A) (l : list A) : list A :=
  match l, i with
  | [], _ => []
  | a :: r, O => f a :: r
  | a :: r, S k => a :: update_nth k f r
  end.

(** [newX >= block.x && newX <= block.x + 12.5 && newY >= block.y && newY <= block.y + 8] *)
Definition inside (nx ny : Q) (b : GlitchBlock) : bool :=
  (x b <=? nx) && (nx <=? x b + (25 # 2)) && (y b <=? ny) && (ny <=? y b + 8).

(** The [for] loop up to the first block the ball hits: a glitched block
    the ball is inside is hit only when a draw exceeds 0.5
    ([!block.glitched || Math.random() > 0.5]). *)
Fixpoint scan (bs : list GlitchBlock) (i : nat) (nx ny : Q) : St World (option (nat * GlitchBlock)) :=
  match bs with
  | [] => st_ret None
  | b :: r =>
      if inside nx ny b then
        if glitched b then
          u <- random ;; if 1 # 2 <? u then st_ret (Some (i, b)) else scan r (S i) nx ny
        else st_ret (Some (i, b))
      else scan r (S i) nx ny
  end.

(** [(BLOCK_TYPES.find(bt => bt.color === block.color)?.points || 10)] *)
Definition points_of (c : string) : Z :=
  match find (fun t => String.eqb (tcolor t) c) BLOCK_TYPES with
  | Some t => if Z.eqb (points t) 0 then 10 else points t
  | None => 10
  end.

(** The [setGameState] updater of lines 138-176 on [prev], with the value
    of [newVelY] it leaves and whether it hit a block: a hit that leaves
    health makes [prev] carry the decremented health (the block object is
    shared) and flips [newVelY]; a hit that destroys the block splices it
    out, calls [repairStability(2)] and scores [points * (combo + 1)]. *)
Definition collide (nx ny : Q) (prev : GameState) (velY : Q) : St World (GameState * Q * bool) :=
  found <- scan (blocks prev) 0 nx ny ;;
  match found with
  | None => st_ret (prev, velY, false)
  | Some (i, b) =>
      let h := (health b - 1)%Z in
      if (h <=? 0)%Z then
        repair 2 ;;
        st_ret (mkGame (remove_nth i (blocks prev)) (score prev + points_of (color b) * (combo prev + 1))
                  (level prev) (gameOver prev) (isPaused prev) (combo prev + 1), velY, true)
      else st_ret (set_blocks (update_nth i (set_health h) (blocks prev)) prev, - velY, true)
  end.

(** How React runs the nested updaters: whether the inner updater's flip of
    [newVelY] reaches [setBallVelocity], and whether the [combo: 0]
    update queued on a miss survives. *)
Record Sched := mkSched { flip_seen : bool; miss_resets : bool }.

(** The walls (lines 113-121). *)
Definition walls (p v : Point) : Point * Point :=
  let nx0 := px p + px v in
  let ny0 := py p + py v in
  let '(nx, vx) := if (nx0 <=? 0) || (100 <=? nx0) then ((if nx0 <=? 0 then 0 else 100), - px v) else (nx0, px v) in
  let '(ny, vy) := if ny0 <=? 0 then (0, - py v) else (ny0, py v) in
  (mkPoint nx ny, mkPoint vx vy).

(** [newY >= 85 && newY <= 90 && newX >= paddleX - 10 && newX <= paddleX + 10] *)
Definition on_paddle (paddle : Q) (p : Point) : bool :=
  (85 <=? py p) && (py p <=? 90) && (paddle - 10 <=? px p) && (px p <=? paddle + 10).

(** One firing of the game loop: the updater of [setBallPosition]. *)
Definition ballTick (sc : Sched) : St World unit :=
  w <- st_get ;;
  let '(np, nv) := walls (ballPosition w) (ballVelocity w) in
  if 100 <=? py np then
    damage 10 ;; setGameState (set_gameOver true)
  else
    let hit := on_paddle (paddleX w) np in
    let vy := if hit then - Qabs (py nv) else py nv in
    let vx := if hit then (px np - paddleX w) / 10 * 3 else px nv in
    st_when hit (repair 1) ;;
    w1 <- st_get ;;
    res <- collide (px np) (py np) (game w1) vy ;;
    let '(g, vy', hitBlock) := res in
    setGameState (fun _ => if hitBlock || negb (miss_resets sc) then g else set_combo 0 g) ;;
    setBallVelocity (mkPoint vx (if flip_seen sc then vy' else vy)) ;;
    setBallPosition np.

(** ** The other handlers *)

(** [setPaddleX(Math.max(10, Math.min(90, x)))] (line 197). *)
Definition handleMouseMove (mx : Q) : St World unit := st_modify (with_paddle (Qmax 10 (Qmin 90 mx))).

(** [resetGame] (lines 204-212). *)
Definition resetGame : St World unit :=
  setGameState (fun prev => mkGame (blocks prev) 0 1 (gameOver prev) (isPaused prev) 0) ;;
  initializeLevel.

(** PAUSE / RESUME (line 329). *)
Definition togglePause : St World unit := setGameState (fun prev => set_paused (negb (isPaused prev)) prev).

(** Mounting: the initial state, then the effect that runs
    [initializeLevel] (lines 50-52). *)
Definition mount (c : Chaos.ChaosState) (rng0 : nat -> Q) : World :=
  st_exec initializeLevel (mkWorld initialGame 50 (mkPoint 50 80) (mkPoint 2 (-2)) false c rng0 0).

(** The component's events.  The game loop runs while the game is neither
    over nor paused (line 104); the glitch interval while the glitch
    intensity exceeds 0.6 (line 84); the rest of the application may
    change the provider's state, keeping stability in [0, 100]. *)
Inductive step : World -> World -> Prop :=
  | step_ball w sc : gameOver (game w) = false -> isPaused (game w) = false -> step w (st_exec (ballTick sc) w)
  | step_glitch w :
      3 # 5 < Signals.glitchIntensity (Chaos.isChaosMode (cs w)) (Chaos.stability (cs w)) ->
      step w (st_exec glitchTick w)
  | step_mouse w mx : step w (st_exec (handleMouseMove mx) w)
  | step_reset w : step w (st_exec resetGame w)
  | step_pause w : step w (st_exec togglePause w)
  | step_env w c : Stability.in_bounds (Chaos.stability c) -> step w (with_cs c w).

(** ** Lists: splice and update by index *)

Lemma remove_nth_incl {A} (i : nat) (l : list A) a : In a (remove_nth i l) -> In a l.
Proof.
  revert i. induction l as [|b r IH]; intros [|i]; cbn; try tauto.
  intros [->|H]; [now left | right; exact (IH i H)].
Qed.

Lemma map_remove_nth {A B} (f : A -> B) i l : map f (remove_nth i l) = remove_nth i (map f l).
Proof. revert i. induction l as [|b r IH]; intros [|i]; cbn; f_equal; auto. Qed.

Lemma NoDup_remove_nth {A} (i : nat) (l : list A) : NoDup l -> NoDup (remove_nth i l).
Proof.
  revert i. induction l as [|b r IH]; intros [|i] H; cbn; [constructor | constructor | now inversion H |].
  inversion H as [|? ? Hb Hr]; subst. constructor; [intro Hin; apply Hb, (remove_nth_incl i), Hin | exact (IH i Hr)].
Qed.

Lemma map_update_nth {A B} (g : A -> B) (f : A -> A) i l :
  (forall a, g (f a) = g a) -> map g (update_nth i f l) = map g l.
Proof. intro Hf. revert i. induction l as [|b r IH]; intros [|i]; cbn; f_equal; auto. Qed.

Lemma Forall_update_nth {A} (P : A -> Prop) (f : A -> A) i l :
  (forall a, P a -> P (f a)) -> Forall P l -> Forall P (update_nth i f l).
Proof. intros Hf H. revert i. induction H as [|b r Hb Hr IH]; intros [|i]; cbn; constructor; auto. Qed.

Lemma Forall_remove_nth {A} (P : A -> Prop) i (l : list A) : Forall P l -> Forall P (remove_nth i l).
Proof. rewrite !Forall_forall. intros H a Ha. exact (H a (remove_nth_incl i l a Ha)). Qed.

Lemma Forall2_map_eq {A B C} (f : A -> C) (g : B -> C) l1 l2 :
  Forall2 (fun a b => g b = f a) l1 l2 -> map g l2 = map f l1.
Proof. induction 1; cbn; f_equal; assumption. Qed.

(** ** The invariant *)

Definition block_ok (b : GlitchBlock) : Prop := (1 <= health b <= 4)%Z.

(** Every block has 1 to 4 hit points, ids are distinct, score and combo
    are non-negative. *)
Definition game_wf (g : GameState) : Prop :=
  Forall block_ok (blocks g) /\ NoDup (map id (blocks g)) /\ (0 <= score g)%Z /\ (0 <= combo g)%Z.


(** With draws in [0, 1): the game is well formed, the paddle lies in
    [10, 90], the ball inside the field above the floor, and stability in
    [0, 100]. *)
Definition world_wf (w : World) : Prop :=
  game_wf (game w) /\ 10 <= paddleX w <= 90 /\
  0 <= px (ballPosition w) <= 100 /\ 0 <= py (ballPosition w) < 100 /\
  Stability.in_bounds (Chaos.stability (cs w)) /\ draws_ok (rng w).

Lemma random_spec : st_spec world_wf random (fun r w => 0 <= r < 1 /\ world_wf w).
Proof. intros w Hw. split; [apply (proj2 (proj2 (proj2 (proj2 (proj2 Hw))))) | exact Hw]. Qed.

Lemma world_wf_cs w c : world_wf w -> Stability.in_bounds (Chaos.stability c) -> world_wf (with_cs c w).
Proof. intros (Hg & Hp & Hx & Hy & _ & Hr) Hb. repeat (split; [eassumption|]). exact Hr. Qed.

(** A draw changes nothing but the stream's position. *)
Lemma random_frame (g0 : GameState) :
  st_spec (fun w => world_wf w /\ game w = g0) random (fun r w => 0 <= r < 1 /\ world_wf w /\ game w = g0).
Proof. intros w [Hw Hg]. destruct (random_spec w Hw) as [Hr Hw1]. split; [exact Hr | split; [exact Hw1 | exact Hg]]. Qed.

Lemma repair_spec a : 0 <= a -> st_spec world_wf (repair a) (fun _ => world_wf).
Proof. intros Ha w Hw. apply world_wf_cs; [exact Hw|]. apply Stability.repair_in_bounds; [apply Hw | exact Ha]. Qed.

Lemma damage_spec a : 0 <= a -> st_spec world_wf (damage a) (fun _ => world_wf).
Proof. intros Ha w Hw. apply world_wf_cs; [exact Hw|]. apply Stability.damage_in_bounds; [apply Hw | exact Ha]. Qed.

Lemma blockType_ok r : 0 <= r < 1 -> (1 <= thealth (blockType r) <= 4)%Z.
Proof.
  intro Hr. pose proof (Qfloor_index r 5 Hr eq_refl) as Hz. unfold blockType.
  change (r * 5) with (r * inject_Z 5).
  assert (Hk : (Qfloor (r * inject_Z 5) = 0 \/ Qfloor (r * inject_Z 5) = 1 \/ Qfloor (r * inject_Z 5) = 2 \/
                Qfloor (r * inject_Z 5) = 3 \/ Qfloor (r * inject_Z 5) = 4)%Z) by lia.
  destruct Hk as [-> | [-> | [-> | [-> | ->]]]]; vm_compute; split; intro; discriminate.
Qed.

Lemma block_at_spec i row col :
  st_spec world_wf (block_at i row col) (fun b w => (id b = i /\ block_ok b) /\ world_wf w).
Proof.
  eapply st_spec_bind; [apply random_spec|]. intro r.
  apply st_spec_ret. intros w [Hr Hw]. split; [split; [reflexivity | apply blockType_ok, Hr] | exact Hw].
Qed.

Lemma Forall2_Forall_r {A B} (R : A -> B -> Prop) (P : B -> Prop) l1 l2 :
  (forall a b, R a b -> P b) -> Forall2 R l1 l2 -> Forall P l2.
Proof. intro H. induction 1; constructor; eauto. Qed.

(** A new game state keeps the invariant of the world when it is well
    formed itself. *)
Lemma world_wf_game w g : world_wf w -> game_wf g -> world_wf (with_game g w).
Proof. intros (_ & Hp & Hx & Hy & Hb & Hr) Hg. repeat (split; [eassumption|]). exact Hr. Qed.

Lemma initializeLevel_spec : st_spec world_wf initializeLevel (fun _ => world_wf).
Proof.
  eapply st_spec_bind.
  - apply (st_spec_mapM world_wf (fun a b => id b = fst a /\ block_ok b)). intros [i [row col]]. apply block_at_spec.
  - intros bs w [H2 Hw]. pose proof Hw as ((_ & _ & Hs & Hc) & Hp & _ & _ & Hb & Hr). unfold world_wf. cbn.
    split; [|split; [exact Hp | split; [split; lra | split; [split; lra | split; [exact Hb | exact Hr]]]]].
    split; [exact (Forall2_Forall_r _ _ _ _ (fun a b H => proj2 H) H2)|]. cbn.
    rewrite (Forall2_map_eq fst id cells bs (Forall2_impl _ (fun a b H => proj1 H) H2)).
    split; [change (map fst cells) with (seq 0 40); apply seq_NoDup | split; assumption].
Qed.

Lemma glitchTick_spec : st_spec world_wf glitchTick (fun _ => world_wf).
Proof.
  intros w Hw. unfold glitchTick, st_bind, st_modify, st_get. cbn beta iota.
  set (w1 := with_glitching (negb (isGlitching w)) w).
  assert (Hw1 : world_wf w1) by exact Hw.
  destruct (st_spec_mapM (fun s => world_wf s /\ game s = game w1) (fun b b' => id b' = id b /\ health b' = health b)
              (fun b => r <- random ;; st_ret (set_glitched (7 # 10 <? r) b)) (blocks (game w1))
              ltac:(intro b; eapply st_spec_bind; [apply random_frame | intro r; apply st_spec_ret; intros s [_ Hs]; split; [split; reflexivity | exact Hs]])
              w1 (conj Hw1 eq_refl)) as [H2 [Hw2 Eg]].
  destruct (st_mapM _ _ w1) as [bs w2]. cbn in H2, Hw2, Eg |- *. apply world_wf_game; [exact Hw2|]. rewrite Eg.
  destruct Hw as ((Hf & Hd & Hs & Hc) & _). split; [|split; [|split; assumption]].
  - clear Hd. cbn in Hf. induction H2 as [|b b' l l' [_ Hh] _ IH]; constructor; inversion Hf; subst; [unfold block_ok; rewrite Hh; assumption | auto].
  - cbn [set_blocks blocks]. rewrite (Forall2_map_eq id id _ _ (Forall2_impl _ (fun a b H => proj1 H) H2)). exact Hd.
Qed.

Lemma scan_spec nx ny bs : forall i,
  st_spec world_wf (scan bs i nx ny)
    (fun o w => world_wf w /\ forall k b, o = Some (k, b) -> (i <= k)%nat /\ nth_error bs (k - i) = Some b).
Proof.
  induction bs as [|b r IH]; intro i; cbn [scan].
  - apply st_spec_ret. intros w Hw. split; [exact Hw | discriminate].
  - assert (Hr : st_spec world_wf (scan r (S i) nx ny)
       (fun o w => world_wf w /\ forall k c, o = Some (k, c) -> (i <= k)%nat /\ nth_error (b :: r) (k - i) = Some c)).
    { eapply st_spec_weaken; [exact (fun w H => H) | | apply (IH (S i))]. intros o w [Hw Hk]. split; [exact Hw|].
      intros k c E. destruct (Hk k c E) as [Hl Hn]. split; [lia|]. replace (k - i)%nat with (S (k - S i)) by lia. exact Hn. }
    assert (Hh : st_spec world_wf (st_ret (Some (i, b)))
       (fun o w => world_wf w /\ forall k c, o = Some (k, c) -> (i <= k)%nat /\ nth_error (b :: r) (k - i) = Some c)).
    { apply st_spec_ret. intros w Hw. split; [exact Hw|]. intros k c E. injection E as <- <-. rewrite Nat.sub_diag. now split. }
    destruct (inside nx ny b); [destruct (glitched b)|]; [|exact Hh | exact Hr].
    eapply st_spec_bind; [apply random_spec|]. intro u. destruct (1 # 2 <? u);
      (eapply st_spec_weaken; [exact (fun w H => proj2 H) | exact (fun o w H => H) |]); assumption.
Qed.

Lemma points_of_pos c : (0 < points_of c)%Z.
Proof.
  unfold points_of. destruct (find _ _) as [t|] eqn:E; [|lia].
  destruct (Z.eqb_spec (points t) 0); [lia|]. apply find_some in E as [Ht _].
  cbn in Ht. intuition (subst; cbn in *; lia).
Qed.

Lemma collide_spec nx ny prev vy :
  game_wf prev ->
  st_spec world_wf (collide nx ny prev vy) (fun res w => game_wf (fst (fst res)) /\ world_wf w).
Proof.
  intros (Hf & Hd & Hs & Hc). unfold collide. eapply st_spec_bind; [apply scan_spec|].
  intros [[k b]|] w [Hw Hk]; [|split; [repeat split; assumption | exact Hw]].
  destruct (Hk k b eq_refl) as [_ Hn]. rewrite Nat.sub_0_r in Hn.
  assert (Hb : block_ok b) by exact (proj1 (Forall_forall _ _) Hf b (nth_error_In _ _ Hn)).
  cbv zeta. destruct (health b - 1 <=? 0)%Z eqn:Ez; [apply Z.leb_le in Ez | apply Z.leb_gt in Ez].
  - pose proof (repair_spec 2 ltac:(lra) w Hw) as Hw2. unfold game_wf; cbn in Hw2 |- *. split; [|exact Hw2].
    split; [apply Forall_remove_nth, Hf|]. rewrite map_remove_nth. split; [apply NoDup_remove_nth, Hd|].
    pose proof (points_of_pos (color b)). split; nia.
  - split; [|exact Hw]. unfold game_wf; cbn. split; [|split; [|split; assumption]].
    + apply Forall_update_nth; [|exact Hf]. intros a _. unfold block_ok in *. cbn. lia.
    + rewrite map_update_nth by reflexivity. exact Hd.
Qed.

(** The walls keep the ball in [0, 100] across and at or below the top. *)
Lemma walls_ok p v :
  let np := fst (walls p v) in 0 <= px np <= 100 /\ 0 <= py np.
Proof.
  unfold walls. destruct (Qleb_spec (px p + px v) 0), (Qleb_spec 100 (px p + px v)), (Qleb_spec (py p + py v) 0);
    cbn; split; try split; lra.
Qed.

Lemma world_wf_ball w p : world_wf w -> 0 <= px p <= 100 -> 0 <= py p < 100 -> world_wf (with_ball p w).
Proof. intros (Hg & Hp & _ & _ & Hb & Hr) Hx Hy. repeat (split; [eassumption|]). exact Hr. Qed.

Lemma ballTick_spec sc : st_spec world_wf (ballTick sc) (fun _ => world_wf).
Proof.
  intros w Hw. unfold ballTick, st_bind, st_get. pose proof (walls_ok (ballPosition w) (ballVelocity w)) as Hwl.
  destruct (walls (ballPosition w) (ballVelocity w)) as [np nv]. cbn [fst] in Hwl.
  destruct (Qleb_spec 100 (py np)) as [Hf|Hf].
  - cbn. apply world_wf_game; [apply (damage_spec 10 ltac:(lra) w Hw)|]. destruct Hw as ((? & ? & ? & ?) & _). now repeat split.
  - set (hit := on_paddle (paddleX w) np).
    assert (Hw1 : world_wf (snd (st_when hit (repair 1) w))) by (destruct hit; [apply (repair_spec 1 ltac:(lra) w Hw) | exact Hw]).
    destruct (st_when hit (repair 1) w) as [[] w1]. cbn [snd] in Hw1.
    pose proof (collide_spec (px np) (py np) (game w1) (if hit then - Qabs (py nv) else py nv) (proj1 Hw1) w1 Hw1) as Hc.
    destruct (collide _ _ _ _ w1) as [[[g vy'] hb] w2]. cbn in Hc. destruct Hc as [Hg Hw2].
    cbn. apply world_wf_ball; [|lra|lra]. apply world_wf_game; [exact Hw2|].
    destruct (hb || negb (miss_resets sc)); [exact Hg|]. destruct Hg as (? & ? & ? & ?). repeat split; cbn; auto; lia.
Qed.

Lemma handleMouseMove_spec mx : st_spec world_wf (handleMouseMove mx) (fun _ => world_wf).
Proof.
  intros w (Hg & _ & Hx & Hy & Hb & Hr). unfold world_wf; cbn.
  split; [exact Hg | split; [|repeat (split; [eassumption|]); exact Hr]].
  split; [apply Q.max_le_iff; left; lra | apply Q.max_lub; [lra | apply Q.le_min_l]].
Qed.

Lemma resetGame_spec : st_spec world_wf resetGame (fun _ => world_wf).
Proof.
  eapply st_spec_bind; [|intro u; apply initializeLevel_spec].
  intros w Hw. apply world_wf_game; [exact Hw|]. destruct Hw as ((? & ? & _ & _) & _).
  repeat split; cbn; auto; lia.
Qed.

Lemma togglePause_spec : st_spec world_wf togglePause (fun _ => world_wf).
Proof. intros w Hw. apply world_wf_game; [exact Hw|]. exact (proj1 Hw). Qed.

Lemma breaker_step_wf w w' : world_wf w -> step w w' -> world_wf w'.
Proof.
  intros Hw Hs. destruct Hs as [w0 sc _ _|w0 _|w0 mx|w0|w0|w0 c Hc].
  - exact (ballTick_spec sc w0 Hw).
  - exact (glitchTick_spec w0 Hw).
  - exact (handleMouseMove_spec mx w0 Hw).
  - exact (resetGame_spec w0 Hw).
  - exact (togglePause_spec w0 Hw).
  - exact (world_wf_cs w0 c Hw Hc).
Qed.

Lemma breaker_mount_wf c rng0 :
  Stability.in_bounds (Chaos.stability c) -> draws_ok rng0 -> world_wf (mount c rng0).
Proof.
  intros Hb Hr. apply initializeLevel_spec. unfold world_wf, game_wf; cbn.
  split; [split; [constructor | split; [constructor | split; lia]]|].
  split; [split; lra|]. split; [split; lra|]. split; [split; lra|]. split; assumption.
Qed.

(** A firing in which the ball, off the floor and the paddle, enters the
    first block of the list, which it hits: the game state the updater
    leaves, and the ball's new velocity and position. *)
Lemma ballTick_first_block sc w b r np nv :
  walls (ballPosition w) (ballVelocity w) = (np, nv) ->
  py np < 100 -> on_paddle (paddleX w) np = false ->
  blocks (game w) = b :: r -> inside (px np) (py np) b = true -> glitched b = false ->
  let g := game w in
  let w' := st_exec (ballTick sc) w in
  let h := (health b - 1)%Z in
  (if (h <=? 0)%Z
   then game w' = mkGame r (score g + points_of (color b) * (combo g + 1)) (level g) (gameOver g) (isPaused g) (combo g + 1) /\
        ballVelocity w' = nv
   else game w' = set_blocks (set_health h b :: r) g /\
        ballVelocity w' = mkPoint (px nv) (if flip_seen sc then - py nv else py nv)) /\
  ballPosition w' = np.
Proof.
  intros Ew Hy Hp Eb Hi Hg g w' h. unfold w', st_exec, ballTick, st_bind, st_get. rewrite Ew.
  destruct (Qleb_spec 100 (py np)) as [H|_]; [lra|]. rewrite Hp. cbn [st_when st_ret].
  unfold collide, st_bind. rewrite Eb. cbn [scan]. rewrite Hi, Hg. cbn [st_ret]. fold h.
  destruct nv as [vx vy]. destruct (h <=? 0)%Z; cbn; repeat split; now destruct (flip_seen sc).
Qed.

(** ** Properties *)

(** From a provider with stability in [0, 100] and draws in [0, 1),
    every state reachable from mounting the breaker, for every schedule
    of the nested updaters, keeps every block at 1 to 4 hit points with
    distinct ids, score and combo non-negative, the paddle in [10, 90],
    the ball inside the field above the floor, and stability in
    [0, 100]. *)
Theorem reachable_breaker_wf c rng0 w :
  Stability.in_bounds (Chaos.stability c) -> draws_ok rng0 -> star step (mount c rng0) w ->
  game_wf (game w) /\ 10 <= paddleX w <= 90 /\
  0 <= px (ballPosition w) <= 100 /\ 0 <= py (ballPosition w) < 100 /\
  Stability.in_bounds (Chaos.stability (cs w)).
Proof.
  intros Hb Hr Hs. destruct (star_invariant step world_wf breaker_step_wf _ _ Hs (breaker_mount_wf c rng0 Hb Hr))
    as (Hg & Hp & Hx & Hy & Hb' & _).
  exact (conj Hg (conj Hp (conj Hx (conj Hy Hb')))).
Qed.

Definition half_rng (_ : nat) : Q := 1 # 2.

Lemma reachable_breaker_wf_witness :
  Stability.in_bounds (Chaos.stability Chaos.initialState) /\ draws_ok half_rng /\
  game_wf (game (st_exec togglePause (mount Chaos.initialState half_rng))).
Proof.
  assert (Hb : Stability.in_bounds (Chaos.stability Chaos.initialState)) by (unfold Stability.in_bounds; cbn; split; qle_vm).
  assert (Hr : draws_ok half_rng) by (intro n; unfold half_rng; split; [qle_vm | reflexivity]).
  split; [exact Hb | split; [exact Hr|]].
  exact (proj1 (reachable_breaker_wf _ _ _ Hb Hr (star_one _ _ _ (step_pause _)))).
Defined.

(** C34: A block destroyed by the ball does not deflect it: when the ball
    enters a block with one hit point left, the block is spliced out and
    scored, and the ball keeps its velocity, whatever the schedule, so it
    flies on into the blocks behind. *)
Theorem destroyed_block_no_bounce sc w b r np nv :
  walls (ballPosition w) (ballVelocity w) = (np, nv) ->
  py np < 100 -> on_paddle (paddleX w) np = false ->
  blocks (game w) = b :: r -> inside (px np) (py np) b = true -> glitched b = false -> health b = 1%Z ->
  let w' := st_exec (ballTick sc) w in
  blocks (game w') = r /\
  score (game w') = (score (game w) + points_of (color b) * (combo (game w) + 1))%Z /\
  ballVelocity w' = nv /\ ballPosition w' = np.
Proof.
  intros Ew Hy Hp Eb Hi Hg Hh w'. unfold w'.
  destruct (ballTick_first_block sc w b r np nv Ew Hy Hp Eb Hi Hg) as [H Hpos]. rewrite Hh in H. cbn in H.
  destruct H as [-> Hv]. repeat split; assumption.
Qed.

Definition one_block_world : World :=
  mkWorld (mkGame [mkBlock 0 0 10 "#39ff14" 1 false] 0 1 false false 0) 50 (mkPoint 5 20) (mkPoint 2 (-2))
    false Chaos.initialState half_rng 0.

Lemma destroyed_block_no_bounce_witness :
  let w' := st_exec (ballTick (mkSched true true)) one_block_world in
  blocks (game w') = [] /\ score (game w') = 30%Z /\ ballVelocity w' = mkPoint 2 (-2) /\ ballPosition w' = mkPoint 7 18.
Proof.
  refine (destroyed_block_no_bounce _ one_block_world (mkBlock 0 0 10 "#39ff14" 1 false) [] (mkPoint 7 18) (mkPoint 2 (-2))
            _ _ _ eq_refl _ eq_refl eq_refl); vm_compute; try reflexivity; intro; discriminate.
Defined.

(** A hit that leaves the block standing is kept although the updater
    returns the previous state: the block's health is one lower (the
    updater decremented the object the state shares), score and combo are
    unchanged, and the ball turns back only in the schedules where the
    inner updater's flip of [newVelY] is seen by [setBallVelocity]. *)
Theorem damaging_hit_mutates_block sc w b r np nv :
  walls (ballPosition w) (ballVelocity w) = (np, nv) ->
  py np < 100 -> on_paddle (paddleX w) np = false ->
  blocks (game w) = b :: r -> inside (px np) (py np) b = true -> glitched b = false -> (2 <= health b)%Z ->
  let w' := st_exec (ballTick sc) w in
  blocks (game w') = set_health (health b - 1) b :: r /\
  score (game w') = score (game w) /\ combo (game w') = combo (game w) /\
  py (ballVelocity w') = (if flip_seen sc then - py nv else py nv).
Proof.
  intros Ew Hy Hp Eb Hi Hg Hh w'. unfold w'.
  destruct (ballTick_first_block sc w b r np nv Ew Hy Hp Eb Hi Hg) as [H _].
  replace (health b - 1 <=? 0)%Z with false in H by (symmetry; apply Z.leb_gt; lia).
  destruct H as [-> ->]. repeat split.
Qed.

Lemma damaging_hit_mutates_block_witness :
  let w := with_game (mkGame [mkBlock 0 0 10 "#ff006e" 3 false] 0 1 false false 0) one_block_world in
  let w' := st_exec (ballTick (mkSched false true)) w in
  blocks (game w') = [mkBlock 0 0 10 "#ff006e" 2 false] /\ score (game w') = 0%Z /\ combo (game w') = 0%Z /\
  py (ballVelocity w') == -2.
Proof.
  destruct (damaging_hit_mutates_block (mkSched false true) (with_game (mkGame [mkBlock 0 0 10 "#ff006e" 3 false] 0 1 false false 0) one_block_world)
             (mkBlock 0 0 10 "#ff006e" 3 false) [] (mkPoint 7 18) (mkPoint 2 (-2))) as (H1 & H2 & H3 & H4);
    try (vm_compute; first [reflexivity | intro; discriminate]).
  cbn zeta. rewrite H1, H2, H3, H4. split; [reflexivity | split; [reflexivity | split; [reflexivity | reflexivity]]].
Defined.

End Breaker.
