(* ===== verification/Status.v ===== *)
(** * The system status screen of [screens/StatusScreen.tsx]

    [StatusScreen] (route [/status]) keeps [uptime] and the activity log
    [activities] (lines 14-15).  Its first effect sets the universe to
    [DEFAULT] (lines 17-19); its second (lines 21-49) starts two
    intervals, one every 3000 ms appending a random message of
    [newActivities] (the three critical ones included when the closure's
    [stability] is below 40) and keeping the last ten, one every 1000 ms
    adding a second to [uptime].  The effect depends on [[stability]]:
    every change of the provider's stability clears both intervals and
    starts them again.  The page shows the stability, [formatUptime]
    (lines 51-56), the linked portals, the resource gauges and the alert
    derived from the stability; ENERGIZE/OVERRIDE toggles the chaos mode,
    REBOOT and BACK navigate.

    The intervals are the record [Intervals], with the [stability] their
    closure captured and the due time of each; a firing is a step at its
    due time.  The rest of the application (the chaos provider's
    interval, mostly) is an environment step that replaces the provider's
    state at a time before the next due firing, with the stability in
    [0, 100], and React re-renders the screen.  [Math.random()] is the
    stream [rng] read in call order. *)

From S2P Require Import Prelude Stability Chaos.
From Stdlib Require Import QArith Qround Qminmax Lqa ZArith List String Bool Arith Lia.
Import ListNotations.

Open Scope Q_scope.
Open Scope chaos_scope.

Module Status.

(** ** Data (lines 14-38) *)

(** [newActivities] (lines 24-33). *)
Definition baseActivities : list string := [
  "Universe connection established";
  "Character data synchronized";
  "Glitch anomaly detected in sector 3";
  "Power core stabilized";
  "Memory allocation optimized";
  "Network latency: 12ms";
  "Backup routine completed";
  "Security scan passed"]%string.

(** The messages pushed when [stability < 40] (line 35). *)
Definition criticalActivities : list string :=
  ["CRITICAL_ERR: System divergence"; "WARN: Chaos integrity lost"; "ALERT: Portal destabilized"]%string.

Definition newActivities (stability : Q) : list string :=
  if stability <? 40 then baseActivities ++ criticalActivities else baseActivities.

Record Screen := mkScreen { uptime : Z; activities : list string }.

(** The two intervals of one run of the effect: the [stability] of the
    render whose effect created them, and the due time of each. *)
Record Intervals := mkIntervals { captured : Q; activityDue : Q; uptimeDue : Q }.

Record World := mkWorld {
  screen : option Screen;
  intervals : option Intervals;
  cs : Chaos.ChaosState;
  route : string;
  clock : Q;
  rng : nat -> Q;
  rng_pos : nat
}.

(** ** Operations *)

(** [.slice(-10)] *)
Definition slice_last {A} (n : nat) (l : list A) : list A := skipn (List.length l - n) l.

(** [newActivities[Math.floor(Math.random() * newActivities.length)]];
    an index out of range (never reached by draws in [[0, 1)]) reads the
    empty string here, [undefined] in the code. *)
Definition pick (stability r : Q) : string :=
  let l := newActivities stability in
  nth (Z.to_nat (Qfloor (r * inject_Z (Z.of_nat (List.length l))))) l EmptyString.

(** The effect of lines 21-49 run at time [t]: both intervals start. *)
Definition startIntervals (stability t : Q) : Intervals := mkIntervals stability (t + 3000) (t + 1000).

(** The mount: the state's initial values, [setUniverse("DEFAULT")], then
    the interval effect. *)
Definition mount (w : World) : World :=
  let c := Chaos.set_universe Chaos.DEFAULT (cs w) in
  mkWorld (Some (mkScreen 0 [])) (Some (startIntervals (Chaos.stability c) (clock w))) c "/status"
    (clock w) (rng w) (rng_pos w).

(** The activity interval's callback (lines 23-38): one draw, the
    [setActivities] updater, the interval re-armed 3000 ms later. *)
Definition activityTick (s : Screen) (i : Intervals) (w : World) : World :=
  let t := activityDue i in
  let a := pick (captured i) (rng w (rng_pos w)) in
  mkWorld (Some (mkScreen (uptime s) (slice_last 10 (activities s ++ [a]))))
    (Some (mkIntervals (captured i) (t + 3000) (uptimeDue i))) (cs w) (route w) t (rng w) (S (rng_pos w)).

(** The uptime interval's callback (lines 41-43). *)
Definition uptimeTick (s : Screen) (i : Intervals) (w : World) : World :=
  let t := uptimeDue i in
  mkWorld (Some (mkScreen (uptime s + 1) (activities s)))
    (Some (mkIntervals (captured i) (activityDue i) (t + 1000))) (cs w) (route w) t (rng w) (rng_pos w).

(** The provider's state becomes [c] at time [t] and React re-renders the
    screen: when [stability] changed (line 49), the cleanup (lines 45-48)
    clears both intervals and the effect starts new ones. *)
Definition rerender (c : Chaos.ChaosState) (t : Q) (w : World) : World :=
  let i' := match intervals w with
            | Some i => if Qeqb (Chaos.stability (cs w)) (Chaos.stability c) then Some i
                        else Some (startIntervals (Chaos.stability c) t)
            | None => None
            end in
  mkWorld (screen w) i' c (route w) t (rng w) (rng_pos w).

(** ENERGIZE / OVERRIDE (line 89): [setChaosMode(!isChaosMode)]. *)
Definition toggleChaos (w : World) : World :=
  rerender (Chaos.set_chaos (negb (Chaos.isChaosMode (cs w))) (cs w)) (clock w) w.

(** [navigate(path)]: the screen unmounts and its cleanup clears both
    intervals. *)
Definition navigate (path : string) (w : World) : World :=
  mkWorld None None (cs w) path (clock w) (rng w) (rng_pos w).

(** REBOOT (lines 58-60). *)
Definition handleRestart (w : World) : World := navigate "/boot" w.

(** No firing is overdue at time [t]. *)
Definition due_ok (t : Q) (o : option Intervals) : Prop :=
  match o with Some i => t <= activityDue i /\ t <= uptimeDue i | None => True end.

Inductive step : World -> World -> Prop :=
  | step_mount w : screen w = None -> step w (mount w)
  | step_activity w s i : screen w = Some s -> intervals w = Some i -> activityDue i <= uptimeDue i ->
      step w (activityTick s i w)
  | step_uptime w s i : screen w = Some s -> intervals w = Some i -> uptimeDue i <= activityDue i ->
      step w (uptimeTick s i w)
  | step_env w c t : clock w <= t -> due_ok t (intervals w) -> Stability.in_bounds (Chaos.stability c) ->
      step w (rerender c t w)
  | step_energize w s : screen w = Some s -> step w (toggleChaos w)
  | step_back w s : screen w = Some s -> step w (navigate "/dashboard" w)
  | step_reboot w s : screen w = Some s -> step w (handleRestart w).

(** ** The view (lines 62-287) *)

(** [formatUptime] (lines 51-56): floor division, and [%] on a
    non-negative count. *)
Definition uptime_parts (seconds : Z) : Z * Z * Z :=
  (seconds / 3600, Z.rem seconds 3600 / 60, Z.rem seconds 60)%Z.

Definition formatUptime (seconds : Z) : string :=
  let '(hours, mins, secs) := uptime_parts seconds in
  (show_Z hours ++ "h " ++ show_Z mins ++ "m " ++ show_Z secs ++ "s")%string.

(** The colour of the stability panel (lines 110-130). *)
Definition healthColor (stability : Q) : string :=
  if 85 <? stability then "#39ff14" else if 40 <? stability then "#ffff00" else "#ff006e".

(** PORTALS LINKED (line 171) and the icons that fade (line 180). *)
Definition portalsLinked (stability : Q) : string := if 20 <? stability then "4/4" else "1/4".
Definition fadedIcons (stability : Q) : list nat := filter (fun i => (stability <? 20) && (0 <? i)%nat) (seq 0 4).

(** The gauges of lines 230-234, each shown as [Math.round(value)]. *)
Definition cpuLoad (stability : Q) : Q := Qmin 99 (65 + (100 - stability) / 4).
Definition memLoad (stability : Q) : Q := Qmin 99 (82 + (100 - stability) / 5).

Record Panel := mkPanel {
  coreColor : string;
  corePercent : Z;
  coreShakes : bool;
  uptimeText : string;
  portals : string;
  faded : list nat;
  log : list string;
  gauges : list (string * Z);
  collapseAlert : bool
}.

Definition view (w : World) : option Panel :=
  match screen w with
  | None => None
  | Some s =>
      let st := Chaos.stability (cs w) in
      Some (mkPanel (healthColor st) (js_round st) (st <? 30) (formatUptime (uptime s))
              (portalsLinked st) (fadedIcons st) (activities s)
              [("CPU_CYCLES", js_round (cpuLoad st)); ("MEM_BUFFER", js_round (memLoad st));
               ("POWER_GRID", js_round st)]%string
              (st <? 50))
  end.

(** ** The invariant *)

Definition pool : list string := baseActivities ++ criticalActivities.

Definition screen_ok (s : Screen) : Prop :=
  (0 <= uptime s)%Z /\ (List.length (activities s) <= 10)%nat /\ Forall (fun a => In a pool) (activities s).

(** The closure's stability is the provider's current one, and each
    interval fires within one period. *)
Definition intervals_ok (c : Chaos.ChaosState) (t : Q) (i : Intervals) : Prop :=
  captured i == Chaos.stability c /\ (t <= activityDue i /\ activityDue i <= t + 3000) /\
  (t <= uptimeDue i /\ uptimeDue i <= t + 1000).

Definition world_wf (w : World) : Prop :=
  Stability.in_bounds (Chaos.stability (cs w)) /\ draws_ok (rng w) /\
  match screen w, intervals w with
  | Some s, Some i => screen_ok s /\ intervals_ok (cs w) (clock w) i
  | None, None => True
  | _, _ => False
  end.

(** ** Lemmas *)

Lemma newActivities_compat x y : x == y -> newActivities x = newActivities y.
Proof. intro H. unfold newActivities. now rewrite H. Qed.

Lemma newActivities_pool st a : In a (newActivities st) -> In a pool.
Proof.
  unfold newActivities, pool. destruct (st <? 40); [tauto|]. intro H. apply in_or_app. now left.
Qed.

Lemma pick_activity_in st r : 0 <= r < 1 -> In (pick st r) (newActivities st).
Proof.
  intro Hr. unfold pick. set (l := newActivities st).
  assert (Hn : (0 < Z.of_nat (List.length l))%Z) by (unfold l, newActivities; destruct (st <? 40); cbn; lia).
  destruct (Qfloor_index r _ Hr Hn) as [H0 H1]. apply nth_In. lia.
Qed.

Lemma slice_last_length {A} n (l : list A) : (List.length (slice_last n l) <= n)%nat.
Proof. unfold slice_last. rewrite length_skipn. lia. Qed.

Lemma slice_last_Forall {A} (P : A -> Prop) n l : Forall P l -> Forall P (slice_last n l).
Proof. apply Forall_skipn. Qed.

Lemma activityTick_wf w s i :
  world_wf w -> screen w = Some s -> intervals w = Some i -> activityDue i <= uptimeDue i ->
  world_wf (activityTick s i w).
Proof.
  intros (Hb & Hr & Hw) Hs Hi Hle. rewrite Hs, Hi in Hw. destruct Hw as [(Hu & Hl & Ha) (Hc & Hat & Hut)].
  split; [exact Hb|]. split; [intro n; apply Hr|]. cbn.
  split; [split; [exact Hu | split]|].
  - apply slice_last_length.
  - apply slice_last_Forall. apply Forall_app. split; [exact Ha|]. constructor; [|constructor].
    apply newActivities_pool with (captured i). apply pick_activity_in, Hr.
  - split; [exact Hc|]. cbn [activityDue uptimeDue captured]; split; split; lra.
Qed.

Lemma uptimeTick_wf w s i :
  world_wf w -> screen w = Some s -> intervals w = Some i -> uptimeDue i <= activityDue i ->
  world_wf (uptimeTick s i w).
Proof.
  intros (Hb & Hr & Hw) Hs Hi Hle. rewrite Hs, Hi in Hw. destruct Hw as [(Hu & Hl & Ha) (Hc & Hat & Hut)].
  split; [exact Hb|]. split; [exact Hr|]. unfold screen_ok, intervals_ok; cbn.
  split; [split; [lia | split; assumption]|]. split; [exact Hc|]. cbn [activityDue uptimeDue captured]; split; split; lra.
Qed.

Lemma rerender_wf c t w :
  world_wf w -> clock w <= t -> due_ok t (intervals w) -> Stability.in_bounds (Chaos.stability c) ->
  world_wf (rerender c t w).
Proof.
  intros (Hb & Hr & Hw) Ht Hd Hc. split; [exact Hc|]. split; [exact Hr|]. unfold rerender; cbn.
  destruct (screen w) as [s|], (intervals w) as [i|]; cbn in Hw; try contradiction; [|exact I].
  destruct Hw as [Hs (Hcap & Hat & Hut)]. cbn in Hd.
  destruct (Qeqb _ _) eqn:E; (split; [exact Hs|]).
  - apply Qeqb_iff in E. split; [rewrite Hcap; exact E|]. split; split; lra.
  - split; [reflexivity|]. cbn. split; split; lra.
Qed.

Lemma due_ok_clock w : world_wf w -> due_ok (clock w) (intervals w).
Proof.
  intros (_ & _ & Hw). destruct (screen w), (intervals w) as [i|]; cbn in *; try tauto.
  destruct Hw as [_ (_ & Hat & Hut)]. split; lra.
Qed.

Lemma status_mount_wf w :
  Stability.in_bounds (Chaos.stability (cs w)) -> draws_ok (rng w) -> world_wf (mount w).
Proof.
  intros Hb Hr. split; [exact Hb|]. split; [exact Hr|]. cbn.
  unfold screen_ok, intervals_ok; cbn. split; [split; [lia | split; [lia | constructor]]|]. split; [reflexivity|]. split; split; lra.
Qed.

Lemma status_step_wf w w' : world_wf w -> step w w' -> world_wf w'.
Proof.
  intros Hw Hs. destruct Hs as [w Hn|w s i Hs Hi Hle|w s i Hs Hi Hle|w c t Ht Hd Hc|w s Hs|w s Hs|w s Hs].
  - destruct Hw as (Hb & Hr & _). now apply status_mount_wf.
  - now apply activityTick_wf.
  - now apply uptimeTick_wf.
  - now apply rerender_wf.
  - apply rerender_wf; [exact Hw | lra | now apply due_ok_clock | apply Hw].
  - destruct Hw as (Hb & Hr & _). now split; [|split].
  - destruct Hw as (Hb & Hr & _). now split; [|split].
Qed.

Lemma critical_low st a : In a (newActivities st) -> In a criticalActivities -> st < 40.
Proof.
  unfold newActivities. destruct (Qltb_spec st 40) as [H|H]; [intros; exact H|].
  intros Hb Hc. exfalso. cbn in Hb, Hc. intuition (subst; discriminate).
Qed.

(** The rest of the application moves the stability every [d] ms,
    alternately to 50 and 51. *)
Definition nudge (d : Q) (w : World) : World :=
  rerender (Chaos.set_stability (if Qeqb (Chaos.stability (cs w)) 50 then 51 else 50) (cs w)) (clock w + d) w.

(** The screen as mounted, with the intervals started at the current time. *)
Definition fresh (w : World) : Prop :=
  screen w = Some (mkScreen 0 []) /\ exists st, intervals w = Some (startIntervals st (clock w)).

Lemma nudge_changes w : Qeqb (Chaos.stability (cs w))
  (Chaos.stability (Chaos.set_stability (if Qeqb (Chaos.stability (cs w)) 50 then 51 else 50) (cs w))) = false.
Proof.
  cbn. destruct (Qeqb _ 50) eqn:E; [|exact E].
  destruct (Qeqb _ 51) eqn:F; [|reflexivity]. apply Qeqb_iff in E, F. exfalso. lra.
Qed.

Lemma nudge_fresh d w :
  0 < d < 1000 -> fresh w -> step w (nudge d w) /\ fresh (nudge d w) /\ clock (nudge d w) = clock w + d.
Proof.
  intros Hd [Hs [st Hi]]. split; [|split].
  - apply step_env.
    + lra.
    + rewrite Hi. cbn. split; lra.
    + cbn. destruct (Qeqb _ 50); split; discriminate.
  - unfold fresh, nudge, rerender. rewrite Hi, nudge_changes. cbn. split; [exact Hs | eexists; reflexivity].
  - reflexivity.
Qed.

(** ** Properties *)

(** C23: Every state reached by the status screen from a well-formed one is
    well formed: stability in [0, 100], an uptime that is a natural number,
    at most ten activities each one of the eleven messages, and, while the
    screen is mounted, its two intervals due within one period and created
    by a closure whose [stability] is the provider's current one. *)
Theorem reachable_status_wf w0 w : world_wf w0 -> star step w0 w -> world_wf w.
Proof. intros H0 Hs. exact (star_invariant step world_wf status_step_wf w0 w Hs H0). Qed.

Definition half_rng (_ : nat) : Q := 1 # 2.

Definition away : World := mkWorld None None Chaos.initialState "/dashboard" 0 half_rng 0.

Lemma reachable_status_wf_witness : world_wf (mount away).
Proof.
  apply (reachable_status_wf away).
  - split; [split; cbn; qle_vm|]. split; [intro n; unfold half_rng; split; [qle_vm | reflexivity] | exact I].
  - apply star_one, step_mount. reflexivity.
Defined.

(** A firing of the activity interval appends one message to the log
    and keeps the last ten; the message is one of [newActivities] for the
    provider's current stability, and a critical message only when that
    stability is below 40. *)
Theorem activity_tick_message w s i :
  world_wf w -> screen w = Some s -> intervals w = Some i ->
  exists a, screen (activityTick s i w) = Some (mkScreen (uptime s) (slice_last 10 (activities s ++ [a]))) /\
            In a (newActivities (Chaos.stability (cs w))) /\
            (In a criticalActivities -> Chaos.stability (cs w) < 40).
Proof.
  intros (_ & Hr & Hw) Hs Hi. rewrite Hs, Hi in Hw. destruct Hw as [_ (Hc & _)].
  assert (Ha : In (pick (captured i) (rng w (rng_pos w))) (newActivities (Chaos.stability (cs w))))
    by (rewrite <- (newActivities_compat _ _ Hc); apply pick_activity_in, Hr).
  eexists. split; [reflexivity|]. split; [exact Ha | apply critical_low, Ha].
Qed.

Lemma activity_tick_message_witness :
  exists a, screen (activityTick (mkScreen 0 []) (startIntervals 85 0) (mount away)) =
              Some (mkScreen 0 (slice_last 10 ([] ++ [a]))) /\
            In a (newActivities (Chaos.stability (cs (mount away)))) /\
            (In a criticalActivities -> Chaos.stability (cs (mount away)) < 40).
Proof. exact (activity_tick_message (mount away) _ _ reachable_status_wf_witness eq_refl eq_refl). Defined.

(** C35: Sync Duration counts from the last change of the stability, not
    from the mount: when the rest of the application changes the stability
    every [d < 1000] ms, the screen stays as mounted, showing 0h 0m 0s and
    an empty log, however long it is open. *)
Theorem restless_stability_freezes_uptime w0 d n :
  screen w0 = None -> 0 < d < 1000 ->
  star step w0 (Nat.iter n (nudge d) (mount w0)) /\
  clock (Nat.iter n (nudge d) (mount w0)) == clock w0 + Qnat n * d /\
  screen (Nat.iter n (nudge d) (mount w0)) = Some (mkScreen 0 []) /\
  option_map uptimeText (view (Nat.iter n (nudge d) (mount w0))) = Some "0h 0m 0s"%string.
Proof.
  intros H0 Hd.
  assert (H : star step w0 (Nat.iter n (nudge d) (mount w0)) /\ fresh (Nat.iter n (nudge d) (mount w0)) /\
              clock (Nat.iter n (nudge d) (mount w0)) == clock w0 + Qnat n * d).
  { induction n as [|n (IHs & IHf & IHc)].
    - split; [apply star_one, step_mount, H0|]. split; [split; [reflexivity | eexists; reflexivity]|].
      change (Nat.iter 0 (nudge d) (mount w0)) with (mount w0). cbn [mount clock]. unfold Qnat. change (inject_Z (Z.of_nat 0)) with 0. lra.
    - destruct (nudge_fresh d _ Hd IHf) as (Hst & Hf & Hc). rewrite !Nat.iter_succ. split; [|split; [exact Hf|]].
      + apply star_trans with (1 := IHs), star_one, Hst.
      + rewrite Hc, IHc. unfold Qnat. rewrite Nat2Z.inj_succ, <- Z.add_1_r, inject_Z_plus. ring. }
  destruct H as (Hs & [Hf _] & Hc). split; [exact Hs|]. split; [exact Hc|]. split; [exact Hf|].
  unfold view. now rewrite Hf.
Qed.

Lemma restless_stability_freezes_uptime_witness :
  star step away (Nat.iter 3 (nudge 999) (mount away)) /\
  clock (Nat.iter 3 (nudge 999) (mount away)) == clock away + Qnat 3 * 999 /\
  screen (Nat.iter 3 (nudge 999) (mount away)) = Some (mkScreen 0 []) /\
  option_map uptimeText (view (Nat.iter 3 (nudge 999) (mount away))) = Some "0h 0m 0s"%string.
Proof. apply restless_stability_freezes_uptime; [reflexivity | split; reflexivity]. Defined.

(** [formatUptime] splits a non-negative count of seconds into hours,
    minutes below 60 and seconds below 60 that add up to it. *)
Theorem uptime_parts_spec sec : (0 <= sec)%Z ->
  let '(h, m, x) := uptime_parts sec in (h * 3600 + m * 60 + x = sec /\ 0 <= m < 60 /\ 0 <= x < 60)%Z.
Proof.
  intro H. unfold uptime_parts. cbv beta iota. rewrite !Z.rem_mod_nonneg by lia.
  rewrite <- (Z.mod_mod_divide sec 3600 60) by (exists 60%Z; reflexivity).
  pose proof (Z.div_mod sec 3600). pose proof (Z.div_mod (sec mod 3600) 60).
  pose proof (Z.mod_pos_bound sec 3600). pose proof (Z.mod_pos_bound (sec mod 3600) 60).
  lia.
Qed.

(** The gauges stay in their ranges: CPU_CYCLES in [65, 90] and
    MEM_BUFFER in [82, 99] (capped below a stability of 15). *)
Theorem gauges_bounded st : Stability.in_bounds st -> 65 <= cpuLoad st <= 90 /\ 82 <= memLoad st <= 99.
Proof. intros [H0 H1]. unfold cpuLoad, memLoad, Qdiv. change (/ 4) with (1 # 4). change (/ 5) with (1 # 5). split; qminmax; split; lra. Qed.

(** At a stability of exactly 20 the screen reports one portal linked of
    four but fades none of the three icons, whose fading starts below 20. *)
Lemma portals_disagree_at_20 : portalsLinked 20 = "1/4"%string /\ fadedIcons 20 = [].
Proof. split; vm_compute; reflexivity. Qed.

End Status.
