(* ===== verification/Layout.v ===== *)
(** * The page frame of [MainLayout.tsx]

    [MainLayout] (lines 67-73) wraps every route in the [ChaosProvider];
    [MainLayoutInner] (lines 75-235) keeps [prevUniverse], [isWarping],
    [mousePos] and a local [tornadoActive] (lines 78-81).  Its first
    effect (lines 91-102) depends on [[currentUniverse, prevUniverse]]:
    when the provider's universe differs from [prevUniverse] it shows the
    warp overlay and arms a 1200 ms timeout that hides it and copies the
    universe of its closure into [prevUniverse]; the cleanup clears the
    timeout.  Its second effect follows the mouse (lines 104-113).  The
    page derives from the provider its class (line 116), the overlays of
    [ChaosEffects] (lines 42-61), the logout blackout, the tilt, the
    animation of the routed screen and the power-outage overlay (lines
    166-225).

    The provider's state is a [Chaos.ChaosState]; the screens change its
    universe ([setUniverse] of Snake, Repair, Character, Status and the
    dashboard cards), which is an environment step at a time before the
    pending timeout is due.  After each change React commits and re-runs
    the effect when one of its dependencies changed ([commit]).  The
    timeout is the record of its due time and the [currentUniverse] its
    closure captured. *)

From S2P Require Import Prelude Stability Signals Chaos.
From Stdlib Require Import QArith Qround Lqa ZArith List String Bool Lia.
Import ListNotations.

Open Scope Q_scope.
Open Scope chaos_scope.

Module Layout.
Import Chaos.

(** ** Data (lines 75-89) *)

Definition universe_eq_dec (a b : UniverseType) : {a = b} + {a <> b}.
Proof. decide equality. Defined.

(** [!==] on the universe strings. *)
Definition universe_eqb (a b : UniverseType) : bool := if universe_eq_dec a b then true else false.

(** [universeThemes[currentUniverse]] (lines 84-89). *)
Definition universeThemes (u : UniverseType) : string :=
  match u with
  | DEFAULT => "bg-[#0a0a0c] shadow-[inset_0_0_100px_rgba(0,240,255,0.1)]"
  | FIX_IT => "bg-[#1a1a2e] shadow-[inset_0_0_100px_rgba(255,255,0,0.1)]"
  | SUGAR_RUSH => "bg-[#2d0a1a] shadow-[inset_0_0_100px_rgba(255,0,110,0.1)]"
  | HEROS_DUTY => "bg-[#0a1a0f] shadow-[inset_0_0_100px_rgba(57,255,20,0.1)]"
  end%string.

Record Point := mkPoint { mx : Q; my : Q }.

(** The pending warp timeout: its due time and the [currentUniverse] of
    its closure. *)
Record WarpTimer := mkTimer { due : Q; target : UniverseType }.

Record World := mkWorld {
  cs : ChaosState;
  prevUniverse : UniverseType;
  isWarping : bool;
  tornadoActive : bool;
  warpTimer : option WarpTimer;
  clock : Q;
  mousePos : Point
}.

(** [useState(currentUniverse)] and the other initial values. *)
Definition mount (c : ChaosState) (t : Q) : World :=
  mkWorld c (currentUniverse c) false false None t (mkPoint 0 0).

(** ** The warp effect (lines 91-102) *)

(** The effect's body after its cleanup cleared the pending timeout. *)
Definition warpEffect (w : World) : World :=
  let u := currentUniverse (cs w) in
  if universe_eqb u (prevUniverse w)
  then mkWorld (cs w) (prevUniverse w) (isWarping w) (tornadoActive w) None (clock w) (mousePos w)
  else mkWorld (cs w) (prevUniverse w) true true (Some (mkTimer (clock w + 1200) u)) (clock w) (mousePos w).

(** React's commit after a state change: the effect re-runs when
    [currentUniverse] or [prevUniverse] changed. *)
Definition commit (before after : World) : World :=
  if universe_eqb (currentUniverse (cs before)) (currentUniverse (cs after)) &&
     universe_eqb (prevUniverse before) (prevUniverse after)
  then after else warpEffect after.

(** A screen calls [setUniverse(u)] at time [t]. *)
Definition setUniverseAt (u : UniverseType) (t : Q) (w : World) : World :=
  commit w (mkWorld (set_universe u (cs w)) (prevUniverse w) (isWarping w) (tornadoActive w) (warpTimer w) t (mousePos w)).

(** The timeout's callback (lines 95-99) at its due time. *)
Definition fireWarp (tm : WarpTimer) (w : World) : World :=
  commit w (mkWorld (cs w) (target tm) false false None (due tm) (mousePos w)).

(** [handleMove] (lines 105-110) for a pointer at [(x, y)] in a window
    of [iw] by [ih]. *)
Definition handleMove (x y iw ih : Q) (w : World) : World :=
  mkWorld (cs w) (prevUniverse w) (isWarping w) (tornadoActive w) (warpTimer w) (clock w)
    (mkPoint ((x / iw - (1 # 2)) * 10) ((y / ih - (1 # 2)) * 10)).

Definition timer_ok (t : Q) (o : option WarpTimer) : Prop :=
  match o with Some tm => t <= due tm | None => True end.

Inductive step : World -> World -> Prop :=
  | step_universe w u t : clock w <= t -> timer_ok t (warpTimer w) -> step w (setUniverseAt u t w)
  | step_fire w tm : warpTimer w = Some tm -> step w (fireWarp tm w)
  | step_mouse w x y iw ih : 0 < iw -> 0 < ih -> step w (handleMove x y iw ih w).

(** ** The frame (lines 20-61 and 115-225) *)

(** The animation of the routed screen (lines 187-206). *)
Inductive MainAnim := FallAway | Shake | Still.

(** [ChaosEffects] (lines 20-63): the opacity of the global glitch filter
    and whether the chaos vortex is shown; the other children are visual
    components of their own. *)
Definition chaosEffects (c : ChaosState) : Q * bool :=
  (if isChaosMode c then 3 # 10 else glitchOf c * (15 # 100), isChaosMode c).

Record Frame := mkFrame {
  chaosLevel : Z;               (* chaos-level-${Math.floor(stability / 10)} *)
  theme : string;
  glitchOpacity : Q;            (* the global glitch filter, line 46 *)
  vortex : bool;                (* lines 52-61 *)
  warpOverlay : bool;           (* lines 126-165 *)
  blackout : bool;              (* lines 167-176 *)
  tilt : Q * Q;                 (* rotateX, rotateY, lines 181-184 *)
  mainAnim : MainAnim;
  outageOverlay : bool          (* lines 217-227 *)
}.

Definition frame (w : World) : Frame :=
  let c := cs w in
  mkFrame (Qfloor (stability c / 10)) (universeThemes (currentUniverse c))
    (fst (chaosEffects c)) (snd (chaosEffects c))
    (isWarping w) (isLoggingOut c) (- my (mousePos w) * (2 # 10), mx (mousePos w) * (2 # 10))
    (if isLoggingOut c then FallAway else if isChaosMode c then Shake else Still)
    (isPowerOutage c).

(** ** The invariant *)

(** The local [tornadoActive] follows [isWarping]; a pending timeout
    carries the current universe, which differs from [prevUniverse], with
    the warp shown, and is due within 1200 ms; without one the two
    universes agree. *)
Definition world_wf (w : World) : Prop :=
  tornadoActive w = isWarping w /\
  match warpTimer w with
  | Some tm => target tm = currentUniverse (cs w) /\ target tm <> prevUniverse w /\ isWarping w = true /\
               clock w <= due tm /\ due tm <= clock w + 1200
  | None => currentUniverse (cs w) = prevUniverse w
  end.

(** The warp shown with no timeout left to hide it. *)
Definition stuck (w : World) : Prop :=
  isWarping w = true /\ warpTimer w = None /\ currentUniverse (cs w) = prevUniverse w.

(** A step that leaves the provider's universe as it was. *)
Definition same_universe_step (w w' : World) : Prop :=
  step w w' /\ currentUniverse (cs w') = currentUniverse (cs w).

(** ** Lemmas *)

Lemma universe_eqb_spec a b : reflect (a = b) (universe_eqb a b).
Proof. unfold universe_eqb. destruct (universe_eq_dec a b); constructor; assumption. Qed.

Lemma universe_eqb_refl a : universe_eqb a a = true.
Proof. now destruct (universe_eqb_spec a a). Qed.

Lemma cs_commit w w' : cs (commit w w') = cs w'.
Proof. unfold commit, warpEffect. destruct (_ && _); [|destruct (universe_eqb _ _)]; reflexivity. Qed.

Lemma warpEffect_wf w :
  tornadoActive w = isWarping w -> world_wf (warpEffect w).
Proof.
  intro Ht. unfold warpEffect. destruct (universe_eqb_spec (currentUniverse (cs w)) (prevUniverse w)) as [E|E].
  - split; [exact Ht | exact E].
  - split; [reflexivity|]. cbn. repeat split; try assumption; lra.
Qed.

Lemma setUniverseAt_wf u t w :
  world_wf w -> clock w <= t -> timer_ok t (warpTimer w) -> world_wf (setUniverseAt u t w).
Proof.
  intros [Ht Hw] Hc Hd. unfold setUniverseAt, commit. cbn [cs prevUniverse currentUniverse set_universe].
  destruct (universe_eqb_spec (currentUniverse (cs w)) u) as [<-|E]; cbn [andb].
  - rewrite universe_eqb_refl. split; [exact Ht|]. cbn.
    destruct (warpTimer w) as [tm|]; [|exact Hw]. cbn in Hd. destruct Hw as (H1 & H2 & H3 & H4 & H5).
    repeat split; try assumption; lra.
  - now apply warpEffect_wf.
Qed.

Lemma fireWarp_wf w tm : world_wf w -> warpTimer w = Some tm -> world_wf (fireWarp tm w).
Proof.
  intros [Ht Hw] Htm. rewrite Htm in Hw. destruct Hw as (H1 & H2 & H3 & H4 & H5).
  unfold fireWarp, commit. cbn [cs prevUniverse]. rewrite universe_eqb_refl. cbn [andb].
  destruct (universe_eqb_spec (prevUniverse w) (target tm)) as [E|E]; [congruence|].
  unfold warpEffect. cbn. rewrite H1, universe_eqb_refl. split; reflexivity.
Qed.

Lemma layout_step_wf w w' : world_wf w -> step w w' -> world_wf w'.
Proof.
  intros Hw Hs. destruct Hs as [w u t Hc Hd|w tm Htm|w x y iw ih _ _].
  - now apply setUniverseAt_wf.
  - now apply fireWarp_wf.
  - exact Hw.
Qed.

Lemma layout_mount_wf c t : world_wf (mount c t).
Proof. split; reflexivity. Qed.

Lemma stuck_same_step w w' : stuck w -> same_universe_step w w' -> stuck w'.
Proof.
  intros (Hw & Ht & Hu) [Hs Hsame]. destruct Hs as [w u t Hc Hd|w tm Htm|w x y iw ih _ _].
  - unfold setUniverseAt in Hsame. rewrite cs_commit in Hsame. cbn in Hsame. subst u. unfold setUniverseAt, commit. cbn [cs prevUniverse currentUniverse set_universe].
    rewrite !universe_eqb_refl. cbn. now repeat split.
  - congruence.
  - now repeat split.
Qed.

(** A change to a universe other than [prevUniverse] leaves a pending
    timeout for that universe, due within 1200 ms, with the warp shown. *)
Lemma setUniverseAt_away u t w :
  world_wf w -> clock w <= t -> timer_ok t (warpTimer w) -> u <> prevUniverse w ->
  exists tm, warpTimer (setUniverseAt u t w) = Some tm /\ target tm = u /\ due tm <= t + 1200 /\
             isWarping (setUniverseAt u t w) = true.
Proof.
  intros [_ Hw] Hc Hd Hu. unfold setUniverseAt, commit. cbn [cs prevUniverse currentUniverse set_universe].
  destruct (universe_eqb_spec (currentUniverse (cs w)) u) as [E|E]; cbn [andb].
  - rewrite universe_eqb_refl. cbn. destruct (warpTimer w) as [tm|]; [|congruence].
    destruct Hw as (H1 & _ & H3 & _ & H5). exists tm. repeat split; [congruence | lra | exact H3].
  - unfold warpEffect. cbn. destruct (universe_eqb_spec u (prevUniverse w)) as [E'|_]; [congruence|].
    eexists. repeat split; cbn; lra.
Qed.

Lemma fireWarp_settles w tm :
  world_wf w -> warpTimer w = Some tm ->
  isWarping (fireWarp tm w) = false /\ prevUniverse (fireWarp tm w) = target tm /\
  warpTimer (fireWarp tm w) = None /\ clock (fireWarp tm w) = due tm.
Proof.
  intros [_ Hw] Htm. rewrite Htm in Hw. destruct Hw as (H1 & H2 & _).
  unfold fireWarp, commit. cbn [cs prevUniverse]. rewrite universe_eqb_refl. cbn [andb].
  destruct (universe_eqb_spec (prevUniverse w) (target tm)) as [E|E]; [congruence|].
  unfold warpEffect. cbn. rewrite H1, universe_eqb_refl. now repeat split.
Qed.

(** ** Properties *)

(** Every state of the page frame reached from the mount is well
    formed: the local tornado flag follows [isWarping], a pending warp
    timeout carries the provider's current universe, differs from
    [prevUniverse], shows the warp and is due within 1200 ms, and without
    a pending timeout the two universes agree. *)
Theorem reachable_layout_wf c t w : star step (mount c t) w -> world_wf w.
Proof. intro Hs. exact (star_invariant step world_wf layout_step_wf _ _ Hs (layout_mount_wf c t)). Qed.

Lemma reachable_layout_wf_witness :
  world_wf (setUniverseAt HEROS_DUTY 0 (mount initialState 0)).
Proof.
  apply (reachable_layout_wf initialState 0). apply star_one, step_universe; [apply Qle_refl | exact I].
Defined.

(** C24: A screen that moves the provider to a universe other than
    [prevUniverse] starts the warp, and when no other change comes before
    its timeout, which is due within 1200 ms, the timeout hides the warp
    and [prevUniverse] becomes that universe, with no timeout left. *)
Theorem universe_change_warps w u t :
  world_wf w -> clock w <= t -> timer_ok t (warpTimer w) -> u <> prevUniverse w ->
  exists tm, warpTimer (setUniverseAt u t w) = Some tm /\ due tm <= t + 1200 /\
    isWarping (setUniverseAt u t w) = true /\
    isWarping (fireWarp tm (setUniverseAt u t w)) = false /\
    prevUniverse (fireWarp tm (setUniverseAt u t w)) = u /\
    warpTimer (fireWarp tm (setUniverseAt u t w)) = None.
Proof.
  intros Hw Hc Hd Hu. destruct (setUniverseAt_away u t w Hw Hc Hd Hu) as (tm & Htm & Hu' & Hdue & Hwarp).
  assert (Hw1 : world_wf (setUniverseAt u t w)) by (now apply setUniverseAt_wf).
  destruct (fireWarp_settles _ tm Hw1 Htm) as (H1 & H2 & H3 & _).
  exists tm. repeat split; try assumption. congruence.
Qed.

Lemma universe_change_warps_witness :
  exists tm, warpTimer (setUniverseAt SUGAR_RUSH 0 (mount initialState 0)) = Some tm /\ due tm <= 0 + 1200 /\
    isWarping (setUniverseAt SUGAR_RUSH 0 (mount initialState 0)) = true /\
    isWarping (fireWarp tm (setUniverseAt SUGAR_RUSH 0 (mount initialState 0))) = false /\
    prevUniverse (fireWarp tm (setUniverseAt SUGAR_RUSH 0 (mount initialState 0))) = SUGAR_RUSH /\
    warpTimer (fireWarp tm (setUniverseAt SUGAR_RUSH 0 (mount initialState 0))) = None.
Proof.
  apply universe_change_warps; [apply layout_mount_wf | cbn; lra | exact I | discriminate].
Defined.

(** C36: A universe change undone within 1200 ms strands the warp: from a
    settled page, moving to another universe and back before the timeout
    clears the timeout in the effect's cleanup and arms none, since the
    universe equals [prevUniverse] again; [isWarping] then stays [true],
    the warp overlay stays mounted, and no step short of another universe
    change ever resets it. *)
Theorem quick_return_strands_warp w b t1 t2 w' :
  world_wf w -> warpTimer w = None -> b <> currentUniverse (cs w) ->
  clock w <= t1 -> t1 <= t2 -> t2 <= t1 + 1200 ->
  star same_universe_step (setUniverseAt (currentUniverse (cs w)) t2 (setUniverseAt b t1 w)) w' ->
  star step w (setUniverseAt (currentUniverse (cs w)) t2 (setUniverseAt b t1 w)) /\
  isWarping w' = true /\ warpOverlay (frame w') = true /\ warpTimer w' = None.
Proof.
  intros [_ Hw] Hn Hb H1 H2 H3 Hs. rewrite Hn in Hw.
  assert (Hw1 : isWarping (setUniverseAt b t1 w) = true /\ warpTimer (setUniverseAt b t1 w) = Some (mkTimer (t1 + 1200) b)
                /\ clock (setUniverseAt b t1 w) = t1 /\ cs (setUniverseAt b t1 w) = set_universe b (cs w)
                /\ prevUniverse (setUniverseAt b t1 w) = currentUniverse (cs w)).
  { unfold setUniverseAt, commit, warpEffect. cbn [cs prevUniverse currentUniverse set_universe].
    destruct (universe_eqb_spec (currentUniverse (cs w)) b) as [E|_]; [congruence|]. cbn [andb].
    destruct (universe_eqb_spec b (prevUniverse w)) as [E|_]; [congruence|]. cbn. repeat split; congruence. }
  destruct Hw1 as (Hwa & Htm & Hcl & Hcs & Hpv).
  assert (Hst : stuck (setUniverseAt (currentUniverse (cs w)) t2 (setUniverseAt b t1 w))).
  { unfold setUniverseAt at 1, commit, warpEffect. rewrite Hcs, Hpv. cbn [cs prevUniverse currentUniverse set_universe].
    destruct (universe_eqb_spec b (currentUniverse (cs w))) as [E|_]; [congruence|]. cbn [andb].
    rewrite universe_eqb_refl. cbn. now repeat split. }
  split.
  - apply star_step with (setUniverseAt b t1 w); [apply step_universe; [exact H1 | rewrite Hn; exact I]|].
    apply star_one, step_universe; [rewrite Hcl; exact H2 | rewrite Htm; cbn; exact H3].
  - destruct (star_invariant same_universe_step stuck stuck_same_step _ _ Hs Hst) as (Hi & Ht & _).
    now repeat split.
Qed.

Lemma quick_return_strands_warp_witness :
  star step (mount initialState 0)
    (setUniverseAt (currentUniverse (cs (mount initialState 0))) 500 (setUniverseAt HEROS_DUTY 0 (mount initialState 0))) /\
  isWarping (setUniverseAt (currentUniverse (cs (mount initialState 0))) 500 (setUniverseAt HEROS_DUTY 0 (mount initialState 0))) = true /\
  warpOverlay (frame (setUniverseAt (currentUniverse (cs (mount initialState 0))) 500 (setUniverseAt HEROS_DUTY 0 (mount initialState 0)))) = true /\
  warpTimer (setUniverseAt (currentUniverse (cs (mount initialState 0))) 500 (setUniverseAt HEROS_DUTY 0 (mount initialState 0))) = None.
Proof.
  apply quick_return_strands_warp; [apply layout_mount_wf | reflexivity | discriminate | cbn; lra | lra | lra | apply star_refl].
Defined.

(** The frame's derived values stay in range: [chaos-level-0] to
    [chaos-level-10], and the glitch filter's opacity in [0, 0.3]. *)
Lemma frame_bounds w :
  Stability.in_bounds (stability (cs w)) ->
  (0 <= chaosLevel (frame w) <= 10)%Z /\ 0 <= glitchOpacity (frame w) <= 3 # 10.
Proof.
  intro Hb. pose proof (Signals.glitch_range (isChaosMode (cs w)) _ Hb) as Hg. destruct Hb as [H0 H1].
  unfold frame, chaosEffects. cbn [chaosLevel glitchOpacity fst]. split.
  - split.
    + change 0%Z with (Qfloor 0). apply Qfloor_resp_le. unfold Qdiv. change (/ 10) with (1 # 10). lra.
    + enough (H : (Qfloor (stability (cs w) / 10) <= Qfloor 10)%Z) by exact H. apply Qfloor_resp_le. unfold Qdiv. change (/ 10) with (1 # 10). lra.
  - unfold glitchOf. destruct (isChaosMode (cs w)); [split; qle_vm|]. split; lra.
Qed.

End Layout.
