(* ===== verification/Puzzle.v ===== *)
(** * The random puzzle popup of [components/RandomPuzzlePopup.tsx]

    [RandomPuzzlePopup] is rendered by [MainLayout]'s [ChaosEffects] with
    [onSolve = () => repairStability(15)] (MainLayout.tsx line 29).  It
    keeps [show], [puzzle], [input] and [error] (lines 27-30).  Its mount
    effect (lines 32-44) arms a timeout of [Math.random() * 30000 + 20000]
    ms whose callback picks a random entry of [PUZZLES] (lines 13-20),
    shows it and arms the next timeout the same way; the cleanup clears the
    first timeout only.  [handleSubmit] (lines 46-56) compares the
    upper-cased input with the answer: a match hides the popup, clears the
    input and calls [onSolve]; anything else shows the error and clears it
    500 ms later.  The X button hides the popup (line 88).

    The timeouts are a [Timers.queue]; [Math.random()] is the stream [rng]
    read in call order; [toUpperCase] is [Cheat.toUpperCase], which maps
    ASCII letters only: strings are byte strings here, and JavaScript's
    full Unicode case mapping (e.g. U+FB00 to "FF") is not modelled.  The
    answers are ASCII, so an input matches here only when it matches in
    JavaScript; an input with a non-ASCII letter that upper-cases to an
    answer is a match the model does not show. *)

From S2P Require Import Prelude Stability Timers Chaos Cheat.
From Stdlib Require Import QArith Qround Qminmax Lqa ZArith List String Bool Arith Lia.
Import ListNotations.

Open Scope Q_scope.
Open Scope chaos_scope.

Module Puzzle.

(** ** Data (lines 7-30) *)

Inductive PuzzleType := riddle | code | math.

Record Puzzle := mkPuzzle { question : string; answer : string; ptype : PuzzleType }.

Definition PUZZLES : list Puzzle := [
  mkPuzzle "I speak without a mouth and hear without ears. I have no body, but I come alive with wind. What am I?" "ECHO" riddle;
  mkPuzzle "The more of them you take, the more you leave behind. What are they?" "FOOTSTEPS" riddle;
  mkPuzzle "What has keys but no locks, space but no room, and allows you to enter but never leave?" "KEYBOARD" riddle;
  mkPuzzle "Solve: 2^5 + 8 * 2" "48" math;
  mkPuzzle "Binary for 7?" "111" code;
  mkPuzzle "Hex for 255?" "FF" code]%string.

(** The callbacks of the component's timeouts. *)
Inductive Callback := Trigger | ClearError.

Record World := mkWorld {
  show : bool;
  puzzle : option Puzzle;
  input : string;
  error : bool;
  timers : Timers.queue Callback;
  effectTimer : nat;                (* the [timer] the effect's cleanup clears *)
  cs : Chaos.ChaosState;
  clock : Q;
  rng : nat -> Q;
  rng_pos : nat
}.

Definition with_timers q w :=
  mkWorld (show w) (puzzle w) (input w) (error w) q (effectTimer w) (cs w) (clock w) (rng w) (rng_pos w).

(** ** Operations *)

(** [Math.random()] *)
Definition random : St World Q :=
  fun w => (rng w (rng_pos w),
            mkWorld (show w) (puzzle w) (input w) (error w) (timers w) (effectTimer w) (cs w) (clock w) (rng w) (S (rng_pos w))).

(** [triggerRandomly()] (lines 33-40): one draw for the delay, one
    timeout; it returns the timeout's handle. *)
Definition triggerRandomly : St World nat :=
  r <- random ;;
  fun w => (Timers.next_id (timers w),
            with_timers (Timers.setTimeout (clock w) (r * 30000 + 20000) Trigger (timers w)) w).

(** [PUZZLES[Math.floor(Math.random() * PUZZLES.length)]]; an index out
    of range (never reached by draws in [[0, 1)]) gives [undefined]. *)
Definition pickPuzzle (r : Q) : option Puzzle :=
  nth_error PUZZLES (Z.to_nat (Qfloor (r * inject_Z (Z.of_nat (List.length PUZZLES))))).

(** The mount: the initial state, then the effect (lines 42-43). *)
Definition mount (c : Chaos.ChaosState) (t : Q) (rng0 : nat -> Q) : World :=
  let w0 := mkWorld false None "" false Timers.empty_queue 0 c t rng0 0 in
  let (id, w1) := triggerRandomly w0 in
  mkWorld (show w1) (puzzle w1) (input w1) (error w1) (timers w1) id (cs w1) (clock w1) (rng w1) (rng_pos w1).

(** The trigger's callback (lines 35-39): a random puzzle shown, then the
    next timeout, whose handle is dropped. *)
Definition fireTrigger : St World unit :=
  r <- random ;;
  st_modify (fun w => mkWorld true (pickPuzzle r) (input w) (error w) (timers w) (effectTimer w) (cs w) (clock w) (rng w) (rng_pos w)) ;;
  _ <- triggerRandomly ;;
  st_ret tt.

(** [() => setError(false)] *)
Definition clearError (w : World) : World :=
  mkWorld (show w) (puzzle w) (input w) false (timers w) (effectTimer w) (cs w) (clock w) (rng w) (rng_pos w).

(** A due timeout fires: it leaves the queue, the clock moves to its due
    time, its callback runs. *)
Definition fire (u : Timers.timer Callback) (w : World) : World :=
  let w0 := mkWorld (show w) (puzzle w) (input w) (error w) (Timers.clearTimeout (Timers.t_id u) (timers w))
                    (effectTimer w) (cs w) (Timers.t_due u) (rng w) (rng_pos w) in
  match Timers.t_cb u with
  | Trigger => st_exec fireTrigger w0
  | ClearError => clearError w0
  end.

(** [handleSubmit] (lines 46-56), with [onSolve] = [repairStability(15)]. *)
Definition handleSubmit (w : World) : World :=
  match puzzle w with
  | Some p =>
      if String.eqb (Cheat.Cheat.toUpperCase (input w)) (Cheat.Cheat.toUpperCase (answer p)) then
        mkWorld false (puzzle w) "" false (timers w) (effectTimer w) (store_repair 15 (cs w)) (clock w) (rng w) (rng_pos w)
      else
        mkWorld (show w) (puzzle w) (input w) true (Timers.setTimeout (clock w) 500 ClearError (timers w))
          (effectTimer w) (cs w) (clock w) (rng w) (rng_pos w)
  | None =>
      mkWorld (show w) (puzzle w) (input w) true (Timers.setTimeout (clock w) 500 ClearError (timers w))
        (effectTimer w) (cs w) (clock w) (rng w) (rng_pos w)
  end.

(** The input's [onChange] (line 104) and the X button (line 88). *)
Definition setInput (v : string) (w : World) : World :=
  mkWorld (show w) (puzzle w) v (error w) (timers w) (effectTimer w) (cs w) (clock w) (rng w) (rng_pos w).
Definition close (w : World) : World :=
  mkWorld false (puzzle w) (input w) (error w) (timers w) (effectTimer w) (cs w) (clock w) (rng w) (rng_pos w).

(** The effect's cleanup (line 43). *)
Definition unmount (w : World) : World := with_timers (Timers.clearTimeout (effectTimer w) (timers w)) w.

(** The popup's events while it is mounted (the layout never unmounts
    it); the rest of the application changes the provider's state with the
    stability in [0, 100]. *)
Inductive step : World -> World -> Prop :=
  | step_fire w u : Timers.earliest (Timers.pending (timers w)) = Some u -> step w (fire u w)
  | step_type w v : show w = true -> step w (setInput v w)
  | step_submit w : show w = true -> step w (handleSubmit w)
  | step_close w : show w = true -> step w (close w)
  | step_env w c t : clock w <= t -> Timers.queue_wf t (timers w) -> Stability.in_bounds (Chaos.stability c) ->
      step w (mkWorld (show w) (puzzle w) (input w) (error w) (timers w) (effectTimer w) c t (rng w) (rng_pos w)).

(** ** The invariant *)

(** Exactly one trigger timeout is pending, due within 50 s. *)
Definition one_trigger (t : Q) (q : Timers.queue Callback) : Prop :=
  exists u, In u (Timers.pending q) /\ Timers.t_cb u = Trigger /\ Timers.t_due u <= t + 50000 /\
    forall v, In v (Timers.pending q) -> Timers.t_cb v = Trigger -> v = u.

(** A shown error has a pending timeout that clears it. *)
Definition error_clears (e : bool) (q : Timers.queue Callback) : Prop :=
  e = true -> exists u, In u (Timers.pending q) /\ Timers.t_cb u = ClearError.

Definition world_wf (w : World) : Prop :=
  Timers.queue_wf (clock w) (timers w) /\ one_trigger (clock w) (timers w) /\
  error_clears (error w) (timers w) /\
  (show w = true -> exists p, puzzle w = Some p /\ In p PUZZLES) /\
  draws_ok (rng w) /\ Stability.in_bounds (Chaos.stability (cs w)).

(** ** Lemmas on the queue *)

Section Queue.
Variable q : Timers.queue Callback.

Lemma one_trigger_later t t' : one_trigger t q -> t <= t' -> one_trigger t' q.
Proof. intros (u & Hu & Hc & Hd & Hun) Ht. exists u. repeat split; auto. lra. Qed.

Lemma one_trigger_set_other t now d cb :
  one_trigger t q -> cb <> Trigger -> one_trigger t (Timers.setTimeout now d cb q).
Proof.
  intros (u & Hu & Hc & Hd & Hun) Hcb. exists u. split; [apply Timers.In_setTimeout; now left|].
  repeat split; auto. intros v Hv Hvc. apply Timers.In_setTimeout in Hv as [Hv| ->]; [now apply Hun | contradiction].
Qed.

Lemma error_clears_set e now d cb : error_clears e q -> error_clears e (Timers.setTimeout now d cb q).
Proof. intros H He. destruct (H He) as (u & Hu & Hc). exists u. split; [apply Timers.In_setTimeout; now left | exact Hc]. Qed.

(** Removing a pending timer keeps every other pending timer. *)
Lemma remove_keeps c u v :
  Timers.queue_wf c q -> In u (Timers.pending q) -> In v (Timers.pending q) -> Timers.t_cb v <> Timers.t_cb u ->
  In v (Timers.pending (Timers.clearTimeout (Timers.t_id u) q)).
Proof.
  intros Hwf Hu Hv Hcb. apply Timers.In_remove_timer. split; [exact Hv|].
  intro E. apply Hcb. now rewrite (Timers.pending_id_unique c q v u Hwf Hv Hu E).
Qed.

Lemma one_trigger_remove_other c t u :
  Timers.queue_wf c q -> one_trigger t q -> In u (Timers.pending q) -> Timers.t_cb u <> Trigger ->
  one_trigger t (Timers.clearTimeout (Timers.t_id u) q).
Proof.
  intros Hwf (v & Hv & Hc & Hd & Hun) Hu Hcb. exists v. split; [apply (remove_keeps c); congruence|].
  repeat split; auto. intros x Hx Hxc. apply Timers.In_remove_timer in Hx as [Hx _]. now apply Hun.
Qed.

Lemma error_clears_remove_other c e u :
  Timers.queue_wf c q -> error_clears e q -> In u (Timers.pending q) -> Timers.t_cb u <> ClearError ->
  error_clears e (Timers.clearTimeout (Timers.t_id u) q).
Proof.
  intros Hwf H Hu Hcb He. destruct (H He) as (v & Hv & Hc). exists v. split; [apply (remove_keeps c); congruence | exact Hc].
Qed.

(** Once the trigger fired, none is left, and [triggerRandomly] arms
    exactly one, due within 50 s for a draw in [[0, 1)]. *)
Lemma one_trigger_rearm c t u now r :
  Timers.queue_wf c q -> one_trigger t q -> In u (Timers.pending q) -> Timers.t_cb u = Trigger -> 0 <= r < 1 ->
  one_trigger now (Timers.setTimeout now (r * 30000 + 20000) Trigger (Timers.clearTimeout (Timers.t_id u) q)).
Proof.
  intros Hwf (v & Hv & Hc & Hd & Hun) Hu Hcu Hr. eexists. split; [apply Timers.In_setTimeout; now right|].
  split; [reflexivity|]. split.
  - cbn. rewrite Q.max_r by lra. lra.
  - intros x Hx Hxc. apply Timers.In_setTimeout in Hx as [Hx|Hx]; [|exact Hx]. exfalso.
    apply Timers.In_remove_timer in Hx as [Hx Hid]. apply Hid. f_equal.
    now rewrite (Hun x Hx Hxc), (Hun u Hu Hcu).
Qed.
End Queue.

Lemma pickPuzzle_in r : 0 <= r < 1 -> exists p, pickPuzzle r = Some p /\ In p PUZZLES.
Proof.
  intro Hr. unfold pickPuzzle. destruct (Qfloor_index r 6 Hr eq_refl) as [H0 H1].
  destruct (nth_error PUZZLES _) as [p|] eqn:E.
  - exists p. split; [reflexivity | exact (nth_error_In _ _ E)].
  - apply nth_error_None in E. change (List.length PUZZLES) with 6%nat in E. change (Z.of_nat 6) with 6%Z in E. lia.
Qed.

Lemma fireTrigger_eq w :
  st_exec fireTrigger w =
  mkWorld true (pickPuzzle (rng w (rng_pos w))) (input w) (error w)
    (Timers.setTimeout (clock w) (rng w (S (rng_pos w)) * 30000 + 20000) Trigger (timers w))
    (effectTimer w) (cs w) (clock w) (rng w) (S (S (rng_pos w))).
Proof. reflexivity. Qed.

(** ** Every step preserves the invariant *)

Lemma fire_wf w u :
  world_wf w -> Timers.earliest (Timers.pending (timers w)) = Some u -> world_wf (fire u w).
Proof.
  intros (Hq & Ht & He & Hs & Hr & Hb) Hu.
  destruct (Timers.earliest_spec _ _ Hu) as [Hin _].
  pose proof (Timers.fire_earliest_wf _ _ _ Hq Hu) as Hq'.
  assert (Hc : clock w <= Timers.t_due u) by (destruct Hq as [_ Hall]; rewrite Forall_forall in Hall; apply (Hall u Hin)).
  unfold fire. destruct (Timers.t_cb u) eqn:Ecb.
  - rewrite fireTrigger_eq. cbn [show puzzle input error timers effectTimer cs clock rng rng_pos].
    split; [apply Timers.setTimeout_wf, Hq'|].
    split; [apply (one_trigger_rearm _ (clock w) (clock w)); auto; apply Hr|].
    split; [apply error_clears_set, (error_clears_remove_other _ (clock w)); auto; congruence|].
    split; [intros _; apply pickPuzzle_in, Hr|]. split; [intro n; apply Hr | exact Hb].
  - unfold clearError. cbn [show puzzle input error timers effectTimer cs clock rng rng_pos].
    split; [exact Hq'|].
    split; [apply one_trigger_later with (clock w); [apply (one_trigger_remove_other _ (clock w)); auto; congruence | exact Hc]|].
    split; [intro Hf; discriminate Hf|]. split; [exact Hs|]. split; [exact Hr | exact Hb].
Qed.

Lemma submit_wrong_wf w :
  world_wf w ->
  world_wf (mkWorld (show w) (puzzle w) (input w) true (Timers.setTimeout (clock w) 500 ClearError (timers w))
              (effectTimer w) (cs w) (clock w) (rng w) (rng_pos w)).
Proof.
  intros (Hq & Ht & He & Hs & Hr & Hb). split; [apply Timers.setTimeout_wf, Hq|].
  split; [apply one_trigger_set_other; [exact Ht | discriminate]|].
  split; [intros _; eexists; split; [apply Timers.In_setTimeout; now right | reflexivity]|].
  split; [exact Hs|]. split; [exact Hr | exact Hb].
Qed.

Lemma handleSubmit_wf w : world_wf w -> world_wf (handleSubmit w).
Proof.
  intro Hw. pose proof (submit_wrong_wf w Hw) as Hwrong. destruct Hw as (Hq & Ht & He & Hs & Hr & Hb).
  unfold handleSubmit. destruct (puzzle w) as [p|] eqn:Ep; [destruct (String.eqb _ _)|]; try (first [exact Hwrong | rewrite <- Ep; exact Hwrong]).
  split; [exact Hq|]. split; [exact Ht|]. split; [intro Hf; discriminate Hf|]. split; [intro Hf; discriminate Hf|].
  split; [exact Hr|]. cbn. apply Stability.repair_in_bounds; [exact Hb | lra].
Qed.

Lemma puzzle_step_wf w w' : world_wf w -> step w w' -> world_wf w'.
Proof.
  intros Hw Hs. destruct Hs as [w u Hu|w v _|w _|w _|w c t Hc Hq Hb].
  - now apply fire_wf.
  - exact Hw.
  - now apply handleSubmit_wf.
  - destruct Hw as (Hq & Ht & He & Hs & Hr & Hb). split; [exact Hq|]. split; [exact Ht|]. split; [exact He|].
    split; [intro Hf; discriminate Hf|]. split; [exact Hr | exact Hb].
  - destruct Hw as (_ & Ht & He & Hs & Hr & _). split; [exact Hq|].
    split; [now apply one_trigger_later with (clock w)|]. split; [exact He|]. split; [exact Hs|]. split; [exact Hr | exact Hb].
Qed.

Lemma puzzle_mount_wf c t rng0 :
  Stability.in_bounds (Chaos.stability c) -> draws_ok rng0 -> world_wf (mount c t rng0).
Proof.
  intros Hb Hr. cbn. split; [apply Timers.setTimeout_wf; split; constructor|].
  split.
  - eexists. split; [left; reflexivity|]. split; [reflexivity|]. split.
    + cbn. specialize (Hr 0%nat). rewrite Q.max_r by lra. lra.
    + intros v [<-|[]] _. reflexivity.
  - split; [intro Hf; discriminate Hf|]. split; [intro Hf; discriminate Hf|]. split; [exact Hr | exact Hb].
Qed.

(** The rest of the application lets time pass until [t]. *)
Definition wait (t : Q) (w : World) : World :=
  mkWorld (show w) (puzzle w) (input w) (error w) (timers w) (effectTimer w) (cs w) t (rng w) (rng_pos w).

Lemma submit_wrong_eq w p :
  puzzle w = Some p -> Cheat.Cheat.toUpperCase (input w) <> Cheat.Cheat.toUpperCase (answer p) ->
  handleSubmit w = mkWorld (show w) (puzzle w) (input w) true (Timers.setTimeout (clock w) 500 ClearError (timers w))
                     (effectTimer w) (cs w) (clock w) (rng w) (rng_pos w).
Proof. intros Hp Hn. unfold handleSubmit. rewrite Hp. apply String.eqb_neq in Hn. now rewrite Hn. Qed.

(** ** Properties *)

(** C25: In every state reached from the mount the popup keeps coming
    back: exactly one trigger timeout is pending, due within 50 s; a shown
    error always has a pending timeout that clears it; a shown popup holds
    one of the six puzzles; the stability stays in [0, 100]. *)
Theorem reachable_popup_wf c t rng0 w :
  Stability.in_bounds (Chaos.stability c) -> draws_ok rng0 -> star step (mount c t rng0) w -> world_wf w.
Proof.
  intros Hb Hr Hs. exact (star_invariant step world_wf puzzle_step_wf _ _ Hs (puzzle_mount_wf c t rng0 Hb Hr)).
Qed.

Definition half_rng (_ : nat) : Q := 1 # 2.

Lemma reachable_popup_wf_witness : world_wf (mount Chaos.initialState 0 half_rng).
Proof.
  apply (reachable_popup_wf Chaos.initialState 0 half_rng).
  - split; qle_vm.
  - intro n. unfold half_rng. split; [qle_vm | reflexivity].
  - apply star_refl.
Defined.

(** Submitting compares the answer case-insensitively: a right answer
    hides the popup, clears the input and the error and repairs the
    stability by 15 (capped at 100); a wrong one shows the error, with a
    timeout that clears it 500 ms later, and changes nothing else. *)
Theorem submit_answer w p :
  puzzle w = Some p ->
  (Cheat.Cheat.toUpperCase (input w) = Cheat.Cheat.toUpperCase (answer p) ->
     show (handleSubmit w) = false /\ input (handleSubmit w) = ""%string /\ error (handleSubmit w) = false /\
     Chaos.stability (cs (handleSubmit w)) = Stability.repairStability 15 (Chaos.stability (cs w))) /\
  (Cheat.Cheat.toUpperCase (input w) <> Cheat.Cheat.toUpperCase (answer p) ->
     error (handleSubmit w) = true /\ show (handleSubmit w) = show w /\ cs (handleSubmit w) = cs w /\
     Timers.is_pending (Timers.next_id (timers w)) (clock w + 500) ClearError (timers (handleSubmit w))).
Proof.
  intro Hp. split; intro H.
  - unfold handleSubmit. rewrite Hp. apply String.eqb_eq in H. rewrite H. now repeat split.
  - rewrite (submit_wrong_eq w p Hp H). repeat split. exact (Timers.setTimeout_new (clock w) 500 ClearError (timers w)).
Qed.

Definition echo_world : World :=
  mkWorld true (nth_error PUZZLES 0) "echo" false Timers.empty_queue 0 Chaos.initialState 0 half_rng 0.

Lemma submit_answer_witness :
  show (handleSubmit echo_world) = false /\ input (handleSubmit echo_world) = ""%string /\
  error (handleSubmit echo_world) = false /\
  Chaos.stability (cs (handleSubmit echo_world)) = Stability.repairStability 15 (Chaos.stability (cs echo_world)).
Proof. apply (proj1 (submit_answer echo_world _ eq_refl)). reflexivity. Defined.

(** C37: Two wrong answers [d < 500] ms apart, with no other timeout due
    within 500 ms: the first answer's timeout
    clears the error at 500 ms, [500 - d] ms after the second answer
    showed it, and the second timeout later clears it again. *)
Theorem error_cut_short w p d :
  world_wf w -> show w = true -> puzzle w = Some p ->
  Cheat.Cheat.toUpperCase (input w) <> Cheat.Cheat.toUpperCase (answer p) ->
  Forall (fun u => clock w + 500 < Timers.t_due u) (Timers.pending (timers w)) -> 0 < d < 500 ->
  exists u, star step w (handleSubmit (wait (clock w + d) (handleSubmit w))) /\
    error (handleSubmit (wait (clock w + d) (handleSubmit w))) = true /\
    Timers.earliest (Timers.pending (timers (handleSubmit (wait (clock w + d) (handleSubmit w))))) = Some u /\
    Timers.t_due u = clock w + 500 /\ error (fire u (handleSubmit (wait (clock w + d) (handleSubmit w)))) = false.
Proof.
  intros Hw Hs Hp Hn Hlate [Hd0 Hd1].
  assert (Hw1 : world_wf (handleSubmit w)) by now apply handleSubmit_wf.
  rewrite (submit_wrong_eq w p Hp Hn) in Hw1 |- *.
  set (w1 := mkWorld (show w) (puzzle w) (input w) true _ _ _ _ _ _).
  assert (Hq1 : Timers.queue_wf (clock w + d) (timers w1)).
  { apply Timers.queue_wf_advance with (clock w); [apply Hw1|]. unfold w1; cbn [timers Timers.pending Timers.setTimeout].
    apply Forall_app. split.
    - eapply Forall_impl; [|exact Hlate]. intros u Hu. cbv beta in Hu |- *. lra.
    - constructor; [|constructor]. cbn [Timers.t_due]. change (Qmax 0 500) with 500. lra. }
  rewrite (submit_wrong_eq (wait (clock w + d) w1) p Hp Hn).
  exists (Timers.mkTimer (Timers.next_id (timers w)) (clock w + Qmax 0 500) ClearError). split; [|split; [reflexivity|split; [|split; reflexivity]]].
  - apply star_step with w1; [replace w1 with (handleSubmit w) by exact (submit_wrong_eq w p Hp Hn); apply step_submit, Hs|].
    apply star_step with (wait (clock w + d) w1); [apply step_env; [cbn; lra | exact Hq1 | apply Hw]|].
    apply star_one. match goal with |- step _ ?x => replace x with (handleSubmit (wait (clock w + d) w1)) by exact (submit_wrong_eq (wait (clock w + d) w1) p Hp Hn) end.
    apply step_submit, Hs.
  - unfold w1, wait; cbn [timers clock Timers.pending Timers.setTimeout Timers.next_id].
    rewrite <- app_assoc. cbn [app]. apply Timers.earliest_app_min.
    + eapply Forall_impl; [|exact Hlate]. intros u Hu. cbv beta in Hu |- *. cbn [Timers.t_due]. change (Qmax 0 500) with 500. lra.
    + constructor; [|constructor]. cbn [Timers.t_due]. change (Qmax 0 500) with 500. lra.
Qed.

(** A popup showing the first puzzle with a typo in the input, right
    after the mount. *)
Definition typo_world : World :=
  mkWorld true (nth_error PUZZLES 0) "ECH" false (timers (mount Chaos.initialState 0 half_rng)) 0
    Chaos.initialState 0 half_rng 1.

Lemma typo_world_wf : world_wf typo_world.
Proof.
  destruct (puzzle_mount_wf Chaos.initialState 0 half_rng) as (Hq & Ht & _ & _ & Hr & Hb).
  - split; qle_vm.
  - intro n. unfold half_rng. split; [qle_vm | reflexivity].
  - split; [exact Hq|]. split; [exact Ht|]. split; [intro Hf; discriminate Hf|].
    split; [intros _; eexists; split; [reflexivity | left; reflexivity]|]. split; [exact Hr | exact Hb].
Qed.

Lemma error_cut_short_witness :
  exists u, star step typo_world (handleSubmit (wait (clock typo_world + 100) (handleSubmit typo_world))) /\
    error (handleSubmit (wait (clock typo_world + 100) (handleSubmit typo_world))) = true /\
    Timers.earliest (Timers.pending (timers (handleSubmit (wait (clock typo_world + 100) (handleSubmit typo_world))))) = Some u /\
    Timers.t_due u = clock typo_world + 500 /\
    error (fire u (handleSubmit (wait (clock typo_world + 100) (handleSubmit typo_world)))) = false.
Proof.
  apply (error_cut_short typo_world (mkPuzzle (question (nth 0 PUZZLES (mkPuzzle "" "" riddle))) "ECHO" riddle) 100).
  - exact typo_world_wf.
  - reflexivity.
  - reflexivity.
  - vm_compute. discriminate.
  - constructor; [vm_compute; reflexivity | constructor].
  - split; reflexivity.
Defined.

End Puzzle.
