(* ===== verification/Monitor.v ===== *)
(** * The system monitor of [components/SystemMonitor.tsx]

    [SystemMonitor] is rendered by [MainLayout]'s [ChaosEffects] on every
    page.  It keeps [cpuLoad], [memory] and [logs] (lines 8-10).  Its
    effect (lines 12-34) depends on [[stability]] and starts a 3000 ms
    interval whose callback draws a CPU load and a memory figure from the
    stability of its closure and, while that stability is below 70, with
    probability 0.3 pushes a random error message in front of the five
    kept logs.  The panel shows the stability and the three values
    (lines 36-116).

    The interval is the record [Interval], with the [stability] its
    closure captured and its due time; as in [Status], a change of the
    provider's stability clears it and starts a new one.  The rest of the
    application is an environment step that replaces the provider's state
    before the due firing.  [Math.random()] is the stream [rng] read in
    call order; the [&&] of line 20 draws only when the stability is
    below 70.  [toFixed(1)] rounds to the nearest tenth, ties up, as the
    specification of [Number.prototype.toFixed] says for the exact value;
    the model is rational. *)

From S2P Require Import Prelude Stability Chaos.
From Stdlib Require Import QArith Qround Qminmax Lqa ZArith List String Bool Arith Lia.
Import ListNotations.

Open Scope Q_scope.
Open Scope chaos_scope.

Module Monitor.

(** ** Data (lines 8-27) *)

Definition errorMsgs : list string := [
  "ERR_NULL_POINTER: Memory leak detected";
  "GLITCH_ALERT: UI fragment detached";
  "SYSTEM_WARN: Physics engine instability";
  "CORE_ERR: Character de-sync";
  "PORTAL_FLICKER: Gateway sync lost"]%string.

Record Screen := mkScreen { cpuLoad : Z; memory : Q; logs : list string }.

Definition initialScreen : Screen := mkScreen 15 (6 # 5) [].

(** The interval of the effect: the [stability] of its closure and the
    time it fires next. *)
Record Interval := mkInterval { captured : Q; due : Q }.

Record World := mkWorld {
  screen : Screen;
  interval : Interval;
  cs : Chaos.ChaosState;
  clock : Q;
  rng : nat -> Q;
  rng_pos : nat
}.

(** ** Operations *)

(** [Math.random()] *)
Definition random : St World Q :=
  fun w => (rng w (rng_pos w), mkWorld (screen w) (interval w) (cs w) (clock w) (rng w) (S (rng_pos w))).

Definition setScreen (s : Screen) : St World unit :=
  st_modify (fun w => mkWorld s (interval w) (cs w) (clock w) (rng w) (rng_pos w)).

(** [parseFloat(x.toFixed(1))] *)
Definition toFixed1 (x : Q) : Q := inject_Z (js_round (x * 10)) / 10.

(** [errorMsgs[Math.floor(Math.random() * errorMsgs.length)]]; an index
    out of range (never reached by draws in [[0, 1)]) reads the empty
    string here, [undefined] in the code. *)
Definition pickLog (r : Q) : string :=
  nth (Z.to_nat (Qfloor (r * inject_Z (Z.of_nat (List.length errorMsgs))))) errorMsgs EmptyString.

(** The interval's callback (lines 13-31) for the closure's [stability]. *)
Definition tick (stability : Q) : St World unit :=
  let modifier := (100 - stability) / 20 in
  r1 <- random ;;
  r2 <- random ;;
  w <- st_get ;;
  let cpu := Z.min 99 (js_round (15 + r1 * 10 + modifier * 10)) in
  let mem := toFixed1 ((6 # 5) + r2 * (1 # 2) + modifier * (1 # 5)) in
  setScreen (mkScreen cpu mem (logs (screen w))) ;;
  if stability <? 70 then
    r3 <- random ;;
    if (7 # 10) <? r3 then
      r4 <- random ;;
      w' <- st_get ;;
      setScreen (mkScreen cpu mem (firstn 5 (pickLog r4 :: logs (screen w'))))
    else st_ret tt
  else st_ret tt.

(** The interval fires at its due time and re-arms 3000 ms later. *)
Definition fire (w : World) : World :=
  let i := interval w in
  let w0 := mkWorld (screen w) (mkInterval (captured i) (due i + 3000)) (cs w) (due i) (rng w) (rng_pos w) in
  st_exec (tick (captured i)) w0.

(** The provider's state becomes [c] at time [t]; when [stability]
    changed, the cleanup (line 33) clears the interval and the effect
    starts a new one. *)
Definition rerender (c : Chaos.ChaosState) (t : Q) (w : World) : World :=
  let i := if Qeqb (Chaos.stability (cs w)) (Chaos.stability c) then interval w
           else mkInterval (Chaos.stability c) (t + 3000) in
  mkWorld (screen w) i c t (rng w) (rng_pos w).

(** The mount with the layout at time [t]. *)
Definition mount (c : Chaos.ChaosState) (t : Q) (rng0 : nat -> Q) : World :=
  mkWorld initialScreen (mkInterval (Chaos.stability c) (t + 3000)) c t rng0 0.

Inductive step : World -> World -> Prop :=
  | step_fire w : step w (fire w)
  | step_env w c t : clock w <= t -> t <= due (interval w) -> Stability.in_bounds (Chaos.stability c) ->
      step w (rerender c t w).

(** ** The panel (lines 36-116) *)

Record Panel := mkPanel {
  borderAlert : bool;         (* stability < 40, line 41 *)
  shakes : bool;              (* stability < 30, line 42 *)
  chaosBadge : bool;          (* CHAOS_ACTIVE, line 51 *)
  stabilityText : Z;          (* Math.round(stability), line 65 *)
  stabilityLow : bool;        (* the red figure, line 65 *)
  cpuText : Z;
  memText : Q;
  logLines : list string;
  nominal : bool              (* SYSTEM_NOMINAL..., line 108 *)
}.

Definition panel (w : World) : Panel :=
  let st := Chaos.stability (cs w) in
  let s := screen w in
  mkPanel (st <? 40) (st <? 30) (Chaos.isChaosMode (cs w)) (js_round st) (st <? 50)
    (cpuLoad s) (memory s) (logs s) (Nat.eqb (List.length (logs s)) 0).

(** ** The invariant *)

(** CPU LOAD in [15, 75], MEM_USED in [1.2, 2.7], at most five logs,
    each one of the five messages. *)
Definition screen_ok (s : Screen) : Prop :=
  (15 <= cpuLoad s <= 75)%Z /\ (6 # 5 <= memory s /\ memory s <= 27 # 10) /\
  (List.length (logs s) <= 5)%nat /\ Forall (fun l => In l errorMsgs) (logs s).

Definition world_wf (w : World) : Prop :=
  screen_ok (screen w) /\ captured (interval w) == Chaos.stability (cs w) /\
  (clock w <= due (interval w) /\ due (interval w) <= clock w + 3000) /\
  draws_ok (rng w) /\ Stability.in_bounds (Chaos.stability (cs w)).

(** ** Lemmas *)

Lemma tick_eq st w :
  st_exec (tick st) w =
  let m := (100 - st) / 20 in
  let cpu := Z.min 99 (js_round (15 + rng w (rng_pos w) * 10 + m * 10)) in
  let mem := toFixed1 ((6 # 5) + rng w (S (rng_pos w)) * (1 # 2) + m * (1 # 5)) in
  if st <? 70 then
    if (7 # 10) <? rng w (S (S (rng_pos w))) then
      mkWorld (mkScreen cpu mem (firstn 5 (pickLog (rng w (S (S (S (rng_pos w))))) :: logs (screen w))))
        (interval w) (cs w) (clock w) (rng w) (S (S (S (S (rng_pos w)))))
    else mkWorld (mkScreen cpu mem (logs (screen w))) (interval w) (cs w) (clock w) (rng w) (S (S (S (rng_pos w))))
  else mkWorld (mkScreen cpu mem (logs (screen w))) (interval w) (cs w) (clock w) (rng w) (S (S (rng_pos w))).
Proof.
  unfold tick, st_exec, st_bind, random, st_get, setScreen, st_modify, st_ret. cbn.
  destruct (st <? 70); [destruct (7 # 10 <? _)|]; reflexivity.
Qed.

Lemma modifier_range st : Stability.in_bounds st -> 0 <= (100 - st) / 20 <= 5.
Proof. intros [H0 H1]. unfold Qdiv. change (/ 20) with (1 # 20). split; lra. Qed.

Lemma cpu_range st r :
  Stability.in_bounds st -> 0 <= r < 1 -> (15 <= Z.min 99 (js_round (15 + r * 10 + (100 - st) / 20 * 10)) <= 75)%Z.
Proof.
  intros Hb [H0 H1]. destruct (modifier_range st Hb) as [M0 M1].
  assert (H : (15 <= js_round (15 + r * 10 + (100 - st) / 20 * 10) <= 75)%Z)
    by (apply js_round_range; change (inject_Z 15) with 15; change (inject_Z 75) with 75; lra).
  lia.
Qed.

Lemma mem_range st r :
  Stability.in_bounds st -> 0 <= r < 1 ->
  6 # 5 <= toFixed1 ((6 # 5) + r * (1 # 2) + (100 - st) / 20 * (1 # 5)) /\
  toFixed1 ((6 # 5) + r * (1 # 2) + (100 - st) / 20 * (1 # 5)) <= 27 # 10.
Proof.
  intros Hb [H0 H1]. destruct (modifier_range st Hb) as [M0 M1]. unfold toFixed1.
  destruct (js_round_range 12 27 (((6 # 5) + r * (1 # 2) + (100 - st) / 20 * (1 # 5)) * 10)) as [L U];
    [change (inject_Z 12) with 12; lra | change (inject_Z 27) with 27; lra|].
  rewrite Zle_Qle in L, U. change (inject_Z 12) with 12 in L. change (inject_Z 27) with 27 in U.
  set (n := js_round _) in *. unfold Qdiv. change (/ 10) with (1 # 10). split; lra.
Qed.

Lemma pickLog_in r : 0 <= r < 1 -> In (pickLog r) errorMsgs.
Proof.
  intro Hr. unfold pickLog. destruct (Qfloor_index r 5 Hr eq_refl) as [H0 H1]. apply nth_In.
  change (List.length errorMsgs) with 5%nat. change (Z.of_nat 5) with 5%Z. lia.
Qed.

Lemma tick_wf st w :
  Stability.in_bounds st -> draws_ok (rng w) -> screen_ok (screen w) ->
  screen_ok (screen (st_exec (tick st) w)) /\ interval (st_exec (tick st) w) = interval w /\
  cs (st_exec (tick st) w) = cs w /\ clock (st_exec (tick st) w) = clock w /\ rng (st_exec (tick st) w) = rng w.
Proof.
  intros Hb Hr (Hc & Hm & Hl & Ha). rewrite tick_eq. cbv zeta.
  pose proof (cpu_range st _ Hb (Hr (rng_pos w))) as Hcpu.
  pose proof (mem_range st _ Hb (Hr (S (rng_pos w)))) as Hmem.
  destruct (st <? 70); [destruct (7 # 10 <? _)|]; cbn [screen interval cs clock rng cpuLoad memory logs];
    (split; [|repeat split; reflexivity]); unfold screen_ok; cbn [cpuLoad memory logs];
    (split; [exact Hcpu|]); (split; [exact Hmem|]); try (split; assumption).
  split.
  - rewrite length_firstn. lia.
  - apply Forall_firstn. constructor; [apply pickLog_in, Hr | exact Ha].
Qed.

Lemma in_bounds_compat x y : x == y -> Stability.in_bounds y -> Stability.in_bounds x.
Proof. intros E [H0 H1]. split; rewrite E; assumption. Qed.

Lemma monitor_fire_wf w : world_wf w -> world_wf (fire w).
Proof.
  intros (Hs & Hc & Hd & Hr & Hb). unfold fire.
  destruct (tick_wf (captured (interval w)) (mkWorld (screen w) (mkInterval (captured (interval w)) (due (interval w) + 3000))
              (cs w) (due (interval w)) (rng w) (rng_pos w)) (in_bounds_compat _ _ Hc Hb) Hr Hs)
    as (Hs' & Hi & Hcs & Hcl & Hrng).
  split; [exact Hs'|]. rewrite Hi, Hcs, Hcl, Hrng. cbn. split; [exact Hc|]. split; [split; lra|]. split; [exact Hr | exact Hb].
Qed.

Lemma monitor_rerender_wf c t w :
  world_wf w -> clock w <= t -> t <= due (interval w) -> Stability.in_bounds (Chaos.stability c) ->
  world_wf (rerender c t w).
Proof.
  intros (Hs & Hc & [Hd0 Hd1] & Hr & Hb) Ht Htd Hc'. unfold rerender. split; [exact Hs|].
  destruct (Qeqb _ _) eqn:E; cbn.
  - apply Qeqb_iff in E. split; [rewrite Hc; exact E|]. split; [split; lra|]. split; [exact Hr | exact Hc'].
  - split; [reflexivity|]. split; [split; lra|]. split; [exact Hr | exact Hc'].
Qed.

Lemma monitor_step_wf w w' : world_wf w -> step w w' -> world_wf w'.
Proof. intros Hw Hs. destruct Hs as [w0|w0 c t Ht Htd Hb]; [now apply monitor_fire_wf | now apply monitor_rerender_wf]. Qed.

Lemma monitor_mount_wf c t rng0 :
  Stability.in_bounds (Chaos.stability c) -> draws_ok rng0 -> world_wf (mount c t rng0).
Proof.
  intros Hb Hr. split; [|split; [reflexivity | split; [cbn; split; lra | split; [exact Hr | exact Hb]]]].
  split; [cbn; lia|]. split; [split; cbn; lra|]. split; [cbn; lia | constructor].
Qed.

(** ** Properties *)

(** On every page, in every reachable state of the monitor, CPU LOAD
    lies in [15, 75], so its [Math.min(99, ...)] cap is never reached,
    MEM_USED lies in [1.2, 2.7] GB, at most five error logs are kept, each
    one of the five messages, and the interval's closure sees the
    provider's current stability and fires within 3 s. *)
Theorem reachable_monitor_wf c t rng0 w :
  Stability.in_bounds (Chaos.stability c) -> draws_ok rng0 -> star step (mount c t rng0) w -> world_wf w.
Proof.
  intros Hb Hr Hs. exact (star_invariant step world_wf monitor_step_wf _ _ Hs (monitor_mount_wf c t rng0 Hb Hr)).
Qed.

Definition high_rng (_ : nat) : Q := 99 # 100.

Lemma reachable_monitor_wf_witness : world_wf (fire (mount (Chaos.set_stability 10 Chaos.initialState) 0 high_rng)).
Proof.
  apply (reachable_monitor_wf (Chaos.set_stability 10 Chaos.initialState) 0 high_rng).
  - split; qle_vm.
  - intro n. unfold high_rng. split; [qle_vm | reflexivity].
  - apply star_one, step_fire.
Defined.

(** A firing at a stability of at least 70 leaves the error logs as they
    are: the second draw of line 20 is not even made. *)
Theorem calm_monitor_keeps_logs w :
  world_wf w -> 70 <= Chaos.stability (cs w) ->
  logs (screen (fire w)) = logs (screen w) /\ rng_pos (fire w) = S (S (rng_pos w)).
Proof.
  intros (_ & Hc & _) H70. unfold fire. rewrite tick_eq. cbv zeta.
  destruct (Qltb_spec (captured (interval w)) 70) as [H|H]; [rewrite Hc in H; lra | split; reflexivity].
Qed.

End Monitor.
