(* ===== verification/Routes.v ===== *)
(** * The router of [routes.ts] and the navigation between screens

    [router] (routes.ts lines 16-66) maps eleven paths to the screens,
    inside the providers of [MainLayout].  A screen moves to another with
    [navigate(path)]; the paths each screen navigates to are read off its
    [navigate] calls (one definition per screen, with the lines of the
    calls), the dashboard's game cards through the [groute] of
    [Dashboard.GAMES] for the cards without a component.  React Router
    renders a path of the table and an error element for any other path:
    [match_route] is [None] there.

    The theorems: every path a screen navigates to is a route of the
    table; the routes reachable from [/] by in-app navigation are exactly
    eight of the eleven, [/transition], [/achievements] and [/challenges]
    being reachable only by typing the URL; and the screens modelled with a
    route ([Characters], [Harvester], [Repair], [Status]) only ever move to the paths
    listed here for them. *)

From S2P Require Import Prelude Repair Dashboard Characters Harvester Status.
From Stdlib Require Import List String Bool.
Import ListNotations.

Open Scope string_scope.

Module Routes.

(** ** The route table (routes.ts lines 16-66) *)

Inductive Screen :=
  | LoginScreen | BootScreen | SnakeScreen | TransitionScreen | DashboardScreen | CharacterScreen
  | RepairScreen | StatusScreen | LeaderboardScreen | AchievementsScreen | DailyChallengesScreen.

Definition router : list (string * Screen) := [
  ("/", LoginScreen);
  ("/boot", BootScreen);
  ("/snake", SnakeScreen);
  ("/transition", TransitionScreen);
  ("/dashboard", DashboardScreen);
  ("/characters", CharacterScreen);
  ("/repair", RepairScreen);
  ("/status", StatusScreen);
  ("/leaderboard", LeaderboardScreen);
  ("/achievements", AchievementsScreen);
  ("/challenges", DailyChallengesScreen)].

(** The screen rendered at a path, [None] for React Router's error
    element. *)
Definition match_route (path : string) : option Screen :=
  option_map snd (find (fun r => String.eqb (fst r) path) router).

(** ** The [navigate] calls of each screen *)

(** LoginScreen.tsx line 79. *)
Definition login_targets : list string := ["/boot"].
(** BootScreen.tsx line 41. *)
Definition boot_targets : list string := ["/snake"].
(** SnakeScreen.tsx lines 164 and 279. *)
Definition snake_targets : list string := ["/dashboard"].
(** TransitionScreen.tsx line 13. *)
Definition transition_targets : list string := ["/dashboard"].
(** DashboardScreen.tsx: LOGOUT (line 132), the navigation bar (lines
    204-212) and [navigate(game.route)] for a card without a component
    (line 112). *)
Definition dashboard_targets : list string :=
  ["/"; "/characters"; "/repair"; "/status"] ++
  map Dashboard.Dashboard.groute
    (filter (fun g => match Dashboard.Dashboard.component g with None => true | Some _ => false end)
            Dashboard.Dashboard.GAMES).
(** CharacterScreen.tsx lines 123 and 295. *)
Definition character_targets : list string := ["/dashboard"; "/repair"].
(** RepairScreen.tsx lines 136, 166 and 338. *)
Definition repair_targets : list string := ["/dashboard"].
(** StatusScreen.tsx lines 59 and 72. *)
Definition status_targets : list string := ["/boot"; "/dashboard"].
(** LeaderboardScreen.tsx line 92. *)
Definition leaderboard_targets : list string := ["/dashboard"].
(** AchievementsScreen.tsx line 42. *)
Definition achievements_targets : list string := ["/dashboard"].
(** DailyChallengesScreen.tsx line 42. *)
Definition challenges_targets : list string := ["/dashboard"].

Definition targets (s : Screen) : list string :=
  match s with
  | LoginScreen => login_targets
  | BootScreen => boot_targets
  | SnakeScreen => snake_targets
  | TransitionScreen => transition_targets
  | DashboardScreen => dashboard_targets
  | CharacterScreen => character_targets
  | RepairScreen => repair_targets
  | StatusScreen => status_targets
  | LeaderboardScreen => leaderboard_targets
  | AchievementsScreen => achievements_targets
  | DailyChallengesScreen => challenges_targets
  end.

(** The paths reached from the start page [/] by in-app navigation. *)
Inductive nav_reachable : string -> Prop :=
  | nav_start : nav_reachable "/"
  | nav_step p s t : nav_reachable p -> match_route p = Some s -> In t (targets s) -> nav_reachable t.

(** ** Reachability *)

Definition REACHED : list string :=
  ["/"; "/boot"; "/snake"; "/dashboard"; "/characters"; "/repair"; "/status"; "/leaderboard"].

Definition in_b (t : string) (l : list string) : bool := existsb (String.eqb t) l.

Lemma in_b_In t l : in_b t l = true -> In t l.
Proof. unfold in_b. intro H. apply existsb_exists in H as [u [Hu E]]. apply String.eqb_eq in E. now subst. Qed.

(** [REACHED] is closed under navigation, checked by evaluation. *)
Definition closed_b (l : list string) : bool :=
  forallb (fun p => match match_route p with
                    | Some s => forallb (fun t => in_b t l) (targets s)
                    | None => true
                    end) l.

Lemma closed_b_spec l p s t :
  closed_b l = true -> In p l -> match_route p = Some s -> In t (targets s) -> In t l.
Proof.
  unfold closed_b. intros Hc Hp Hm Ht. rewrite forallb_forall in Hc. specialize (Hc p Hp). rewrite Hm in Hc.
  rewrite forallb_forall in Hc. exact (in_b_In _ _ (Hc t Ht)).
Qed.

Lemma REACHED_closed : closed_b REACHED = true.
Proof. vm_compute. reflexivity. Qed.

(** ** The screens' routes follow the lists *)

Definition follows (own : string) (tl : list string) (r : string) : Prop := r = own \/ In r tl.

Lemma characters_follow w0 w :
  star Characters.Characters.step (Characters.Characters.mount w0) w ->
  follows "/characters" character_targets (Characters.Characters.route w).
Proof.
  intro Hs. refine (star_invariant Characters.Characters.step (fun w => follows "/characters" character_targets (Characters.Characters.route w))
    _ _ _ Hs (or_introl eq_refl)).
  intros a b Ha Hab. destruct Hab; unfold follows in *; cbn; tauto.
Qed.

Lemma harvester_follow w0 w :
  star Harvester.Harvester.step (Harvester.Harvester.mount w0) w ->
  follows "/snake" snake_targets (Harvester.Harvester.route w).
Proof.
  intro Hs. refine (star_invariant Harvester.Harvester.step (fun w => follows "/snake" snake_targets (Harvester.Harvester.route w))
    _ _ _ Hs (or_introl eq_refl)).
  intros a b Ha Hab. destruct Hab; unfold follows in *; cbn; tauto.
Qed.

Lemma status_follow w0 w :
  star Status.Status.step (Status.Status.mount w0) w ->
  follows "/status" status_targets (Status.Status.route w).
Proof.
  intro Hs. refine (star_invariant Status.Status.step (fun w => follows "/status" status_targets (Status.Status.route w))
    _ _ _ Hs (or_introl eq_refl)).
  intros a b Ha Hab. destruct Hab; unfold follows in *; cbn; try tauto.
Qed.

Lemma repair_drop_route sc i k w : Repair.Repair.route (Repair.Repair.handleDrop sc i k w) = Repair.Repair.route w.
Proof.
  unfold Repair.Repair.handleDrop. destruct (Repair.Repair.screen w) as [s|]; [|reflexivity].
  destruct (nth_error _ k) as [[|]|]; try reflexivity;
    destruct (Repair.Repair.placed i); try reflexivity; match goal with |- context [if ?b then _ else _] => destruct b end; reflexivity.
Qed.

Lemma repair_follow w0 w :
  star Repair.Repair.step (Repair.Repair.mount w0) w ->
  follows "/repair" repair_targets (Repair.Repair.route w).
Proof.
  intro Hs. refine (star_invariant Repair.Repair.step (fun w => follows "/repair" repair_targets (Repair.Repair.route w))
    _ _ _ Hs (or_introl eq_refl)).
  intros a b Ha Hab. destruct Hab; unfold follows in *; cbn; try tauto.
  - now rewrite repair_drop_route.
  - unfold Repair.Repair.handleReset. now destruct (Repair.Repair.screen _).
  - unfold Repair.Repair.fire_timer. match goal with |- context [match ?c with _ => _ end] => destruct c end. cbn. tauto.
Qed.

(** ** Properties *)

(** C27: In-app navigation from the start page reaches exactly eight of the
    eleven routes: the login, boot, snake, dashboard, character, repair,
    status and leaderboard screens.  No [navigate] call leads to
    [/transition], [/achievements] or [/challenges]. *)
Theorem navigation_reach p : nav_reachable p <-> In p REACHED.
Proof.
  split.
  - induction 1 as [|p s t _ IH Hm Ht]; [now left | exact (closed_b_spec _ p s t REACHED_closed IH Hm Ht)].
  - assert (Hb : nav_reachable "/boot") by exact (nav_step "/" LoginScreen _ nav_start eq_refl (or_introl eq_refl)).
    assert (Hs : nav_reachable "/snake") by exact (nav_step "/boot" BootScreen _ Hb eq_refl (or_introl eq_refl)).
    assert (Hd : nav_reachable "/dashboard") by exact (nav_step "/snake" SnakeScreen _ Hs eq_refl (or_introl eq_refl)).
    intro Hp. cbn in Hp.
    intuition (subst; first [exact nav_start | assumption | apply (nav_step "/dashboard" DashboardScreen _ Hd eq_refl); cbn; tauto]).
Qed.

Lemma navigation_reach_witness : ~ nav_reachable "/transition" /\ nav_reachable "/leaderboard".
Proof.
  split.
  - intro H. apply navigation_reach in H. cbn in H. intuition discriminate.
  - apply navigation_reach. cbn. tauto.
Defined.

(** Every path a screen navigates to is a route of the table: no
    [navigate] call of the application lands on React Router's error
    element. *)
Theorem targets_routed s t : In t (targets s) -> exists s', match_route t = Some s'.
Proof.
  intro Ht. destruct s; cbn in Ht; intuition (subst; eexists; reflexivity).
Qed.

Lemma targets_routed_witness : exists s', match_route "/leaderboard" = Some s'.
Proof. apply (targets_routed DashboardScreen). cbn. tauto. Defined.

End Routes.
