(* ===== verification/Shell.v ===== *)
(** * The achievements, daily-challenges and transition screens

    [AchievementsScreen] shows the counts of the [AchievementProvider]
    of [Achievements]; [DailyChallengesScreen] the counts of the
    [DailyChallengesProvider] of [Challenges] and a tab switch;
    [TransitionScreen] navigates to the dashboard 4000 ms after its mount
    and clears the timeout when left earlier.  Which providers are
    mounted above the screens is not modelled: the router's root element
    [AppWithProviders] (routes.ts line 18) is not exported by
    MainLayout.tsx, and main.tsx imports an [App.tsx] that does not
    exist. *)

From S2P Require Import Prelude Achievements Challenges.
From Stdlib Require Import QArith Lqa ZArith List String Bool Lia.
Import ListNotations.

Open Scope Q_scope.

Module Shell.

(** ** [AchievementsScreen] (lines 10-63) with an [AchievementProvider] *)

Definition show_nat (n : nat) : string := show_Z (Z.of_nat n).

(** [{getUnlockedCount()} / {getTotalCount()} UNLOCKED] (line 28). *)
Definition achievementsHeader (p : Achievements.Achievements.Provider) : string :=
  (show_nat (Achievements.Achievements.getUnlockedCount p) ++ " / " ++
   show_nat (Achievements.Achievements.getTotalCount p) ++ " UNLOCKED")%string.

(** ** [DailyChallengesScreen] (lines 9-98) with its providers *)

Inductive Tab := challenges | leaderboard.

(** The content under the tabs (line 92). *)
Inductive Content := DailyChallengesDisplay | LeaderboardDisplay.

Definition content (t : Tab) : Content :=
  match t with challenges => DailyChallengesDisplay | leaderboard => LeaderboardDisplay end.

(** [{getCompletedCount()} COMPLETED • {getTotalRewardPoints()} STABILITY
    EARNED] (line 28). *)
Definition challengesHeader (p : Challenges.Challenges.Provider) : string :=
  (show_nat (Challenges.Challenges.getCompletedCount p) ++ " COMPLETED • " ++
   show_nat (Challenges.Challenges.getTotalRewardPoints p) ++ " STABILITY EARNED")%string.

(** The screen's [activeTab] (line 11), changed by the two tab buttons
    (lines 57-82); BACK TO DASHBOARD navigates (line 42). *)
Inductive tabStep : Tab -> Tab -> Prop :=
  | click_challenges t : tabStep t challenges
  | click_leaderboard t : tabStep t leaderboard.

(** ** [TransitionScreen] (lines 8-17) *)

Record Transition := mkTransition { mounted : bool; timer : option Q; route : string; clock : Q }.

(** The mount at time [t]: the effect's 4000 ms timeout. *)
Definition mountTransition (t : Q) : Transition := mkTransition true (Some (t + 4000)) "/transition" t.

(** The timeout fires: [navigate("/dashboard")]; the screen unmounts and
    its cleanup has nothing left to clear. *)
Definition fireTransition (w : Transition) : Transition :=
  match timer w with
  | Some d => mkTransition false None "/dashboard" d
  | None => w
  end.

(** Leaving by another route first: the cleanup clears the timeout. *)
Definition leaveTransition (path : string) (w : Transition) : Transition :=
  mkTransition false None path (clock w).

End Shell.
