(* ===== verification/ChaosPanel.v ===== *)
(** * The chaos control panel of [components/ExtremeChaosPanel.tsx]

    [ExtremeChaosPanel] is rendered by [MainLayout]'s [ChaosEffects] on
    every page.  It reads the chaos context (lines 6-18) and shows the
    stability meter and four status tiles (lines 35-90); its seven buttons
    (lines 91-166) call the context: CHAOS toggles the chaos mode,
    TORNADO, ZERO-G and GLITCH trigger or toggle those effects, + REPAIR
    and - DAMAGE change the stability by 20, and EXTREME calls
    [activateExtremeChaos], a field the context value does not have
    (ChaosContext.tsx lines 135-156): its [onClick] is [undefined] and the
    button does nothing.

    A press runs on the provider's page runtime of [ChaosRun]: the call of
    [ChaosRun.user_call], the task of a click. *)

From S2P Require Import Prelude Stability Chaos ChaosRun.
From Stdlib Require Import QArith Lqa ZArith List String Bool Lia.
Import ListNotations.

Open Scope Q_scope.
Open Scope chaos_scope.

Module ChaosPanel.

(** ** The buttons (lines 91-166) *)

Inductive Button := ChaosButton | TornadoButton | ZeroGButton | GlitchButton | ExtremeButton | RepairButton | DamageButton.

(** The context call of each button's [onClick], [None] for
    [onClick={undefined}]. *)
Definition onClick (b : Button) (c : Chaos.ChaosState) : option ChaosRun.ChaosRun.Call :=
  match b with
  | ChaosButton => Some (ChaosRun.ChaosRun.CallSetChaosMode (negb (Chaos.isChaosMode c)))
  | TornadoButton => Some ChaosRun.ChaosRun.CallTriggerTornado
  | ZeroGButton => Some ChaosRun.ChaosRun.CallToggleZeroGravity
  | GlitchButton => Some ChaosRun.ChaosRun.CallToggleContinuousGlitch
  | ExtremeButton => None
  | RepairButton => Some (ChaosRun.ChaosRun.CallRepairStability 20)
  | DamageButton => Some (ChaosRun.ChaosRun.CallDamageStability 20)
  end.

(** A click on a button of the panel. *)
Definition press (b : Button) (w : Chaos.World) : Chaos.World :=
  match onClick b (Chaos.cs w) with
  | Some call => ChaosRun.ChaosRun.user_call call w
  | None => w
  end.

(** ** The meter and tiles (lines 35-90) *)

Inductive Level := Critical | Unstable | Stable.

(** The colour class of the figure and the bar (lines 38 and 46-50). *)
Definition meterLevel (stability : Q) : Level :=
  if stability <? 30 then Critical else if stability <? 60 then Unstable else Stable.

Record View := mkView {
  percent : Z;
  level : Level;
  chaosTile : bool;
  tornadoTile : bool;
  zeroGravityTile : bool;
  glitchTile : bool;
  chaosLabel : string
}.

Definition view (c : Chaos.ChaosState) : View :=
  mkView (js_round (Chaos.stability c)) (meterLevel (Chaos.stability c)) (Chaos.isChaosMode c)
    (Chaos.tornadoActive c) (Chaos.zeroGravityActive c) (Chaos.continuousGlitchActive c)
    (if Chaos.isChaosMode c then "🔴 CHAOS ACTIVE" else "⚪ ACTIVATE CHAOS")%string.

(** ** Properties *)

Lemma twenty_ok : 0 <= 20 /\ Stability.on_grid 20.
Proof. split; [qle_vm | exists 40%Z; reflexivity]. Qed.

(** Every button of the panel but EXTREME is a step of the chaos
    provider's runtime, so the provider's invariants hold whatever the
    user clicks; EXTREME leaves the page as it is. *)
Theorem panel_presses_are_steps b w :
  (b <> ExtremeButton -> ChaosRun.ChaosRun.step w (press b w)) /\
  (b = ExtremeButton -> press b w = w).
Proof.
  split; intro Hb; [|now subst].
  destruct b; try (exfalso; now apply Hb); apply ChaosRun.ChaosRun.step_call; cbn; auto using twenty_ok.
Qed.

End ChaosPanel.
