(* ===== verification/Button.v ===== *)
(** * The chaotic button of [components/ChaoticButtonEnhanced.tsx]

    [ChaoticButtonEnhanced] is the button of every screen (BACK, LOGOUT,
    REBOOT, ...).  It keeps [isBroken] and [offset] (lines 15-16).  Its
    [handleMouseEnter] (lines 24-38) may move it away, with a timeout that
    brings it back, when the stability is below 40 or the chaos mode is
    on, and may break it when the stability is below 30 or the chaos mode
    is on.  A broken button renders fragments instead of the button (lines
    84-131): they are draggable only in chaos mode ([drag={isChaosMode}],
    line 94), and a drag that ends with a lucky draw runs [handleRepair]
    (lines 40-43), which mends the button and calls its [onClick].  An
    intact button calls [onClick] on a click (line 152).

    The floating and tornado effects (lines 45-78) move the button on the
    screen only and are not modelled.  [Math.random()] is the stream
    [rng] read in call order (the [&&] of lines 25 and 35 draws only when
    its left side holds); [clicks] counts the calls of [onClick]. *)

From S2P Require Import Prelude Stability Timers Chaos.
From Stdlib Require Import QArith Lqa List Bool Lia.
Import ListNotations.

Open Scope Q_scope.
Open Scope chaos_scope.

Module Button.

Record World := mkWorld {
  isBroken : bool;
  offset : Q * Q;
  timers : Timers.queue unit;       (* the timeouts that reset [offset] *)
  clicks : nat;
  cs : Chaos.ChaosState;
  clock : Q;
  rng : nat -> Q;
  rng_pos : nat
}.

(** ** Operations *)

(** The two tests of [handleMouseEnter] before their draws. *)
Definition canRun (c : Chaos.ChaosState) : bool := (Chaos.stability c <? 40) || Chaos.isChaosMode c.
Definition canBreak (c : Chaos.ChaosState) : bool := (Chaos.stability c <? 30) || Chaos.isChaosMode c.

(** [handleMouseEnter] (lines 24-38). *)
Definition handleMouseEnter (w : World) : World :=
  let c := cs w in
  let chaos := Chaos.isChaosMode c in
  let range := if chaos then 400 else 200 in
  let n := rng_pos w in
  (* the run-away branch: one draw, then two more when it moves *)
  let '(off, q, n) :=
    if canRun c then
      if (3 # 10) <? rng w n then
        (((rng w (S n) - (1 # 2)) * range, (rng w (S (S n)) - (1 # 2)) * range),
         Timers.setTimeout (clock w) (if chaos then 1000 else 2000) tt (timers w), S (S (S n)))
      else (offset w, timers w, S n)
    else (offset w, timers w, n) in
  (* the break branch *)
  let '(broken, n) :=
    if canBreak c then (((if chaos then 7 # 10 else 9 # 10) <? rng w n) || isBroken w, S n)
    else (isBroken w, n) in
  mkWorld broken off q (clicks w) c (clock w) (rng w) n.

(** A click on the intact button (line 152). *)
Definition click (w : World) : World :=
  mkWorld (isBroken w) (offset w) (timers w) (S (clicks w)) (cs w) (clock w) (rng w) (rng_pos w).

(** The end of a fragment's drag (lines 95-97): one draw, then
    [handleRepair] (lines 40-43) when it exceeds the threshold. *)
Definition dragEnd (w : World) : World :=
  let chaos := Chaos.isChaosMode (cs w) in
  if (if chaos then 3 # 10 else 7 # 10) <? rng w (rng_pos w) then
    mkWorld false (offset w) (timers w) (S (clicks w)) (cs w) (clock w) (rng w) (S (rng_pos w))
  else mkWorld (isBroken w) (offset w) (timers w) (clicks w) (cs w) (clock w) (rng w) (S (rng_pos w)).

(** A reset timeout fires: [setOffset({ x: 0, y: 0 })]. *)
Definition fire (u : Timers.timer unit) (w : World) : World :=
  mkWorld (isBroken w) (0, 0) (Timers.clearTimeout (Timers.t_id u) (timers w)) (clicks w) (cs w) (Timers.t_due u)
    (rng w) (rng_pos w).

(** The button's events.  The fragments can be dragged only in chaos mode
    ([drag={isChaosMode}]); the rest of the application changes the
    provider's state at any time. *)
Inductive step : World -> World -> Prop :=
  | step_hover w : isBroken w = false -> step w (handleMouseEnter w)
  | step_click w : isBroken w = false -> step w (click w)
  | step_drag w : isBroken w = true -> Chaos.isChaosMode (cs w) = true -> step w (dragEnd w)
  | step_fire w u : Timers.earliest (Timers.pending (timers w)) = Some u -> step w (fire u w)
  | step_env w c t : clock w <= t ->
      step w (mkWorld (isBroken w) (offset w) (timers w) (clicks w) c t (rng w) (rng_pos w)).

(** A step while the chaos mode stays off. *)
Definition calm_step (w w' : World) : Prop :=
  step w w' /\ Chaos.isChaosMode (cs w') = false.

(** ** Properties *)

Lemma broken_calm_step w w' :
  isBroken w = true -> Chaos.isChaosMode (cs w) = false -> calm_step w w' ->
  isBroken w' = true /\ clicks w' = clicks w /\ Chaos.isChaosMode (cs w') = false.
Proof.
  intros Hb Hc [Hs Hc']. split; [|split; [|exact Hc']];
    destruct Hs as [w0 H|w0 H|w0 H H'|w0 u Hu|w0 c t Ht]; cbn; congruence.
Qed.

(** C38: A button that breaks while the chaos mode is off stays broken as
    long as the chaos mode stays off: its fragments cannot be dragged, so
    nothing mends it, and its [onClick] is never called again. *)
Theorem broken_button_stuck w w' :
  isBroken w = true -> Chaos.isChaosMode (cs w) = false -> star calm_step w w' ->
  isBroken w' = true /\ clicks w' = clicks w.
Proof.
  intros Hb Hc Hs.
  assert (H : isBroken w' = true /\ clicks w' = clicks w /\ Chaos.isChaosMode (cs w') = false).
  { refine (star_invariant calm_step (fun x => isBroken x = true /\ clicks x = clicks w /\ Chaos.isChaosMode (cs x) = false)
      _ w w' Hs (conj Hb (conj eq_refl Hc))).
    intros a b (Ha & Hk & Hm) Hab. destruct (broken_calm_step a b Ha Hm Hab) as (H1 & H2 & H3).
    split; [exact H1 | split; [congruence | exact H3]]. }
  tauto.
Qed.

(** A low stability, the chaos mode off and draws that run away and break:
    the button breaks on the first hover. *)
Definition low_rng (_ : nat) : Q := 95 # 100.
Definition low_world : World :=
  mkWorld false (0, 0) Timers.empty_queue 0 (Chaos.set_stability 20 Chaos.initialState) 0 low_rng 0.

(** The broken button a little later, the chaos mode still off. *)
Definition low_later : World :=
  let w := handleMouseEnter low_world in
  mkWorld (isBroken w) (offset w) (timers w) (clicks w) (cs w) 5000 (rng w) (rng_pos w).

Lemma broken_button_stuck_witness :
  isBroken low_later = true /\ clicks low_later = clicks (handleMouseEnter low_world).
Proof.
  apply (broken_button_stuck (handleMouseEnter low_world)); [reflexivity | reflexivity |].
  apply star_one. split; [apply step_env; cbn; qle_vm | reflexivity].
Defined.

(** A drag that mends the button in chaos mode also runs its action: the
    fragments of a broken LOGOUT or BACK button trigger it. *)
Lemma repair_runs_action w :
  Chaos.isChaosMode (cs w) = true -> (3 # 10) < rng w (rng_pos w) ->
  isBroken (dragEnd w) = false /\ clicks (dragEnd w) = S (clicks w).
Proof.
  intros Hc Hr. unfold dragEnd. rewrite Hc. apply Qltb_iff in Hr. rewrite Hr. now split.
Qed.

End Button.
