(* ===== verification/Effects.v ===== *)
(** * The particle and screen-shake provider of [components/VisualEffects.tsx]

    [VisualEffectsProvider] keeps a list of [particles] and an optional
    [screenShake] (lines 38-39).  Its effect (lines 44-71) runs a
    [requestAnimationFrame] loop that moves every particle by its velocity
    scaled to the time since the previous frame, adds gravity to its
    vertical speed, subtracts the elapsed time from its lifetime and drops
    the particles whose lifetime is spent.  [createParticle] (lines 73-112)
    appends [count] particles of one type, drawing an angle, a speed, an id
    and (for three types) a size from [Math.random()];
    [triggerScreenShake] (lines 138-145) sets the shake and a timeout that
    clears it.  The presets and the test panel (lines 224-317) are
    sequences of these calls.

    [Math.cos], [Math.sin] and [Math.PI] are section variables: no property
    below depends on them.  [Math.random()] is the stream [rng] read in call
    order, [Date.now()] the clock, and a frame's timestamp any time not
    before the clock. *)

From S2P Require Import Prelude Timers.
From Stdlib Require Import QArith Qminmax Lqa List String Bool Arith Lia.
Import ListNotations.

Open Scope Q_scope.
Open Scope chaos_scope.

Module Effects.

(** ** Data (lines 4-20) *)

Inductive ParticleType := explosion | sparkle | glitch | powerup | damage | heal.

Record Particle := mkParticle {
  id : Q * nat * Q;              (* `${Date.now()}-${i}-${Math.random()}` *)
  x : Q; y : Q; vx : Q; vy : Q;
  size : Q;
  color : string;
  lifetime : Q;
  ptype : ParticleType
}.

Record ScreenShake := mkShake { shake_id : Q; intensity : Q; duration : Q }.

Record World := mkWorld {
  particles : list Particle;
  screenShake : option ScreenShake;
  lastTime : Q;                  (* lastTimeRef, line 41 *)
  timers : Timers.queue unit;    (* the timeouts of triggerScreenShake *)
  clock : Q;
  rng : nat -> Q;
  rng_pos : nat
}.

Definition initialWorld (t : Q) (rng0 : nat -> Q) : World :=
  mkWorld [] None 0 Timers.empty_queue t rng0 0.

(** ** The animation frame (lines 45-62) *)

(** One particle one frame on (lines 51-57): the position moves with the
    old velocity. *)
Definition moveParticle (deltaTime : Q) (p : Particle) : Particle :=
  mkParticle (id p) (x p + vx p * deltaTime / 16) (y p + vy p * deltaTime / 16) (vx p)
    (vy p + (3 # 10)) (size p) (color p) (lifetime p - deltaTime) (ptype p).

(** [animate(currentTime)]: [lastTimeRef.current || currentTime] reads a
    zero [lastTime] as unset. *)
Definition animate (currentTime : Q) (w : World) : World :=
  let deltaTime := currentTime - (if Qeqb (lastTime w) 0 then currentTime else lastTime w) in
  mkWorld (filter (fun p => 0 <? lifetime p) (map (moveParticle deltaTime) (particles w)))
    (screenShake w) currentTime (timers w) currentTime (rng w) (rng_pos w).

(** ** Creating particles (lines 73-112) *)

Definition random : St World Q :=
  fun w => (rng w (rng_pos w),
            mkWorld (particles w) (screenShake w) (lastTime w) (timers w) (clock w) (rng w) (S (rng_pos w))).

(** The speed by type (lines 84-88): one draw in every branch. *)
Definition speedOf (t : ParticleType) (r : Q) : Q :=
  match t with
  | explosion => 5 + r * 5
  | sparkle => 1 + r * 2
  | glitch => 3 + r * 3
  | powerup => 2 + r * 2
  | damage | heal => 1 + r * 3
  end.

(** The size by type (lines 96-100): a draw for the first three only. *)
Definition drawSize (t : ParticleType) : St World Q :=
  match t with
  | explosion => r <- random ;; st_ret (3 + r * 3)
  | sparkle => r <- random ;; st_ret (2 + r * 2)
  | glitch => r <- random ;; st_ret (4 + r * 4)
  | powerup => st_ret 5
  | damage | heal => st_ret 3
  end.

(** The lifetime by type (lines 102-106). *)
Definition lifetimeOf (t : ParticleType) : Q :=
  match t with
  | explosion => 1000
  | sparkle => 800
  | glitch => 600
  | powerup => 1200
  | damage | heal => 900
  end.

Section Trig.

Variables (cos sin : Q -> Q) (PI : Q).

(** The body of the loop for index [i] (lines 83-108): angle, speed, then
    the fields of the literal in order, [id] first. *)
Definition makeParticle (x0 y0 : Q) (t : ParticleType) (col : string) (count i : nat) : St World Particle :=
  r1 <- random ;;
  let angle := PI * 2 * Qnat i / Qnat count + r1 * (1 # 2) in
  r2 <- random ;;
  let speed := speedOf t r2 in
  w <- st_get ;;
  r3 <- random ;;
  s <- drawSize t ;;
  st_ret (mkParticle (clock w, i, r3) x0 y0 (cos angle * speed)
            (sin angle * speed - (match t with explosion => 2 | _ => 0 end)) s col (lifetimeOf t) t).

(** [createParticle]: the loop, then [setParticles(prev => [...prev,
    ...newParticles])]. *)
Definition createParticle (x0 y0 : Q) (t : ParticleType) (col : string) (count : nat) : St World unit :=
  ps <- st_mapM (makeParticle x0 y0 t col count) (seq 0 count) ;;
  st_modify (fun w => mkWorld (particles w ++ ps) (screenShake w) (lastTime w) (timers w) (clock w) (rng w) (rng_pos w)).

(** ** The context value (lines 114-163) *)

Inductive Call :=
  | Explosion (x0 y0 : Q) (col : option string)
  | Sparkles (x0 y0 : Q) (count : option nat)
  | GlitchEffect (x0 y0 : Q)
  | PowerUpEffect (x0 y0 : Q) (col : string)
  | DamageEffect (x0 y0 : Q)
  | HealEffect (x0 y0 : Q)
  | TriggerScreenShake (i d : Q)
  | ClearEffects.

(** [triggerScreenShake] (lines 138-145). *)
Definition triggerScreenShake (i d : Q) : St World unit :=
  st_modify (fun w => mkWorld (particles w) (Some (mkShake (clock w) i d)) (lastTime w)
                        (Timers.setTimeout (clock w) d tt (timers w)) (clock w) (rng w) (rng_pos w)).

(** [clearEffects] (lines 147-150): the pending timeouts stay. *)
Definition clearEffects : St World unit :=
  st_modify (fun w => mkWorld [] None (lastTime w) (timers w) (clock w) (rng w) (rng_pos w)).

Definition callHandler (c : Call) : St World unit :=
  match c with
  | Explosion x0 y0 col => createParticle x0 y0 explosion (match col with Some s => s | None => "#ff6b35" end) 12
  | Sparkles x0 y0 n => createParticle x0 y0 sparkle "#ffff00" (match n with Some k => k | None => 8%nat end)
  | GlitchEffect x0 y0 => createParticle x0 y0 glitch "#ff00ff" 6
  | PowerUpEffect x0 y0 col => createParticle x0 y0 powerup col 10
  | DamageEffect x0 y0 => createParticle x0 y0 damage "#ff0000" 8
  | HealEffect x0 y0 => createParticle x0 y0 heal "#00ff00" 8
  | TriggerScreenShake i d => triggerScreenShake i d
  | ClearEffects => clearEffects
  end%string.

(** A run of calls in order. *)
Definition callAll (cs : list Call) : St World unit :=
  fold_right (fun c k => callHandler c ;; k) (st_ret tt) cs.

(** The shake's timeout fires: [setScreenShake(null)], at its due time or
    later. *)
Definition fire (u : Timers.timer unit) (w : World) : World :=
  mkWorld (particles w) None (lastTime w) (Timers.clearTimeout (Timers.t_id u) (timers w))
    (Qmax (clock w) (Timers.t_due u)) (rng w) (rng_pos w).

(** The provider's events: a call, a frame, a timeout. *)
Inductive step : World -> World -> Prop :=
  | step_call w c : step w (st_exec (callHandler c) w)
  | step_frame w t : clock w <= t -> step w (animate t w)
  | step_fire w u : Timers.earliest (Timers.pending (timers w)) = Some u -> step w (fire u w).

End Trig.

(** ** The presets (lines 224-260) and the test panel (lines 263-317) *)

Definition gameWin (x0 y0 : Q) : list Call :=
  [Sparkles x0 y0 (Some 20%nat); PowerUpEffect x0 y0 "#00ff00"; TriggerScreenShake 5 300]%string.
Definition gameLose (x0 y0 : Q) : list Call :=
  [Explosion x0 y0 (Some "#ff0000"); DamageEffect x0 y0; TriggerScreenShake 10 500]%string.
Definition powerUpCollect (x0 y0 : Q) (col : string) : list Call :=
  [PowerUpEffect x0 y0 col; Sparkles x0 y0 (Some 12%nat); TriggerScreenShake 3 200].
Definition repairComplete (x0 y0 : Q) : list Call :=
  [HealEffect x0 y0; Sparkles x0 y0 (Some 15%nat); Sparkles (x0 + 50) y0 (Some 15%nat); TriggerScreenShake 4 250].
Definition chaosEvent (x0 y0 : Q) : list Call :=
  [GlitchEffect x0 y0; Explosion (x0 + 30) y0 (Some "#ff00ff"); TriggerScreenShake 8 400]%string.

Definition testButtons : list Call :=
  [Explosion 200 200 None; Sparkles 300 200 None; GlitchEffect 400 200; PowerUpEffect 500 200 "#00ff00";
   DamageEffect 200 300; HealEffect 300 300; TriggerScreenShake 10 500]%string.

(** The particles drawn (lines 172-192): the opacity is the remaining
    lifetime in seconds. *)
Definition opacity (p : Particle) : Q := lifetime p / 1000.

(** ** The invariant *)

(** Every particle alive for at most 1200 ms more, and the last frame's
    time not after the clock. *)
Definition particle_ok (p : Particle) : Prop := 0 < lifetime p <= 1200.

Definition world_wf (w : World) : Prop :=
  Forall particle_ok (particles w) /\ lastTime w <= clock w.

(** What a draw leaves as it was. *)
Definition same_frame (w w' : World) : Prop :=
  particles w' = particles w /\ screenShake w' = screenShake w /\ lastTime w' = lastTime w /\
  timers w' = timers w /\ clock w' = clock w /\ rng w' = rng w.

(** What the loop body promises of the particle of index [i]. *)
Definition made (x0 y0 : Q) (t : ParticleType) (col : string) (i : nat) (p : Particle) : Prop :=
  ptype p = t /\ lifetime p = lifetimeOf t /\ x p = x0 /\ y p = y0 /\ color p = col /\ snd (fst (id p)) = i.

(** The particles the frame-only runs see: frames at non-decreasing
    times. *)
Definition frame_step (w w' : World) : Prop := exists t, clock w <= t /\ w' = animate t w.

(** ** Lemmas *)

Lemma lifetimeOf_range t : 0 < lifetimeOf t <= 1200.
Proof. destruct t; split; vm_compute; try reflexivity; discriminate. Qed.

Lemma makeParticle_spec cos sin PI x0 y0 t col count i w0 :
  st_spec (same_frame w0) (makeParticle cos sin PI x0 y0 t col count i)
    (fun p s => made x0 y0 t col i p /\ same_frame w0 s).
Proof.
  intros s Hs. unfold makeParticle, st_bind, random, st_get, st_ret.
  destruct t; cbn; (split; [repeat split; reflexivity | exact Hs]).
Qed.

Lemma createParticle_eq cos sin PI x0 y0 t col count w :
  exists ps, st_exec (createParticle cos sin PI x0 y0 t col count) w =
    mkWorld (particles w ++ ps) (screenShake w) (lastTime w) (timers w) (clock w) (rng w)
      (rng_pos (snd (st_mapM (makeParticle cos sin PI x0 y0 t col count) (seq 0 count) w))) /\
    Forall2 (made x0 y0 t col) (seq 0 count) ps.
Proof.
  destruct (st_spec_mapM (same_frame w) (made x0 y0 t col) _ (seq 0 count)
              (fun i => makeParticle_spec cos sin PI x0 y0 t col count i w) w) as [H2 (E1 & E2 & E3 & E4 & E5 & E6)];
    [repeat split|].
  unfold createParticle, st_exec, st_bind, st_modify.
  destruct (st_mapM _ _ w) as [ps w'] eqn:E. cbn in *. exists ps. rewrite E1, E2, E3, E4, E5, E6. split; [reflexivity | exact H2].
Qed.

Lemma made_ok x0 y0 t col l ps : Forall2 (made x0 y0 t col) l ps -> Forall particle_ok ps.
Proof.
  induction 1 as [|i p l ps (_ & Hl & _) _ IH]; constructor; [|exact IH].
  unfold particle_ok. rewrite Hl. apply lifetimeOf_range.
Qed.

Lemma createParticle_wf cos sin PI x0 y0 t col count w :
  world_wf w -> world_wf (st_exec (createParticle cos sin PI x0 y0 t col count) w).
Proof.
  intros [Hp Hc]. destruct (createParticle_eq cos sin PI x0 y0 t col count w) as (ps & -> & H).
  split; [apply Forall_app; split; [exact Hp | exact (made_ok _ _ _ _ _ _ H)] | exact Hc].
Qed.

Lemma callHandler_wf cos sin PI c w : world_wf w -> world_wf (st_exec (callHandler cos sin PI c) w).
Proof.
  intro Hw. destruct c; cbn [callHandler]; try now apply createParticle_wf.
  - destruct Hw as [Hp Hc]. split; [exact Hp | exact Hc].
  - split; [constructor | apply Hw].
Qed.

(** A frame never runs time backwards for the particles. *)
Lemma delta_nonneg w t :
  world_wf w -> clock w <= t -> 0 <= t - (if Qeqb (lastTime w) 0 then t else lastTime w).
Proof. intros [_ Hl] Ht. destruct (Qeqb _ _); lra. Qed.

Lemma animate_wf w t : world_wf w -> clock w <= t -> world_wf (animate t w).
Proof.
  intros Hw Ht. pose proof (delta_nonneg w t Hw Ht) as Hd. destruct Hw as [Hp _].
  split; [|cbn; lra]. cbn [particles animate]. apply Forall_forall. intros p Hin.
  apply filter_In in Hin as [Hin Hpos]. apply Qltb_iff in Hpos. apply in_map_iff in Hin as (p0 & <- & Hin0).
  rewrite Forall_forall in Hp. specialize (Hp p0 Hin0). unfold particle_ok in *. cbn in *. lra.
Qed.

Lemma shake_fire_wf u w : world_wf w -> world_wf (fire u w).
Proof. intros [Hp Hc]. split; [exact Hp|]. cbn. pose proof (Q.le_max_l (clock w) (Timers.t_due u)). lra. Qed.

Lemma effects_step_wf cos sin PI w w' : world_wf w -> step cos sin PI w w' -> world_wf w'.
Proof.
  intros Hw Hs. destruct Hs as [w c|w t Ht|w u Hu].
  - now apply callHandler_wf.
  - now apply animate_wf.
  - now apply shake_fire_wf.
Qed.

(** A frame after a frame at a positive time ages every particle by the
    time between the two. *)
Lemma animate_lifetime w t p :
  0 < lastTime w -> In p (particles (animate t w)) ->
  exists p0, In p0 (particles w) /\ lifetime p == lifetime p0 - (t - lastTime w).
Proof.
  intros Hl Hin. cbn [animate particles] in Hin. apply filter_In in Hin as [Hin _].
  apply in_map_iff in Hin as (p0 & <- & Hin0). exists p0. split; [exact Hin0|].
  destruct (Qeqb (lastTime w) 0) eqn:E; [apply Qeqb_iff in E; lra | cbn; reflexivity].
Qed.

(** What the particles of [w] have become after frames only. *)
Definition aged (w v : World) : Prop :=
  world_wf v /\ lastTime w <= lastTime v /\
  Forall (fun p => exists p0, In p0 (particles w) /\ lifetime p == lifetime p0 - (lastTime v - lastTime w))
    (particles v).

Lemma aged_frame w v v' : 0 < lastTime w -> aged w v -> frame_step v v' -> aged w v'.
Proof.
  intros Hl (Hv & Hwv & Ha) (t & Ht & ->). pose proof (proj2 Hv) as Hc.
  split; [now apply animate_wf|]. split; [cbn; lra|].
  apply Forall_forall. intros p Hin.
  destruct (animate_lifetime v t p ltac:(lra) Hin) as (p1 & Hin1 & E1).
  rewrite Forall_forall in Ha. destruct (Ha p1 Hin1) as (p0 & Hin0 & E0).
  exists p0. split; [exact Hin0|]. cbn [lastTime animate]. rewrite E1, E0. ring.
Qed.

Lemma aged_refl w : world_wf w -> aged w w.
Proof.
  intro Hw. split; [exact Hw|]. split; [lra|]. apply Forall_forall. intros p Hin.
  exists p. split; [exact Hin | ring].
Qed.

(** ** Properties *)

(** C26: In every state the provider reaches from its mount, each particle
    on the screen has between 0 and 1200 ms left to live, so its opacity
    [lifetime / 1000] lies in (0, 1.2]; frames, calls and timeouts keep
    this. *)
Theorem reachable_particles_bounded cos sin PI t0 rng0 w :
  0 <= t0 -> star (step cos sin PI) (initialWorld t0 rng0) w ->
  Forall (fun p => 0 < lifetime p <= 1200 /\ 0 < opacity p <= 6 # 5) (particles w).
Proof.
  intros H0 Hs.
  assert (Hw : world_wf w).
  { refine (star_invariant _ world_wf _ _ _ Hs _); [intros a b Ha Hab; exact (effects_step_wf _ _ _ a b Ha Hab)|].
    split; [constructor | cbn; exact H0]. }
  eapply Forall_impl; [|exact (proj1 Hw)]. intros p [Hl Hh]. unfold opacity, Qdiv.
  change (/ 1000) with (1 # 1000). split; [split|split]; lra.
Qed.

(** The power-up particles of a test panel click right after the mount. *)
Definition zero_trig (_ : Q) : Q := 0.
Definition zero_rng (_ : nat) : Q := 0.
Definition powerup_world : World :=
  st_exec (callHandler zero_trig zero_trig 0 (PowerUpEffect 500 200 "#00ff00"%string)) (initialWorld 0 zero_rng).

Lemma reachable_particles_bounded_witness :
  Forall (fun p => 0 < lifetime p <= 1200 /\ 0 < opacity p <= 6 # 5) (particles powerup_world).
Proof.
  apply (reachable_particles_bounded zero_trig zero_trig 0 0 zero_rng); [lra|].
  apply star_one, step_call.
Defined.

(** C30: With no new particle, every particle is gone from the first frame
    that comes 1200 ms after a frame at a positive time: frame by frame,
    the lifetimes drop by the time between the frames. *)
Theorem particles_expire w w' :
  world_wf w -> 0 < lastTime w -> star frame_step w w' -> lastTime w + 1200 <= lastTime w' ->
  particles w' = [].
Proof.
  intros Hw Hl Hs Hend.
  destruct (star_invariant frame_step (aged w) (fun v v' Hv Hvv' => aged_frame w v v' Hl Hv Hvv') w w' Hs
              (aged_refl w Hw)) as ((Hp' & _) & _ & Ha).
  destruct (particles w') as [|p r] eqn:E; [reflexivity|exfalso].
  inversion Hp' as [|? ? [Hpos _] _]; subst. inversion Ha as [|? ? (p0 & Hin0 & E0) _]; subst.
  destruct Hw as [Hw _]. rewrite Forall_forall in Hw. destruct (Hw p0 Hin0) as [_ Hmax]. lra.
Qed.

(** One particle, the previous frame at 1 ms; the next frame at 1300 ms. *)
Definition spark : Particle := mkParticle (0, O, 0) 0 0 1 1 2 "#ffff00"%string 800 sparkle.
Definition one_spark : World := mkWorld [spark] None 1 Timers.empty_queue 1 zero_rng 0.

Lemma one_spark_wf : world_wf one_spark.
Proof. split; [constructor; [unfold particle_ok; cbn; split; [reflexivity | discriminate]|constructor] | cbn; lra]. Qed.

Lemma particles_expire_witness : particles (animate 1300 one_spark) = [].
Proof.
  apply (particles_expire one_spark (animate 1300 one_spark) one_spark_wf); [cbn; lra | | cbn; lra].
  apply star_one. exists 1300. split; [cbn; lra | reflexivity].
Defined.

(** C39: A second screen shake started while the first is on is cut short:
    the first shake's timeout, which nothing cancels, clears the screen
    shake at the first one's end, before the second one's duration has
    passed. *)
Theorem shake_cut_short cos sin PI w i1 d1 i2 d2 t :
  Timers.pending (timers w) = [] -> clock w <= t -> t < clock w + d1 -> clock w + d1 < t + d2 ->
  let w2 := st_exec (triggerScreenShake i2 d2) (animate t (st_exec (triggerScreenShake i1 d1) w)) in
  star (step cos sin PI) w w2 /\ screenShake w2 = Some (mkShake t i2 d2) /\
  exists u, Timers.earliest (Timers.pending (timers w2)) = Some u /\ Timers.t_due u == clock w + d1 /\
    Timers.t_due u < t + d2 /\ screenShake (fire u w2) = None.
Proof.
  intros Hq Ht Hd1 Hd2 w2. split; [|split; [reflexivity|]].
  - apply star_trans with (st_exec (triggerScreenShake i1 d1) w);
      [apply star_one, (step_call cos sin PI w (TriggerScreenShake i1 d1))|].
    apply star_step with (animate t (st_exec (triggerScreenShake i1 d1) w)); [apply step_frame; exact Ht|].
    apply star_one, (step_call cos sin PI _ (TriggerScreenShake i2 d2)).
  - assert (E1 : Qmax 0 d1 == d1) by (apply Q.max_r; lra).
    assert (E2 : Qmax 0 d2 == d2) by (apply Q.max_r; lra).
    assert (B : (clock w + Qmax 0 d1 <=? t + Qmax 0 d2) = true) by (apply Qleb_iff; rewrite E1, E2; lra).
    eexists. unfold w2, triggerScreenShake, st_exec, st_modify, animate, Timers.setTimeout. cbn. rewrite Hq. cbn.
    rewrite B. split; [reflexivity|]. cbn. rewrite E1. split; [reflexivity|]. split; [lra | reflexivity].
Qed.

(** The end of a losing game at 1000 ms and a win at 1300 ms: the win's
    300 ms shake stops at 1500 ms. *)
Lemma shake_cut_short_witness :
  let w2 := st_exec (triggerScreenShake 5 300) (animate 1300 (st_exec (triggerScreenShake 10 500) (initialWorld 1000 zero_rng))) in
  star (step zero_trig zero_trig 0) (initialWorld 1000 zero_rng) w2 /\ screenShake w2 = Some (mkShake 1300 5 300) /\
  exists u, Timers.earliest (Timers.pending (timers w2)) = Some u /\ Timers.t_due u == clock (initialWorld 1000 zero_rng) + 500 /\
    Timers.t_due u < 1300 + 300 /\ screenShake (fire u w2) = None.
Proof.
  apply (shake_cut_short zero_trig zero_trig 0 (initialWorld 1000 zero_rng) 10 500 5 300 1300);
    [reflexivity | cbn; lra | cbn; lra | cbn; lra].
Defined.

(** Gravity is added per frame, not per millisecond: two frames over
    32 ms speed a particle's fall twice as much as one frame over the
    same 32 ms. *)
Lemma gravity_per_frame :
  Forall (fun p => vy p == 13 # 10) (particles (animate 33 one_spark)) /\
  Forall (fun p => vy p == 16 # 10) (particles (animate 33 (animate 17 one_spark))) /\
  List.length (particles (animate 33 one_spark)) = 1%nat /\ List.length (particles (animate 33 (animate 17 one_spark))) = 1%nat.
Proof. vm_compute. repeat constructor. Qed.

(** A power-up particle starts at opacity 1.2, above the CSS maximum. *)
Lemma powerup_opacity :
  List.length (particles powerup_world) = 10%nat /\ Forall (fun p => opacity p == 6 # 5) (particles powerup_world).
Proof. vm_compute. repeat constructor. Qed.

(** The presets add the particles of their calls: 38 for
    [repairComplete], 30 for [gameWin]. *)
Lemma preset_counts :
  List.length (particles (st_exec (callAll zero_trig zero_trig 0 (repairComplete 0 0)) (initialWorld 0 zero_rng))) = 38%nat /\
  List.length (particles (st_exec (callAll zero_trig zero_trig 0 (gameWin 0 0)) (initialWorld 0 zero_rng))) = 30%nat.
Proof. split; vm_compute; reflexivity. Qed.

End Effects.
