(* ===== verification/Sound.v ===== *)
(** * The sound provider of [components/SoundSystem.tsx]

    [SoundProvider] keeps [isMuted] (line 37) and a ref to an
    [AudioContext] created by its mount effect and closed by its cleanup
    (lines 39-49).  [playTone] (lines 51-72) plays one oscillator tone
    unless the provider is muted or has no context; the other functions of
    the context value (lines 74-123) play tones now and schedule more with
    [setTimeout].  A [setTimeout] callback calls the [playTone] of the
    render that scheduled it, so it carries the [isMuted] of that render,
    while the ref is read when it runs.

    The audio graph is the log [played] of the tones started, with their
    start time; a context that is closed plays nothing.  [Math.random()] is
    the stream [rng] read in call order. *)

From S2P Require Import Prelude Timers.
From Stdlib Require Import QArith Qminmax Lqa List String Bool Arith Lia.
Import ListNotations.

Open Scope Q_scope.
Open Scope chaos_scope.

Module Sound.

(** ** Data (lines 3-33) *)

Inductive OscillatorType := sine | square | sawtooth | triangle.

Record SoundEffect := mkEffect {
  name : string; frequency : Q; duration : Q; otype : OscillatorType; volume : option Q
}.

Definition SOUND_EFFECTS : list (string * SoundEffect) := [
  ("click", mkEffect "click" 800 (1 # 10) square (Some (3 # 10)));
  ("success", mkEffect "success" 523 (2 # 10) sine (Some (4 # 10)));
  ("error", mkEffect "error" 200 (3 # 10) sawtooth (Some (3 # 10)));
  ("glitch", mkEffect "glitch" 100 (1 # 10) square (Some (2 # 10)));
  ("powerup", mkEffect "powerup" 440 (3 # 10) sine (Some (5 # 10)));
  ("explosion", mkEffect "explosion" 50 (5 # 10) sawtooth (Some (6 # 10)));
  ("pickup", mkEffect "pickup" 880 (15 # 100) sine (Some (4 # 10)));
  ("levelup", mkEffect "levelup" 261 (4 # 10) triangle (Some (5 # 10)))]%string.

(** [SOUND_EFFECTS[soundName]] on the eight own keys. *)
Definition lookup (k : string) : option SoundEffect :=
  match find (fun e => String.eqb (fst e) k) SOUND_EFFECTS with Some (_, e) => Some e | None => None end.

(** A tone: the arguments of [playTone], the volume defaulted. *)
Record Tone := mkTone { frequencyOf : Q; durationOf : Q; typeOf : OscillatorType; volumeOf : Q }.

Inductive AudioCtx := NoContext | Open | Closed.

Record World := mkWorld {
  isMuted : bool;
  audio : AudioCtx;                       (* audioContextRef.current *)
  timers : Timers.queue (bool * Tone);    (* the isMuted of the scheduling render, the tone *)
  played : list (Q * Tone);
  clock : Q;
  rng : nat -> Q;
  rng_pos : nat
}.

Definition initialWorld (t : Q) (rng0 : nat -> Q) : World :=
  mkWorld false NoContext Timers.empty_queue [] t rng0 0.

(** ** Operations *)

(** The mount effect (line 41) and its cleanup (lines 44-48). *)
Definition mount (w : World) : World :=
  mkWorld (isMuted w) Open (timers w) (played w) (clock w) (rng w) (rng_pos w).
Definition unmount (w : World) : World :=
  match audio w with
  | NoContext => w
  | _ => mkWorld (isMuted w) Closed (timers w) (played w) (clock w) (rng w) (rng_pos w)
  end.

(** [playTone] of a render whose [isMuted] is [muted] (lines 51-72). *)
Definition playTone (muted : bool) (tn : Tone) (w : World) : World :=
  if muted then w else
  match audio w with
  | Open => mkWorld (isMuted w) (audio w) (timers w) (played w ++ [(clock w, tn)]) (clock w) (rng w) (rng_pos w)
  | _ => w
  end.

(** [setTimeout(() => playTone(...), delay)] *)
Definition schedule (delay : Q) (tn : Tone) (w : World) : World :=
  mkWorld (isMuted w) (audio w) (Timers.setTimeout (clock w) delay (isMuted w, tn) (timers w)) (played w)
    (clock w) (rng w) (rng_pos w).

Definition random (w : World) : Q * World :=
  (rng w (rng_pos w), mkWorld (isMuted w) (audio w) (timers w) (played w) (clock w) (rng w) (S (rng_pos w))).

(** [playSound] (lines 74-79). *)
Definition playSound (soundName : string) (w : World) : World :=
  match lookup soundName with
  | Some e => playTone (isMuted w) (mkTone (frequency e) (duration e) (otype e)
                                      (match volume e with Some v => v | None => 3 # 10 end)) w
  | None => w
  end.

(** [playGlitchSound] (lines 81-87). *)
Definition playGlitchSound (w : World) : World :=
  let '(r1, w) := random w in
  let '(r2, w) := random w in
  if (1 # 2) <? r1 then playTone (isMuted w) (mkTone (50 + r2 * 100) (5 # 100) square (2 # 10)) w
  else playTone (isMuted w) (mkTone (100 + r2 * 200) (8 # 100) sawtooth (15 # 100)) w.

(** The three notes of [playSuccessSound] (lines 89-93). *)
Definition tone523 := mkTone 523 (1 # 10) sine (4 # 10).
Definition tone659 := mkTone 659 (1 # 10) sine (4 # 10).
Definition tone784 := mkTone 784 (2 # 10) sine (4 # 10).

Definition playSuccessSound (w : World) : World :=
  let w := playTone (isMuted w) tone523 w in
  let w := schedule 100 tone659 w in
  schedule 200 tone784 w.

(** [playErrorSound] (lines 95-98). *)
Definition playErrorSound (w : World) : World :=
  let w := playTone (isMuted w) (mkTone 300 (2 # 10) sawtooth (3 # 10)) w in
  schedule 150 (mkTone 200 (3 # 10) sawtooth (3 # 10)) w.

(** [playClickSound] (lines 100-102). *)
Definition playClickSound (w : World) : World :=
  playTone (isMuted w) (mkTone 800 (5 # 100) square (3 # 10)) w.

(** [playPowerUpSound] (lines 104-108). *)
Definition playPowerUpSound (w : World) : World :=
  let w := playTone (isMuted w) (mkTone 440 (1 # 10) sine (5 # 10)) w in
  let w := schedule 100 (mkTone 554 (1 # 10) sine (5 # 10)) w in
  schedule 200 (mkTone 659 (1 # 10) sine (5 # 10)) w.

(** [toggleMute] (lines 110-112). *)
Definition toggleMute (w : World) : World :=
  mkWorld (negb (isMuted w)) (audio w) (timers w) (played w) (clock w) (rng w) (rng_pos w).

Inductive Call :=
  | PlaySound (s : string) | PlayGlitchSound | PlaySuccessSound | PlayErrorSound
  | PlayClickSound | PlayPowerUpSound | ToggleMute.

(** The context value (lines 114-123). *)
Definition callHandler (c : Call) (w : World) : World :=
  match c with
  | PlaySound s => playSound s w
  | PlayGlitchSound => playGlitchSound w
  | PlaySuccessSound => playSuccessSound w
  | PlayErrorSound => playErrorSound w
  | PlayClickSound => playClickSound w
  | PlayPowerUpSound => playPowerUpSound w
  | ToggleMute => toggleMute w
  end.

(** A scheduled tone fires, with the [isMuted] it captured. *)
Definition fire (u : Timers.timer (bool * Tone)) (w : World) : World :=
  let w0 := mkWorld (isMuted w) (audio w) (Timers.clearTimeout (Timers.t_id u) (timers w)) (played w)
              (Qmax (clock w) (Timers.t_due u)) (rng w) (rng_pos w) in
  playTone (fst (Timers.t_cb u)) (snd (Timers.t_cb u)) w0.

Inductive step : World -> World -> Prop :=
  | step_mount w : audio w = NoContext -> step w (mount w)
  | step_call w c : step w (callHandler c w)
  | step_fire w u : Timers.earliest (Timers.pending (timers w)) = Some u -> step w (fire u w)
  | step_unmount w : step w (unmount w)
  | step_time w t : clock w <= t ->
      step w (mkWorld (isMuted w) (audio w) (timers w) (played w) t (rng w) (rng_pos w)).

(** ** Properties *)

(** Muted, with every pending tone scheduled while muted. *)
Definition quiet (w : World) : Prop :=
  isMuted w = true /\ Forall (fun u => fst (Timers.t_cb u) = true) (Timers.pending (timers w)).

Lemma playTone_muted tn w : playTone true tn w = w.
Proof. reflexivity. Qed.

Lemma quiet_schedule d tn w : quiet w -> quiet (schedule d tn w) /\ played (schedule d tn w) = played w.
Proof.
  intros [Hm Hq]. split; [|reflexivity]. split; [exact Hm|]. cbn. apply Forall_app. split; [exact Hq|].
  constructor; [cbn; exact Hm | constructor].
Qed.

Lemma quiet_random w : quiet w -> quiet (snd (random w)) /\ played (snd (random w)) = played w.
Proof. intro H. split; [exact H | reflexivity]. Qed.

Lemma quiet_call c w :
  quiet w -> isMuted (callHandler c w) = true -> quiet (callHandler c w) /\ played (callHandler c w) = played w.
Proof.
  intros Hw Hm. pose proof (proj1 Hw) as Hmu.
  destruct c; cbn [callHandler] in *.
  - unfold playSound. destruct (lookup s); [rewrite Hmu; split; [exact Hw | reflexivity] | split; [exact Hw | reflexivity]].
  - unfold playGlitchSound, random. cbn. rewrite Hmu. cbn [playTone]. destruct (_ <? _); (split; [split; [reflexivity | exact (proj2 Hw)] | reflexivity]).
  - unfold playSuccessSound. cbv zeta; rewrite Hmu; cbn [playTone].
    destruct (quiet_schedule 100 tone659 w Hw) as [H1 E1]. destruct (quiet_schedule 200 tone784 _ H1) as [H2 E2].
    split; [exact H2 | congruence].
  - unfold playErrorSound. cbv zeta; rewrite Hmu; cbn [playTone]. apply quiet_schedule, Hw.
  - unfold playClickSound. rewrite Hmu. split; [exact Hw | reflexivity].
  - unfold playPowerUpSound. cbv zeta; rewrite Hmu; cbn [playTone].
    destruct (quiet_schedule 100 (mkTone 554 (1 # 10) sine (5 # 10)) w Hw) as [H1 E1].
    destruct (quiet_schedule 200 (mkTone 659 (1 # 10) sine (5 # 10)) _ H1) as [H2 E2].
    split; [exact H2 | congruence].
  - unfold toggleMute in Hm. cbn in Hm. rewrite Hmu in Hm. discriminate.
Qed.

Lemma quiet_fire u w :
  quiet w -> Timers.earliest (Timers.pending (timers w)) = Some u -> quiet (fire u w) /\ played (fire u w) = played w.
Proof.
  intros [Hm Hq] He. destruct (Timers.earliest_spec _ _ He) as [Hin _].
  rewrite Forall_forall in Hq. unfold fire. rewrite (Hq u Hin), playTone_muted.
  split; [|reflexivity]. split; [exact Hm|]. cbn. apply Forall_forall. intros v Hv.
  apply Timers.In_remove_timer in Hv as [Hv _]. exact (Hq v Hv).
Qed.

(** While the provider stays muted and every pending tone was scheduled
    while muted, it plays nothing. *)
Lemma quiet_step w w' :
  quiet w -> step w w' -> isMuted w' = true -> quiet w' /\ played w' = played w.
Proof.
  intros Hw Hs Hm. destruct Hs as [w Ha|w c|w u Hu|w|w t Ht].
  - split; [exact Hw | reflexivity].
  - now apply quiet_call.
  - now apply quiet_fire.
  - unfold unmount. destruct (audio w); split; (exact Hw || reflexivity).
  - split; [exact Hw | reflexivity].
Qed.

(** C40: Muting does not silence a melody already started: after
    [playSuccessSound] and then [toggleMute], the two scheduled notes
    still play, because each timeout calls the [playTone] of the unmuted
    render that scheduled it. *)
Theorem muted_melody_plays w :
  isMuted w = false -> audio w = Open -> Timers.pending (timers w) = [] ->
  let w1 := toggleMute (playSuccessSound w) in
  isMuted w1 = true /\
  exists u1 u2, Timers.earliest (Timers.pending (timers w1)) = Some u1 /\
    Timers.earliest (Timers.pending (timers (fire u1 w1))) = Some u2 /\
    isMuted (fire u2 (fire u1 w1)) = true /\
    map snd (played (fire u2 (fire u1 w1))) = map snd (played w) ++ [tone523; tone659; tone784].
Proof.
  destruct w as [m a [pend nid] pl c r n]; cbn. intros -> -> ->. split; [reflexivity|].
  assert (B : (c + 100 <=? c + 200) = true) by (apply Qleb_iff; lra).
  exists (Timers.mkTimer nid (c + 100) (false, tone659)), (Timers.mkTimer (S nid) (c + 200) (false, tone784)).
  cbn -[Nat.eqb]. rewrite B. split; [reflexivity|].
  rewrite Nat.eqb_refl. assert (E : (S nid =? nid)%nat = false) by (apply Nat.eqb_neq; lia). rewrite E. cbn -[Nat.eqb].
  split; [reflexivity|]. split; [reflexivity|]. rewrite !map_app, <- !app_assoc. reflexivity.
Qed.

(** A page that plays the success melody at 1000 ms with a fresh context. *)
Definition zero_rng (_ : nat) : Q := 0.
Definition opened : World := mount (initialWorld 1000 zero_rng).

Lemma muted_melody_plays_witness :
  let w1 := toggleMute (playSuccessSound opened) in
  isMuted w1 = true /\
  exists u1 u2, Timers.earliest (Timers.pending (timers w1)) = Some u1 /\
    Timers.earliest (Timers.pending (timers (fire u1 w1))) = Some u2 /\
    isMuted (fire u2 (fire u1 w1)) = true /\
    map snd (played (fire u2 (fire u1 w1))) = map snd (played opened) ++ [tone523; tone659; tone784].
Proof. apply (muted_melody_plays opened); reflexivity. Defined.

End Sound.
