(* ===== verification/Gravity.v ===== *)
(** * The floating buttons of [components/ZeroGravityButtons.tsx]

    [ZeroGravityButtons] keeps [floatingButtons] (line 18).  Its first
    effect (lines 27-59), keyed on [[stability, isChaosMode]], starts a
    500 ms spawning interval while the chaos mode is on or the stability is
    below 40, and empties the list otherwise; each spawn drops the buttons
    older than 8 s and adds one while fewer than eight remain, with
    probability 0.7.  Its second effect (lines 62-95) moves every button
    each 50 ms, bouncing off the side walls, with a random drift and a
    slight gravity.  A click on a button removes it (lines 135-138).

    The spawning interval is its due time [spawnDue], when it runs; a
    change of [stability] or [isChaosMode] clears it and re-runs the
    effect.  [Math.random()] is the stream [rng] read in call order (the
    [&&] of line 36 draws only with fewer than eight buttons),
    [Date.now()] the clock, [window.innerWidth] and [window.innerHeight]
    fixed fields.  The component is mounted nowhere in the application. *)

From S2P Require Import Prelude Stability.
From Stdlib Require Import QArith Qround Lqa List String Bool Arith Lia.
Import ListNotations.

Open Scope Q_scope.
Open Scope chaos_scope.

Module Gravity.

(** ** Data (lines 5-25) *)

Record FloatingButton := mkButton {
  id : Q;                 (* Date.now().toString(), read back by parseInt *)
  text : string; x : Q; y : Q; vx : Q; vy : Q; rotation : Q; color : string
}.

Definition buttonTexts : list string :=
  ["WRECK IT"; "GLITCH"; "CHAOS"; "RALPH"; "FIX IT";
   "SUGAR RUSH"; "HERO DUTY"; "VANELLOPE"; "FELIX"; "TURBO"]%string.

Definition colors : list string := ["#ff006e"; "#00f0ff"; "#ffff00"; "#39ff14"; "#ff40bf"; "#bf40bf"]%string.

Record World := mkWorld {
  floatingButtons : list FloatingButton;
  spawnDue : option Q;        (* the spawning interval, when running *)
  moveDue : Q;                (* the moving interval *)
  stability : Q;
  isChaosMode : bool;
  innerWidth : Q;
  innerHeight : Q;
  clock : Q;
  rng : nat -> Q;
  rng_pos : nat
}.

(** ** Operations *)

Definition random (w : World) : Q * World :=
  (rng w (rng_pos w), mkWorld (floatingButtons w) (spawnDue w) (moveDue w) (stability w) (isChaosMode w)
                        (innerWidth w) (innerHeight w) (clock w) (rng w) (S (rng_pos w))).

Definition setButtons (l : list FloatingButton) (w : World) : World :=
  mkWorld l (spawnDue w) (moveDue w) (stability w) (isChaosMode w) (innerWidth w) (innerHeight w)
    (clock w) (rng w) (rng_pos w).

(** [arr[Math.floor(Math.random() * arr.length)]], the empty string out of
    range (never reached by draws in [[0, 1)]). *)
Definition pick (l : list string) (r : Q) : string :=
  nth (Z.to_nat (Qfloor (r * inject_Z (Z.of_nat (List.length l))))) l EmptyString.

(** The test of the effect (line 29). *)
Definition spawning (w : World) : bool := isChaosMode w || (stability w <? 40).

(** The spawning interval's updater (lines 31-51). *)
Definition spawnTick (w : World) : World :=
  let filtered := filter (fun b => clock w - id b <? 8000) (floatingButtons w) in
  if Nat.ltb (List.length filtered) 8 then
    let '(r, w) := random w in
    if (3 # 10) <? r then
      let '(rt, w) := random w in
      let '(rx, w) := random w in
      let '(rvx, w) := random w in
      let '(rvy, w) := random w in
      let '(rr, w) := random w in
      let '(rc, w) := random w in
      let b := mkButton (clock w) (pick buttonTexts rt) (rx * innerWidth w) (innerHeight w + 50)
                 ((rvx - (1 # 2)) * 2) (- rvy * 3 - 1) (rr * 360) (pick colors rc) in
      setButtons (filtered ++ [b]) w
    else setButtons filtered w
  else setButtons filtered w.

(** One button one move on (lines 64-90): the wall test, then two
    draws. *)
Definition moveButton (b : FloatingButton) (w : World) : FloatingButton * World :=
  let newX := x b + vx b in
  let newY := y b + vy b in
  let '(newVx, newX) :=
    if (newX <=? 0) || (innerWidth w - 100 <=? newX) then
      (- vx b * (4 # 5), if newX <=? 0 then 0 else innerWidth w - 100)
    else (vx b, newX) in
  let '(r1, w) := random w in
  let '(r2, w) := random w in
  (mkButton (id b) (text b) newX newY (newVx + (r1 - (1 # 2)) * (1 # 5))
     (vy b + (r2 - (1 # 2)) * (1 # 10) + (1 # 20)) (rotation b + 2) (color b), w).

Fixpoint moveAll (l : list FloatingButton) (w : World) : list FloatingButton * World :=
  match l with
  | [] => ([], w)
  | b :: r => let '(b', w) := moveButton b w in let '(r', w) := moveAll r w in (b' :: r', w)
  end.

(** The moving interval fires (lines 63-92). *)
Definition moveTick (w : World) : World :=
  let '(l, w) := moveAll (floatingButtons w) w in setButtons l w.

(** The first effect, run at the mount and whenever [stability] or
    [isChaosMode] changed: the cleanup clears the old interval. *)
Definition spawnEffect (w : World) : World :=
  if spawning w then
    mkWorld (floatingButtons w) (Some (clock w + 500)) (moveDue w) (stability w) (isChaosMode w)
      (innerWidth w) (innerHeight w) (clock w) (rng w) (rng_pos w)
  else
    mkWorld [] None (moveDue w) (stability w) (isChaosMode w) (innerWidth w) (innerHeight w) (clock w) (rng w) (rng_pos w).

(** The provider's values become [s] and [c] at time [t]. *)
Definition rerender (s : Q) (c : bool) (t : Q) (w : World) : World :=
  let w' := mkWorld (floatingButtons w) (spawnDue w) (moveDue w) s c (innerWidth w) (innerHeight w) t (rng w) (rng_pos w) in
  if Qeqb s (stability w) && Bool.eqb c (isChaosMode w) then w' else spawnEffect w'.

(** The mount: both effects run. *)
Definition mount (s : Q) (c : bool) (iw ih t : Q) (rng0 : nat -> Q) : World :=
  spawnEffect (mkWorld [] None (t + 50) s c iw ih t rng0 0).

(** A click on a button (line 137). *)
Definition clickButton (bid : Q) (w : World) : World :=
  setButtons (filter (fun b => negb (Qeqb (id b) bid)) (floatingButtons w)) w.

Definition at_time (t : Q) (w : World) : World :=
  mkWorld (floatingButtons w) (spawnDue w) (moveDue w) (stability w) (isChaosMode w) (innerWidth w) (innerHeight w)
    t (rng w) (rng_pos w).

(** The two intervals fire in due order; the rest of the application
    changes the provider's values in between. *)
Inductive step : World -> World -> Prop :=
  | step_spawn w d : spawnDue w = Some d -> d <= moveDue w ->
      step w (let w := at_time d w in
              spawnTick (mkWorld (floatingButtons w) (Some (d + 500)) (moveDue w) (stability w) (isChaosMode w)
                           (innerWidth w) (innerHeight w) (clock w) (rng w) (rng_pos w)))
  | step_move w : (forall d, spawnDue w = Some d -> moveDue w <= d) ->
      step w (let w := at_time (moveDue w) w in
              moveTick (mkWorld (floatingButtons w) (spawnDue w) (moveDue w + 50) (stability w) (isChaosMode w)
                          (innerWidth w) (innerHeight w) (clock w) (rng w) (rng_pos w)))
  | step_click w bid : step w (clickButton bid w)
  | step_env w s c t : clock w <= t -> t <= moveDue w -> (forall d, spawnDue w = Some d -> t <= d) ->
      step w (rerender s c t w).

(** ** Properties *)

Lemma moveAll_length l w : List.length (fst (moveAll l w)) = List.length l.
Proof.
  revert w. induction l as [|b r IH]; intro w; [reflexivity|]. cbn.
  destruct (moveButton b w) as [b' w1]. specialize (IH w1). destruct (moveAll r w1) as [r' w2]. cbn in *. now f_equal.
Qed.

Lemma spawnTick_length w :
  (List.length (floatingButtons w) <= 8)%nat -> (List.length (floatingButtons (spawnTick w)) <= 8)%nat.
Proof.
  intro H. unfold spawnTick.
  pose proof (filter_length_le (fun b => clock w - id b <? 8000) (floatingButtons w)) as Hf.
  destruct (Nat.ltb_spec (List.length (filter (fun b => clock w - id b <? 8000) (floatingButtons w))) 8) as [Hlt|Hge].
  - cbn. destruct (_ <? _); cbn; [rewrite length_app; cbn|]; lia.
  - cbn. lia.
Qed.

Lemma spawnEffect_length w :
  (List.length (floatingButtons w) <= 8)%nat -> (List.length (floatingButtons (spawnEffect w)) <= 8)%nat.
Proof. unfold spawnEffect. destruct (spawning w); cbn; lia. Qed.

Lemma gravity_step_length w w' :
  (List.length (floatingButtons w) <= 8)%nat -> step w w' -> (List.length (floatingButtons w') <= 8)%nat.
Proof.
  intros H Hs. destruct Hs as [w d Hd Hm|w Hm|w bid|w s c t Ht Hm Hd].
  - now apply spawnTick_length.
  - cbv zeta. unfold moveTick. cbn [floatingButtons at_time].
    pose proof (moveAll_length (floatingButtons w)
      (mkWorld (floatingButtons w) (spawnDue w) (moveDue w + 50) (stability w) (isChaosMode w)
         (innerWidth w) (innerHeight w) (moveDue w) (rng w) (rng_pos w))) as E.
    destruct (moveAll _ _) as [l w1]. cbn in *. lia.
  - cbn. pose proof (filter_length_le (fun b => negb (Qeqb (id b) bid)) (floatingButtons w)). lia.
  - unfold rerender. destruct (_ && _); [exact H | now apply spawnEffect_length].
Qed.
(** At most eight buttons float in every run from the mount. *)
Theorem reachable_floating_bounded s c iw ih t rng0 w :
  star step (mount s c iw ih t rng0) w -> (List.length (floatingButtons w) <= 8)%nat.
Proof.
  intro Hs. refine (star_invariant step (fun v => (List.length (floatingButtons v) <= 8)%nat) _ _ _ Hs _).
  - intros a b Ha Hab. exact (gravity_step_length a b Ha Hab).
  - unfold mount, spawnEffect. destruct (spawning _); cbn; lia.
Qed.

(** Calm: no spawning interval and no button. *)
Definition calm (w : World) : Prop := spawnDue w = None /\ floatingButtons w = [].

(** When the stability rises to 40 or more with the chaos mode off, the
    effect empties the list and stops spawning. *)
Lemma rerender_calms s c t w :
  c = false -> 40 <= s -> (Qeqb s (stability w) && Bool.eqb c (isChaosMode w)) = false -> calm (rerender s c t w).
Proof.
  intros -> Hs Hch. unfold rerender. rewrite Hch. unfold spawnEffect, spawning. cbn.
  replace (s <? 40) with false by (symmetry; apply Qltb_false; exact Hs). split; reflexivity.
Qed.

(** A calm page stays calm under the intervals and clicks. *)
Lemma calm_step w w' : calm w -> step w w' -> (forall s c t, w' <> rerender s c t w) -> calm w'.
Proof.
  intros [Hd Hb] Hs Hne. destruct Hs as [w d Hd'|w Hm|w bid|w s c t Ht Hm Hd'].
  - congruence.
  - cbv zeta. unfold moveTick. cbn [floatingButtons at_time]. rewrite Hb. cbn. split; [exact Hd | reflexivity].
  - unfold clickButton, setButtons. cbn. rewrite Hb. split; [exact Hd | reflexivity].
  - exfalso. exact (Hne s c t eq_refl).
Qed.

End Gravity.
