(* ===== verification/Glitch.v ===== *)
(** * The glitch overlay of [components/ContinuousGlitch.tsx]

    [ContinuousGlitch] keeps [glitchElements] (line 7).  Its effect (lines
    9-29), keyed on [[stability, isChaosMode]], starts an interval of 50 ms
    in chaos mode and 200 ms otherwise; while the chaos mode of its closure
    is on or the stability of its closure is below 60, each tick draws a
    glitch type, appends the glitch to the last ten kept, and schedules its
    removal 100 to 500 ms later.  The overlay (lines 31-160) draws each
    glitch by type, a flash in chaos mode and a chromatic aberration when
    [glitchIntensity] exceeds 0.5.

    The interval is the record [Interval] with the values its closure
    captured and its due time; the removal timeouts are on the queue of
    [Timers], carrying the id to remove.  [Math.random()] is the stream
    [rng] read in call order, [Date.now()] the clock.  The component is
    mounted nowhere in the application. *)

From S2P Require Import Prelude Timers.
From Stdlib Require Import QArith Qround Qminmax Lqa List Bool Arith Lia.
Import ListNotations.

Open Scope Q_scope.
Open Scope chaos_scope.

Module Glitch.

(** ** Data (lines 7-17) *)

Inductive GlitchType := scanline | pixel_block | color_shift | text_corruption | static.

Definition glitchTypes : list GlitchType := [scanline; pixel_block; color_shift; text_corruption; static].

Record Element := mkElement { id : Q; gtype : GlitchType }.

Record Interval := mkInterval { capStability : Q; capChaos : bool; due : Q }.

Record World := mkWorld {
  glitchElements : list Element;
  interval : Interval;
  timers : Timers.queue Q;     (* the removal timeouts, with the id they remove *)
  stability : Q;
  isChaosMode : bool;
  glitchIntensity : Q;
  clock : Q;
  rng : nat -> Q;
  rng_pos : nat
}.

(** ** Operations *)

Definition period (chaos : bool) : Q := if chaos then 50 else 200.

(** [glitchTypes[Math.floor(Math.random() * glitchTypes.length)]]; an
    index out of range (never reached by draws in [[0, 1)]) reads the last
    type here, [undefined] in the code. *)
Definition pickType (r : Q) : GlitchType :=
  nth (Z.to_nat (Qfloor (r * 5))) glitchTypes static.

(** [prev.slice(-10)] *)
Definition lastTen (l : list Element) : list Element := skipn (List.length l - 10) l.

(** The interval's callback (lines 11-25) with its closure's values. *)
Definition tick (w : World) : World :=
  let i := interval w in
  if capChaos i || (capStability i <? 60) then
    let g := mkElement (clock w) (pickType (rng w (rng_pos w))) in
    let delay := 100 + rng w (S (rng_pos w)) * 400 in
    mkWorld (lastTen (glitchElements w) ++ [g]) i (Timers.setTimeout (clock w) delay (id g) (timers w))
      (stability w) (isChaosMode w) (glitchIntensity w) (clock w) (rng w) (S (S (rng_pos w)))
  else w.

(** The interval fires at its due time and re-arms one period later. *)
Definition fireTick (w : World) : World :=
  let i := interval w in
  tick (mkWorld (glitchElements w) (mkInterval (capStability i) (capChaos i) (due i + period (capChaos i)))
          (timers w) (stability w) (isChaosMode w) (glitchIntensity w) (due i) (rng w) (rng_pos w)).

(** A removal timeout fires (line 23). *)
Definition fireRemoval (u : Timers.timer Q) (w : World) : World :=
  mkWorld (filter (fun g => negb (Qeqb (id g) (Timers.t_cb u))) (glitchElements w)) (interval w)
    (Timers.clearTimeout (Timers.t_id u) (timers w)) (stability w) (isChaosMode w) (glitchIntensity w)
    (Qmax (clock w) (Timers.t_due u)) (rng w) (rng_pos w).

(** The provider's values change at time [t]; when [stability] or
    [isChaosMode] changed, the cleanup clears the interval and the effect
    starts a new one.  The removal timeouts stay. *)
Definition rerender (s : Q) (c : bool) (gi : Q) (t : Q) (w : World) : World :=
  let i := if Qeqb s (stability w) && Bool.eqb c (isChaosMode w) then interval w
           else mkInterval s c (t + period c) in
  mkWorld (glitchElements w) i (timers w) s c gi t (rng w) (rng_pos w).

Definition mount (s : Q) (c : bool) (gi t : Q) (rng0 : nat -> Q) : World :=
  mkWorld [] (mkInterval s c (t + period c)) Timers.empty_queue s c gi t rng0 0.

(** The interval and the removal timeouts fire in due order; the
    provider's values change in between. *)
Inductive step : World -> World -> Prop :=
  | step_tick w :
      (forall u, Timers.earliest (Timers.pending (timers w)) = Some u -> due (interval w) <= Timers.t_due u) ->
      step w (fireTick w)
  | step_removal w u : Timers.earliest (Timers.pending (timers w)) = Some u -> Timers.t_due u <= due (interval w) ->
      step w (fireRemoval u w)
  | step_env w s c gi t : clock w <= t -> t <= due (interval w) -> step w (rerender s c gi t w).

(** ** The overlay (lines 31-160) *)

Record View := mkView {
  scanlines : nat; pixelBlocks : nat; colorShifts : nat; textCorruptions : nat; statics : nat;
  flash : bool;          (* isChaosMode, line 117 *)
  aberration : bool      (* glitchIntensity > 0.5, line 131 *)
}.

Definition glitchType_eqb (a b : GlitchType) : bool :=
  match a, b with
  | scanline, scanline | pixel_block, pixel_block | color_shift, color_shift
  | text_corruption, text_corruption | static, static => true
  | _, _ => false
  end.

Definition count (t : GlitchType) (l : list Element) : nat :=
  List.length (filter (fun g => glitchType_eqb (gtype g) t) l).

Definition view (w : World) : View :=
  let l := glitchElements w in
  mkView (count scanline l) (count pixel_block l) (count color_shift l) (count text_corruption l) (count static l)
    (isChaosMode w) ((1 # 2) <? glitchIntensity w).

(** ** Properties *)

Lemma lastTen_length l : (List.length (lastTen l) <= 10)%nat.
Proof. unfold lastTen. rewrite length_skipn. lia. Qed.

Lemma tick_length w :
  (List.length (glitchElements w) <= 11)%nat -> (List.length (glitchElements (tick w)) <= 11)%nat.
Proof.
  intro H. unfold tick. destruct (_ || _); [|exact H].
  cbn [glitchElements]. rewrite length_app. pose proof (lastTen_length (glitchElements w)). cbn. lia.
Qed.

Lemma glitch_step_length w w' :
  (List.length (glitchElements w) <= 11)%nat -> step w w' -> (List.length (glitchElements w') <= 11)%nat.
Proof.
  intros H Hs. destruct Hs as [w Hu|w u Hu Hd|w s c gi t Ht Hd].
  - now apply tick_length.
  - cbn. pose proof (filter_length_le (fun g => negb (Qeqb (id g) (Timers.t_cb u))) (glitchElements w)). lia.
  - exact H.
Qed.

(** At most eleven glitches are on the screen in every run from the
    mount: the ten kept by [slice(-10)] and the new one. *)
Theorem reachable_glitches_bounded s c gi t rng0 w :
  star step (mount s c gi t rng0) w -> (List.length (glitchElements w) <= 11)%nat.
Proof.
  intro Hs. refine (star_invariant step (fun v => (List.length (glitchElements v) <= 11)%nat) _ _ _ Hs _).
  - intros a b Ha Hab. exact (glitch_step_length a b Ha Hab).
  - cbn. lia.
Qed.

End Glitch.
