(* ===== verification/SaveMenu.v ===== *)
(** * The save/load menu of [components/GameSaveSystem.tsx]

    [SaveLoadMenu] (lines 273-513) shows the three slots of the
    [GameSaveProvider] of [Saves] and keeps [selectedSlot], [playerName],
    [importData] and the two modal flags (lines 275-279).  An empty slot
    offers NEW GAME; a slot with a save offers LOAD (or CURRENT), EXPORT,
    IMPORT and DELETE (lines 325-430).  The new-game modal creates a save
    under the trimmed name (lines 281-287, 434-471); the import modal
    imports the trimmed text into the selected slot, or alerts (lines
    289-298, 474-509).

    The world is the menu's state with the provider of [Saves], the
    clipboard and the alerts shown.  A button is an event only when it is
    on the screen: the slot buttons while no modal covers them, START and
    IMPORT only when enabled, a name of at most 20 characters
    ([maxLength={20}], line 448; strings are byte strings here).  The
    textarea's content is [Blank] when its [trim()] is empty, otherwise
    the text of [Saves] it holds.  [confirm] is the user's answer, given
    with the DELETE event.  The menu is mounted nowhere in the
    application. *)

From S2P Require Import Prelude Saves Cheat.
From Stdlib Require Import QArith List String Ascii Bool Arith Lia.
Import ListNotations.

Open Scope Q_scope.

Module SaveMenu.

Import Saves.Saves.

(** ** Data *)

Inductive Paste := Blank | Pasted (t : SaveText).

Record Menu := mkMenu {
  selectedSlot : option nat;
  playerName : string;
  importData : Paste;
  showNewGame : bool;
  showImport : bool
}.

Definition initialMenu : Menu := mkMenu None EmptyString Blank false false.

Record World := mkWorld {
  menu : Menu;
  provider : Provider;
  clipboard : option SaveText;
  alerts : list string;
  closed : bool
}.

Definition with_menu (m : Menu) (w : World) : World :=
  mkWorld m (provider w) (clipboard w) (alerts w) (closed w).
Definition with_provider (p : Provider) (w : World) : World :=
  mkWorld (menu w) p (clipboard w) (alerts w) (closed w).

(** [currentSave?.id === slot.save?.id] on two saves. *)
Definition id_eqb (a b : SaveId) : bool :=
  match a, b with
  | GeneratedId n r, GeneratedId n' r' => Qeq_bool n n' && Qeq_bool r r'
  | TextId s, TextId s' => String.eqb s s'
  | _, _ => false
  end.

Definition isCurrent (p : Provider) (v : GameSave) : bool :=
  match currentSave p with Some c => id_eqb (id c) (id v) | None => false end.

(** ** The slot buttons (lines 325-430) *)

Inductive Button := NewGameB | LoadB | CurrentB | ExportB | ImportB | DeleteB.

Definition slotButtons (p : Provider) (s : SaveSlot) : list Button :=
  if isEmpty s then [NewGameB]
  else match save s with
       | Some v => (if isCurrent p v then [CurrentB] else [LoadB]) ++ [ExportB; ImportB; DeleteB]
       | None => []
       end.

(** The buttons of slot [n] on the screen. *)
Definition buttonsOf (n : nat) (p : Provider) : list Button :=
  flat_map (fun s => if Nat.eqb (slot s) n then slotButtons p s else []) (saveSlots p).

(** ** Events *)

Inductive Event :=
  | ClickNewGame (n : nat) | ClickLoad (n : nat) | ClickExport (n : nat) | ClickImport (n : nat)
  | ClickDelete (n : nat) (confirmed : bool)
  | TypeName (v : string) | Start | CancelNew
  | TypeImport (d : Paste) | ConfirmImport | CancelImport
  | Close.

(** [handleNewGame] (lines 281-287). *)
Definition handleNewGame (n : nat) (w : World) : World :=
  let m := menu w in
  let name := Cheat.Cheat.trim (playerName m) in
  if String.eqb name EmptyString then w
  else mkWorld (mkMenu (selectedSlot m) EmptyString (importData m) false (showImport m))
         (user_call (CallCreateNewSave n name) (provider w)) (clipboard w) (alerts w) (closed w).

(** [handleImport] (lines 289-298). *)
Definition handleImport (n : nat) (w : World) : World :=
  let m := menu w in
  match importData m with
  | Blank => w
  | Pasted t =>
      let '(ok, p) := importSave t n (provider w) in
      if ok then mkWorld (mkMenu (selectedSlot m) (playerName m) Blank (showNewGame m) false) p (clipboard w) (alerts w) (closed w)
      else mkWorld m p (clipboard w) (alerts w ++ ["Invalid save data!"]) (closed w)
  end%string.

Definition handle (e : Event) (w : World) : World :=
  let m := menu w in
  match e with
  | ClickNewGame n => with_menu (mkMenu (Some n) (playerName m) (importData m) true (showImport m)) w
  | ClickLoad n => with_provider (user_call (CallLoadSave n) (provider w)) w
  | ClickExport n =>
      mkWorld m (provider w) (Some (exportSave n (provider w))) (alerts w ++ ["Save data copied to clipboard!"]) (closed w)
  | ClickImport n => with_menu (mkMenu (Some n) (playerName m) (importData m) (showNewGame m) true) w
  | ClickDelete n b => if b then with_provider (user_call (CallDeleteSave n) (provider w)) w else w
  | TypeName v => with_menu (mkMenu (selectedSlot m) v (importData m) (showNewGame m) (showImport m)) w
  | Start => match selectedSlot m with Some n => handleNewGame n w | None => w end
  | CancelNew => with_menu (mkMenu None EmptyString (importData m) false (showImport m)) w
  | TypeImport d => with_menu (mkMenu (selectedSlot m) (playerName m) d (showNewGame m) (showImport m)) w
  | ConfirmImport => match selectedSlot m with Some n => handleImport n w | None => w end
  | CancelImport => with_menu (mkMenu None (playerName m) Blank (showNewGame m) false) w
  | Close => mkWorld m (provider w) (clipboard w) (alerts w) true
  end%string.

Definition button_eqb (a b : Button) : bool :=
  match a, b with
  | NewGameB, NewGameB | LoadB, LoadB | CurrentB, CurrentB | ExportB, ExportB
  | ImportB, ImportB | DeleteB, DeleteB => true
  | _, _ => false
  end.

Definition shown (b : Button) (n : nat) (w : World) : bool :=
  negb (showNewGame (menu w)) && negb (showImport (menu w)) && existsb (button_eqb b) (buttonsOf n (provider w)).

(** Whether the event's control is on the screen and enabled. *)
Definition available (e : Event) (w : World) : bool :=
  let m := menu w in
  negb (closed w) &&
  match e with
  | ClickNewGame n => shown NewGameB n w
  | ClickLoad n => shown LoadB n w
  | ClickExport n => shown ExportB n w
  | ClickImport n => shown ImportB n w
  | ClickDelete n _ => shown DeleteB n w
  | TypeName v => showNewGame m && Nat.leb (String.length v) 20
  | Start => showNewGame m && negb (String.eqb (Cheat.Cheat.trim (playerName m)) EmptyString)
  | CancelNew => showNewGame m
  | TypeImport _ => showImport m
  | ConfirmImport => showImport m && match importData m with Blank => false | Pasted _ => true end
  | CancelImport => showImport m
  | Close => negb (showNewGame m) && negb (showImport m)
  end.

Inductive step : World -> World -> Prop :=
  | step_event w e : available e w = true -> step w (handle e w).

(** The menu opened over a provider. *)
Definition open (p : Provider) : World := mkWorld initialMenu p None [] false.

(** ** The invariant *)

(** A modal is open over a slot that offers its button, never both, and
    the name typed is at most 20 characters long. *)
Definition menu_ok (w : World) : Prop :=
  let m := menu w in
  (showNewGame m = true -> exists n, selectedSlot m = Some n /\ In NewGameB (buttonsOf n (provider w))) /\
  (showImport m = true -> exists n, selectedSlot m = Some n /\ In ImportB (buttonsOf n (provider w))) /\
  (showNewGame m = false \/ showImport m = false) /\
  (String.length (playerName m) <= 20)%nat.

(** ** Lemmas *)

Lemma button_eqb_eq a b : button_eqb a b = true <-> a = b.
Proof. destruct a, b; cbn; split; intro H; congruence. Qed.

Lemma shown_in b n w : shown b n w = true -> In b (buttonsOf n (provider w)) /\
  showNewGame (menu w) = false /\ showImport (menu w) = false.
Proof.
  unfold shown. rewrite !andb_true_iff, !negb_true_iff, existsb_exists. intros [[H1 H2] (b' & Hin & E)].
  apply button_eqb_eq in E. subst b'. auto.
Qed.

Lemma length_string_of_list_ascii l : String.length (string_of_list_ascii l) = List.length l.
Proof. induction l as [|a r IH]; cbn; [reflexivity | now rewrite IH]. Qed.

Lemma length_list_ascii_of_string s : List.length (list_ascii_of_string s) = String.length s.
Proof. induction s as [|a r IH]; cbn; [reflexivity | now rewrite IH]. Qed.

Lemma drop_spaces_length l : (List.length (Cheat.Cheat.drop_spaces l) <= List.length l)%nat.
Proof. induction l as [|a r IH]; cbn; [lia|]. destruct (Cheat.Cheat.is_space a); cbn; lia. Qed.

(** [trim()] never lengthens a string. *)
Lemma trim_length s : (String.length (Cheat.Cheat.trim s) <= String.length s)%nat.
Proof.
  unfold Cheat.Cheat.trim. rewrite length_string_of_list_ascii, length_rev.
  pose proof (drop_spaces_length (rev (Cheat.Cheat.drop_spaces (list_ascii_of_string s)))) as H1.
  rewrite length_rev in H1. pose proof (drop_spaces_length (list_ascii_of_string s)) as H2.
  rewrite length_list_ascii_of_string in H2. lia.
Qed.

Lemma nonempty_length s : String.eqb s EmptyString = false -> (1 <= String.length s)%nat.
Proof. destruct s; cbn; [discriminate | lia]. Qed.

(** A failed import leaves the provider as it was. *)
Lemma importSave_false t n p : fst (importSave t n p) = false -> snd (importSave t n p) = p.
Proof.
  unfold importSave. destruct t as [v|]; [|reflexivity].
  destruct (valid_save v); [discriminate | reflexivity].
Qed.

Lemma createNewSave_current n name p :
  currentSave (user_call (CallCreateNewSave n name) p) = Some (createDefaultSave name (clock p) (rng p (rng_pos p))).
Proof. reflexivity. Qed.

Lemma menu_open_ok p : menu_ok (open p).
Proof. split; [intro H; discriminate|]. split; [intro H; discriminate|]. split; [left; reflexivity | cbn; lia]. Qed.

Lemma menu_step_ok w w' : menu_ok w -> step w w' -> menu_ok w'.
Proof.
  intros Hw Hs0. destruct Hs0 as [w0 e Ha]. pose proof Hw as Hw0. destruct Hw as (Hn & Hi & Hx & Hl). unfold available in Ha. apply andb_true_iff in Ha as [_ Ha].
  (* a slot button under no modal leaves the menu's flags down *)
  assert (Hgrid : forall b n, shown b n w0 = true -> forall w1, menu w1 = menu w0 -> menu_ok w1).
  { intros b n Hs w1 Em. apply shown_in in Hs as (_ & H1 & H2).
    refine (conj _ (conj _ (conj _ _))); rewrite Em; [congruence | congruence | left; exact H1 | exact Hl]. }
  destruct e; cbn [handle].
  - pose proof (shown_in _ _ _ Ha) as (Hb & H1 & H2).
    refine (conj _ (conj _ (conj _ _))); cbn; [intros _; exists n; auto | congruence | right; exact H2 | exact Hl].
  - apply (Hgrid _ _ Ha); reflexivity.
  - apply (Hgrid _ _ Ha); reflexivity.
  - pose proof (shown_in _ _ _ Ha) as (Hb & H1 & H2).
    refine (conj _ (conj _ (conj _ _))); cbn; [congruence | intros _; exists n; auto | left; exact H1 | exact Hl].
  - destruct confirmed; [apply (Hgrid _ _ Ha); reflexivity|]. apply (Hgrid _ _ Ha); reflexivity.
  - apply andb_true_iff in Ha as [_ Hv]. apply Nat.leb_le in Hv.
    exact (conj Hn (conj Hi (conj Hx Hv))).
  - apply andb_true_iff in Ha as [Hs _].
    destruct (selectedSlot (menu w0)) as [n|]; [|destruct (Hn Hs) as (? & ? & _); discriminate]. unfold handleNewGame.
    destruct (String.eqb _ _); [exact Hw0|].
    destruct Hx as [Hx|Hx]; [congruence|].
    refine (conj _ (conj _ (conj _ _))); cbn; [discriminate | congruence | left; reflexivity | lia].
  - refine (conj _ (conj _ (conj _ _))); cbn; [discriminate | intro H; destruct Hx as [Hx|Hx]; congruence | left; reflexivity | lia].
  - exact Hw0.
  - apply andb_true_iff in Ha as [Hs _].
    destruct (selectedSlot (menu w0)) as [n|]; [|destruct (Hi Hs) as (? & ? & _); discriminate]. unfold handleImport.
    destruct (importData (menu w0)) as [|t]; [exact Hw0|].
    pose proof (importSave_false t n (provider w0)) as Hf.
    destruct (importSave t n (provider w0)) as [ok p]. cbn in Hf.
    destruct ok.
    + destruct Hx as [Hx|Hx]; [|congruence].
      refine (conj _ (conj _ (conj _ _))); cbn; [congruence | discriminate | left; exact Hx | exact Hl].
    + rewrite (Hf eq_refl). exact Hw0.
  - refine (conj _ (conj _ (conj _ _))); cbn; [intro H; destruct Hx as [Hx|Hx]; congruence | discriminate | right; reflexivity | exact Hl].
  - exact Hw0.
Qed.

Lemma menu_star_ok p w : star step (open p) w -> menu_ok w.
Proof. intro Hs. exact (star_invariant step menu_ok menu_step_ok _ _ Hs (menu_open_ok p)). Qed.

(** ** Properties *)

(** C28: Every save that NEW GAME creates from the menu is current and has a
    player name of 1 to 20 characters: START is enabled only for a name
    that does not trim to nothing, and the field holds at most 20. *)
Theorem menu_names_bounded p w :
  star step (open p) w -> available Start w = true ->
  exists v, currentSave (provider (handle Start w)) = Some v /\
    (1 <= String.length (Saves.Saves.playerName v) <= 20)%nat.
Proof.
  intros Hs Ha. destruct (menu_star_ok p w Hs) as (Hn & _ & _ & Hl).
  unfold available in Ha. apply andb_true_iff in Ha as [_ Ha]. apply andb_true_iff in Ha as [Hg Ht].
  apply negb_true_iff in Ht. destruct (Hn Hg) as (n & Es & _). cbn [handle]. rewrite Es. unfold handleNewGame.
  rewrite Ht. eexists. split; [apply createNewSave_current|]. cbn.
  pose proof (trim_length (playerName (menu w))). pose proof (nonempty_length _ Ht). lia.
Qed.

(** A name typed with padding, in an empty slot of a fresh provider. *)
Definition no_items (_ : nat) : Item GameSave := Missing.
Definition fresh_provider : Provider := Saves.Saves.mount 0 (fun _ => 0) no_items Missing.
Definition named : World :=
  handle (TypeName "  RALPH ") (handle (ClickNewGame 1) (open fresh_provider)).

Lemma named_steps : star step (open fresh_provider) named.
Proof.
  eapply star_step; [apply (step_event _ (ClickNewGame 1)); vm_compute; reflexivity|].
  apply star_one, (step_event _ (TypeName "  RALPH ")). vm_compute. reflexivity.
Qed.

Lemma menu_names_bounded_witness :
  available Start named = true /\
  exists v, currentSave (provider (handle Start named)) = Some v /\
    (1 <= String.length (Saves.Saves.playerName v) <= 20)%nat.
Proof.
  assert (Ha : available Start named = true) by (vm_compute; reflexivity).
  split; [exact Ha | exact (menu_names_bounded fresh_provider named named_steps Ha)].
Defined.

(** The import modal opens only over a slot that holds a save: the menu
    has no way to import into an empty slot, and an import always
    replaces a save. *)
Lemma import_over_save p w :
  star step (open p) w -> showImport (menu w) = true ->
  exists n v, selectedSlot (menu w) = Some n /\ In (mkSlot n (Some v) false) (saveSlots (provider w)).
Proof.
  intros Hs Hi. destruct (menu_star_ok p w Hs) as (_ & Hm & _ & _). destruct (Hm Hi) as (n & Es & Hin).
  unfold buttonsOf in Hin. apply in_flat_map in Hin as (sl & Hsl & Hb).
  destruct (Nat.eqb_spec (slot sl) n) as [E|]; [|destruct Hb].
  unfold slotButtons in Hb. destruct sl as [k [v|] e]; cbn in *.
  - destruct e; [destruct Hb as [H|[]]; discriminate|]. exists n, v. subst k. auto.
  - destruct e; [destruct Hb as [H|[]]; discriminate | destruct Hb].
Qed.

End SaveMenu.
