(* ===== verification/Boot.v ===== *)
(** * The boot sequence of [screens/BootScreen.tsx]

    [BootScreen] (route [/boot]) shows the eighteen [bootMessages]
    (lines 10-29) in a [TerminalWindow] and a progress bar.  Its effect
    (lines 36-56) starts a 200 ms interval whose [setProgress] updater adds
    [100 / 18] until the value reaches 100, then sets 100, clears the
    interval and schedules [navigate("/snake")] 500 ms later; a timeout
    shows the warning panel at [(18 / 2) * 200 = 1800] ms.  The cleanup
    clears the interval and the warning timeout, not the navigation.
    [TerminalWindow] ([components/TerminalWindow.tsx] lines 11-23) types
    one line every 100 ms: its effect on [currentIndex] arms a timeout that
    appends [lines[currentIndex]] and advances the index, while lines
    remain.

    The screen has no input: its run is the firing of its timers in the
    order of [Timers.earliest].  Time is counted from the mount, which no
    code of the screen observes otherwise.  The child's effect runs before
    the parent's at the mount, so the terminal's first timeout is created
    first.  The updater runs at the [setProgress] call (the component has
    no pending update when the interval fires), so its [clearInterval] and
    [setTimeout] take effect in the callback.  Progress is rational: in
    doubles the eighteenth sum is 100.00000000000001, also at least 100,
    so the interval stops at the same (nineteenth) firing. *)

From S2P Require Import Prelude Timers.
From Stdlib Require Import QArith Qround Lqa List String Bool Arith Lia.
Import ListNotations.

Open Scope Q_scope.
Open Scope chaos_scope.

Module Boot.

(** ** Data *)

Definition bootMessages : list string := [
  "Initializing ARCADE MULTIVERSE OS...";
  "Loading pixel core systems...";
  "Detecting connected universes...";
  "Fix-It Felix Jr. universe [ONLINE]";
  "Sugar Rush universe [ONLINE]";
  "Hero's Duty universe [ONLINE]";
  "Loading character databases...";
  "Ralph: Status [ACTIVE]";
  "Vanellope: Status [ACTIVE]";
  "Felix: Status [ACTIVE]";
  "Scanning for glitches...";
  "⚠ WARNING: Minor instability detected";
  "⚠ WARNING: Glitch anomalies in sector 7";
  "Stabilizing reality matrices...";
  "Power-up systems [ONLINE]";
  "Game mechanics [ONLINE]";
  "Leaderboard synchronization [COMPLETE]";
  "System ready. Transferring to universe selection..."]%string.

(** The callbacks of the screen's timers. *)
Inductive Callback :=
  | TypeLine        (* TerminalWindow's timeout, lines 17-20 *)
  | ProgressTick    (* the progress interval, lines 37-46 *)
  | ShowWarning     (* the warning timeout, lines 49-51 *)
  | NavigateSnake.  (* () => navigate("/snake"), line 41 *)

(** The state of [BootScreen] with its child [TerminalWindow]. *)
Record Screen := mkScreen {
  progress : Q;
  showWarning : bool;
  displayedLines : list string;
  currentIndex : nat
}.

Record World := mkWorld {
  screen : option Screen;
  route : string;
  clock : Q;
  timers : Timers.queue Callback;
  progressInterval : option nat;   (* the id of the interval's pending firing *)
  warningTimeout : option nat
}.

Definition with_screen s w := mkWorld (Some s) (route w) (clock w) (timers w) (progressInterval w) (warningTimeout w).
Definition with_timers q w := mkWorld (screen w) (route w) (clock w) q (progressInterval w) (warningTimeout w).

(** ** The mount (TerminalWindow's effect, then BootScreen's) *)

(** TerminalWindow's effect for the index [i]: a timeout while lines
    remain. *)
Definition terminalEffect (i : nat) (now : Q) (q : Timers.queue Callback) : Timers.queue Callback :=
  if (i <? List.length bootMessages)%nat then Timers.setTimeout now 100 TypeLine q else q.

Definition mount : World :=
  let q0 := terminalEffect 0 0 Timers.empty_queue in
  let ip := Timers.next_id q0 in
  let q1 := Timers.setTimeout 0 200 ProgressTick q0 in
  let iw := Timers.next_id q1 in
  let q2 := Timers.setTimeout 0 (Qnat (List.length bootMessages) / 2 * 200) ShowWarning q1 in
  mkWorld (Some (mkScreen 0 false [] 0)) "/boot" 0 q2 (Some ip) (Some iw).

(** ** Firing a timer *)

(** The interval's callback: the [setProgress] updater, with its
    [clearInterval] and [setTimeout], then the interval re-arms itself
    one period later unless it was cleared. *)
Definition progressTick (t : Q) (s : Screen) (w : World) : World :=
  if 100 <=? progress s then
    mkWorld (Some (mkScreen 100 (showWarning s) (displayedLines s) (currentIndex s))) (route w) t
      (Timers.setTimeout t 500 NavigateSnake (timers w)) None (warningTimeout w)
  else
    let q := Timers.setTimeout t 200 ProgressTick (timers w) in
    mkWorld (Some (mkScreen (progress s + 100 / Qnat (List.length bootMessages)) (showWarning s)
                            (displayedLines s) (currentIndex s)))
      (route w) t q (Some (Timers.next_id (timers w))) (warningTimeout w).

(** [navigate("/snake")]: the screen unmounts; its cleanup clears the
    interval and the warning timeout, and TerminalWindow's clears its
    pending timeout. *)
Definition unmount (path : string) (t : Q) (w : World) : World :=
  let clear o q := match o with Some i => Timers.clearTimeout i q | None => q end in
  let q := clear (progressInterval w) (clear (warningTimeout w) (timers w)) in
  mkWorld None path t (Timers.mkQueue (filter (fun u => match Timers.t_cb u with TypeLine => false | _ => true end)
                                              (Timers.pending q)) (Timers.next_id q)) None None.

Definition fire_timer (u : Timers.timer Callback) (w : World) : World :=
  let t := Timers.t_due u in
  let w0 := with_timers (Timers.clearTimeout (Timers.t_id u) (timers w)) w in
  match Timers.t_cb u, screen w0 with
  | TypeLine, Some s =>
      let i := currentIndex s in
      let s' := mkScreen (progress s) (showWarning s) (displayedLines s ++ [nth i bootMessages EmptyString]) (S i) in
      mkWorld (Some s') (route w0) t (terminalEffect (S i) t (timers w0)) (progressInterval w0) (warningTimeout w0)
  | ProgressTick, Some s => progressTick t s w0
  | ShowWarning, Some s =>
      mkWorld (Some (mkScreen (progress s) true (displayedLines s) (currentIndex s))) (route w0) t (timers w0)
        (progressInterval w0) None
  | NavigateSnake, _ => unmount "/snake" t w0
  | _, None => mkWorld None (route w0) t (timers w0) (progressInterval w0) (warningTimeout w0)
  end.

(** The next timer fires. *)
Inductive step : World -> World -> Prop :=
  | step_fire w u : Timers.earliest (Timers.pending (timers w)) = Some u -> step w (fire_timer u w).

(** The run: fire the earliest timer while one is pending, within [fuel]
    firings; [None] when the fuel runs out first. *)
Fixpoint run (fuel : nat) (w : World) : option World :=
  match Timers.earliest (Timers.pending (timers w)) with
  | None => Some w
  | Some u => match fuel with O => None | S k => run k (fire_timer u w) end
  end.

(** [n] firings of the earliest timer. *)
Fixpoint fire_n (n : nat) (w : World) : World :=
  match n with
  | O => w
  | S k => match Timers.earliest (Timers.pending (timers w)) with None => w | Some u => fire_n k (fire_timer u w) end
  end.

(** ** The run is the only behaviour *)

Lemma step_det w w' : step w w' -> w' = fire_n 1 w.
Proof. intros [w0 u Hu]. cbn. now rewrite Hu. Qed.

Lemma fire_n_S_r n w : fire_n (S n) w = fire_n 1 (fire_n n w).
Proof.
  revert w. induction n as [|n IH]; intro w; [cbn; now destruct (Timers.earliest _)|].
  change (fire_n (S (S n)) w) with
    (match Timers.earliest (Timers.pending (timers w)) with None => w | Some u => fire_n (S n) (fire_timer u w) end).
  change (fire_n (S n) w) with
    (match Timers.earliest (Timers.pending (timers w)) with None => w | Some u => fire_n n (fire_timer u w) end).
  destruct (Timers.earliest _) eqn:E; [apply IH|]. cbn. now rewrite E.
Qed.

(** The states reachable from the mount are the states of the run. *)
Lemma star_fire_n w : star step mount w -> exists n, w = fire_n n mount.
Proof.
  intro Hs. enough (forall a b, star step a b -> forall n, a = fire_n n mount -> exists m, b = fire_n m mount)
    by exact (H _ _ Hs 0%nat eq_refl).
  induction 1 as [a|a b c Hab _ IH]; intros n ->; [now exists n|].
  apply (IH (S n)). rewrite (step_det _ _ Hab). exact (eq_sym (fire_n_S_r n mount)).
Qed.

(** After 40 firings no timer is pending: the run has ended. *)
Lemma fire_n_done : Timers.pending (timers (fire_n 40 mount)) = [].
Proof. vm_compute. reflexivity. Qed.

Lemma fire_n_idle w : Timers.pending (timers w) = [] -> fire_n 1 w = w.
Proof. intro H. cbn [fire_n]. now rewrite H. Qed.

Lemma fire_n_stable n : fire_n (n + 40) mount = fire_n 40 mount.
Proof.
  induction n as [|n IH]; [reflexivity|]. change (S n + 40)%nat with (S (n + 40)).
  rewrite fire_n_S_r, IH. apply fire_n_idle, fire_n_done.
Qed.

(** Every reachable state is one of the first 41 states of the run. *)
Lemma reachable_bounded w : star step mount w -> exists n, (n <= 40)%nat /\ w = fire_n n mount.
Proof.
  intro Hs. destruct (star_fire_n w Hs) as [n ->]. destruct (Nat.le_gt_cases n 40) as [Hn|Hn]; [now exists n|].
  exists 40%nat. split; [lia|]. replace n with ((n - 40) + 40)%nat by lia. apply fire_n_stable.
Qed.

(** A property checked on each of the 41 states holds on every reachable
    state. *)
Lemma check_reachable (P : World -> Prop) (b : World -> bool) :
  (forall w, b w = true -> P w) -> forallb (fun n => b (fire_n n mount)) (seq 0 41) = true ->
  forall w, star step mount w -> P w.
Proof.
  intros Hb Hc w Hs. destruct (reachable_bounded w Hs) as (n & Hn & ->). apply Hb.
  rewrite forallb_forall in Hc. apply Hc, in_seq. lia.
Qed.

Lemma star_fire_forward n w : star step w (fire_n n w).
Proof.
  revert w. induction n as [|n IH]; intro w; [apply star_refl|]. cbn [fire_n].
  destruct (Timers.earliest _) as [u|] eqn:E; [|apply star_refl].
  apply star_step with (fire_timer u w); [exact (step_fire w u E) | apply IH].
Qed.

(** The screen's state as a check. *)
Definition screen_ok_b (t : Q) (s : Screen) : bool :=
  (0 <=? progress s) && (progress s <=? 100) && Nat.leb (currentIndex s) 18 &&
  (if list_eq_dec string_dec (displayedLines s) (firstn (currentIndex s) bootMessages) then true else false) &&
  Bool.eqb (showWarning s) (1800 <=? t).

Lemma screen_ok_b_spec t s :
  screen_ok_b t s = true ->
  (0 <= progress s <= 100 /\ (currentIndex s <= 18)%nat /\
   displayedLines s = firstn (currentIndex s) bootMessages) /\ showWarning s = (1800 <=? t).
Proof.
  unfold screen_ok_b. intro H. repeat match type of H with (_ && _) = true => apply andb_prop in H as [H ?] end.
  match goal with Hl : (if ?c then _ else _) = true |- _ => destruct c; [|discriminate] end.
  apply Qleb_iff in H. repeat match goal with Hq : Qleb _ _ = true |- _ => apply Qleb_iff in Hq end.
  match goal with Hn : Nat.leb _ _ = true |- _ => apply Nat.leb_le in Hn end.
  match goal with Hb : Bool.eqb _ _ = true |- _ => apply eqb_prop in Hb end.
  repeat split; assumption.
Qed.

(** ** Properties *)

(** At every moment of the boot sequence the progress lies in
    [0, 100], the terminal shows exactly the first [currentIndex] of the
    eighteen messages, and the warning panel is shown exactly from 1800 ms
    on. *)
Theorem boot_screen_consistent w s :
  star step mount w -> screen w = Some s ->
  (0 <= progress s <= 100 /\ (currentIndex s <= 18)%nat /\
   displayedLines s = firstn (currentIndex s) bootMessages) /\ showWarning s = (1800 <=? clock w).
Proof.
  intros Hs Es.
  refine (check_reachable
    (fun w => forall s, screen w = Some s ->
       (0 <= progress s <= 100 /\ (currentIndex s <= 18)%nat /\
        displayedLines s = firstn (currentIndex s) bootMessages) /\ showWarning s = (1800 <=? clock w))
    (fun w => match screen w with Some s => screen_ok_b (clock w) s | None => true end) _ _ w Hs s Es);
    [| vm_compute; reflexivity].
  intros v Hv s' Es'. rewrite Es' in Hv. exact (screen_ok_b_spec _ _ Hv).
Qed.

Lemma boot_screen_consistent_witness :
  star step mount (fire_n 10 mount) /\ screen (fire_n 10 mount) <> None /\
  option_map showWarning (screen (fire_n 10 mount)) = Some (1800 <=? clock (fire_n 10 mount)).
Proof.
  pose proof (star_fire_forward 10 mount) as Hs. split; [exact Hs|].
  destruct (screen (fire_n 10 mount)) as [s|] eqn:Es; [|vm_compute in Es; discriminate].
  split; [discriminate|]. cbn. f_equal. exact (proj2 (boot_screen_consistent _ s Hs Es)).
Defined.

(** C29: The boot sequence always ends, and ends at the snake screen: the
    run reaches a state with no pending timer, and every such reachable
    state has left for [/snake] at 4300 ms (the nineteenth firing of the
    interval at 3800 ms, plus 500 ms), with the screen unmounted. *)
Theorem boot_ends_at_snake :
  star step mount (fire_n 40 mount) /\ Timers.pending (timers (fire_n 40 mount)) = [] /\
  forall w, star step mount w -> Timers.pending (timers w) = [] ->
    route w = "/snake"%string /\ clock w == 4300 /\ screen w = None.
Proof.
  split; [apply star_fire_forward | split; [exact fire_n_done|]].
  refine (check_reachable
    (fun w => Timers.pending (timers w) = [] -> route w = "/snake"%string /\ clock w == 4300 /\ screen w = None)
    (fun w => match Timers.pending (timers w) with
                                     | [] => String.eqb (route w) "/snake" && Qeq_bool (clock w) 4300 &&
                                             match screen w with None => true | Some _ => false end
                                     | _ => true end) _ _); [|vm_compute; reflexivity].
  intros w Hb Hp. rewrite Hp in Hb. apply andb_prop in Hb as [Hb Hn]. apply andb_prop in Hb as [Hr Hc].
  split; [now apply String.eqb_eq | split; [now apply Qeq_bool_iff|]]. now destruct (screen w).
Qed.

Lemma boot_ends_at_snake_witness : route (fire_n 40 mount) = "/snake"%string.
Proof.
  destruct boot_ends_at_snake as (Hs & Hp & H). exact (proj1 (H _ Hs Hp)).
Defined.

End Boot.
